(* ===== verification/_CoqProject ===== *)
-Q . S2P
Prelude.v
BSize.v
LinkedList.v
BPending.v
OrderedTree.v
AvlHeap.v
AvlTree.v
BAVL.v
CAvl.v
PacketProto.v
ChunkBuffer.v
InetProto.v
BAddr.v
DevicePackets.v
TcpClient.v
SocksClient.v
UdpGw.v
ConnTrees.v
FairQueue.v
SocksUdpGw.v
Reactor.v
ParseNumber.v
IPAddr.v
AddrText.v
Options.v
FlowInterfaces.v
ProtoFlow.v
SendChain.v
DeviceRead.v
BConnection.v
BConnector.v
Main.v
