(* ===== verification/Prelude.v ===== *)
(** * WSocksDroid: the tun2socks program, modelled and verified

    The native program of the app is [badvpn/tun2socks]: it reads IP packets
    from the device of a VPN and carries their TCP connections over SOCKS and
    their UDP datagrams over a udpgw server that is itself reached over SOCKS.
    (File names are relative to [src/app/src/main/jni/badvpn/].)

    A packet of the device is handled by [tun2socks/tun2socks.c]: a DNS packet
    for the gateway is redirected and comes back the same way; another UDP
    packet goes to the udpgw client; the rest is given to lwIP, whose TCP
    connections become [struct tcp_client]s, each with a [BSocksClient].  The
    udpgw client multiplexes flows over one stream: connections, a fair queue,
    the framing of PacketProto, and packet buffers.

    ** Files

    - this file: record update, C integers, byte buffers with checked loads and
      stores, the monad of handlers with its rules ([wp], [ok], [keeps]) and
      their tactics ([hstep], [ok_step], [solve_keeps], [zlia]); the hint
      databases [len] and [keeps]; [misc/compare.h];
    - [BSize]: [misc/bsize.h], sizes with overflow detection, and [BRealloc];
    - [LinkedList]: [structure/LinkedList1.h], at the level of pointers;
    - [BPending]: [base/BPending.c] with [structure/SLinkedList_impl.h], also
      at that level; the class [JobQueue] is what it promises to the reactor;
    - [OrderedTree]: sorted sequences with elements inserted and removed, which
      stand for the trees of timers and of flows in the models;
    - [AvlHeap], [AvlTree], [BAVL], [CAvl]: [structure/BAVL.h],
      [structure/CAvl_impl.h] and [structure/SAvl_impl.h] at the level of
      pointers: linked nodes, the rebalancing both kinds share, and each kind;
      [AvlOps] with its laws is what [AvlTree] asks of the operations that differ;
    - [ConnTrees]: the trees of connections, with their comparison functions;
    - [Reactor]: [system/BReactor_badvpn.c], [system/BTime.h]: the event loop;
    - [PacketProto]: [protocol/packetproto.h], [flow/PacketProtoEncoder.c],
      [flow/PacketProtoDecoder.c];
    - [ChunkBuffer]: [structure/ChunkBuffer2.h], [flow/PacketBuffer.c];
    - [InetProto]: [misc/ipv4_proto.h], [misc/ipv6_proto.h], [misc/udp_proto.h],
      [misc/byteorder.h];
    - [BAddr]: [system/BAddr.h], socket addresses and their two comparisons;
    - [DevicePackets]: the packet paths of [tun2socks/tun2socks.c];
    - [TcpClient]: [struct tcp_client] of [tun2socks/tun2socks.c], from
      [listener_accept_func] to [client_dealloc];
    - [SocksClient]: [socksclient/BSocksClient.c], the handshake;
    - [UdpGw]: [udpgw_client/UdpGwClient.c], [protocol/udpgw_proto.h];
    - [FairQueue]: [flow/PacketPassFairQueue.c];
    - [SocksUdpGw]: [tun2socks/SocksUdpGwClient.c], around the model of [UdpGw];
    - [ParseNumber]: [misc/parse_number.h], [misc/find_char.h] and the number
      conversions of [sprintf]: numbers as text;
    - [IPAddr]: [misc/ipaddr.h], [misc/ipaddr6.h]: IP addresses as text;
    - [AddrText]: socket addresses as text, from [system/BAddr.h];
    - [Options]: [parse_arguments] and [process_arguments] of
      [tun2socks/tun2socks.c], with [misc/loglevel.h], [misc/read_file.h];
    - [FlowInterfaces]: the interfaces between flow components,
      [flow/PacketPassInterface.c], [flow/PacketRecvInterface.c] and those for
      streams, with their states and jobs, over any component that has them;
    - [ProtoFlow]: [flow/PacketProtoFlow.c], [flow/BufferWriter.c]: writer, encoder
      and packet buffer, on the one memory they share;
    - [SendChain]: [flow/PacketStreamSender.c], [flow/PacketPassConnector.c],
      [flowextra/PacketPassInactivityMonitor.c], composed as the udpgw client does;
    - [DeviceRead]: [tuntap/BTap.c], [flow/SinglePacketBuffer.c]: from the
      descriptor of the device to where [DevicePackets] begins;
    - [BConnection], [BConnector]: [system/BConnection_unix.c], connections with
      their sending and receiving sides, and listeners and connectors;
    - [Main]: [main] of [tun2socks/tun2socks.c] and the handlers that begin and
      end the work of the event loop, [system/BSignal.c], [system/BUnixSignal.c],
      [system/BNetwork.c].

    ** How code is modelled

    A struct is a record with its field names, a function a definition with its
    name.  Functions that change state are handlers: from a state to [None],
    when an [ASSERT] of the source fails, a buffer is accessed out of its
    bounds or a pointer does not point to a live object, or to a result, a
    state and the calls made.  So a theorem that says that a handler returns
    something says that none of these happens.  The program is built with
    [NDEBUG], which removes the assertions: the theorems say that nothing is
    lost by that.

    Each component is run by its events: the calls of its user and the
    callbacks of the components below it.  [event_ok] says which events may come
    in a state, as the interface documents (one operation at a time, completion
    only of what was started), and [run] executes a sequence of them.  The
    safety theorems hold for every such sequence.  What the environment answers
    (whether an allocation succeeds, whether a buffer has room, what lwIP
    returns) is an argument of the event.

    Values have their width where it matters: [uint16_t] fields are written by
    [le_split], times of the fair queue are reduced modulo [2 ^ 64], [size_t]
    has 32 or 64 bits and what depends on it is proved for both.  The target is
    little-endian ([BADVPN_LITTLE_ENDIAN]); fields in network order are numbers
    of the host and converted by [ntoh16] and [ntoh32].

    ** What is shown

    - PacketProto: encoder and decoder are inverse to each other whatever the
      pieces the stream is cut into; a length above the MTU is reported and
      the decoder starts afresh; nothing is read or written out of its buffer.
    - PacketBuffer: at the level of the bytes of its circular buffer, a queue
      that is first-in first-out, has the capacity promised, and drains.
    - Headers: which packets [ipv4_check] accepts; what the checksums compute.
    - Device: the DNS relay redirects queries and gives the answers the addresses
      that its table has for their port; which packets it relays well; which UDP
      packets are submitted, and those that come back; all packets are accepted
      and disposed of once, by whoever takes them over.
    - Lists and jobs: the pointer operations refine lists and a stack of jobs.
    - Event loop: what a turn does and in which order; timers are never early
      and are called once for each time they are set; descriptors that were
      removed are not called; [BReactor_Synchronize] runs what is above its mark.
    - Addresses: the order is total and decides equality, so that trees ordered
      by it are finite maps.
    - TCP clients: for every order of events of the three sides, no fault, both
      streams carried in order and unaltered, no stall, no data lost at the end.
    - SOCKS client: what is sent and reported is a function of the bytes the
      server sent, that of RFC 1928 and 1929; at most one error, the last
      event; every handshake ends.
    - udpgw client: a refinement of a table of flows and conids with
      least-recently-used replacement, in which the conids are a bijection;
      answers reach the flow that has their conid.
    - Fair queue: fairness, absence of starvation, delivery, and safety through
      the renormalisation of its times.
    - udpgw client over SOCKS: it always recovers, and keeps its flows.
    - Text: the parsers of numbers and IP addresses accept exactly a grammar,
      given apart from the code, and read nothing outside of the text; what is
      printed is read back.
    - Balanced trees: every allowed sequence of operations gives the answers of
      an ordered set and leaves a search tree with right parents and balance
      factors; a search looks at no more than [2 * log2 (n + 1)] nodes; the trees
      of the components are the finite maps and the sorted sequences that stand
      for them in their models.
    - From a flow to the server: packets written are handed to the fair queue
      encoded, in order and unchanged, in the memory they were written in; what
      leaves the queue is sent whole and in order through connections that come
      and go; both go on as long as there is something to do.
    - From the device: frames reach the handler in order, each once, each failure
      of [read] is reported, and the descriptor is waited for exactly when there is
      nothing else to do.
    - Connections: what is sent and received is what the contract of the
      interface says, with the end of the stream and the failures reported as they
      occur; nothing stalls; each descriptor has one owner, through every failure,
      is closed once, and is registered only while its owner needs it.
    - Command line: [parse_arguments] is a fold over the options, and accepts a
      line when each option is right and the combination is; after that
      [process_arguments] has no fault and yields addresses of the right kind.
    - The program: from the command line through the event loop to its end, with
      every failure in between but that of the socket on which the descriptor of
      the device arrives (it leaves the signals registered), no assertion fails and
      what was acquired is released in reverse order; only the descriptor of the
      device, which nothing closes, and nodes left in the table of the DNS relay
      remain; lwIP is set up before it is used; a signal ends the event loop.

    ** Fuel

    [fold_carries] has 3 turns for the carries of a checksum, proved to be
    enough for every packet; the closing functions of a TCP client call each
    other at most 3 deep; [find_unused_conid] has one turn for each conid and
    one more; [UdpGwClient_Free] one for each connection; the loops of [Main]
      one for each client or signal; the loops of the reactor
    one for each timer of the tree or limit of the list, and one for each call of
    [epoll_wait]; the loops of the trees one for each node and one more; the IPv6 parser one for each character and one more, the IPv4
    parser one for each field; [parse_arguments] one for each argument; [read_file]
    one for each byte and one more; the printers of numbers have the digits of
    the widest number.  In each case the fuel is part of the theorems: running
    out is a fault, or a result that is not the one stated.

    ** Not modelled

    - logging, [DebugObject] and the registration of callbacks, which keep no
      state the code reads;
    - the system: what [read], [write], [connect], [accept], [epoll_wait] and the
      clock answer are arguments of the events; the components see the reactor as
      the order of their callbacks;
    - the ways to receive signals that are not built; of connections, Unix-domain
      sockets, pipes and [BConnection_SetSendBuffer], which the program does not
      use; [system/BDatagram_unix.c], which only [ANDROID_UDP] calls;
    - between the models of two neighbours, the interface is seen as the events
      that its contract allows, in every order; [ProtoFlow], [SendChain],
      [DeviceRead] and [BConnection] have the interfaces and their jobs as well;
    - lwIP, pdnsd, libancillary, generated parsers: third-party code;
    - the counts, sums and keys that the trees can be built with, and are not;
    - the branches for [ANDROID_UDP], for Windows and for big-endian targets,
      which are not built; the other programs of BadVPN;
    - the datagram a new udpgw flow sends first is kept by the code as a pointer
      to the user's buffer until a job runs: the model keeps its bytes;
    - of the command line: the resolver, the files and the generated names
      of the log channels are parameters;
    - in [Main], what the TCP clients and the udpgw client do between their
      creation and their end, and what the DNS relay does but for its table, which
      is in their own models; and what follows when the socket for the descriptor
      of the device cannot be made, where the code frees the reactor with the
      signals still registered: the model ends there, at the assertion of
      [BReactor_Free];
    - the parsers of [misc/] for strings in several pieces ([misc/cstring.h]),
      which the program does not call.

    ** What is left

    The composition of the models of the components into one of the program:
    [Main] has the device as a part of its state, the other components rest on
    their events being what their neighbours' theorems allow. *)
From stdpp Require Export base tactics numbers list option gmap strings.
From coqutil Require Export Byte Word.LittleEndianList.
From Stdlib Require Export ZArith Lia.
From Stdlib Require Strings.Byte.
#[global] Open Scope Z_scope.

(** ** Record update

    [x <| f := v |>] is [x] with field [f] set to [v].  A record declares its
    eta-expansion once (an [Eta] instance) and the setters are computed. *)

Class Eta (R : Type) := eta : R -> R.
Class Update {R E : Type} (f : R -> E) := update : (E -> E) -> R -> R.
Arguments update {R E} f {_} _ _ /.

Ltac solve_update :=
  match goal with
  | |- @Update ?R ?E ?f =>
      let e := eval hnf in (@eta R _) in
      let p := eval pattern f in e in
      match p with
      | ?g _ =>
          let t := eval cbv beta in
            (fun (h : E -> E) (x : R) => g (fun r => h (f r)) x) in
          exact t
      end
  end.
#[global] Hint Extern 1 (Update _) => solve_update : typeclass_instances.

Declare Scope c_scope.
Delimit Scope c_scope with c.
Notation "x <| f := v |>" := (update f (fun _ => v) x)
  (at level 12, f at next level, left associativity) : c_scope.
#[global] Open Scope c_scope.

(** ** C integers

    A C integer is a [Z] in its range; conversions to an unsigned type reduce
    modulo, conversions to [int] wrap in two's complement. *)

Definition INT_MAX : Z := 2 ^ 31 - 1.
Definition UINT16_MAX : Z := 2 ^ 16 - 1.
Definition UINT64_MAX : Z := 2 ^ 64 - 1.

Definition to_u8 (z : Z) : Z := z mod 2 ^ 8.
Definition to_u16 (z : Z) : Z := z mod 2 ^ 16.
Definition to_u32 (z : Z) : Z := z mod 2 ^ 32.
Definition to_u64 (z : Z) : Z := z mod 2 ^ 64.
Definition to_int (z : Z) : Z := (z + 2 ^ 31) mod 2 ^ 32 - 2 ^ 31.

(** [size_t] has the width of the target: [APP_ABI] names 32-bit and 64-bit
    targets, so whatever depends on it is proved for both. *)
Class Abi := { SIZE_WIDTH : Z; abi_width : SIZE_WIDTH = 32 \/ SIZE_WIDTH = 64 }.
Definition SIZE_MAX {abi : Abi} : Z := 2 ^ SIZE_WIDTH - 1.
Definition to_size {abi : Abi} (z : Z) : Z := z mod 2 ^ SIZE_WIDTH.

Definition abi32 : Abi := {| SIZE_WIDTH := 32; abi_width := or_introl eq_refl |}.
Definition abi64 : Abi := {| SIZE_WIDTH := 64; abi_width := or_intror eq_refl |}.

(** [misc/compare.h] *)
Definition B_COMPARE (a b : Z) : Z := Z.b2z (b <? a) - Z.b2z (a <? b).
Lemma B_COMPARE_sgn a b : B_COMPARE a b = Z.sgn (a - b).
Proof.
  unfold B_COMPARE. destruct (b <? a) eqn:E1, (a <? b) eqn:E2; cbn [Z.b2z]; lia.
Qed.

Lemma to_int_small z : - 2 ^ 31 <= z < 2 ^ 31 -> to_int z = z.
Proof. intros. unfold to_int. rewrite Z.mod_small; lia. Qed.

Lemma to_u16_small z : 0 <= z < 2 ^ 16 -> to_u16 z = z.
Proof. intros. by apply Z.mod_small. Qed.

Lemma to_u32_small z : 0 <= z < 2 ^ 32 -> to_u32 z = z.
Proof. intros. by apply Z.mod_small. Qed.

Lemma to_u64_small z : 0 <= z < 2 ^ 64 -> to_u64 z = z.
Proof. intros. by apply Z.mod_small. Qed.

Lemma to_size_small {abi : Abi} z : 0 <= z < 2 ^ 32 -> to_size z = z.
Proof. intros. apply Z.mod_small. destruct abi_width as [-> | ->]; lia. Qed.

Lemma size_max_ge {abi : Abi} : 2 ^ 32 - 1 <= SIZE_MAX.
Proof. unfold SIZE_MAX. destruct abi_width as [-> | ->]; lia. Qed.

(** ** Byte buffers *)

Abbreviation byte := Init.Byte.byte.
Abbreviation bytes := (list byte).

#[export] Instance byte_eq_decision : EqDecision byte := Byte.byte_eq_dec.

Definition b2z (b : byte) : Z := byte.unsigned b.
Definition z2b (z : Z) : byte := byte.of_Z z.

(** Length of a list as a C integer. *)
Definition len {A} (l : list A) : Z := Z.of_nat (length l).

(** [n] elements of [l] from offset [off]. *)
Definition zslice {A} (off n : Z) (l : list A) : list A :=
  take (Z.to_nat n) (drop (Z.to_nat off) l).

(** Reading and writing a range of a buffer; out of its bounds is a fault. *)
Definition in_range {A} (off n : Z) (l : list A) : bool :=
  (0 <=? off) && (0 <=? n) && (off + n <=? len l).
Definition load (off n : Z) (mem : bytes) : option bytes :=
  if in_range off n mem then Some (zslice off n mem) else None.
Definition store (off : Z) (data mem : bytes) : option bytes :=
  if in_range off (len data) mem then
    Some (take (Z.to_nat off) mem ++ data
            ++ drop (Z.to_nat (off + len data)) mem)
  else None.

Lemma len_nonneg {A} (l : list A) : 0 <= len l.
Proof. unfold len. lia. Qed.
Lemma len_nil {A} : len (@nil A) = 0.
Proof. done. Qed.
Lemma len_cons {A} (x : A) l : len (x :: l) = 1 + len l.
Proof. unfold len. cbn [length]. lia. Qed.
Lemma len_app {A} (l k : list A) : len (l ++ k) = len l + len k.
Proof. unfold len. rewrite length_app. lia. Qed.
Lemma len_take {A} n (l : list A) :
  0 <= n -> len (take (Z.to_nat n) l) = Z.min n (len l).
Proof. intros. unfold len. rewrite length_take. lia. Qed.
Lemma len_drop {A} n (l : list A) :
  0 <= n -> len (drop (Z.to_nat n) l) = Z.max 0 (len l - n).
Proof. intros. unfold len. rewrite length_drop. lia. Qed.
Lemma len_zslice {A} off n (l : list A) :
  0 <= off -> 0 <= n -> off + n <= len l -> len (zslice off n l) = n.
Proof. intros. unfold zslice. rewrite len_take, len_drop; lia. Qed.
Lemma len_split n z : len (le_split n z) = Z.of_nat n.
Proof. unfold len. by rewrite length_le_split. Qed.
Lemma length_len {A} (l : list A) : length l = Z.to_nat (len l).
Proof. unfold len. lia. Qed.
Lemma len_map {A B} (f : A -> B) (l : list A) : len (map f l) = len l.
Proof. unfold len. by rewrite length_map. Qed.
Lemma len_replicate {A} n (x : A) : len (replicate n x) = Z.of_nat n.
Proof. unfold len. by rewrite length_replicate. Qed.
Lemma len_zero_nil {A} (l : list A) : len l = 0 -> l = [].
Proof. destruct l; [done|]. rewrite len_cons. pose proof (len_nonneg l). lia. Qed.

#[global] Opaque len.
Create Rewrite HintDb len.
#[export] Hint Rewrite @len_nil @len_cons @len_app @len_map len_split : len.

Lemma in_range_true {A} off n (l : list A) :
  in_range off n l = true <-> 0 <= off /\ 0 <= n /\ off + n <= len l.
Proof. unfold in_range. lia. Qed.

(** [zlia]: linear arithmetic over lengths, knowing they are not negative. *)
Ltac pose_len :=
  repeat match goal with
  | |- context [len ?l] =>
      lazymatch goal with
      | H : 0 <= len l |- _ => fail
      | _ => pose proof (len_nonneg l)
      end
  | H : context [len ?l] |- _ =>
      lazymatch goal with
      | H' : 0 <= len l |- _ => fail
      | _ => pose proof (len_nonneg l)
      end
  end.
Ltac zlia := autorewrite with len in *; pose_len; lia.

(** *** Slices *)

Lemma lookup_zslice {A} off n (l : list A) i :
  zslice off n l !! i
  = if decide (i < Z.to_nat n)%nat then l !! (Z.to_nat off + i)%nat else None.
Proof.
  unfold zslice. case_decide.
  - by rewrite lookup_take_lt, lookup_drop by lia.
  - by rewrite lookup_take_ge by lia.
Qed.

Lemma zslice_0 {A} off (l : list A) : zslice off 0 l = [].
Proof. done. Qed.

Lemma zslice_all {A} n (l : list A) : n = len l -> zslice 0 n l = l.
Proof.
  intros ->. unfold zslice. rewrite drop_0. apply take_ge.
  Transparent len. unfold len. lia. Opaque len.
Qed.

Lemma zslice_app {A} off a b (l : list A) :
  0 <= off -> 0 <= a -> 0 <= b ->
  zslice off (a + b) l = zslice off a l ++ zslice (off + a) b l.
Proof.
  intros. unfold zslice. rewrite !Z2Nat.inj_add, <- drop_drop by lia.
  symmetry. apply take_take_drop.
Qed.

Lemma zslice_zslice {A} a b off n (l : list A) :
  0 <= a -> 0 <= b -> 0 <= off -> a + b <= n ->
  zslice a b (zslice off n l) = zslice (off + a) b l.
Proof.
  intros. apply list_eq. intros i. rewrite !lookup_zslice.
  case_decide; [|done]. rewrite decide_True by lia. f_equal. lia.
Qed.

Lemma zslice_app_l {A} n (l k : list A) : n = len l -> zslice 0 n (l ++ k) = l.
Proof.
  intros ->. unfold zslice. rewrite drop_0.
  apply take_app_length'. Transparent len. unfold len. lia. Opaque len.
Qed.

Lemma zslice_app_r {A} off n (l k : list A) :
  off = len l -> zslice off n (l ++ k) = zslice 0 n k.
Proof.
  intros ->. unfold zslice. f_equal. rewrite drop_0.
  apply drop_app_length'. Transparent len. unfold len. lia. Opaque len.
Qed.

Lemma zslice_app_lt {A} off n (l k : list A) :
  0 <= off -> 0 <= n -> off + n <= len l -> zslice off n (l ++ k) = zslice off n l.
Proof.
  intros. apply list_eq. intros i. rewrite !lookup_zslice. case_decide; [|done].
  apply lookup_app_l. Transparent len. unfold len in *. lia. Opaque len.
Qed.

(** *** Taking an element out of a list *)

Definition without (o : nat) (l : list nat) : list nat := filter (fun q => q <> o) l.

Lemma without_not_in o l : o ∉ l -> without o l = l.
Proof.
  unfold without. induction l as [|x l IH]; [done|]. intros [Hx Hl]%not_elem_of_cons.
  rewrite filter_cons_True by congruence. by rewrite IH.
Qed.
Lemma elem_of_without x o l : x ∈ without o l <-> x <> o /\ x ∈ l.
Proof. unfold without. by rewrite list_elem_of_filter. Qed.
Lemma without_middle o a b : NoDup (a ++ o :: b) -> without o (a ++ o :: b) = a ++ b.
Proof.
  intros Hn. apply NoDup_app in Hn as (_ & Ha & [Hb _]%NoDup_cons).
  assert (o ∉ a) as Ha' by (intros H; apply (Ha o H); left).
  pose proof (without_not_in o _ Ha'). pose proof (without_not_in o _ Hb). unfold without in *.
  rewrite filter_app, filter_cons_False by naive_solver. congruence.
Qed.
Lemma without_head o l : NoDup (o :: l) -> without o (o :: l) = l.
Proof. apply (without_middle o []). Qed.
#[global] Arguments without : simpl never.

(** *** Stores *)

Lemma store_Some off (data mem : bytes) :
  0 <= off -> off + len data <= len mem ->
  exists mem', store off data mem = Some mem'.
Proof.
  intros. unfold store. rewrite (proj2 (in_range_true _ _ _)) by zlia. eauto.
Qed.

Section store.
Context (off : Z) (data mem mem' : bytes).
Hypothesis (Hst : store off data mem = Some mem').

Lemma store_inv :
  0 <= off /\ off + len data <= len mem
  /\ mem' = take (Z.to_nat off) mem ++ data
              ++ drop (Z.to_nat (off + len data)) mem.
Proof using Hst.
  unfold store in Hst. destruct (in_range _ _ _) eqn:E; [|done].
  apply in_range_true in E. split_and!; [lia..|congruence].
Qed.

Lemma len_store : len mem' = len mem.
Proof using Hst.
  destruct store_inv as (?&?&->).
  rewrite !len_app, len_take, len_drop by zlia. zlia.
Qed.

Lemma zslice_store_same n : n = len data -> zslice off n mem' = data.
Proof using Hst.
  intros ->. destruct store_inv as (?&?&->).
  rewrite zslice_app_r by (rewrite len_take by lia; zlia).
  by apply zslice_app_l.
Qed.

Lemma zslice_store_before off' n :
  0 <= off' -> 0 <= n -> off' + n <= off -> zslice off' n mem' = zslice off' n mem.
Proof using Hst.
  intros. destruct store_inv as (?&?&->).
  rewrite zslice_app_lt by (rewrite ?len_take by lia; zlia).
  apply list_eq. intros i. rewrite !lookup_zslice. case_decide; [|done].
  apply lookup_take_lt. lia.
Qed.

Lemma zslice_store_after off' n :
  off + len data <= off' -> zslice off' n mem' = zslice off' n mem.
Proof using Hst.
  intros. destruct store_inv as (?&?&->). unfold zslice. f_equal.
  rewrite (assoc_L (++)), drop_app_ge.
  - rewrite drop_drop. f_equal.
    Transparent len. unfold len in *. rewrite length_app, length_take. lia.
  - unfold len in *. rewrite length_app, length_take. lia. Opaque len.
Qed.
End store.

(** Writing a buffer from its start, piece after piece. *)
Lemma store_next (pre rest data : bytes) :
  len data <= len rest ->
  store (len pre) data (pre ++ rest)
  = Some ((pre ++ data) ++ drop (Z.to_nat (len data)) rest).
Proof.
  intros H. unfold store. rewrite (proj2 (in_range_true _ _ _)) by zlia.
  rewrite Z2Nat.inj_add, <- !length_len, take_app_length, <- app_assoc by zlia.
  by rewrite drop_app_add.
Qed.

Lemma load_Some off n (mem : bytes) :
  0 <= off -> 0 <= n -> off + n <= len mem -> load off n mem = Some (zslice off n mem).
Proof. intros. unfold load. by rewrite (proj2 (in_range_true _ _ _)). Qed.

(** ** Handlers

    The code is a set of handlers: functions that change the state of an
    object and call other objects.  A handler maps a state to [None], when an
    [ASSERT] of the source fails or a buffer is accessed out of its bounds, or
    to its result, the new state and the calls made, in order. *)

Definition handler (St Out A : Type) : Type := St -> option (A * St * list Out).

#[export] Instance handler_ret St Out : MRet (handler St Out) :=
  fun A a s => Some (a, s, []).
#[export] Instance handler_bind St Out : MBind (handler St Out) :=
  fun A B f m s =>
    match m s with
    | Some (a, s1, o1) =>
        match f a s1 with
        | Some (b, s2, o2) => Some (b, s2, o1 ++ o2)
        | None => None
        end
    | None => None
    end.

Section handler.
Context {St Out : Type}.

Definition get : handler St Out St := fun s => Some (s, s, []).
Definition gets {A} (f : St -> A) : handler St Out A := fun s => Some (f s, s, []).
Definition modify (f : St -> St) : handler St Out unit := fun s => Some (tt, f s, []).
Definition call (o : Out) : handler St Out unit := fun s => Some (tt, s, [o]).
Definition ASSERT (b : bool) : handler St Out unit :=
  fun s => if b then Some (tt, s, []) else None.
Definition of_option {A} (x : option A) : handler St Out A :=
  fun s => match x with Some a => Some (a, s, []) | None => None end.

(** [wp m s Q]: from [s], [m] does not fail and ends in [Q]. *)
Definition wp {A} (m : handler St Out A) (s : St)
    (Q : A -> St -> list Out -> Prop) : Prop :=
  match m s with Some (a, s', o) => Q a s' o | None => False end.

Lemma wp_spec {A} (m : handler St Out A) s Q :
  wp m s Q <-> exists a s' o, m s = Some (a, s', o) /\ Q a s' o.
Proof.
  unfold wp. split.
  - destruct (m s) as [[[a s'] o]|]; [eauto 6|done].
  - by intros (a & s' & o & -> & HQ).
Qed.

Lemma wp_eq {A} (m : handler St Out A) s a s' o :
  wp m s (fun a1 s1 o1 => a1 = a /\ s1 = s' /\ o1 = o) -> m s = Some (a, s', o).
Proof. intros (a1 & s1 & o1 & -> & -> & -> & ->)%wp_spec. done. Qed.

Lemma wp_mono {A} (m : handler St Out A) s (P Q : A -> St -> list Out -> Prop) :
  wp m s P -> (forall a s' o, P a s' o -> Q a s' o) -> wp m s Q.
Proof. unfold wp. destruct (m s) as [[[??]?]|]; auto. Qed.

Lemma wp_bind {A B} (m : handler St Out A) (f : A -> handler St Out B) s Q :
  wp m s (fun a s1 o1 => wp (f a) s1 (fun b s2 o2 => Q b s2 (o1 ++ o2))) ->
  wp (m ≫= f) s Q.
Proof.
  unfold wp, mbind, handler_bind.
  destruct (m s) as [[[??]?]|]; [|done].
  destruct (f _ _) as [[[??]?]|]; auto.
Qed.

Lemma bind_assoc {A B C} (m : handler St Out A) (f : A -> handler St Out B) (k : B -> handler St Out C) s :
  ((m ≫= f) ≫= k) s = (m ≫= fun a => f a ≫= k) s.
Proof.
  unfold mbind, handler_bind. destruct (m s) as [[[a s1] o1]|]; [|done].
  destruct (f a s1) as [[[b s2] o2]|]; [|done]. destruct (k b s2) as [[[c s3] o3]|]; [|done].
  by rewrite app_assoc.
Qed.
Lemma wp_bind_assoc {A B C} (m : handler St Out A) (f : A -> handler St Out B) (k : B -> handler St Out C) s Q :
  wp ((m ≫= f) ≫= k) s Q -> wp (m ≫= fun a => f a ≫= k) s Q.
Proof. unfold wp. by rewrite bind_assoc. Qed.

(** Inversion of a completed execution. *)
Lemma bind_Some {A B} (m : handler St Out A) (f : A -> handler St Out B) s b s2 l :
  (m ≫= f) s = Some (b, s2, l) ->
  exists a s1 l1 l2, m s = Some (a, s1, l1) /\ f a s1 = Some (b, s2, l2) /\ l = l1 ++ l2.
Proof.
  unfold mbind, handler_bind. destruct (m s) as [[[a s1] l1]|] eqn:E1; [|done].
  destruct (f a s1) as [[[b' s2'] l2]|] eqn:E2; [|done]. intros [= -> -> <-]. eauto 9.
Qed.
Lemma assert_Some b s a s' l :
  ASSERT b s = Some (a, s', l) -> b = true /\ s' = s /\ l = [].
Proof. destruct b; cbn; [by intros [= <- <- <-]|done]. Qed.

(** [keeps f h]: [h] does not change the field [f]. *)
Definition keeps {A E} (f : St -> E) (h : handler St Out A) : Prop :=
  forall s a s' l, h s = Some (a, s', l) -> f s' = f s.
Lemma keeps_bind {A B E} (f : St -> E) (h : handler St Out A) (k : A -> handler St Out B) :
  keeps f h -> (forall a, keeps f (k a)) -> keeps f (h ≫= k).
Proof.
  intros Hh Hk s b s' l (a & s1 & l1 & l2 & H1 & H2 & _)%bind_Some.
  rewrite (Hk _ _ _ _ _ H2). by eapply Hh.
Qed.
Lemma keeps_ret {A E} (f : St -> E) (a : A) : keeps f (mret a).
Proof. by intros s a' s' l [= <- <- <-]. Qed.
Lemma keeps_get {E} (f : St -> E) : keeps f get.
Proof. by intros s a' s' l [= <- <- <-]. Qed.
Lemma keeps_call {E} (f : St -> E) o : keeps f (call o).
Proof. by intros s a' s' l [= <- <- <-]. Qed.
Lemma keeps_assert {E} (f : St -> E) b : keeps f (ASSERT b).
Proof. by intros s a s' l (_ & -> & _)%assert_Some. Qed.
Lemma keeps_modify {E} (f : St -> E) g : (forall s, f (g s) = f s) -> keeps f (modify g).
Proof. intros H s a s' l [= <- <- <-]. apply H. Qed.
Lemma keeps_of_option {A E} (f : St -> E) (x : option A) : keeps f (of_option x).
Proof. intros s a s' l. unfold of_option. destruct x; [by intros [= <- <- <-]|done]. Qed.

Lemma wp_ret {A} (a : A) s (Q : A -> St -> list Out -> Prop) :
  Q a s [] -> wp (mret a) s Q.
Proof. done. Qed.
Lemma wp_get s (Q : St -> St -> list Out -> Prop) : Q s s [] -> wp get s Q.
Proof. done. Qed.
Lemma wp_gets {A} (f : St -> A) s (Q : A -> St -> list Out -> Prop) :
  Q (f s) s [] -> wp (gets f) s Q.
Proof. done. Qed.
Lemma wp_modify f s (Q : unit -> St -> list Out -> Prop) :
  Q tt (f s) [] -> wp (modify f) s Q.
Proof. done. Qed.
Lemma wp_call o s (Q : unit -> St -> list Out -> Prop) :
  Q tt s [o] -> wp (call o) s Q.
Proof. done. Qed.
Lemma wp_assert b s (Q : unit -> St -> list Out -> Prop) :
  b = true -> Q tt s [] -> wp (ASSERT b) s Q.
Proof. by intros ->. Qed.
Lemma wp_of_option {A} (x : option A) a s (Q : A -> St -> list Out -> Prop) :
  x = Some a -> Q a s [] -> wp (of_option x) s Q.
Proof. by intros ->. Qed.
Lemma wp_if {A} (b : bool) (m1 m2 : handler St Out A) s Q :
  (b = true -> wp m1 s Q) -> (b = false -> wp m2 s Q) ->
  wp (if b then m1 else m2) s Q.
Proof. destruct b; auto. Qed.
End handler.
#[global] Arguments wp {_ _ _} _ _ _ : simpl never.

Create HintDb keeps.
#[export] Hint Resolve keeps_ret keeps_get keeps_call keeps_assert keeps_of_option : keeps.
(** Proves [keeps] through the combinators and the cases of the code. *)
Ltac solve_keeps :=
  repeat first
    [ solve [auto 1 with keeps]
    | apply keeps_bind; [|intros ?]
    | apply keeps_modify; intros ?; reflexivity
    | match goal with |- keeps _ (match ?x with _ => _ end) => destruct x end ].

(** [hstep] runs one step of a handler, [hsteps] all those that need no
    thought: assertions and bounds are left to prove. *)
Ltac hstep :=
  lazymatch goal with
  | |- wp (_ ≫= _) _ _ => apply wp_bind
  | |- wp (mret _) _ _ => apply wp_ret
  | |- wp get _ _ => apply wp_get
  | |- wp (gets _) _ _ => apply wp_gets
  | |- wp (modify _) _ _ => apply wp_modify
  | |- wp (call _) _ _ => apply wp_call
  | |- wp (ASSERT _) _ _ => apply wp_assert
  | |- wp (if _ then _ else _) _ _ => apply wp_if; intros ?
  end.
Ltac hsteps := repeat (hstep; cbn).

(** [ok h s Q]: [h] does not fail from [s] and ends in [Q], whatever it calls. *)
Definition ok {St Out A} (h : handler St Out A) (s : St) (Q : A -> St -> Prop) : Prop :=
  wp h s (fun a s' _ => Q a s').

Section ok.
Context {St Out A B : Type}.
Implicit Types (s : St) (h : handler St Out A) (k : A -> handler St Out B).
Lemma ok_spec h s Q : ok h s Q <-> exists a s' o, h s = Some (a, s', o) /\ Q a s'.
Proof. apply wp_spec. Qed.
Lemma ok_bind h k s Q : ok h s (fun a s' => ok (k a) s' Q) -> ok (h ≫= k) s Q.
Proof. intros H. unfold ok. apply wp_bind. exact H. Qed.
Lemma ok_mono h s (P Q : A -> St -> Prop) : ok h s P -> (forall a s', P a s' -> Q a s') -> ok h s Q.
Proof. intros H HPQ. eapply wp_mono; [exact H|]. intros; by apply HPQ. Qed.
Lemma ok_ret (a : A) s (Q : A -> St -> Prop) : Q a s -> ok (Out := Out) (mret a) s Q.
Proof. done. Qed.
Lemma ok_of_option (x : option A) a s (Q : A -> St -> Prop) :
  x = Some a -> Q a s -> ok (Out := Out) (of_option x) s Q.
Proof. by intros ->. Qed.
Lemma ok_get s (Q : St -> St -> Prop) : Q s s -> ok (Out := Out) get s Q.
Proof. done. Qed.
Lemma ok_gets (f : St -> A) s (Q : A -> St -> Prop) : Q (f s) s -> ok (Out := Out) (gets f) s Q.
Proof. done. Qed.
Lemma ok_modify f s (Q : unit -> St -> Prop) : Q tt (f s) -> ok (Out := Out) (modify f) s Q.
Proof. done. Qed.
Lemma ok_call (o : Out) s (Q : unit -> St -> Prop) : Q tt s -> ok (call o) s Q.
Proof. done. Qed.
Lemma ok_assert b s (Q : unit -> St -> Prop) :
  b = true -> Q tt s -> ok (Out := Out) (ASSERT b) s Q.
Proof. by intros ->. Qed.
End ok.
#[global] Arguments ok {_ _ _} _ _ _ : simpl never.

(** [ok_step] is [hstep] for [ok], with the tests of the code decided by cases. *)
Ltac ok_step :=
  lazymatch goal with
  | |- ok (_ ≫= _) _ _ => apply ok_bind
  | |- ok (mret _) _ _ => apply ok_ret
  | |- ok get _ _ => apply ok_get
  | |- ok (gets _) _ _ => apply ok_gets
  | |- ok (modify _) _ _ => apply ok_modify
  | |- ok (call _) _ _ => apply ok_call
  | |- ok (ASSERT _) _ _ => apply ok_assert
  | |- ok (if ?b then _ else _) _ _ => destruct b eqn:?
  end.

(** Rewrites with the tests the path taken has decided. *)
Ltac rewrite_bools :=
  repeat match goal with
  | E : _ = true |- _ => rewrite ?E; clear E
  | E : _ = false |- _ => rewrite ?E; clear E
  end.

(** Splits the conjunctions of booleans among the hypotheses. *)
Ltac split_andb :=
  repeat match goal with E : _ && _ = true |- _ => apply andb_true_iff in E as [? ?] end.

(** A concrete allocator, for the witnesses of theorems about allocation. *)
Definition zero_malloc (n : Z) : option bytes :=
  if n <? 0 then None else Some (repeat Byte.x00 (Z.to_nat n)).

Lemma zero_malloc_len n mem : zero_malloc n = Some mem -> len mem = n.
Proof.
  unfold zero_malloc. destruct (n <? 0) eqn:E; [done|]. intros [= <-].
  Transparent len. unfold len. rewrite repeat_length. lia. Opaque len.
Qed.
