(* ===== verification/BSize.v ===== *)
(** * Sizes with overflow detection

    [misc/bsize.h], and the reallocation of [misc/balloc.h].  A [bsize_t] is a
    [size_t] with a flag; the theorems relate it to the number computed. *)
From S2P Require Import Prelude.

Section bsize.
Context {abi : Abi}.

Record bsize_t := mk_bsize { is_overflow : bool; value : Z }.

Definition bsize_fromsize (v : Z) : bsize_t := mk_bsize false v.
(** [v > SIZE_MAX] compares as [size_t]: it never holds. *)
Definition bsize_fromint (v : Z) : bsize_t :=
  mk_bsize ((v <? 0) || (SIZE_MAX <? to_size v)) (to_size v).
Definition bsize_overflow : bsize_t := mk_bsize true 0.
Definition bsize_tosize (s : bsize_t) : option Z :=
  if is_overflow s then None else Some (value s).
Definition bsize_toint (s : bsize_t) : option Z :=
  if is_overflow s || (INT_MAX <? value s) then None else Some (to_int (value s)).
Definition bsize_add (s1 s2 : bsize_t) : bsize_t :=
  mk_bsize (is_overflow s1 || is_overflow s2 || (SIZE_MAX - value s1 <? value s2))
    (to_size (value s1 + value s2)).
Definition bsize_max (s1 s2 : bsize_t) : bsize_t :=
  mk_bsize (is_overflow s1 || is_overflow s2)
    (to_size (Z.b2z (value s2 <? value s1) * value s1 + Z.b2z (value s1 <=? value s2) * value s2)).
Definition bsize_mul (s1 s2 : bsize_t) : bsize_t :=
  mk_bsize (is_overflow s1 || is_overflow s2
            || (negb (value s1 =? 0) && (SIZE_MAX / value s1 <? value s2)))
    (to_size (value s1 * value s2)).

(** What [realloc] answers: [None], or a block of the size asked for whose
    contents are those of [raw] (nothing in the code depends on them). *)
Definition BRealloc (raw : option bytes) (n : Z) : option bytes :=
  let n := if n =? 0 then 1 else n in
  match raw with
  | Some raw => Some (take (Z.to_nat n) (raw ++ replicate (Z.to_nat n) Byte.x00))
  | None => None
  end.

(** ** A [bsize_t] stands for a number when it is that number, or too large *)

Definition denotes (s : bsize_t) (n : Z) : Prop :=
  0 <= n /\ if is_overflow s then SIZE_MAX < n else value s = n /\ n <= SIZE_MAX.

Lemma to_size_fits z : 0 <= z <= SIZE_MAX -> to_size z = z.
Proof. unfold to_size, SIZE_MAX. intros. apply Z.mod_small. lia. Qed.

Lemma denotes_fromsize n : 0 <= n <= SIZE_MAX -> denotes (bsize_fromsize n) n.
Proof. unfold denotes. cbn. lia. Qed.

Lemma denotes_fromint n : 0 <= n <= INT_MAX -> denotes (bsize_fromint n) n.
Proof.
  intros H. assert (Hm := size_max_ge). unfold INT_MAX in H.
  assert (Hs : to_size n = n) by (apply to_size_fits; lia).
  unfold denotes, bsize_fromint. cbn. rewrite Hs.
  replace ((n <? 0) || _) with false by lia. lia.
Qed.

Lemma denotes_add s1 s2 n1 n2 :
  denotes s1 n1 -> denotes s2 n2 -> denotes (bsize_add s1 s2) (n1 + n2).
Proof.
  intros [P1 H1] [P2 H2]. split; [lia|]. cbn.
  destruct (is_overflow s1); cbn; [destruct (is_overflow s2); lia|].
  destruct (is_overflow s2); cbn; [lia|]. destruct H1 as [-> ?], H2 as [-> ?].
  destruct (SIZE_MAX - n1 <? n2) eqn:E; [lia|]. rewrite to_size_fits; lia.
Qed.

Lemma denotes_max s1 s2 n1 n2 :
  denotes s1 n1 -> denotes s2 n2 -> denotes (bsize_max s1 s2) (Z.max n1 n2).
Proof.
  intros [P1 H1] [P2 H2]. split; [lia|]. cbn.
  destruct (is_overflow s1); cbn; [destruct (is_overflow s2); lia|].
  destruct (is_overflow s2); cbn; [lia|]. destruct H1 as [-> ?], H2 as [-> ?].
  destruct (n2 <? n1) eqn:E1, (n1 <=? n2) eqn:E2; cbn [Z.b2z]; try lia.
  - rewrite to_size_fits; lia.
  - rewrite to_size_fits; lia.
Qed.

Lemma denotes_mul s1 s2 n1 n2 :
  denotes s1 n1 -> denotes s2 n2 -> 0 < n1 -> 0 < n2 ->
  denotes (bsize_mul s1 s2) (n1 * n2).
Proof.
  intros [P1 H1] [P2 H2] L1 L2. split; [nia|]. cbn.
  destruct (is_overflow s1); cbn; [nia|].
  destruct (is_overflow s2); cbn; [nia|]. destruct H1 as [-> ?], H2 as [-> ?].
  destruct (n1 =? 0) eqn:E0; cbn; [lia|].
  destruct (SIZE_MAX / n1 <? n2) eqn:E.
  - assert (n1 * (SIZE_MAX / n1 + 1) <= n1 * n2) by nia.
    assert (Hd := Z.mul_succ_div_gt SIZE_MAX n1 ltac:(lia)). lia.
  - assert (n1 * n2 <= n1 * (SIZE_MAX / n1)) by nia.
    assert (Hd := Z.mul_div_le SIZE_MAX n1 ltac:(lia)). rewrite to_size_fits; lia.
Qed.

Lemma denotes_value s n : denotes s n -> n <= SIZE_MAX -> is_overflow s = false /\ value s = n.
Proof. intros [? H] ?. destruct (is_overflow s); [lia|]. tauto. Qed.

Lemma denotes_toint s n : denotes s n ->
  bsize_toint s = if n <=? INT_MAX then Some n else None.
Proof.
  intros [? H]. unfold bsize_toint. assert (Hm := size_max_ge). unfold INT_MAX.
  destruct (is_overflow s); cbn; [by rewrite (proj2 (Z.leb_gt _ _)) by lia|].
  destruct H as [-> ?]. destruct (2 ^ 31 - 1 <? n) eqn:E.
  - by rewrite (proj2 (Z.leb_gt _ _)) by lia.
  - rewrite (proj2 (Z.leb_le _ _)), to_int_small by lia. done.
Qed.

Lemma BRealloc_len raw n mem : 0 < n -> BRealloc raw n = Some mem -> len mem = n.
Proof.
  unfold BRealloc. intros H. rewrite (proj2 (Z.eqb_neq _ _)) by lia.
  destruct raw as [raw|]; [|done]. intros [= <-]. rewrite len_take by lia.
  rewrite len_app, len_replicate.
  pose proof (len_nonneg raw). lia.
Qed.
End bsize.
