(* ===== verification/LinkedList.v ===== *)
(** * Doubly linked lists

    [structure/LinkedList1.h], with its nodes in a heap: what it does to
    pointers is shown to be what its names say of lists.  The other files use
    the lists. *)
From S2P Require Import Prelude.

Abbreviation ptr := nat.

(** ** Chains of links

    [seg look p l n]: each object of [l] points to its neighbours in [l], the
    first one back to [p] and the last one on to [n]; [look] gives the two
    pointers of an object. *)

Definition head_or (n : option ptr) (l : list ptr) : option ptr :=
  match l with [] => n | x :: _ => Some x end.
Definition last_or (p : option ptr) (l : list ptr) : option ptr :=
  match last l with Some x => Some x | None => p end.

Module Chain.

Abbreviation links := (ptr -> option (option ptr * option ptr)).

Fixpoint seg (look : links) (p : option ptr) (l : list ptr) (n : option ptr) : Prop :=
  match l with
  | [] => True
  | x :: l => look x = Some (p, head_or n l) /\ seg look (Some x) l n
  end.

Lemma last_or_cons p x l : last_or p (x :: l) = last_or (Some x) l.
Proof. unfold last_or. rewrite last_cons. by destruct (last l). Qed.
Lemma last_or_app p l k : last_or p (l ++ k) = last_or (last_or p l) k.
Proof. unfold last_or. rewrite last_app. destruct (last k), (last l); done. Qed.
Lemma head_or_app n l k : head_or n (l ++ k) = head_or (head_or n k) l.
Proof. by destruct l. Qed.

Lemma seg_ext look look' p l n :
  (forall x, x ∈ l -> look' x = look x) -> seg look p l n -> seg look' p l n.
Proof.
  revert p. induction l as [|x l IH]; intros p H; [done|]. intros [Hx Hl]. split.
  - rewrite H; [done|left].
  - apply IH; [|done]. intros y Hy. apply H. by right.
Qed.

Lemma seg_app look p l k n :
  seg look p (l ++ k) n <-> seg look p l (head_or n k) /\ seg look (last_or p l) k n.
Proof.
  revert p. induction l as [|x l IH]; intros p; cbn [app seg]; [tauto|].
  rewrite IH, head_or_app, last_or_cons. tauto.
Qed.

(** Changing only what the ends of a chain point to. *)
Lemma seg_set_next look look' p l n n' : NoDup l ->
  (forall x, x ∈ l -> last_or None l <> Some x -> look' x = look x) ->
  (forall x lk, last_or None l = Some x -> look x = Some lk -> look' x = Some (lk.1, n')) ->
  seg look p l n -> seg look' p l n'.
Proof.
  intros Hn Hext Hlast. destruct l as [|x l _] using rev_ind; [done|].
  assert (Hl : last_or None (l ++ [x]) = Some x) by by rewrite last_or_app.
  rewrite Hl in *. apply NoDup_app in Hn as (_ & Hx & _).
  rewrite !seg_app. cbn. intros (Hseg & Hlook & _). split; [|split; [|done]].
  - eapply seg_ext; [|exact Hseg]. intros y Hy. apply Hext; [apply elem_of_app; by left|].
    intros [= ->]. apply (Hx y Hy). by left.
  - by rewrite (Hlast x _ eq_refl Hlook).
Qed.
Lemma seg_set_prev look look' p p' l n : NoDup l ->
  (forall x, x ∈ l -> head_or None l <> Some x -> look' x = look x) ->
  (forall x lk, head_or None l = Some x -> look x = Some lk -> look' x = Some (p', lk.2)) ->
  seg look p l n -> seg look' p' l n.
Proof.
  intros Hn Hext Hhead. destruct l as [|x l]; [done|]. apply NoDup_cons in Hn as [Hx _].
  intros [Hlook Hl]. split; [by rewrite (Hhead x _ eq_refl Hlook)|].
  eapply seg_ext; [|exact Hl]. intros y Hy. apply Hext; [by right|]. intros [= ->]. done.
Qed.

(** Putting [m] between [a] and [b], or taking out what was there. *)
Lemma seg_splice look look' a m b n0 p0 : NoDup (a ++ m ++ b) ->
  seg look None a n0 -> seg look p0 b None ->
  (forall x, x ∈ a -> last_or None a <> Some x -> look' x = look x) ->
  (forall x lk, last_or None a = Some x -> look x = Some lk ->
    look' x = Some (lk.1, head_or (head_or None b) m)) ->
  (forall x, x ∈ b -> head_or None b <> Some x -> look' x = look x) ->
  (forall x lk, head_or None b = Some x -> look x = Some lk ->
    look' x = Some (last_or (last_or None a) m, lk.2)) ->
  seg look' (last_or None a) m (head_or None b) ->
  seg look' None (a ++ m ++ b) None.
Proof.
  intros Hn Ha Hb H1 H2 H3 H4 Hm. apply NoDup_app in Hn as (Hna & _ & Hn).
  apply NoDup_app in Hn as (_ & _ & Hnb). rewrite !seg_app. split; [|split; [done|]].
  - rewrite head_or_app. by eapply seg_set_next.
  - by eapply seg_set_prev.
Qed.

(** The ends of a chain, if there are any. *)
Lemma last_look look a n0 : seg look None a n0 ->
  match last_or None a with Some z => exists q, look z = Some (q, n0) /\ z ∈ a | None => a = [] end.
Proof.
  destruct a as [|z a _] using rev_ind; [done|]. rewrite last_or_app, seg_app. cbn.
  intros (_ & Hz & _). eexists. split; [exact Hz|]. apply elem_of_app. right. by left.
Qed.
Lemma head_look look b p0 : seg look p0 b None ->
  match head_or None b with Some z => exists q, look z = Some (p0, q) /\ z ∈ b | None => b = [] end.
Proof. destruct b as [|z b]; [done|]. intros [Hz _]. eexists. split; [exact Hz|left]. Qed.


(** The list a chain makes is unique. *)
Lemma seg_functional look p l l' : seg look p l None -> seg look p l' None ->
  head_or None l = head_or None l' -> l = l'.
Proof.
  revert p l'. induction l as [|x l IH]; intros p [|y l']; try done.
  intros [H1 H2] [H3 H4] [= <-]. f_equal. rewrite H1 in H3. injection H3 as H3.
  apply (IH (Some x)); [done|done|]. done.
Qed.
End Chain.

(** ** State *)

Record LinkedList1Node := mk_node { p : option ptr; n : option ptr }.
#[export] Instance node_eta : Eta LinkedList1Node := fun r => mk_node (p r) (n r).
Record LinkedList1 := mk_list { first : option ptr; last : option ptr }.
#[export] Instance list_eta : Eta LinkedList1 := fun r => mk_list (first r) (last r).

Record store_t := mk_store { nodes : gmap ptr LinkedList1Node; the_list : LinkedList1 }.
#[export] Instance store_eta : Eta store_t := fun r => mk_store (nodes r) (the_list r).

Definition hdl := handler store_t Empty_set.

(** The accesses [x->p], [x->n] and those to the list. *)
Definition get_p (x : ptr) : hdl (option ptr) := s ← get; nd ← of_option (nodes s !! x); mret (p nd).
Definition get_n (x : ptr) : hdl (option ptr) := s ← get; nd ← of_option (nodes s !! x); mret (n nd).
Definition set_p (x : ptr) (v : option ptr) : hdl unit :=
  s ← get; nd ← of_option (nodes s !! x);
  modify (fun s => s <| nodes := <[x := nd <| p := v |>]> (nodes s) |>).
Definition set_n (x : ptr) (v : option ptr) : hdl unit :=
  s ← get; nd ← of_option (nodes s !! x);
  modify (fun s => s <| nodes := <[x := nd <| n := v |>]> (nodes s) |>).
Definition get_list : hdl LinkedList1 := gets the_list.
Definition set_first (v : option ptr) : hdl unit :=
  modify (fun s => s <| the_list := (the_list s <| first := v |>) |>).
Definition set_last (v : option ptr) : hdl unit :=
  modify (fun s => s <| the_list := (the_list s <| last := v |>) |>).

(** ** Operations *)

Definition LinkedList1_Init : hdl unit := set_first None;; set_last None.
Definition LinkedList1_IsEmpty : hdl bool :=
  list ← get_list; mret (match first list with Some _ => false | None => true end).
Definition LinkedList1_GetFirst : hdl (option ptr) := list ← get_list; mret (first list).
Definition LinkedList1_GetLast : hdl (option ptr) := list ← get_list; mret (last list).

Definition LinkedList1_Prepend (node : ptr) : hdl unit :=
  list ← get_list;
  set_p node None;;
  set_n node (first list);;
  match first list with
  | Some f => set_p f (Some node)
  | None => set_last (Some node)
  end;;
  set_first (Some node).

Definition LinkedList1_Append (node : ptr) : hdl unit :=
  list ← get_list;
  set_p node (last list);;
  set_n node None;;
  match last list with
  | Some l => set_n l (Some node)
  | None => set_first (Some node)
  end;;
  set_last (Some node).

Definition LinkedList1_InsertBefore (node target : ptr) : hdl unit :=
  tp ← get_p target;
  set_p node tp;;
  set_n node (Some target);;
  tp ← get_p target;
  match tp with
  | Some q => set_n q (Some node)
  | None => set_first (Some node)
  end;;
  set_p target (Some node).

Definition LinkedList1_InsertAfter (node target : ptr) : hdl unit :=
  set_p node (Some target);;
  tn ← get_n target;
  set_n node tn;;
  tn ← get_n target;
  match tn with
  | Some q => set_p q (Some node)
  | None => set_last (Some node)
  end;;
  set_n target (Some node).

Definition LinkedList1_Remove (node : ptr) : hdl unit :=
  np ← get_p node;
  nn ← get_n node;
  match np with
  | Some q => set_n q nn
  | None => set_first nn
  end;;
  np ← get_p node;
  nn ← get_n node;
  match nn with
  | Some q => set_p q np
  | None => set_last np
  end.

Definition LinkedList1_InsertListAfter (ins_list : LinkedList1) (target : option ptr) : hdl unit :=
  match first ins_list with
  | None => mret tt
  | Some ins_first =>
      list ← get_list;
      t_next ← match target with Some t => get_n t | None => mret (first list) end;
      set_p ins_first target;;
      ins_last ← of_option (last ins_list);
      set_n ins_last t_next;;
      match target with
      | Some t => set_n t (Some ins_first)
      | None => set_first (Some ins_first)
      end;;
      match t_next with
      | Some q => set_p q (Some ins_last)
      | None => set_last (Some ins_last)
      end
  end.

Definition LinkedList1Node_Next (node : ptr) : hdl (option ptr) := get_n node.
Definition LinkedList1Node_Prev (node : ptr) : hdl (option ptr) := get_p node.

(** ** What the operations mean *)

Inductive op :=
  | Prepend (node : ptr)
  | Append (node : ptr)
  | InsertBefore (node target : ptr)
  | InsertAfter (node target : ptr)
  | Remove (node : ptr)
  | InsertListAfter (ins_list : LinkedList1) (target : option ptr).
Definition exec (o : op) : hdl unit :=
  match o with
  | Prepend x => LinkedList1_Prepend x
  | Append x => LinkedList1_Append x
  | InsertBefore x t => LinkedList1_InsertBefore x t
  | InsertAfter x t => LinkedList1_InsertAfter x t
  | Remove x => LinkedList1_Remove x
  | InsertListAfter ins t => LinkedList1_InsertListAfter ins t
  end.

Definition look (s : store_t) (x : ptr) : option (option ptr * option ptr) :=
  (fun nd => (p nd, n nd)) <$> nodes s !! x.
#[global] Arguments look : simpl never.

(** A header and the nodes of a store make a list. *)
Definition makes (s : store_t) (h : LinkedList1) (l : list ptr) : Prop :=
  NoDup l /\ Chain.seg (look s) None l None /\ first h = head_or None l /\ last h = last_or None l.

(** The list before and after each operation; nodes that are put in a list are
    allocated and are not in it yet. *)
Inductive list_spec (s : store_t) : op -> list ptr -> list ptr -> Prop :=
  | spec_prepend x l : is_Some (look s x) -> x ∉ l -> list_spec s (Prepend x) l (x :: l)
  | spec_append x l : is_Some (look s x) -> x ∉ l -> list_spec s (Append x) l (l ++ [x])
  | spec_before x t a b : is_Some (look s x) -> x ∉ a ++ t :: b ->
      list_spec s (InsertBefore x t) (a ++ t :: b) (a ++ x :: t :: b)
  | spec_after x t a b : is_Some (look s x) -> x ∉ a ++ t :: b ->
      list_spec s (InsertAfter x t) (a ++ t :: b) (a ++ t :: x :: b)
  | spec_remove x a b : list_spec s (Remove x) (a ++ x :: b) (a ++ b)
  | spec_list h k a b : makes s h k -> (forall x, x ∈ k -> x ∉ a ++ b) ->
      list_spec s (InsertListAfter h (last_or None a)) (a ++ b) (a ++ k ++ b).

Module LinkedListProofs.
Import Chain.

Lemma wp_get_p x s lk (Q : option ptr -> store_t -> list Empty_set -> Prop) :
  look s x = Some lk -> Q lk.1 s [] -> wp (get_p x) s Q.
Proof.
  unfold look, get_p. destruct (nodes s !! x) as [nd|] eqn:E; [|done]. intros [= <-] HQ.
  hstep. hstep. hstep. eapply wp_of_option; [exact E|]. by hstep.
Qed.
Lemma wp_get_n x s lk (Q : option ptr -> store_t -> list Empty_set -> Prop) :
  look s x = Some lk -> Q lk.2 s [] -> wp (get_n x) s Q.
Proof.
  unfold look, get_n. destruct (nodes s !! x) as [nd|] eqn:E; [|done]. intros [= <-] HQ.
  hstep. hstep. hstep. eapply wp_of_option; [exact E|]. by hstep.
Qed.
Lemma wp_set_p x v s lk (Q : unit -> store_t -> list Empty_set -> Prop) :
  look s x = Some lk ->
  (forall s', the_list s' = the_list s ->
    (forall y, look s' y = if decide (y = x) then Some (v, lk.2) else look s y) -> Q tt s' []) ->
  wp (set_p x v) s Q.
Proof.
  unfold look at 1, set_p. destruct (nodes s !! x) as [nd|] eqn:E; [|done]. intros [= <-] HQ.
  hstep. hstep. hstep. eapply wp_of_option; [exact E|]. hstep. apply HQ; [done|].
  intros y. unfold look. cbn. case_decide; [subst; by rewrite lookup_insert_eq|].
  by rewrite lookup_insert_ne by congruence.
Qed.
Lemma wp_set_n x v s lk (Q : unit -> store_t -> list Empty_set -> Prop) :
  look s x = Some lk ->
  (forall s', the_list s' = the_list s ->
    (forall y, look s' y = if decide (y = x) then Some (lk.1, v) else look s y) -> Q tt s' []) ->
  wp (set_n x v) s Q.
Proof.
  unfold look at 1, set_n. destruct (nodes s !! x) as [nd|] eqn:E; [|done]. intros [= <-] HQ.
  hstep. hstep. hstep. eapply wp_of_option; [exact E|]. hstep. apply HQ; [done|].
  intros y. unfold look. cbn. case_decide; [subst; by rewrite lookup_insert_eq|].
  by rewrite lookup_insert_ne by congruence.
Qed.

(** What an operation that ends does: the new list, nothing else touched. *)
Definition becomes (s : store_t) (l l' : list ptr) (s' : store_t) : Prop :=
  makes s' (the_list s') l' /\ forall y, y ∉ l -> y ∉ l' -> look s' y = look s y.

Lemma splice_becomes s s' a mid m b l l' :
  makes s (the_list s) l -> l = a ++ mid ++ b -> l' = a ++ m ++ b -> NoDup l' ->
  (forall y, y ∉ m -> last_or None a <> Some y -> head_or None b <> Some y -> look s' y = look s y) ->
  (forall z q, last_or None a = Some z -> look s z = Some q ->
    look s' z = Some (q.1, head_or (head_or None b) m)) ->
  (forall z q, head_or None b = Some z -> look s z = Some q ->
    look s' z = Some (last_or (last_or None a) m, q.2)) ->
  seg (look s') (last_or None a) m (head_or None b) ->
  first (the_list s') = head_or None l' ->
  last (the_list s') = last_or None l' ->
  becomes s l l' s'.
Proof.
  intros (Hn0 & Hseg & _ & _) -> -> Hn H1 H2 H3 Hm Hf Hl.
  rewrite !seg_app in Hseg. destruct Hseg as (Ha & _ & Hb).
  pose proof (last_look (look s) a _ Ha) as Hla. pose proof (head_look (look s) b _ Hb) as Hhb.
  apply NoDup_app in Hn as Hna. destruct Hna as (_ & Hab & Hnb). apply NoDup_app in Hnb as (_ & Hmb & _).
  assert (Hpa : forall x, last_or None a = Some x -> x ∈ a) by (intros x E; rewrite E in Hla; by destruct Hla as (q & _ & ?)).
  assert (Hhb' : forall x, head_or None b = Some x -> x ∈ b) by (intros x E; rewrite E in Hhb; by destruct Hhb as (q & _ & ?)).
  split; [split_and!; [done| |done|done]|].
  - eapply (seg_splice (look s)); try done.
    + intros x Hx Hne. apply H1; [|done|].
      * intros Hin. apply (Hab x Hx). apply elem_of_app. by left.
      * intros E. apply (Hab x Hx). apply elem_of_app. right. by apply Hhb'.
    + intros x Hx Hne. apply H1; [|  |done].
      * intros Hin. by apply (Hmb x Hin).
      * intros E. apply (Hab x (Hpa x E)). apply elem_of_app. by right.
  - intros y Hy Hy'. rewrite !elem_of_app in Hy, Hy'. apply H1.
    + tauto.
    + intros E. apply Hy. left. by apply Hpa.
    + intros E. apply Hy. right; right. by apply Hhb'.
Qed.

Lemma wp_set_first v s (Q : unit -> store_t -> list Empty_set -> Prop) :
  (forall s', first (the_list s') = v -> last (the_list s') = last (the_list s) ->
    (forall y, look s' y = look s y) -> Q tt s' []) -> wp (set_first v) s Q.
Proof. intros H. unfold set_first. hstep. by apply H. Qed.
Lemma wp_set_last v s (Q : unit -> store_t -> list Empty_set -> Prop) :
  (forall s', last (the_list s') = v -> first (the_list s') = first (the_list s) ->
    (forall y, look s' y = look s y) -> Q tt s' []) -> wp (set_last v) s Q.
Proof. intros H. unfold set_last. hstep. by apply H. Qed.

Lemma last_or_nil q : last_or q [] = q.
Proof. done. Qed.
(** Linking a neighbour that may be the end of the list. *)
Lemma wp_link_next pa v s (Q : unit -> store_t -> list Empty_set -> Prop) :
  (forall t, pa = Some t -> is_Some (look s t)) ->
  (forall s', first (the_list s') = match pa with Some _ => first (the_list s) | None => v end ->
    last (the_list s') = last (the_list s) ->
    (forall y, look s' y = if decide (pa = Some y) then (fun lk => (lk.1, v)) <$> look s y else look s y) ->
    Q tt s' []) ->
  wp (match pa with Some t => set_n t v | None => set_first v end) s Q.
Proof.
  intros Hs HQ. destruct pa as [t|].
  - destruct (Hs t eq_refl) as [lk Hlk]. eapply wp_set_n; [exact Hlk|]. intros s' H1 H2.
    apply HQ; [by rewrite H1|by rewrite H1|]. intros y. rewrite H2.
    destruct (decide (y = t)) as [->|]; [by rewrite decide_True, Hlk by done|by rewrite decide_False by congruence].
  - apply wp_set_first. intros s' H1 H2 H3. apply HQ; [done|done|]. intros y. by rewrite H3.
Qed.
Lemma wp_link_prev hb v s (Q : unit -> store_t -> list Empty_set -> Prop) :
  (forall t, hb = Some t -> is_Some (look s t)) ->
  (forall s', first (the_list s') = first (the_list s) ->
    last (the_list s') = match hb with Some _ => last (the_list s) | None => v end ->
    (forall y, look s' y = if decide (hb = Some y) then (fun lk => (v, lk.2)) <$> look s y else look s y) ->
    Q tt s' []) ->
  wp (match hb with Some t => set_p t v | None => set_last v end) s Q.
Proof.
  intros Hs HQ. destruct hb as [t|].
  - destruct (Hs t eq_refl) as [lk Hlk]. eapply wp_set_p; [exact Hlk|]. intros s' H1 H2.
    apply HQ; [by rewrite H1|by rewrite H1|]. intros y. rewrite H2.
    destruct (decide (y = t)) as [->|]; [by rewrite decide_True, Hlk by done|by rewrite decide_False by congruence].
  - apply wp_set_last. intros s' H1 H2 H3. apply HQ; [done|done|]. intros y. by rewrite H3.
Qed.

(** Reads the links of a state from those of the states before it. *)
Ltac look_simpl :=
  rewrite ?last_or_app, ?last_or_cons, ?last_or_nil, ?head_or_app in *;
  cbn [head_or fst snd] in *;
  repeat match goal with
  | H : _ ∉ _ :: _ |- _ => apply not_elem_of_cons in H as [? ?]
  | H : forall y, look ?s y = _ |- context [look ?s _] => rewrite H
  | |- context [decide (?x = ?y)] => destruct (decide (x = y)); [subst|]
  end; simplify_eq; try congruence; eauto.
Ltac step_set :=
  try lazymatch goal with |- wp (_ ≫= _) _ _ => apply wp_bind end;
  rewrite ?last_or_app, ?last_or_cons, ?last_or_nil; cbn [head_or fst snd];
  lazymatch goal with
  | |- wp (set_p _ _) _ _ => eapply wp_set_p; [by look_simpl|intros ? ? ?]
  | |- wp (set_n _ _) _ _ => eapply wp_set_n; [by look_simpl|intros ? ? ?]
  | |- wp (set_first _) _ _ => apply wp_set_first; intros ? ? ? ?
  | |- wp (set_last _) _ _ => apply wp_set_last; intros ? ? ? ?
  end.
Ltac step_get :=
  try lazymatch goal with |- wp (_ ≫= _) _ _ => apply wp_bind end;
  rewrite ?last_or_app, ?last_or_cons, ?last_or_nil; cbn [head_or fst snd];
  lazymatch goal with
  | |- wp (get_p _) _ _ => eapply wp_get_p; [by look_simpl|]
  | |- wp (get_n _) _ _ => eapply wp_get_n; [by look_simpl|]
  end; rewrite ?last_or_app, ?last_or_cons, ?last_or_nil; cbn [head_or fst snd].
Ltac splice a mid m b :=
  eapply (splice_becomes _ _ a mid m b);
    [ eassumption | by rewrite ?app_nil_r, <- ?app_assoc | by rewrite ?app_nil_r, <- ?app_assoc |
    | intros; look_simpl | intros; look_simpl | intros; look_simpl | cbn [seg]; split_and?; look_simpl
    | look_simpl | look_simpl ].

Lemma NoDup_insert (a b : list ptr) x : NoDup (a ++ b) -> x ∉ a ++ b -> NoDup (a ++ x :: b).
Proof. rewrite <- Permutation_middle. by constructor. Qed.

Lemma append_ok x l s : makes s (the_list s) l -> is_Some (look s x) -> x ∉ l ->
  wp (LinkedList1_Append x) s (fun _ s' _ => becomes s l (l ++ [x]) s').
Proof.
  intros Hm [lk Hx] Hni. pose proof Hm as (Hn & Hseg & Hf & Hl).
  assert (Hn' : NoDup (l ++ [x])) by (apply NoDup_insert; by rewrite app_nil_r).
  unfold LinkedList1_Append, get_list. hstep. hstep.
  step_set. step_set. rewrite Hl.
  destruct l as [|z l _] using rev_ind.
  - hstep. step_set. step_set. by splice (@nil ptr) (@nil ptr) [x] (@nil ptr).
  - rewrite seg_app in Hseg. destruct Hseg as (_ & Hz & _). rewrite last_or_app. cbn in Hz |- *.
    rewrite elem_of_app, list_elem_of_singleton in Hni.
    assert (z <> x) by (intros ->; tauto).
    step_set. step_set. by splice (l ++ [z]) (@nil ptr) [x] (@nil ptr).
Qed.

Lemma prepend_ok x l s : makes s (the_list s) l -> is_Some (look s x) -> x ∉ l ->
  wp (LinkedList1_Prepend x) s (fun _ s' _ => becomes s l (x :: l) s').
Proof.
  intros Hm [lk Hx] Hni. pose proof Hm as (Hn & Hseg & Hf & Hl).
  assert (Hn' : NoDup (x :: l)) by by constructor.
  unfold LinkedList1_Prepend, get_list. hstep. hstep.
  step_set. step_set. rewrite Hf. destruct l as [|z l].
  - hstep. step_set. step_set. by splice (@nil ptr) (@nil ptr) [x] (@nil ptr).
  - destruct Hseg as [Hz _]. apply not_elem_of_cons in Hni as [Hne _].
    step_set. step_set. by splice (@nil ptr) (@nil ptr) [x] (z :: l).
Qed.

Lemma insert_before_ok x t a b s : makes s (the_list s) (a ++ t :: b) -> is_Some (look s x) ->
  x ∉ a ++ t :: b ->
  wp (LinkedList1_InsertBefore x t) s (fun _ s' _ => becomes s (a ++ t :: b) (a ++ x :: t :: b) s').
Proof.
  intros Hm [lk Hx] Hni. pose proof Hm as (Hn & Hseg & Hf & Hl).
  assert (Hn' : NoDup (a ++ x :: t :: b)) by by apply NoDup_insert.
  rewrite seg_app in Hseg. destruct Hseg as (Ha & Ht & _).
  apply not_elem_of_app in Hni as [Hxa [Hxt Hxb]%not_elem_of_cons].
  unfold LinkedList1_InsertBefore. step_get. step_set. step_set. step_get.
  destruct a as [|z a _] using rev_ind.
  - hstep. step_set. step_set. by splice (@nil ptr) (@nil ptr) [x] (t :: b).
  - rewrite seg_app in Ha. destruct Ha as (_ & Hz & _). rewrite last_or_app in *. cbn in Hz |- *.
    apply not_elem_of_app in Hxa as [_ [Hxz _]%not_elem_of_cons].
    assert (z <> t). { intros ->. rewrite <- app_assoc in Hn. apply NoDup_app in Hn as (_ & _ & [Hn _]%NoDup_cons). apply Hn. left. }
    step_set. step_set. by splice (a ++ [z]) (@nil ptr) [x] (t :: b).
Qed.

Lemma insert_after_ok x t a b s : makes s (the_list s) (a ++ t :: b) -> is_Some (look s x) ->
  x ∉ a ++ t :: b ->
  wp (LinkedList1_InsertAfter x t) s (fun _ s' _ => becomes s (a ++ t :: b) (a ++ t :: x :: b) s').
Proof.
  intros Hm [lk Hx] Hni. pose proof Hm as (Hn & Hseg & Hf & Hl).
  assert (Hn' : NoDup (a ++ t :: x :: b)).
  { replace (a ++ t :: x :: b) with ((a ++ [t]) ++ x :: b) by by rewrite <- app_assoc.
    apply NoDup_insert; by rewrite <- app_assoc. }
  rewrite seg_app in Hseg. destruct Hseg as (Ha & Ht & Hb).
  apply not_elem_of_app in Hni as [Hxa [Hxt Hxb]%not_elem_of_cons].
  unfold LinkedList1_InsertAfter. step_set. step_get. step_set. step_get.
  destruct b as [|z b].
  - hstep. step_set. step_set. by splice (a ++ [t]) (@nil ptr) [x] (@nil ptr).
  - destruct Hb as [Hz _]. apply not_elem_of_cons in Hxb as [Hxz _].
    assert (z <> t). { intros ->. apply NoDup_app in Hn as (_ & _ & [Hn _]%NoDup_cons). apply Hn. left. }
    step_set. step_set. by splice (a ++ [t]) (@nil ptr) [x] (z :: b).
Qed.

Lemma remove_node_ok x a b s : makes s (the_list s) (a ++ x :: b) ->
  wp (LinkedList1_Remove x) s (fun _ s' _ => becomes s (a ++ x :: b) (a ++ b) s').
Proof.
  intros Hm. pose proof Hm as (Hn & Hseg & Hf & Hl).
  assert (Hn' : NoDup (a ++ b)) by (rewrite <- Permutation_middle in Hn; by apply NoDup_cons in Hn as []).
  rewrite seg_app in Hseg. destruct Hseg as (Ha & Hx & Hb). pose proof Hn as Hnx.
  rewrite <- Permutation_middle in Hnx. apply NoDup_cons in Hnx as [[Hxa Hxb]%not_elem_of_app _].
  unfold LinkedList1_Remove. step_get. step_get. 
  assert (Hxy : forall y, y ∈ a -> x <> y) by by intros y Hy ->.
  assert (Hxz : forall z, z ∈ b -> x <> z) by by intros z Hz ->.
  assert (Hyz : forall y z, y ∈ a -> z ∈ b -> y <> z).
  { intros y z Hy Hz ->. apply NoDup_app in Hn' as (_ & Hd & _). by apply (Hd z). }
  destruct a as [|y a _] using rev_ind.
  - destruct b as [|z b].
    + step_set. step_get. step_get. step_set. by splice (@nil ptr) [x] (@nil ptr) (@nil ptr).
    + destruct Hb as [Hz _]. specialize (Hxz z ltac:(left)).
      step_set. step_get. step_get. step_set. by splice (@nil ptr) [x] (@nil ptr) (z :: b).
  - rewrite seg_app in Ha. destruct Ha as (_ & Hy & _). cbn in Hy. rewrite !last_or_app in *. cbn in *.
    assert (Hya : y ∈ a ++ [y]) by (apply elem_of_app; right; left). specialize (Hxy y Hya).
    destruct b as [|z b].
    + step_set. step_get. step_get. step_set. by splice (a ++ [y]) [x] (@nil ptr) (@nil ptr).
    + destruct Hb as [Hz _]. specialize (Hxz z ltac:(left)). specialize (Hyz y z Hya ltac:(left)).
      step_set. step_get. step_get. step_set. by splice (a ++ [y]) [x] (@nil ptr) (z :: b).
Qed.

(** A whole list is put between two neighbours by its ends. *)
Lemma chain_ends s s1 s2 k f e pa hb lkf lke : NoDup k ->
  head_or None k = Some f -> last_or None k = Some e -> seg (look s) None k None ->
  look s f = Some lkf -> (forall y, look s1 y = if decide (y = f) then Some (pa, lkf.2) else look s y) ->
  look s1 e = Some lke -> (forall y, look s2 y = if decide (y = e) then Some (lke.1, hb) else look s1 y) ->
  seg (look s2) pa k hb.
Proof.
  intros Hn Hf He Hk Hlf H1 Hle H2.
  apply (seg_set_next (look s1) _ _ _ None); [done|..|apply (seg_set_prev (look s) _ None); [done|..|done]].
  - intros x _ Hne. rewrite H2, decide_False; [done|congruence].
  - intros x lk Hx Hlk. rewrite He in Hx. injection Hx as <-. rewrite H2, decide_True by done. congruence.
  - intros x _ Hne. rewrite H1, decide_False; [done|congruence].
  - intros x lk Hx Hlk. rewrite Hf in Hx. injection Hx as <-. rewrite H1, decide_True by done. congruence.
Qed.

Lemma insert_list_ok h k a b s : makes s (the_list s) (a ++ b) -> makes s h k ->
  (forall x, x ∈ k -> x ∉ a ++ b) ->
  wp (LinkedList1_InsertListAfter h (last_or None a)) s (fun _ s' _ => becomes s (a ++ b) (a ++ k ++ b) s').
Proof.
  intros Hm (Hnk & Hk & Hkf & Hkl) Hd. pose proof Hm as (Hn & Hseg & Hf & Hl).
  assert (Hn' : NoDup (a ++ k ++ b)).
  { apply NoDup_app in Hn as (Hna & Hab & Hnb). apply NoDup_app. split_and!; [done| |].
    - intros x Hx. rewrite elem_of_app. intros [Hx'|Hx']; [|by apply (Hab x)].
      apply (Hd x Hx'). apply elem_of_app. by left.
    - apply NoDup_app. split_and!; [done| |done]. intros x Hx Hx'. apply (Hd x Hx). apply elem_of_app. by right. }
  rewrite seg_app in Hseg. destruct Hseg as (Ha & Hb).
  unfold LinkedList1_InsertListAfter. rewrite Hkf.
  destruct k as [|f k]; cbn [head_or app] in *; [hstep; done|].
  assert (He : exists e, last_or None (f :: k) = Some e).
  { rewrite last_or_cons. unfold last_or. destruct (list.last k); eauto. }
  destruct He as [e He]. assert (Hfk : f ∈ f :: k) by left.
  assert (Hek : e ∈ f :: k).
  { pose proof (last_look (look s) (f :: k) None Hk) as H. rewrite He in H. by destruct H as (q & _ & ?). }
  pose proof (Hd f Hfk) as Hfd. pose proof (Hd e Hek) as Hed.
  assert (Hle : exists lke, look s e = Some lke).
  { pose proof (last_look (look s) (f :: k) None Hk) as H. rewrite He in H. destruct H as (q & ? & _). eauto. }
  destruct Hle as [lke Hle]. pose proof Hk as [Hlf _].
  unfold get_list. hstep. hstep.
  assert (Hnext : forall Q : option ptr -> store_t -> list Empty_set -> Prop, Q (head_or None b) s [] ->
    wp (match last_or None a with Some t => get_n t | None => mret (first (the_list s)) end) s Q).
  { intros Q HQ. pose proof (last_look (look s) a _ Ha) as Hla. destruct (last_or None a) as [t|] eqn:Et.
    - destruct Hla as (q & Ht & _). eapply wp_get_n; [exact Ht|done].
    - subst a. hstep. by rewrite Hf. }
  hstep. apply Hnext. clear Hnext.
  set (hb := head_or None b) in *. set (pa := last_or None a) in *.
  hstep. eapply wp_set_p; [exact Hlf|]. intros s1 Hl1 H1.
  hstep. eapply wp_of_option; [by rewrite Hkl|].
  assert (Hle1 : exists lke1, look s1 e = Some lke1) by (rewrite H1; case_decide; eauto).
  destruct Hle1 as [lke1 Hle1]. hstep. eapply wp_set_n; [exact Hle1|]. intros s2 Hl2 H2.
  assert (Hseg2 : seg (look s2) pa (f :: k) hb) by by eapply chain_ends.
  assert (Hother : forall y, y ∉ f :: k -> look s2 y = look s y).
  { intros y Hy. rewrite H2, H1, !decide_False by congruence. done. }
  assert (Hpa : forall t, pa = Some t -> t ∈ a /\ is_Some (look s t)).
  { intros t Et. pose proof (last_look (look s) a _ Ha) as H. fold pa in H. rewrite Et in H.
    destruct H as (q & -> & ?). eauto. }
  assert (Hhb : forall t, hb = Some t -> t ∈ b /\ is_Some (look s t)).
  { intros t Et. pose proof (head_look (look s) b _ Hb) as H. fold hb in H. rewrite Et in H.
    destruct H as (q & -> & ?). eauto. }
  assert (Hout : forall t, t ∈ a ++ b -> t ∉ f :: k) by (intros t Ht Ht'; by apply (Hd t Ht')).
  assert (Hpao : forall t, pa = Some t -> look s2 t = look s t).
  { intros t Et. apply Hother, Hout, elem_of_app. left. by apply Hpa. }
  assert (Hhbo : forall t, hb = Some t -> look s2 t = look s t).
  { intros t Et. apply Hother, Hout, elem_of_app. right. by apply Hhb. }
  assert (Hne : forall t, pa = Some t -> hb <> Some t).
  { intros t Et Et'. apply NoDup_app in Hn as (_ & Hab & _). apply (Hab t); [by apply Hpa|by apply Hhb]. }
  hstep. apply wp_link_next; [intros t Et; rewrite Hpao by done; by apply Hpa|]. intros s3 Hf3 Hl3 H3.
  apply wp_link_prev.
  { intros t Et. rewrite H3, decide_False by (intros E; by apply (Hne t)). rewrite Hhbo by done. by apply Hhb. }
  intros s4 Hf4 Hl4 H4.
  eapply (splice_becomes s s4 a [] (f :: k) b); [exact Hm|done|done|done|..]; fold pa hb.
  - intros y Hy Hpy Hby. by rewrite H4, H3, !decide_False, Hother by done.
  - intros z q Ez Hz. rewrite H4, decide_False by by apply Hne. rewrite H3, decide_True by done.
    by rewrite Hpao, Hz by done.
  - intros z q Ez Hz. rewrite H4, decide_True by done.
    rewrite H3, decide_False by (intros E; by apply (Hne z)). rewrite Hhbo, Hz by done. cbn. do 2 f_equal.
    by rewrite last_or_cons, <- He, last_or_cons.
  - eapply seg_ext; [|exact Hseg2]. intros y Hy. rewrite H4, H3, !decide_False; [done|..].
    + intros Et. apply (Hd y Hy), elem_of_app. left. by apply Hpa.
    + intros Et. apply (Hd y Hy), elem_of_app. right. by apply Hhb.
  - rewrite Hf4, Hf3, Hl2, Hl1, Hf, !head_or_app. cbn [head_or].
    pose proof (last_look (look s) a _ Ha) as H. fold pa in H. destruct pa as [t|]; [|by rewrite H].
    destruct H as (q & _ & H). destruct a; [by apply not_elem_of_nil in H|done].
  - rewrite Hl4, Hl3, Hl2, Hl1, Hl, !last_or_app.
    pose proof (head_look (look s) b _ Hb) as H. fold hb in H. destruct hb as [t|] eqn:Eb.
    + destruct b as [|z b']; [done|]. by rewrite !last_or_cons, last_or_app, last_or_cons.
    + rewrite H, app_nil_r, last_or_cons, <- He. by rewrite last_or_cons.
Qed.
End LinkedListProofs.

Section LinkedList.
Import LinkedListProofs.

Lemma list_exec_ok s o l l' : makes s (the_list s) l -> list_spec s o l l' ->
  wp (exec o) s (fun _ s' _ => becomes s l l' s').
Proof.
  intros Hm Hs. destruct Hs; cbn [exec].
  - by apply prepend_ok.
  - by apply append_ok.
  - by apply insert_before_ok.
  - by apply insert_after_ok.
  - by apply remove_node_ok.
  - by apply insert_list_ok.
Qed.

(** Every operation of the doubly linked list does to the linked nodes what
    its name says of the list they make: it follows no pointer that is not to
    a node, and afterwards the header and the nodes make the list with the
    node at its new place (or without it, or with the other list put in), with
    all links in both directions right; no other node is written to. *)
Theorem linkedlist1_refines s o l l' :
  makes s (the_list s) l -> list_spec s o l l' ->
  exists s', exec o s = Some (tt, s', []) /\ becomes s l l' s'.
Proof.
  intros Hm Hs. pose proof (list_exec_ok s o l l' Hm Hs) as H. apply wp_spec in H as ([] & s' & out & H & Hb).
  destruct out as [|[]]. eauto.
Qed.

Definition demo_store : store_t :=
  mk_store {[ 1%nat := mk_node None (Some 2%nat); 2%nat := mk_node (Some 1%nat) None;
    3%nat := mk_node None None; 7%nat := mk_node None (Some 8%nat); 8%nat := mk_node (Some 7%nat) None ]}
    (mk_list (Some 1%nat) (Some 2%nat)).

Lemma demo_makes : makes demo_store (the_list demo_store) [1; 2]%nat.
Proof.
  split; [apply (bool_decide_unpack _); by vm_compute|].
  split; [|done]. split; [done|]. by split.
Qed.
Lemma demo_makes_other : makes demo_store (mk_list (Some 7%nat) (Some 8%nat)) [7; 8]%nat.
Proof.
  split; [apply (bool_decide_unpack _); by vm_compute|].
  split; [|done]. split; [done|]. by split.
Qed.

Lemma linkedlist1_refines_witness :
  (exists s', exec (InsertListAfter (mk_list (Some 7%nat) (Some 8%nat)) (Some 1%nat)) demo_store
     = Some (tt, s', []) /\ becomes demo_store [1; 2]%nat [1; 7; 8; 2]%nat s') /\
  (exists s', exec (InsertBefore 3%nat 2%nat) demo_store = Some (tt, s', []) /\
     becomes demo_store [1; 2]%nat [1; 3; 2]%nat s').
Proof.
  split.
  - apply (linkedlist1_refines demo_store _ [1; 2]%nat [1; 7; 8; 2]%nat demo_makes).
    apply (spec_list demo_store _ [7; 8]%nat [1]%nat [2]%nat); [apply demo_makes_other|]. apply Forall_forall.
    apply (bool_decide_unpack (Forall (fun x => x ∉ [1; 2]%nat) [7; 8]%nat)). by vm_compute.
  - apply (linkedlist1_refines demo_store _ [1; 2]%nat [1; 3; 2]%nat demo_makes).
    apply (spec_before demo_store 3%nat 2%nat [1]%nat []); [by eexists|].
    apply (bool_decide_unpack _). by vm_compute.
Defined.

(** The queries read the list. *)
Lemma linkedlist1_queries s l : makes s (the_list s) l ->
  LinkedList1_IsEmpty s = Some (bool_decide (l = []), s, []) /\
  LinkedList1_GetFirst s = Some (head_or None l, s, []) /\
  LinkedList1_GetLast s = Some (last_or None l, s, []) /\
  (forall a x b, l = a ++ x :: b ->
    LinkedList1Node_Next x s = Some (head_or None b, s, []) /\
    LinkedList1Node_Prev x s = Some (last_or None a, s, [])).
Proof.
  intros (Hn & Hseg & Hf & Hl). split_and!.
  - change (LinkedList1_IsEmpty s) with
      (Some (match first (the_list s) with Some _ => false | None => true end, s, @nil Empty_set)).
    rewrite Hf. by destruct l.
  - by rewrite <- Hf.
  - by rewrite <- Hl.
  - intros a x b ->. rewrite Chain.seg_app in Hseg. destruct Hseg as (_ & Hx & _).
    split; apply wp_eq; [eapply wp_get_n|eapply wp_get_p]; by eauto.
Qed.

(** An initialised list is empty. *)
Lemma linkedlist1_init s : exists s', LinkedList1_Init s = Some (tt, s', []) /\ makes s' (the_list s') [].
Proof. eexists. split; [done|]. by split; [constructor|]. Qed.
End LinkedList.
