(* ===== verification/BPending.v ===== *)
(** * Pending jobs

    [base/BPending.c] over [structure/SLinkedList_impl.h] (instantiated by
    [base/BPending_list.h]: no pointer to the last entry).  Jobs are objects
    in a heap, linked into the list of their group; that an object is not
    pending is encoded by its [next] pointing to itself.  What this amounts to,
    a stack of jobs, is [JobStack]; the theorem says that the pointers
    implement it.

    [JobQueue] is what the reactor uses of a group. *)
From S2P Require Import Prelude LinkedList.

(** Functions and user pointers are addresses. *)
Abbreviation code := nat.

(** ** State *)

Record BPending__ListNode := mk_pending_node { prev : option ptr; next : option ptr }.
#[export] Instance pending_node_eta : Eta BPending__ListNode := fun r => mk_pending_node (prev r) (next r).

Record BSmallPending := mk_pending { handler_fn : code; user : ptr; pending_node : BPending__ListNode }.
#[export] Instance pending_eta : Eta BSmallPending :=
  fun r => mk_pending (handler_fn r) (user r) (pending_node r).

(** The group, with the memory its jobs are in. *)
Record BPendingGroup := mk_group { jobs_first : option ptr; heap : gmap ptr BSmallPending }.
#[export] Instance group_eta : Eta BPendingGroup := fun r => mk_group (jobs_first r) (heap r).

(** A call of a handler. *)
Record out := Run { run_handler : code; run_user : ptr }.
Definition hdl := handler BPendingGroup out.

Definition deref (o : ptr) : hdl BSmallPending := g ← get; of_option (heap g !! o).
Definition set_object (o : ptr) (f : BSmallPending -> BSmallPending) : hdl unit :=
  p ← deref o; modify (fun g => g <| heap := <[o := f p]> (heap g) |>).
Definition set_prev (o : ptr) (v : option ptr) : hdl unit :=
  set_object o (fun p => p <| pending_node := (pending_node p <| prev := v |>) |>).
Definition set_next (o : ptr) (v : option ptr) : hdl unit :=
  set_object o (fun p => p <| pending_node := (pending_node p <| next := v |>) |>).
Definition set_jobs_first (v : option ptr) : hdl unit := modify (fun g => g <| jobs_first := v |>).

(** ** The list *)

Definition BPending__List_Init : hdl unit := set_jobs_first None.
Definition BPending__List_IsEmpty : hdl bool :=
  g ← get; mret (match jobs_first g with Some _ => false | None => true end).
Definition BPending__List_First : hdl (option ptr) := gets jobs_first.

Definition BPending__List_Prepend (entry : ptr) : hdl unit :=
  set_prev entry None;;
  g ← get;
  set_next entry (jobs_first g);;
  match jobs_first g with
  | Some f => set_prev f (Some entry)
  | None => mret tt
  end;;
  set_jobs_first (Some entry).

Definition BPending__List_Remove (entry : ptr) : hdl unit :=
  e ← deref entry;
  match prev (pending_node e) with
  | Some q => set_next q (next (pending_node e))
  | None => set_jobs_first (next (pending_node e))
  end;;
  e ← deref entry;
  match next (pending_node e) with
  | Some q => set_prev q (prev (pending_node e))
  | None => mret tt
  end.

(** ** Operations *)

Definition BPendingGroup_Init : hdl unit := BPending__List_Init.

Definition BPendingGroup_Free : hdl unit := empty ← BPending__List_IsEmpty; ASSERT empty.

Definition BPendingGroup_HasJobs : hdl bool := empty ← BPending__List_IsEmpty; mret (negb empty).

(** [o->pending_node.next != o] *)
Definition is_pending (o : ptr) : hdl bool :=
  p ← deref o; mret (negb (bool_decide (next (pending_node p) = Some o))).

Definition BPendingGroup_ExecuteJob : hdl unit :=
  empty ← BPending__List_IsEmpty;
  ASSERT (negb empty);;
  first ← BPending__List_First;
  p ← of_option first;
  pending ← is_pending p;
  ASSERT pending;;
  BPending__List_Remove p;;
  set_next p (Some p);;
  o ← deref p;
  call (Run (handler_fn o) (user o)).

Definition BPendingGroup_PeekJob : hdl (option ptr) := BPending__List_First.

Definition BSmallPending_Init (o : ptr) (h : code) (u : ptr) : hdl unit :=
  set_object o (fun p => p <| handler_fn := h |>);;
  set_object o (fun p => p <| user := u |>);;
  set_next o (Some o).

Definition BSmallPending_Free (o : ptr) : hdl unit :=
  pending ← is_pending o;
  if pending : bool then BPending__List_Remove o else mret tt.

Definition BSmallPending_SetHandler (o : ptr) (h : code) (u : ptr) : hdl unit :=
  set_object o (fun p => p <| handler_fn := h |>);;
  set_object o (fun p => p <| user := u |>).

Definition BSmallPending_Set (o : ptr) : hdl unit :=
  pending ← is_pending o;
  (if pending : bool then BPending__List_Remove o else mret tt);;
  BPending__List_Prepend o.

Definition BSmallPending_Unset (o : ptr) : hdl unit :=
  pending ← is_pending o;
  if pending : bool then BPending__List_Remove o;; set_next o (Some o) else mret tt.

Definition BSmallPending_IsSet (o : ptr) : hdl bool := is_pending o.

(** ** Operations as data *)

Inductive op :=
  | Init (o : ptr) (h : code) (u : ptr)
  | Free (o : ptr)
  | SetHandler (o : ptr) (h : code) (u : ptr)
  | Set_ (o : ptr)
  | Unset (o : ptr)
  | IsSet (o : ptr)
  | HasJobs
  | PeekJob
  | ExecuteJob.
Inductive result := RUnit | RBool (b : bool) | RPtr (p : option ptr).
#[export] Instance result_eq_dec : EqDecision result.
Proof. solve_decision. Defined.

Definition exec (i : op) : hdl result :=
  match i with
  | Init o h u => BSmallPending_Init o h u;; mret RUnit
  | Free o => BSmallPending_Free o;; mret RUnit
  | SetHandler o h u => BSmallPending_SetHandler o h u;; mret RUnit
  | Set_ o => BSmallPending_Set o;; mret RUnit
  | Unset o => BSmallPending_Unset o;; mret RUnit
  | IsSet o => b ← BSmallPending_IsSet o; mret (RBool b)
  | HasJobs => b ← BPendingGroup_HasJobs; mret (RBool b)
  | PeekJob => p ← BPendingGroup_PeekJob; mret (RPtr p)
  | ExecuteJob => BPendingGroup_ExecuteJob;; mret RUnit
  end.

Fixpoint exec_all (l : list op) : hdl (list result) :=
  match l with [] => mret [] | i :: l => r ← exec i; rs ← exec_all l; mret (r :: rs) end.

(** ** The stack of jobs *)

Module JobStack.

(** The jobs that are set, the last one set first; what each initialised job
    calls; and the memory where jobs can be put. *)
Record state := mk_stack { stack : list ptr; jobs : gmap ptr (code * ptr); room : gset ptr }.
#[global] Instance stack_eta : Eta state := fun r => mk_stack (stack r) (jobs r) (room r).

(** [None]: the caller must not do this. *)
Definition step (s : state) (i : op) : option (result * state * list out) :=
  match i with
  | Init o h u =>
      if bool_decide (o ∈ room s)
      then Some (RUnit, s <| jobs := <[o := (h, u)]> (jobs s) |> <| room := room s ∖ {[o]} |>, [])
      else None
  | Free o =>
      _ ← jobs s !! o;
      Some (RUnit, s <| stack := without o (stack s) |> <| jobs := delete o (jobs s) |>
                     <| room := room s ∪ {[o]} |>, [])
  | SetHandler o h u =>
      _ ← jobs s !! o; Some (RUnit, s <| jobs := <[o := (h, u)]> (jobs s) |>, [])
  | Set_ o => _ ← jobs s !! o; Some (RUnit, s <| stack := o :: without o (stack s) |>, [])
  | Unset o => _ ← jobs s !! o; Some (RUnit, s <| stack := without o (stack s) |>, [])
  | IsSet o => _ ← jobs s !! o; Some (RBool (bool_decide (o ∈ stack s)), s, [])
  | HasJobs => Some (RBool (negb (bool_decide (stack s = []))), s, [])
  | PeekJob => Some (RPtr (head (stack s)), s, [])
  | ExecuteJob =>
      match stack s with
      | [] => None
      | o :: l => '(h, u) ← jobs s !! o; Some (RUnit, s <| stack := l |>, [Run h u])
      end
  end.

Fixpoint steps (s : state) (l : list op) : option (list result * state * list out) :=
  match l with
  | [] => Some ([], s, [])
  | i :: l => '(r, s1, o1) ← step s i; '(rs, s2, o2) ← steps s1 l; Some (r :: rs, s2, o1 ++ o2)
  end.
End JobStack.

(** ** The pointers implement the stack *)

Definition look (g : BPendingGroup) (o : ptr) : option (option ptr * option ptr) :=
  (fun p => (prev (pending_node p), next (pending_node p))) <$> heap g !! o.
Definition info (g : BPendingGroup) (o : ptr) : option (code * ptr) :=
  (fun p => (handler_fn p, user p)) <$> heap g !! o.
#[global] Arguments look : simpl never.
#[global] Arguments info : simpl never.

(** The group has the jobs [l], in this order. *)
Definition lists (g : BPendingGroup) (l : list ptr) : Prop :=
  NoDup l /\ Chain.seg (look g) None l None /\ jobs_first g = head_or None l.

Record implements (g : BPendingGroup) (s : JobStack.state) : Prop := {
  imp_lists : lists g (JobStack.stack s);
  imp_set : forall o, o ∈ JobStack.stack s -> is_Some (JobStack.jobs s !! o);
  imp_info : forall o c, JobStack.jobs s !! o = Some c -> info g o = Some c;
  imp_unset : forall o c, JobStack.jobs s !! o = Some c -> o ∉ JobStack.stack s ->
    exists q, look g o = Some (q, Some o);
  imp_room : forall o, o ∈ JobStack.room s -> is_Some (heap g !! o) /\ JobStack.jobs s !! o = None;
}.

Module BPendingProofs.
Import Chain JobStack.

Lemma heap_look g o p : heap g !! o = Some p ->
  look g o = Some (prev (pending_node p), next (pending_node p)) /\ info g o = Some (handler_fn p, user p).
Proof. unfold look, info. by intros ->. Qed.
Lemma look_heap g o lk : look g o = Some lk -> exists p, heap g !! o = Some p /\
  lk = (prev (pending_node p), next (pending_node p)) /\ info g o = Some (handler_fn p, user p).
Proof. unfold look, info. destruct (heap g !! o) as [p|]; [|done]. intros [= <-]. eauto. Qed.

Lemma wp_object o p g (Q : BSmallPending -> BPendingGroup -> list out -> Prop) :
  heap g !! o = Some p -> Q p g [] -> wp (deref o) g Q.
Proof. intros H HQ. unfold deref. hstep. hstep. eapply wp_of_option; [exact H|]. exact HQ. Qed.

Lemma wp_set_object o f p g (Q : unit -> BPendingGroup -> list out -> Prop) : heap g !! o = Some p ->
  Q tt (g <| heap := <[o := f p]> (heap g) |>) [] -> wp (set_object o f) g Q.
Proof. intros H HQ. unfold set_object. hstep. eapply wp_object; [exact H|]. by hstep. Qed.

(** Writing a link keeps what the job calls. *)
Definition relinks (g g' : BPendingGroup) (o : ptr) (lk : option ptr * option ptr) : Prop :=
  jobs_first g' = jobs_first g /\ (forall y, look g' y = if decide (y = o) then Some lk else look g y) /\
  (forall y, info g' y = info g y).

Lemma relinks_intro g o p p' : heap g !! o = Some p ->
  handler_fn p' = handler_fn p -> user p' = user p ->
  relinks g (g <| heap := <[o := p']> (heap g) |>) o (prev (pending_node p'), next (pending_node p')).
Proof.
  intros Hp Hh Hu. split; [done|]. unfold look, info. split; intros y; cbn.
  - case_decide; [subst; by rewrite lookup_insert_eq|]. by rewrite lookup_insert_ne by congruence.
  - destruct (decide (y = o)) as [->|]; [by rewrite lookup_insert_eq, Hp; cbn; rewrite Hh, Hu|].
    by rewrite lookup_insert_ne by congruence.
Qed.

Lemma wp_set_prev o v lk g (Q : unit -> BPendingGroup -> list out -> Prop) : look g o = Some lk ->
  (forall g', relinks g g' o (v, lk.2) -> Q tt g' []) -> wp (set_prev o v) g Q.
Proof.
  intros (p & Hp & -> & _)%look_heap HQ. eapply wp_set_object; [exact Hp|]. apply HQ.
  by apply (relinks_intro g o p).
Qed.
Lemma wp_set_next o v lk g (Q : unit -> BPendingGroup -> list out -> Prop) : look g o = Some lk ->
  (forall g', relinks g g' o (lk.1, v) -> Q tt g' []) -> wp (set_next o v) g Q.
Proof.
  intros (p & Hp & -> & _)%look_heap HQ. eapply wp_set_object; [exact Hp|]. apply HQ.
  by apply (relinks_intro g o p).
Qed.

(** What becomes of the list: only its members are written to. *)
Definition becomes (g : BPendingGroup) (l' : list ptr) (g' : BPendingGroup) : Prop :=
  lists g' l' /\ (forall y, y ∉ l' -> look g' y = look g y) /\ (forall y, info g' y = info g y).


(** Linking a neighbour that may be the end of the list. *)
Lemma wp_job_next pa v g (Q : unit -> BPendingGroup -> list out -> Prop) :
  (forall t, pa = Some t -> is_Some (look g t)) ->
  (forall g', jobs_first g' = match pa with Some _ => jobs_first g | None => v end ->
    (forall y, look g' y = if decide (pa = Some y) then (fun lk => (lk.1, v)) <$> look g y else look g y) ->
    (forall y, info g' y = info g y) -> Q tt g' []) ->
  wp (match pa with Some t => set_next t v | None => set_jobs_first v end) g Q.
Proof.
  intros Hs HQ. destruct pa as [t|].
  - destruct (Hs t eq_refl) as [lk Hlk]. eapply wp_set_next; [exact Hlk|]. intros g' (H1 & H2 & H3).
    apply HQ; [done| |done]. intros y. rewrite H2.
    destruct (decide (y = t)) as [->|]; [by rewrite decide_True, Hlk by done|by rewrite decide_False by congruence].
  - unfold set_jobs_first. hstep. by apply HQ.
Qed.
Lemma wp_job_prev hb v g (Q : unit -> BPendingGroup -> list out -> Prop) :
  (forall t, hb = Some t -> is_Some (look g t)) ->
  (forall g', jobs_first g' = jobs_first g ->
    (forall y, look g' y = if decide (hb = Some y) then (fun lk => (v, lk.2)) <$> look g y else look g y) ->
    (forall y, info g' y = info g y) -> Q tt g' []) ->
  wp (match hb with Some t => set_prev t v | None => mret tt end) g Q.
Proof.
  intros Hs HQ. destruct hb as [t|].
  - destruct (Hs t eq_refl) as [lk Hlk]. eapply wp_set_prev; [exact Hlk|]. intros g' (H1 & H2 & H3).
    apply HQ; [done| |done]. intros y. rewrite H2.
    destruct (decide (y = t)) as [->|]; [by rewrite decide_True, Hlk by done|by rewrite decide_False by congruence].
  - hstep. by apply HQ.
Qed.

Lemma list_remove_ok o a b g : lists g (a ++ o :: b) ->
  wp (BPending__List_Remove o) g (fun _ g' out => out = [] /\ becomes g (a ++ b) g').
Proof.
  intros (Hn & Hseg & Hf).
  assert (Hn' : NoDup (a ++ b)) by (rewrite <- Permutation_middle in Hn; by apply NoDup_cons in Hn as []).
  rewrite seg_app in Hseg. destruct Hseg as (Ha & Ho & Hb). pose proof Hn as Hno.
  rewrite <- Permutation_middle in Hno. apply NoDup_cons in Hno as [[Hoa Hob]%not_elem_of_app _].
  pose proof (last_look _ _ _ Ha) as Hla. pose proof (head_look _ _ _ Hb) as Hhb.
  assert (Hpa : forall t, last_or None a = Some t -> is_Some (look g t) /\ t ∈ a).
  { intros t E. rewrite E in Hla. destruct Hla as (q & -> & ?). eauto. }
  assert (Hpb : forall t, head_or None b = Some t -> is_Some (look g t) /\ t ∈ b).
  { intros t E. rewrite E in Hhb. destruct Hhb as (q & -> & ?). eauto. }
  assert (Hab : forall t, last_or None a = Some t -> head_or None b <> Some t).
  { intros t E1 E2. apply NoDup_app in Hn' as (_ & H & _). apply (H t); [by apply Hpa|by apply Hpb]. }
  apply look_heap in Ho as Ho'. destruct Ho' as (p & Hp & [= Hprev Hnext] & _).
  unfold BPending__List_Remove. hstep. eapply wp_object; [exact Hp|]. rewrite <- Hprev, <- Hnext.
  hstep. apply wp_job_next; [intros t E; by apply Hpa|]. intros g1 Hf1 Hl1 Hi1.
  assert (Ho1 : look g1 o = look g o) by (rewrite Hl1, decide_False; [done|intros E; by apply Hpa in E as [_ ?]]).
  rewrite Ho in Ho1. apply look_heap in Ho1 as (p1 & Hp1 & [= Hprev1 Hnext1] & _).
  hstep. eapply wp_object; [exact Hp1|]. rewrite <- Hprev1, <- Hnext1.
  apply wp_job_prev.
  { intros t E. rewrite Hl1, decide_False by (intros E'; by apply (Hab t)). by apply Hpb. }
  intros g2 Hf2 Hl2 Hi2. split; [done|]. split; [split_and!; [done| |]|split].
  - apply (seg_splice (look g) (look g2) a [] b (Some o) (Some o)); try done.
    + intros x Hx Hne. rewrite Hl2, decide_False, Hl1, decide_False; [done|done|].
      intros E. apply NoDup_app in Hn' as (_ & H & _). apply (H x Hx). by apply Hpb.
    + intros x lk E Hlk. rewrite Hl2, decide_False, Hl1, decide_True, Hlk by first [done|by apply Hab]. done.
    + intros x Hx Hne. rewrite Hl2, decide_False, Hl1, decide_False; [done| |done].
      intros E. apply NoDup_app in Hn' as (_ & H & _). apply (H x); [by apply Hpa|done].
    + intros x lk E Hlk. rewrite Hl2, decide_True, Hl1, decide_False, Hlk; [done| |done].
      intros E'. by apply (Hab x).
  - rewrite Hf2, Hf1, Hf, !head_or_app. destruct (last_or None a) as [t|]; [|by rewrite Hla].
    destruct Hla as (q & _ & H). destruct a; [by apply not_elem_of_nil in H|done].
  - intros y [Hya Hyb]%not_elem_of_app. rewrite Hl2, decide_False, Hl1, decide_False; [done|..].
    + intros E. by apply Hpa in E as [_ ?].
    + intros E. by apply Hpb in E as [_ ?].
  - intros y. by rewrite Hi2.
Qed.

Lemma list_prepend_ok o l g : lists g l -> o ∉ l -> is_Some (look g o) ->
  wp (BPending__List_Prepend o) g (fun _ g' out => out = [] /\ becomes g (o :: l) g').
Proof.
  intros (Hn & Hseg & Hf) Hol [lk Hlk]. pose proof (head_look _ _ _ Hseg) as Hhl.
  assert (Hpl : forall t, head_or None l = Some t -> is_Some (look g t) /\ t <> o).
  { intros t E. rewrite E in Hhl. destruct Hhl as (q & -> & Ht). split; [eauto|]. by intros ->. }
  unfold BPending__List_Prepend. hstep. eapply wp_set_prev; [exact Hlk|]. intros g1 (Hf1 & Hl1 & Hi1).
  hstep. hstep. hstep. rewrite Hf1, Hf.
  eapply wp_set_next; [by rewrite Hl1, decide_True by done|]. intros g2 (Hf2 & Hl2 & Hi2).
  hstep. apply wp_job_prev.
  { intros t [Ht Hne]%Hpl. by rewrite Hl2, decide_False, Hl1, decide_False by done. }
  intros g3 Hf3 Hl3 Hi3. unfold set_jobs_first. hstep. split; [done|].
  assert (Hhd : head_or None l <> Some o) by (intros E; by apply Hpl in E as [_ ?]).
  assert (Hother : forall y, y <> o -> head_or None l <> Some y -> look g3 y = look g y).
  { intros y Hy Hy'. by rewrite Hl3, decide_False, Hl2, decide_False, Hl1, decide_False by done. }
  assert (Hs : seg (look g3) None (o :: l) None).
  { apply (seg_splice (look g) (look g3) [] [o] l None None); try done.
    - by apply NoDup_cons.
    - intros x Hx. by apply not_elem_of_nil in Hx.
    - intros x Hx Hne. apply Hother; [by intros ->|done].
    - intros x k E Hk. rewrite Hl3, decide_True, Hl2, decide_False, Hl1, decide_False, Hk
        by first [done|by intros ->]. done.
    - split; [|done]. rewrite Hl3, decide_False, Hl2, decide_True by done. done. }
  split; [split_and!; [by apply NoDup_cons|exact Hs|done]|split].
  - intros y [Hy Hyl]%not_elem_of_cons. apply Hother; [done|]. intros E. rewrite E in Hhl.
    by destruct Hhl as (q & _ & ?).
  - intros y. cbn. by rewrite <- Hi1, <- Hi2, <- Hi3.
Qed.

Lemma info_heap g o : is_Some (heap g !! o) <-> is_Some (info g o).
Proof. unfold info. by rewrite fmap_is_Some. Qed.
Lemma look_is_Some g o : is_Some (look g o) <-> is_Some (heap g !! o).
Proof. unfold look. by rewrite fmap_is_Some. Qed.

Lemma lists_next g l o : lists g l -> o ∈ l -> exists q n, look g o = Some (q, n) /\ n <> Some o.
Proof.
  intros (Hn & Hseg & _) (a & b & ->)%list_elem_of_split.
  rewrite seg_app in Hseg. destruct Hseg as (_ & Ho & _). do 2 eexists. split; [exact Ho|].
  destruct b as [|y b]; [done|]. intros [= ->].
  apply NoDup_app in Hn as (_ & _ & [Hn _]%NoDup_cons). apply Hn. left.
Qed.

Lemma is_pending_ok o c g s : implements g s -> jobs s !! o = Some c ->
  wp (is_pending o) g (fun b g' out => b = bool_decide (o ∈ stack s) /\ g' = g /\ out = []).
Proof.
  intros Hi Hc. unfold is_pending. hstep.
  assert (exists q n, look g o = Some (q, n) /\ bool_decide (n = Some o) = negb (bool_decide (o ∈ stack s))) as (q & n & Hlk & Hb).
  { destruct (decide (o ∈ stack s)) as [Hin|Hin].
    - destruct (lists_next g _ o (imp_lists _ _ Hi) Hin) as (q & n & ? & ?).
      exists q, n. by rewrite (bool_decide_eq_true_2 (o ∈ _)), (bool_decide_eq_false_2 (n = _)).
    - destruct (imp_unset _ _ Hi o c Hc Hin) as (q & ?). exists q, (Some o).
      by rewrite (bool_decide_eq_false_2 (o ∈ _)), (bool_decide_eq_true_2 (Some o = _)). }
  apply look_heap in Hlk as (p & Hp & [= -> ->] & _). eapply wp_object; [exact Hp|].
  hstep. by rewrite Hb, negb_involutive.
Qed.

Lemma becomes_refl g l : lists g l -> becomes g l g.
Proof. intros H. split; [exact H|]. by split. Qed.

(** The first lines of Free, Set and Unset. *)
Lemma detach_ok o c g s : implements g s -> jobs s !! o = Some c -> o ∈ stack s ->
  wp (BPending__List_Remove o) g (fun _ g' out => out = [] /\ becomes g (without o (stack s)) g').
Proof.
  intros Hi Hc Hin. pose proof (imp_lists _ _ Hi) as Hl. pose proof Hl as (Hn & _).
  apply list_elem_of_split in Hin as (a & b & E). rewrite E in *. rewrite without_middle by done.
  by apply list_remove_ok.
Qed.

(** The jobs a change of the list does not move. *)
Lemma implements_becomes g g' s l : implements g s -> lists g' l ->
  (forall y, y ∉ l -> y ∉ stack s -> look g' y = look g y) -> (forall y, info g' y = info g y) ->
  (forall o, o ∈ l -> is_Some (jobs s !! o)) ->
  (forall o, o ∈ stack s -> o ∉ l -> exists q, look g' o = Some (q, Some o)) ->
  implements g' (s <| stack := l |>).
Proof.
  intros Hi Hl Hother Hinfo Hsub Hout. split; cbn.
  - done.
  - done.
  - intros o c Hc. rewrite Hinfo. by apply (imp_info _ _ Hi).
  - intros o c Hc Hno. destruct (decide (o ∈ stack s)); [by apply Hout|].
    rewrite Hother by done. by apply (imp_unset _ _ Hi o c).
  - intros o Ho. destruct (imp_room _ _ Hi o Ho) as [H ?]. split; [|done].
    rewrite info_heap, Hinfo. by rewrite <- info_heap.
Qed.

(** Marking a job that has left the list. *)
Lemma unmark_ok o l g g' lk : becomes g l g' -> o ∉ l -> look g o = Some lk ->
  wp (set_next o (Some o)) g' (fun _ g2 out => out = [] /\ lists g2 l /\
    (forall y, y ∉ l -> y <> o -> look g2 y = look g y) /\ (forall y, info g2 y = info g y) /\
    exists q, look g2 o = Some (q, Some o)).
Proof.
  intros ((Hn & Hseg & Hf) & Hother & Hinfo) Ho Hlk.
  eapply wp_set_next; [rewrite Hother by done; exact Hlk|]. intros g2 (Hf2 & Hl2 & Hi2).
  split_and!; [done| |..].
  - split; [done|]. split; [|by rewrite Hf2]. eapply seg_ext; [|exact Hseg]. intros y Hy. rewrite Hl2, decide_False; [done|by intros ->].
  - intros y Hy Hne. by rewrite Hl2, decide_False, Hother by done.
  - intros y. by rewrite Hi2.
  - rewrite Hl2, decide_True by done. eauto.
Qed.

Lemma without_sub o s l : (forall x, x ∈ l -> is_Some (jobs s !! x)) ->
  forall x, x ∈ without o l -> is_Some (jobs s !! x).
Proof. intros H x [_ Hx]%elem_of_without. by apply H. Qed.

Lemma unset_ok o c g s : implements g s -> jobs s !! o = Some c -> o ∈ stack s ->
  wp (BPending__List_Remove o;; set_next o (Some o)) g
    (fun _ g' out => out = [] /\ implements g' (s <| stack := without o (stack s) |>)).
Proof.
  intros Hi Hc Hin. hstep. eapply wp_mono; [by eapply detach_ok|]. intros _ g1 ? [-> Hb]. cbn.
  destruct (lists_next g _ o (imp_lists _ _ Hi) Hin) as (q & n & Hlk & _).
  assert (Hno : o ∉ without o (stack s)) by (rewrite elem_of_without; tauto).
  eapply wp_mono; [by eapply unmark_ok|]. intros _ g2 ? (-> & Hl & Hother & Hinfo & Ho). split; [done|].
  eapply implements_becomes; [done|done| |done| |].
  - intros y Hy Hy'. apply Hother; [done|]. by intros ->.
  - apply without_sub, (imp_set _ _ Hi).
  - intros y Hy Hy'. rewrite elem_of_without in Hy'. destruct (decide (y = o)) as [->|]; [done|tauto].
Qed.

Lemma becomes_trans g l g1 l' g2 : becomes g l g1 -> becomes g1 l' g2 -> (forall y, y ∈ l -> y ∈ l') ->
  becomes g l' g2.
Proof.
  intros (_ & H1 & H2) (H3 & H4 & H5) Hsub. split; [done|]. split.
  - intros y Hy. rewrite H4 by done. apply H1. intros Hy'. by apply Hy, Hsub.
  - intros y. by rewrite H5.
Qed.

Lemma set_ok o c g s : implements g s -> jobs s !! o = Some c ->
  wp (BSmallPending_Set o) g
    (fun _ g' out => out = [] /\ implements g' (s <| stack := o :: without o (stack s) |>)).
Proof.
  intros Hi Hc. unfold BSmallPending_Set. hstep. eapply wp_mono; [by eapply is_pending_ok|].
  intros b g1 ? (-> & -> & ->). cbn. hstep.
  assert (Hno : o ∉ without o (stack s)) by (rewrite elem_of_without; tauto).
  assert (exists lk, look g o = Some lk) as [lk Hlk].
  { pose proof (imp_info _ _ Hi o c Hc) as H. apply look_is_Some, info_heap. eauto. }
  eapply wp_mono with (P := fun _ g' out => out = [] /\ becomes g (without o (stack s)) g').
  { case_bool_decide as Hin; [by eapply detach_ok|]. hstep. split; [done|].
    rewrite without_not_in by done. apply becomes_refl, (imp_lists _ _ Hi). }
  intros _ g1 ? [-> Hb]. cbn. destruct Hb as (Hl & Hother & Hinfo) eqn:E; clear E.
  eapply wp_mono; [apply list_prepend_ok; [done|done|rewrite Hother by done; eauto]|].
  intros _ g2 ? [-> Hb2]. split; [done|].
  assert (Hb3 : becomes g (o :: without o (stack s)) g2) by (eapply becomes_trans; [done|done|by right]).
  destruct Hb3 as (Hl2 & Hother2 & Hinfo2). eapply implements_becomes; [done|done| |done| |].
  - intros y Hy _. by apply Hother2.
  - intros y [->|Hy]%elem_of_cons; [eauto|]. by eapply without_sub; [apply (imp_set _ _ Hi)|].
  - intros y Hy [? Hy']%not_elem_of_cons. rewrite elem_of_without in Hy'. tauto.
Qed.

Lemma wp_set_handler o h u g (Q : unit -> BPendingGroup -> list out -> Prop) : is_Some (heap g !! o) ->
  (forall g', jobs_first g' = jobs_first g -> (forall y, look g' y = look g y) ->
    (forall y, info g' y = if decide (y = o) then Some (h, u) else info g y) -> Q tt g' []) ->
  wp (BSmallPending_SetHandler o h u) g Q.
Proof.
  intros [p Hp] HQ. unfold BSmallPending_SetHandler. hstep. eapply wp_set_object; [exact Hp|].
  eapply wp_set_object; [by cbn; rewrite lookup_insert_eq|]. cbn. apply HQ; [done|..]; intros y.
  - unfold look. cbn. destruct (decide (y = o)) as [->|]; [by rewrite lookup_insert_eq, Hp|].
    by rewrite !lookup_insert_ne by congruence.
  - unfold info. cbn. case_decide; [subst; by rewrite lookup_insert_eq|].
    by rewrite !lookup_insert_ne by congruence.
Qed.

Lemma lists_ext g g' l : jobs_first g' = jobs_first g -> (forall y, y ∈ l -> look g' y = look g y) ->
  lists g l -> lists g' l.
Proof.
  intros H1 H2 (Hn & Hseg & Hf). split; [done|]. split; [|congruence]. by eapply seg_ext.
Qed.

Lemma set_handler_ok o h u c g s : implements g s -> jobs s !! o = Some c ->
  wp (BSmallPending_SetHandler o h u) g
    (fun _ g' out => out = [] /\ implements g' (s <| jobs := <[o := (h, u)]> (jobs s) |>)).
Proof.
  intros Hi Hc. apply wp_set_handler; [rewrite info_heap, (imp_info _ _ Hi o c Hc); by eexists|].
  intros g' Hf Hl Hinfo. split; [done|]. split; cbn.
  - eapply lists_ext; [done|by intros; apply Hl|apply Hi].
  - intros y Hy. apply lookup_insert_is_Some. destruct (decide (o = y)); [by left|right].
    split; [done|]. by apply (imp_set _ _ Hi).
  - intros y d. rewrite Hinfo. intros [[-> <-]|[Hne Hd]]%lookup_insert_Some; [by rewrite decide_True by done|].
    rewrite decide_False by congruence. by apply (imp_info _ _ Hi).
  - intros y d Hd Hy. rewrite Hl. apply lookup_insert_Some in Hd as [[<- _]|[_ Hd]];
      by eapply (imp_unset _ _ Hi).
  - intros y Hy. destruct (imp_room _ _ Hi y Hy) as [H1 H2]. split.
    + rewrite info_heap, Hinfo. case_decide; [by eexists|]. by apply info_heap.
    + rewrite lookup_insert_ne; [done|congruence].
Qed.

Lemma init_ok o h u g s : implements g s -> o ∈ room s ->
  wp (BSmallPending_Init o h u) g (fun _ g' out => out = [] /\
    implements g' (s <| jobs := <[o := (h, u)]> (jobs s) |> <| room := room s ∖ {[o]} |>)).
Proof.
  intros Hi Ho. destruct (imp_room _ _ Hi o Ho) as [Hh Hj].
  assert (Hos : o ∉ stack s) by (intros H; apply (imp_set _ _ Hi) in H; rewrite Hj in H; by destruct H).
  assert (wp (BSmallPending_SetHandler o h u;; set_next o (Some o)) g (fun _ g' out => out = [] /\
    implements g' (s <| jobs := <[o := (h, u)]> (jobs s) |> <| room := room s ∖ {[o]} |>))) as H.
  2:{ apply wp_bind_assoc in H. exact H. }
  hstep. apply wp_set_handler; [done|]. intros g1 Hf1 Hl1 Hi1.
  assert (exists lk, look g1 o = Some lk) as [lk Hlk] by (rewrite Hl1; by apply look_is_Some).
  eapply wp_set_next; [exact Hlk|]. intros g2 (Hf2 & Hl2 & Hi2). split; [done|]. split; cbn.
  - eapply lists_ext; [|intros y Hy|apply Hi]; [congruence|].
    rewrite Hl2, decide_False; [done|by intros ->].
  - intros y Hy. apply lookup_insert_is_Some. right. split; [by intros ->|]. by apply (imp_set _ _ Hi).
  - intros y d. rewrite Hi2, Hi1. intros [[-> <-]|[Hne Hd]]%lookup_insert_Some; [by rewrite decide_True by done|].
    rewrite decide_False by congruence. by apply (imp_info _ _ Hi).
  - intros y d Hd Hy. rewrite Hl2. case_decide; [subst; eauto|]. rewrite Hl1.
    rewrite lookup_insert_ne in Hd by congruence. by eapply (imp_unset _ _ Hi).
  - intros y [Hy Hne]%elem_of_difference. rewrite not_elem_of_singleton in Hne.
    destruct (imp_room _ _ Hi y Hy) as [H1 H2]. split.
    + rewrite info_heap, Hi2, Hi1, decide_False by done. by apply info_heap.
    + by rewrite lookup_insert_ne by congruence.
Qed.

Lemma job_free_ok o c g s : implements g s -> jobs s !! o = Some c ->
  wp (BSmallPending_Free o) g (fun _ g' out => out = [] /\ implements g'
    (s <| stack := without o (stack s) |> <| jobs := delete o (jobs s) |> <| room := room s ∪ {[o]} |>)).
Proof.
  intros Hi Hc. unfold BSmallPending_Free. hstep. eapply wp_mono; [by eapply is_pending_ok|].
  intros b g1 ? (-> & -> & ->). cbn.
  eapply wp_mono with (P := fun _ g' out => out = [] /\ becomes g (without o (stack s)) g').
  { case_bool_decide as Hin; [by eapply detach_ok|]. hstep. split; [done|].
    rewrite without_not_in by done. apply becomes_refl, (imp_lists _ _ Hi). }
  intros _ g1 ? [-> (Hl & Hother & Hinfo)]. split; [done|]. split; cbn.
  - done.
  - intros y [Hne Hy]%elem_of_without. rewrite lookup_delete_ne by congruence. by apply (imp_set _ _ Hi).
  - intros y d. rewrite Hinfo. intros [_ Hd]%lookup_delete_Some. by apply (imp_info _ _ Hi).
  - intros y d [Hne Hd]%lookup_delete_Some Hy. rewrite elem_of_without in Hy.
    rewrite Hother by by rewrite elem_of_without. apply (imp_unset _ _ Hi y d Hd). intros H. apply Hy. by split.
  - intros y. rewrite elem_of_union, elem_of_singleton. intros [Hy| ->].
    + destruct (imp_room _ _ Hi y Hy) as [H1 H2]. split; [|by rewrite lookup_delete_None; right].
      rewrite info_heap, Hinfo. by apply info_heap.
    + split; [|by rewrite lookup_delete_None; left].
      rewrite info_heap, Hinfo, (imp_info _ _ Hi o c Hc). by eexists.
Qed.

Lemma execute_ok o l h u g s : implements g s -> stack s = o :: l -> jobs s !! o = Some (h, u) ->
  wp BPendingGroup_ExecuteJob g (fun _ g' out => out = [Run h u] /\ implements g' (s <| stack := l |>)).
Proof.
  intros Hi Hs Hc. pose proof (imp_lists _ _ Hi) as (Hn & _ & Hf). rewrite Hs in Hf, Hn. cbn in Hf.
  assert (Hin : o ∈ stack s) by (rewrite Hs; left).
  assert (Hw : without o (stack s) = l) by (rewrite Hs; by apply (without_middle o [])).
  unfold BPendingGroup_ExecuteJob, BPending__List_IsEmpty, BPending__List_First.
  hstep. hstep. hstep. hstep. hstep. hstep; [by rewrite Hf|]. hstep. hstep. hstep.
  eapply wp_of_option; [exact Hf|]. hstep. eapply wp_mono; [by eapply is_pending_ok|].
  intros b g1 ? (-> & -> & ->). hstep. hstep; [by rewrite bool_decide_eq_true_2|].
  pose proof (unset_ok o _ g s Hi Hc Hin) as H. apply wp_bind_assoc.
  hstep. eapply wp_mono; [exact H|]. intros _ g1 ? [-> Hi1]. rewrite Hw in Hi1.
  pose proof (imp_info _ _ Hi1 o _ Hc) as Ho. unfold info in Ho.
  destruct (heap g1 !! o) as [p|] eqn:Hp; [|done]. injection Ho as Hh Hu.
  hstep. eapply wp_object; [exact Hp|]. hstep. by rewrite Hh, Hu.
Qed.

Lemma is_empty_ok g s : implements g s ->
  wp BPending__List_IsEmpty g (fun b g' out => b = bool_decide (stack s = []) /\ g' = g /\ out = []).
Proof.
  intros Hi. unfold BPending__List_IsEmpty. hstep. hstep. hstep.
  rewrite (proj2 (proj2 (imp_lists _ _ Hi))). by destruct (stack s).
Qed.
End BPendingProofs.

Section BPending.
Import BPendingProofs JobStack.

Lemma job_step_ok g s i r s' o : implements g s -> JobStack.step s i = Some (r, s', o) ->
  wp (exec i) g (fun r' g' o' => r' = r /\ o' = o /\ implements g' s').
Proof.
  intros Hi Hs. destruct i as [x h u|x|x h u|x|x|x| | |]; cbn [step exec] in *; simplify_option_eq;
    repeat match goal with c : code * ptr |- _ => destruct c end; hstep.
  - eapply wp_mono; [by apply init_ok|]. intros _ g' ? [-> Hok]. by hstep.
  - eapply wp_mono; [by eapply job_free_ok|]. intros _ g' ? [-> Hok]. by hstep.
  - eapply wp_mono; [by eapply set_handler_ok|]. intros _ g' ? [-> Hok]. by hstep.
  - eapply wp_mono; [by eapply set_ok|]. intros _ g' ? [-> Hok]. by hstep.
  - unfold BSmallPending_Unset. hstep. eapply wp_mono; [by eapply is_pending_ok|].
    intros b g' ? (-> & -> & ->). case_bool_decide as Hin.
    + eapply wp_mono; [by eapply unset_ok|]. intros _ g' ? [-> Hok]. by hstep.
    + hstep. hstep. rewrite without_not_in by done. split; [done|]. split; [done|]. by destruct s.
  - unfold BSmallPending_IsSet. eapply wp_mono; [by eapply is_pending_ok|].
    intros b g' ? (-> & -> & ->). hstep. by case_bool_decide.
  - unfold BSmallPending_IsSet. eapply wp_mono; [by eapply is_pending_ok|].
    intros b g' ? (-> & -> & ->). hstep. by case_bool_decide.
  - unfold BPendingGroup_HasJobs. hstep. eapply wp_mono; [by apply is_empty_ok|].
    intros b g' ? (-> & -> & ->). hstep. hstep. by case_bool_decide.
  - unfold BPendingGroup_PeekJob, BPending__List_First. hstep. hstep. split_and!; [|done|done].
    rewrite (proj2 (proj2 (imp_lists _ _ Hi))). by destruct (stack _).
  - destruct (stack s) as [|x l] eqn:E; [done|]. destruct (jobs s !! x) as [[h u]|] eqn:Ej; [|done].
    injection Hs as <- <- <-.
    eapply wp_mono; [by eapply execute_ok|]. intros _ g' ? [-> Hok]. by hstep.
Qed.

Lemma steps_ok l : forall g s rs s' o, implements g s -> steps s l = Some (rs, s', o) ->
  wp (exec_all l) g (fun rs' g' o' => rs' = rs /\ o' = o /\ implements g' s').
Proof.
  induction l as [|i l IH]; intros g s rs s' o Hi Hs; cbn [steps exec_all] in *.
  - injection Hs as <- <- <-. by hstep.
  - destruct (step s i) as [[[r s1] o1]|] eqn:E1; [|done]. cbn in Hs.
    destruct (steps s1 l) as [[[rs1 s2] o2]|] eqn:E2; [|done]. injection Hs as <- <- <-.
    hstep. eapply wp_mono; [by eapply job_step_ok|]. intros r' g1 ? (-> & -> & Hi1). hstep.
    eapply wp_mono; [by eapply IH|]. intros rs' g2 ? (-> & -> & Hi2). hstep. by rewrite app_nil_r.
Qed.

(** A group before any job is initialised, in memory that has anything in it. *)
Lemma init_implements g room : (forall o, o ∈ room -> is_Some (heap g !! o)) ->
  wp BPendingGroup_Init g (fun _ g' out => out = [] /\ implements g' (mk_stack [] ∅ room)).
Proof.
  intros Hroom. unfold BPendingGroup_Init, BPending__List_Init, set_jobs_first. hstep. split; [done|].
  split; cbn; [|intros x Hx; by apply not_elem_of_nil in Hx|done|done|].
  - split; [constructor|]. by split.
  - intros o Ho. split; [by apply Hroom|done].
Qed.

(** C25: A group of pending jobs is a stack.  Started in any memory, every
    sequence of operations that the stack machine allows is executed by the
    pointers without a fault, with the same answers and the same calls of
    handlers in the same order: setting a job moves it to the top, unsetting
    and freeing take it out, executing pops the top job and calls the handler
    it was last given.  A group none of whose jobs remain can be freed. *)
Theorem bpending_refines g room l rs s o :
  (forall x, x ∈ room -> is_Some (heap g !! x)) ->
  steps (mk_stack [] ∅ room) l = Some (rs, s, o) ->
  exists g', (BPendingGroup_Init;; exec_all l) g = Some (rs, g', o) /\ implements g' s /\
    (JobStack.jobs s = ∅ -> BPendingGroup_Free g' = Some (tt, g', [])).
Proof.
  intros Hroom Hs.
  assert (wp (BPendingGroup_Init;; exec_all l) g (fun rs' g' o' => rs' = rs /\ o' = o /\ implements g' s)) as H.
  { hstep. eapply wp_mono; [by eapply init_implements|]. intros _ g1 ? [-> Hi1]. by eapply steps_ok. }
  apply wp_spec in H as (? & g' & ? & He & -> & -> & Hi). exists g'. split; [done|]. split; [done|].
  intros Hj. assert (Hst : stack s = []).
  { pose proof (imp_set _ _ Hi) as H. destruct (stack s) as [|x k]; [done|].
    destruct (H x ltac:(left)) as [? Hx]. by rewrite Hj in Hx. }
  apply wp_eq. unfold BPendingGroup_Free. hstep. eapply wp_mono; [by apply is_empty_ok|].
  intros b g1 ? (-> & -> & ->). by hstep; [rewrite Hst|].
Qed.

Definition demo_group : BPendingGroup :=
  let junk q := mk_pending 99 99 (mk_pending_node q q) in
  mk_group (Some 5%nat) {[ 1%nat := junk (Some 2%nat); 2%nat := junk None; 3%nat := junk (Some 3%nat) ]}.
Definition demo_ops : list op :=
  [ Init 1 10 100; Init 2 20 200; Init 3 30 300; Set_ 1; Set_ 2; Set_ 3; Set_ 1; Unset 3;
    IsSet 2; PeekJob; ExecuteJob; ExecuteJob; HasJobs; Free 1; Free 2; Free 3 ]%nat.

Definition demo_results : list result :=
  repeat RUnit 8 ++ [RBool true; RPtr (Some 1%nat); RUnit; RUnit; RBool false; RUnit; RUnit; RUnit].

Lemma bpending_refines_witness :
  exists g', (BPendingGroup_Init;; exec_all demo_ops) demo_group =
      Some (demo_results, g',
        [Run 10 100; Run 20 200]) /\
    BPendingGroup_Free g' = Some (tt, g', []).
Proof.
  destruct (bpending_refines demo_group {[ 1%nat; 2%nat; 3%nat ]} demo_ops
    demo_results
    (mk_stack [] ∅ {[ 1%nat; 2%nat; 3%nat ]}) [Run 10 100; Run 20 200]) as (g' & H1 & _ & H3).
  - apply (bool_decide_unpack (set_Forall (fun x => is_Some (heap demo_group !! x)) {[ 1%nat; 2%nat; 3%nat ]})).
    by vm_compute.
  - by vm_compute.
  - exists g'. split; [exact H1|by apply H3].
Defined.
End BPending.

(** ** What a reactor uses

    A queue of jobs is something that executes the operations the way the
    stack does. *)
Class JobQueue (G : Type) := {
  queue_exec : op -> handler G out result;
  queue_is : G -> JobStack.state -> Prop;
  queue_ok : forall g s i r s' o, queue_is g s -> JobStack.step s i = Some (r, s', o) ->
    wp (queue_exec i) g (fun r' g' o' => r' = r /\ o' = o /\ queue_is g' s');
}.

#[export] Instance pending_group_queue : JobQueue BPendingGroup := {|
  queue_exec := exec; queue_is := implements; queue_ok := job_step_ok;
|}.
