(* ===== verification/OrderedTree.v ===== *)
(** * Ordered trees

    The balanced trees of the program are seen as their elements in tree
    order.  An element is inserted by comparing it with those that are there,
    by the comparison function of the tree, which may read the objects and
    compares keys first and addresses second: [before]. *)
From stdpp Require Import sorting.
From S2P Require Import Prelude.

Abbreviation ptr := nat.

(** The order of keys [t], addresses deciding between equal ones. *)
Definition before (t : ptr -> Z) (p q : ptr) : Prop := t p < t q \/ (t p = t q /\ (p < q)%nat).

Section tree.
Context {St Out : Type}.

(** [None]: a node that compares equal is there. *)
Fixpoint tree_insert (compare : ptr -> ptr -> handler St Out Z) (p : ptr) (t : list ptr)
    : handler St Out (option (list ptr)) :=
  match t with
  | [] => mret (Some [p])
  | q :: t' =>
      cmp ← compare p q;
      if cmp =? 0 then mret None
      else if cmp <? 0 then mret (Some (p :: t))
      else r ← tree_insert compare p t'; mret (cons q <$> r)
  end.
End tree.

Lemma sorted_shift f g s t : (forall p, p ∈ t -> g p = f p - s) ->
  StronglySorted (before f) t -> StronglySorted (before g) t.
Proof.
  intros H. induction 1 as [|p t Ht IH Hp]; constructor.
  - apply IH. intros; apply H; by right.
  - rewrite Forall_forall in Hp |- *. intros q Hq. destruct (Hp q Hq) as [|[]]; [left|right];
      rewrite (H p), (H q) by (left || by right); lia.
Qed.
Lemma sorted_ext f g t : (forall p, p ∈ t -> g p = f p) ->
  StronglySorted (before f) t -> StronglySorted (before g) t.
Proof. intros H. apply (sorted_shift _ _ 0). intros p Hp. rewrite H by done. lia. Qed.
Lemma sorted_head f p t q : StronglySorted (before f) (p :: t) -> q ∈ p :: t -> f p <= f q.
Proof.
  intros [_ H]%StronglySorted_inv [->|Hq]%elem_of_cons; [lia|].
  rewrite Forall_forall in H. destruct (H q Hq) as [|[]]; lia.
Qed.
Lemma sorted_nodup f t : StronglySorted (before f) t -> NoDup t.
Proof.
  induction 1 as [|p t _ IH Hp]; constructor; [|done]. intros Hin.
  rewrite Forall_forall in Hp. destruct (Hp p Hin) as [|[]]; lia.
Qed.
Lemma sorted_filter f P `{!forall x, Decision (P x)} t :
  StronglySorted (before f) t -> StronglySorted (before f) (filter P t).
Proof.
  induction 1 as [|p t _ IH Hp]; [constructor|]. rewrite filter_cons. case_decide; [|done].
  constructor; [done|]. rewrite Forall_forall in Hp |- *. intros q [_ Hq]%list_elem_of_filter. auto.
Qed.

Lemma sorted_without f p t : StronglySorted (before f) t -> StronglySorted (before f) (without p t).
Proof. apply sorted_filter. Qed.
Lemma sorted_cons_without f p t : StronglySorted (before f) (p :: t) -> without p (p :: t) = t.
Proof. intros H. by eapply without_head, sorted_nodup. Qed.

(** Insertion by a comparison that decides the order keeps the sequence sorted. *)
Section insert.
Context {St Out : Type} (compare : ptr -> ptr -> handler St Out Z) (key : ptr -> Z) (m : St).

Definition decides (p q : ptr) : Prop :=
  wp (compare p q) m (fun c m' l => m' = m /\ l = [] /\ c <> 0 /\
    (c < 0 -> before key p q) /\ (0 < c -> before key q p)).

Lemma tree_insert_ok p t : (forall q, q ∈ t -> decides p q) -> StronglySorted (before key) t ->
  wp (tree_insert compare p t) m (fun r m' l => m' = m /\ l = [] /\
    exists t', r = Some t' /\ t' ≡ₚ p :: t /\ StronglySorted (before key) t').
Proof.
  induction t as [|q t IH]; intros Hin Hs; cbn [tree_insert].
  { hstep. split_and!; try done. exists [p]. split_and!; [done|done|]. constructor; constructor. }
  hstep. eapply wp_mono; [apply Hin; left|].
  intros c m' l (-> & -> & Hc & Hlt & Hgt). destruct (c =? 0) eqn:E0; [lia|]. destruct (c <? 0) eqn:E1.
  - hstep. split_and!; try done. exists (p :: q :: t). split_and!; [done|done|].
    constructor; [done|]. constructor; [apply Hlt; lia|].
    apply StronglySorted_inv in Hs as [_ Hq]. eapply Forall_impl; [exact Hq|].
    intros r Hr. cbn beta in Hr. specialize (Hlt ltac:(lia)). unfold before in *. lia.
  - apply StronglySorted_inv in Hs as [Hs Hq]. hstep. eapply wp_mono.
    { apply IH; [intros r Hr; apply Hin; by right|done]. }
    intros r m' l (-> & -> & t' & -> & Ht' & Hs'). hstep. split_and!; try done.
    exists (q :: t').
    split_and!; [done|rewrite Ht'; apply Permutation_swap|]. constructor; [done|].
    rewrite Ht'. constructor; [apply Hgt; lia|done].
Qed.
End insert.

Lemma keeps_tree_insert {St Out E} (f : St -> E) (compare : ptr -> ptr -> handler St Out Z) p t :
  (forall q, keeps f (compare p q)) -> keeps f (tree_insert compare p t).
Proof. intros H. induction t; cbn [tree_insert]; solve_keeps; apply H. Qed.
