(* ===== verification/AvlHeap.v ===== *)
(** * AVL trees in a heap

    What [structure/BAVL.h] and [structure/CAvl_impl.h] have in common: nodes
    with a parent, two children and a balance factor, their mathematical
    trees, and a small logic to follow the pointer writes.  A heap is described
    as a list of disjoint pieces, each a list of cells: the tree below a
    pointer, the path from a node up to the root, single nodes.  Each piece
    names the pointers at its borders, so that a write to a border changes one
    piece and leaves the others as they are. *)
From stdpp Require Import sorting.
From S2P Require Import Prelude.

Abbreviation ptr := nat.

(** ** Nodes *)

(** [struct BAVLNode]; the tree members of an entry of a [CAvl]. *)
Record node_t := mk_node {
  parent : option ptr; link0 : option ptr; link1 : option ptr; balance : Z }.
#[export] Instance node_eta : Eta node_t :=
  fun r => mk_node (parent r) (link0 r) (link1 r) (balance r).
Definition link (nd : node_t) (side : bool) : option ptr := if side then link1 nd else link0 nd.

(** The [root] of a tree and all the nodes there are, in the tree or not. *)
Record heap_t := mk_heap { root : option ptr; nodes : gmap ptr node_t }.
#[export] Instance heap_eta : Eta heap_t := fun r => mk_heap (root r) (nodes r).

Definition hdl := handler heap_t Empty_set.

(** [int8_t] *)
Definition to_int8 (z : Z) : Z := (z + 2 ^ 7) mod 2 ^ 8 - 2 ^ 7.
#[global] Arguments to_int8 : simpl never.
Lemma to_int8_small z : - 2 ^ 7 <= z < 2 ^ 7 -> to_int8 z = z.
Proof. intros. unfold to_int8. rewrite Z.mod_small; lia. Qed.

(** Accesses through a pointer: a fault if it points to no node. *)
Definition get_node (x : ptr) : hdl node_t := s ← get; of_option (nodes s !! x).
Definition set_node (x : ptr) (f : node_t -> node_t) : hdl unit :=
  nd ← get_node x; modify (fun s => s <| nodes := <[x := f nd]> (nodes s) |>).
Definition get_parent (x : ptr) : hdl (option ptr) := nd ← get_node x; mret (parent nd).
Definition get_link (x : ptr) (side : bool) : hdl (option ptr) := nd ← get_node x; mret (link nd side).
Definition get_balance (x : ptr) : hdl Z := nd ← get_node x; mret (balance nd).
Definition set_parent (x : ptr) (v : option ptr) : hdl unit := set_node x (fun nd => nd <| parent := v |>).
Definition set_link (x : ptr) (side : bool) (v : option ptr) : hdl unit :=
  set_node x (fun nd => if side then nd <| link1 := v |> else nd <| link0 := v |>).
Definition set_balance (x : ptr) (b : Z) : hdl unit := set_node x (fun nd => nd <| balance := to_int8 b |>).
Definition get_root : hdl (option ptr) := gets root.
Definition set_root (v : option ptr) : hdl unit := modify (fun s => s <| root := v |>).

Definition is_null (p : option ptr) : bool := match p with None => true | Some _ => false end.
(** [if (p) p->parent = v;] *)
Definition set_parent_if (p : option ptr) (v : option ptr) : hdl unit :=
  match p with Some q => set_parent q v | None => mret tt end.

(** ** Trees *)

Inductive tree := Leaf | Node (l : tree) (x : ptr) (b : Z) (r : tree).

Fixpoint elements (t : tree) : list ptr :=
  match t with Leaf => [] | Node l x _ r => elements l ++ x :: elements r end.
Fixpoint height (t : tree) : Z :=
  match t with Leaf => 0 | Node l _ _ r => 1 + Z.max (height l) (height r) end.
Definition top (t : tree) : option ptr := match t with Leaf => None | Node _ x _ _ => Some x end.

(** The balance factors are right and small. *)
Fixpoint avl (t : tree) : Prop :=
  match t with
  | Leaf => True
  | Node l _ b r => avl l /\ avl r /\ b = height r - height l /\ -1 <= b <= 1
  end.

Definition OPTNEG (a : Z) (neg : bool) : Z := if neg then - a else a.

(** A node with [t] on side [d] and [s] on the other one. *)
Definition mk (d : bool) (t : tree) (x : ptr) (b : Z) (s : tree) : tree :=
  if d then Node s x b t else Node t x b s.

(** A path from a place in the tree up to the root: at each node, the side one
    came from, the node and the other subtree. *)
Abbreviation frame := (bool * ptr * Z * tree)%type.
Abbreviation path := (list frame).
Fixpoint plug (c : path) (t : tree) : tree :=
  match c with [] => t | (d, x, b, s) :: c => plug c (mk d t x b s) end.

Lemma plug_app c c' t : plug (c ++ c') t = plug c' (plug c t).
Proof. revert t. induction c as [|[[[d x] b] s] c IH]; intros t; [done|]. apply IH. Qed.

(** What is before and after a place. *)
Fixpoint before_path (c : path) : list ptr :=
  match c with
  | [] => []
  | (d, x, b, s) :: c => before_path c ++ if d then elements s ++ [x] else []
  end.
Fixpoint after_path (c : path) : list ptr :=
  match c with
  | [] => []
  | (d, x, b, s) :: c => (if d then [] else x :: elements s) ++ after_path c
  end.
Lemma elements_plug c t : elements (plug c t) = before_path c ++ elements t ++ after_path c.
Proof.
  revert t. induction c as [|[[[d x] b] s] c IH]; intros t; cbn; [by rewrite app_nil_r|].
  rewrite IH. destruct d; cbn; rewrite <- !app_assoc; cbn; by rewrite <- ?app_assoc.
Qed.

(** A path is in order for a place of height [h]. *)
Fixpoint path_avl (c : path) (h : Z) : Prop :=
  match c with
  | [] => True
  | (d, _, b, s) :: c =>
      avl s /\ b = (if d then h - height s else height s - h) /\ -1 <= b <= 1 /\
      path_avl c (1 + Z.max h (height s))
  end.
Lemma avl_plug c t : avl (plug c t) <-> avl t /\ path_avl c (height t).
Proof.
  revert t. induction c as [|[[[d x] b] s] c IH]; intros t; cbn [plug path_avl]; [tauto|].
  rewrite IH. destruct d; cbn; [rewrite (Z.max_comm (height s))|]; tauto.
Qed.

Lemma height_nonneg t : 0 <= height t.
Proof. induction t; cbn; lia. Qed.

(** ** Pieces of a heap *)

Abbreviation cell := (ptr * node_t)%type.

(** The tree [t] whose top has parent [p]. *)
Fixpoint tr (p : option ptr) (t : tree) : list cell :=
  match t with
  | Leaf => []
  | Node l x b r => [(x, mk_node p (top l) (top r) b)] ++ tr (Some x) l ++ tr (Some x) r
  end.
(** The parent of the place of a path whose first node has parent [p]. *)
Definition par (p : option ptr) (c : path) : option ptr :=
  match c with [] => p | (_, x, _, _) :: _ => Some x end.
(** The path [c]; the place holds the pointer [h]. *)
Fixpoint cx (p : option ptr) (c : path) (h : option ptr) : list cell :=
  match c with
  | [] => []
  | (d, x, b, s) :: c =>
      [(x, mk_node (par p c) (if d then top s else h) (if d then h else top s) b)]
        ++ tr (Some x) s ++ cx p c (Some x)
  end.
(** The pointer to the top of a path. *)
Fixpoint topx (c : path) (h : option ptr) : option ptr :=
  match c with [] => h | (_, x, _, _) :: c => topx c (Some x) end.

Lemma tr_plug p c t : tr p (plug c t) ≡ₚ cx p c (top t) ++ tr (par p c) t.
Proof.
  revert t. induction c as [|[[[d x] b] s] c IH]; intros t; cbn [plug cx par]; [done|].
  rewrite IH. destruct d; cbn [mk tr top]; solve_Permutation.
Qed.
Lemma top_plug c t : top (plug c t) = topx c (top t).
Proof. revert t. induction c as [|[[[d x] b] s] c IH]; intros t; cbn; [done|]. rewrite IH. by destruct d. Qed.

Lemma top_in t p x : top t = Some x -> x ∈ (tr p t).*1.
Proof. destruct t; [done|]. intros [= ->]. cbn. left. Qed.
Lemma fst_tr p t : (tr p t).*1 ≡ₚ elements t.
Proof.
  revert p. induction t as [|l IHl x b r IHr]; intros p; [done|].
  cbn [tr elements]. rewrite !fmap_app, IHl, IHr. cbn. solve_Permutation.
Qed.

Lemma par_app p c c' : par p (c ++ c') = par (par p c') c.
Proof. by destruct c as [|[[[]]]]. Qed.
Lemma topx_app c c' h : topx (c ++ c') h = topx c' (topx c h).
Proof. revert h. induction c as [|[[[]]] c IH]; intros h; [done|]. apply IH. Qed.
Lemma cx_app p c c' h : cx p (c ++ c') h ≡ₚ cx (par p c') c h ++ cx p c' (topx c h).
Proof.
  revert h. induction c as [|[[[d x] b] s] c IH]; intros h; cbn [cx app topx]; [done|].
  rewrite IH, par_app. solve_Permutation.
Qed.

(** Of the nodes of a path only the topmost one points above it. *)
Lemma cx_top d q b u c h : exists z l r bz rest, topx c (Some q) = Some z /\
  forall p, cx p ((d, q, b, u) :: c) h ≡ₚ [(z, mk_node p l r bz)] ++ rest.
Proof.
  revert d q b u h. induction c as [|[[[d' q'] b'] u'] c IH]; intros d q b u h.
  - eexists q, _, _, b, _. split; [done|]. intros p. cbn [cx par]. done.
  - destruct (IH d' q' b' u' (Some q)) as (z & l & r & bz & rest & Hz & Hp).
    exists z, l, r, bz, ([(q, mk_node (Some q') (if d then top u else h) (if d then h else top u) b)]
      ++ tr (Some q) u ++ rest). split; [exact Hz|]. intros p. specialize (Hp p). cbn [cx par] in Hp |- *.
    rewrite Hp. solve_Permutation.
Qed.

(** ** Heaps made of pieces *)

(** All the nodes are the cells of [L], each one once. *)
Definition owns (s : heap_t) (L : list cell) : Prop :=
  NoDup L.*1 /\ nodes s = list_to_map L.

(** [Pick a L L']: [L] is [a] and [L']. *)
Class Pick (a L L' : list cell) : Prop := pick : L ≡ₚ a ++ L'.
#[export] Instance pick_last a : Pick a a [] | 1.
Proof. red. by rewrite app_nil_r. Qed.
#[export] Instance pick_here a L : Pick a (a ++ L) L | 0.
Proof. red. done. Qed.
#[export] Instance pick_next a b L L' : Pick a L L' -> Pick a (b ++ L) (b ++ L') | 2.
Proof. unfold Pick. intros ->. solve_Permutation. Qed.

Section owns.
Implicit Types (s : heap_t) (L : list cell).

Lemma owns_size s L : owns s L -> size (nodes s) = length L.
Proof. intros [Hn ->]. by rewrite map_size_list_to_map. Qed.
Lemma owns_equiv s L L' : L ≡ₚ L' -> owns s L -> owns s L'.
Proof.
  intros E [Hn Hs]. split; [by rewrite <- E|]. rewrite Hs. by apply list_to_map_proper.
Qed.
Lemma owns_lookup s L x nd L' : owns s L -> Pick [(x, nd)] L L' -> nodes s !! x = Some nd.
Proof.
  intros H HL. apply (owns_equiv _ _ _ HL) in H as [Hn ->]. cbn. by rewrite lookup_insert_eq.
Qed.
Lemma owns_update s s' L x nd nd' L' : owns s L -> Pick [(x, nd)] L L' ->
  nodes s' = <[x := nd']> (nodes s) -> owns s' ([(x, nd')] ++ L').
Proof.
  intros H HL Hs'. apply (owns_equiv _ _ _ HL) in H as [Hn Hs]. split; [done|].
  rewrite Hs', Hs. cbn. by rewrite insert_insert_eq.
Qed.
Lemma owns_root s s' L : nodes s' = nodes s -> owns s L -> owns s' L.
Proof. intros E [Hn Hs]. split; [done|]. by rewrite E. Qed.

(** Different pieces have different nodes. *)
Lemma owns_disjoint s L L' L'' A B x : owns s L -> Pick A L L' -> Pick B L' L'' ->
  x ∈ A.*1 -> x ∈ B.*1 -> False.
Proof.
  intros H HA HB Hx Hy. apply (owns_equiv _ _ _ HA) in H as [Hn _].
  rewrite fmap_app in Hn. apply NoDup_app in Hn as (_ & Hd & _). apply (Hd x Hx).
  rewrite (HB : _ ≡ₚ _), fmap_app. apply elem_of_app. by left.
Qed.

Lemma wp_get_node x s L nd L' (Q : node_t -> heap_t -> list Empty_set -> Prop) :
  owns s L -> Pick [(x, nd)] L L' -> Q nd s [] -> wp (get_node x) s Q.
Proof.
  intros H HL HQ. unfold get_node. hstep. hstep. eapply wp_of_option; [by eapply owns_lookup|done].
Qed.
Lemma wp_get_parent x s L p l r b L' (Q : option ptr -> heap_t -> list Empty_set -> Prop) :
  owns s L -> Pick [(x, mk_node p l r b)] L L' -> Q p s [] -> wp (get_parent x) s Q.
Proof. intros H HL HQ. unfold get_parent. hstep. eapply wp_get_node; [done..|]. by hstep. Qed.
Lemma wp_get_link x (d : bool) s L p l r b L' (Q : option ptr -> heap_t -> list Empty_set -> Prop) :
  owns s L -> Pick [(x, mk_node p l r b)] L L' -> Q (if d then r else l) s [] -> wp (get_link x d) s Q.
Proof. intros H HL HQ. unfold get_link. hstep. eapply wp_get_node; [done..|]. by hstep. Qed.
Lemma wp_get_balance x s L p l r b L' (Q : Z -> heap_t -> list Empty_set -> Prop) :
  owns s L -> Pick [(x, mk_node p l r b)] L L' -> Q b s [] -> wp (get_balance x) s Q.
Proof. intros H HL HQ. unfold get_balance. hstep. eapply wp_get_node; [done..|]. by hstep. Qed.

Lemma wp_set_node x f s L nd L' (Q : unit -> heap_t -> list Empty_set -> Prop) :
  owns s L -> Pick [(x, nd)] L L' ->
  (forall s', root s' = root s -> owns s' ([(x, f nd)] ++ L') -> Q tt s' []) -> wp (set_node x f) s Q.
Proof.
  intros H HL HQ. unfold set_node. hstep. eapply wp_get_node; [done..|]. hstep.
  apply HQ; [done|]. by eapply owns_update.
Qed.
Lemma wp_set_parent x v s L p l r b L' (Q : unit -> heap_t -> list Empty_set -> Prop) :
  owns s L -> Pick [(x, mk_node p l r b)] L L' ->
  (forall s', root s' = root s -> owns s' ([(x, mk_node v l r b)] ++ L') -> Q tt s' []) ->
  wp (set_parent x v) s Q.
Proof. intros. by eapply wp_set_node. Qed.
Lemma wp_set_link x (d : bool) v s L p l r b L' (Q : unit -> heap_t -> list Empty_set -> Prop) :
  owns s L -> Pick [(x, mk_node p l r b)] L L' ->
  (forall s', root s' = root s ->
    owns s' ([(x, mk_node p (if d then l else v) (if d then v else r) b)] ++ L') -> Q tt s' []) ->
  wp (set_link x d v) s Q.
Proof. intros. eapply wp_set_node; [done..|]. destruct d; auto. Qed.
Lemma wp_set_balance x v s L p l r b L' (Q : unit -> heap_t -> list Empty_set -> Prop) :
  owns s L -> Pick [(x, mk_node p l r b)] L L' ->
  (forall s', root s' = root s -> owns s' ([(x, mk_node p l r (to_int8 v))] ++ L') -> Q tt s' []) ->
  wp (set_balance x v) s Q.
Proof. intros. by eapply wp_set_node. Qed.
Lemma wp_set_root v s L (Q : unit -> heap_t -> list Empty_set -> Prop) :
  owns s L -> (forall s', root s' = v -> owns s' L -> Q tt s' []) -> wp (set_root v) s Q.
Proof. intros H HQ. unfold set_root. hstep. apply HQ; [done|]. by eapply owns_root. Qed.

(** Pointers to nodes of different pieces differ. *)
Lemma owns_ne s L L' L'' x nd y nd' : owns s L -> Pick [(x, nd)] L L' -> Pick [(y, nd')] L' L'' -> x <> y.
Proof. intros H H1 H2 <-. by eapply (owns_disjoint s L L' L''); [done..|left|left]. Qed.
Lemma owns_ne_tree s L L' L'' x nd p t : owns s L -> Pick [(x, nd)] L L' -> Pick (tr p t) L' L'' -> top t <> Some x.
Proof. intros H H1 H2 Ht. eapply (owns_disjoint s L L' L''); [done..|left|by apply top_in]. Qed.

(** The parent of a subtree, of a path. *)
Lemma wp_set_parent_if p t v s L L' (Q : unit -> heap_t -> list Empty_set -> Prop) :
  owns s L -> Pick (tr p t) L L' ->
  (forall s', root s' = root s -> owns s' (tr v t ++ L') -> Q tt s' []) ->
  wp (set_parent_if (top t) v) s Q.
Proof.
  intros H HL HQ. destruct t as [|l x b r]; cbn [set_parent_if top].
  - hstep. apply HQ; [done|]. by apply (owns_equiv _ _ _ HL).
  - apply (owns_equiv _ _ _ HL) in H. cbn [tr] in H. rewrite <- !app_assoc in H.
    eapply wp_set_node; [exact H|apply _|]. intros s' Hr Ho. apply HQ; [done|].
    eapply owns_equiv; [|exact Ho]. cbn [tr]. cbn. solve_Permutation.
Qed.
Lemma wp_set_parent_path p d q b u c h v s L L' (Q : unit -> heap_t -> list Empty_set -> Prop) :
  owns s L -> Pick (cx p ((d, q, b, u) :: c) h) L L' ->
  (forall s', root s' = root s -> owns s' (cx v ((d, q, b, u) :: c) h ++ L') -> Q tt s' []) ->
  wp (set_parent_if (topx c (Some q)) v) s Q.
Proof.
  intros H HL HQ. destruct (cx_top d q b u c h) as (z & l & r & bz & rest & Ez & Ecx). rewrite Ez.
  apply (owns_equiv _ _ _ HL) in H. eapply (owns_equiv _ _ (_ ++ _ ++ L')) in H; [|by rewrite Ecx, <- app_assoc].
  cbn [set_parent_if]. eapply wp_set_parent; [exact H|apply _|]. intros s' Hr' Ho'. apply HQ; [done|].
  eapply owns_equiv; [|exact Ho']. by rewrite Ecx, <- app_assoc.
Qed.
End owns.

(** ** A tree in a heap *)

(** The tree [t] at the end of the path [c]; the rest of the heap is [R]. *)
Definition place (s : heap_t) (c : path) (t : tree) (R : list cell) : Prop :=
  root s = topx c (top t) /\ owns s (cx None c (top t) ++ tr (par None c) t ++ R).

(** The tree of a heap. *)
Abbreviation holds s t R := (place s [] t R).

Lemma place_step s d x b u c t R : place s ((d, x, b, u) :: c) t R <-> place s c (mk d t x b u) R.
Proof.
  unfold place. cbn [topx cx par]. assert (E : top (mk d t x b u) = Some x) by by destruct d.
  rewrite E. split; intros [Hr Ho]; (split; [done|]; eapply owns_equiv; [|exact Ho]);
    destruct d; cbn [mk tr top]; solve_Permutation.
Qed.
Lemma place_plug s c t R : place s c t R <-> holds s (plug c t) R.
Proof.
  revert t. induction c as [|[[[d x] b] u] c IH]; intros t; [done|]. rewrite place_step. apply IH.
Qed.

(** [hstep] for the accesses of a heap described by [owns]; [root] is tracked. *)
Ltac after_write H :=
  let s' := fresh "s" in let Hr' := fresh "Hr" in let Ho' := fresh "Ho" in
  intros s' Hr' Ho'; clear H;
  try match type of Hr' with
      | root _ = root ?s0 => match goal with Hr : root s0 = _ |- _ => rewrite Hr in Hr'; clear Hr end
      end.
Ltac own_as H L :=
  lazymatch type of H with owns ?s _ =>
    apply (owns_equiv s _ L) in H; [|cbn [tr cx par top mk]; solve_Permutation]
  end.
Ltac astep :=
  lazymatch goal with
  | |- wp (_ ≫= _) _ _ => apply wp_bind; astep
  | H : owns ?s _ |- wp (get_parent _) ?s _ => eapply wp_get_parent; [exact H|apply _|]
  | H : owns ?s _ |- wp (get_link _ _) ?s _ => eapply wp_get_link; [exact H|apply _|]
  | H : owns ?s _ |- wp (get_balance _) ?s _ => eapply wp_get_balance; [exact H|apply _|]
  | H : owns ?s _ |- wp (set_parent _ _) ?s _ => eapply wp_set_parent; [exact H|apply _|after_write H]
  | H : owns ?s _ |- wp (set_link _ _ _) ?s _ => eapply wp_set_link; [exact H|apply _|after_write H]
  | H : owns ?s _ |- wp (set_balance _ _) ?s _ => eapply wp_set_balance; [exact H|apply _|after_write H]
  | H : owns ?s _ |- wp (set_root _) ?s _ =>
      eapply wp_set_root; [exact H|after_write H];
      match goal with Hr : root s = _ |- _ => clear Hr end
  | H : owns ?s _ |- wp (set_parent_if _ _) ?s _ => eapply wp_set_parent_if; [exact H|apply _|after_write H]
  | |- wp (of_option (Some _)) _ _ => eapply wp_of_option; [reflexivity|]
  | |- _ => hstep
  end; cbn [negb top].

(** ** Links of neighbours *)

(** [if (par) par->link[x == xpar->link[1]] = v; else tree->root = v;] *)
Definition relink (par xpar : option ptr) (x : ptr) (v : option ptr) : hdl unit :=
  match par with
  | Some q =>
      xq ← of_option xpar;
      l1 ← get_link xq true;
      set_link q (bool_decide (Some x = l1)) v
  | None => set_root v
  end.

(** [if (x->link[d] = v) x->link[d]->parent = x;] *)
Definition adopt (x : ptr) (d : bool) (v : option ptr) : hdl unit :=
  set_link x d v;; v ← get_link x d; set_parent_if v (Some x).
(** [temp = n1->link[d]; if (n1->link[d] = n2->link[d]) ...; if (n2->link[d] = temp) ...] *)
Definition swap_children (n1 n2 : ptr) (d : bool) : hdl unit :=
  temp ← get_link n1 d;
  l ← get_link n2 d; adopt n1 d l;;
  adopt n2 d temp.
Definition swap_balance (n1 n2 : ptr) : hdl unit :=
  b ← get_balance n1;
  b2 ← get_balance n2;
  set_balance n1 b2;;
  set_balance n2 b.

(** The child pointer of the parent, or the root. *)
Lemma wp_relink_path d q b u c p x v s L nd L' L'' (Q : unit -> heap_t -> list Empty_set -> Prop) :
  owns s L -> Pick (cx p ((d, q, b, u) :: c) (Some x)) L L' -> Pick [(x, nd)] L' L'' ->
  (forall s', root s' = root s -> owns s' (cx p ((d, q, b, u) :: c) v ++ L') -> Q tt s' []) ->
  wp (relink (Some q) (Some q) x v) s Q.
Proof.
  intros Ho HL HL' HQ. unfold relink. cbn [of_option].
  assert (Hu : top u <> Some x).
  { intros Hu. eapply (owns_disjoint s L L' L'' _ _ x Ho HL HL'); [|left].
    cbn [cx]. rewrite !fmap_app, !elem_of_app. right. left. by eapply top_in. }
  apply (owns_equiv _ _ _ HL) in Ho. cbn [cx] in Ho. rewrite <- !app_assoc in Ho.
  astep. astep. astep. apply HQ; [done|]. eapply owns_equiv; [|exact Ho0]. cbn [cx].
  destruct d; case_bool_decide; try congruence; solve_Permutation.
Qed.

Lemma wp_relink c x v s L nd L' L'' (Q : unit -> heap_t -> list Empty_set -> Prop) :
  owns s L -> root s = topx c (Some x) -> Pick (cx None c (Some x)) L L' -> Pick [(x, nd)] L' L'' ->
  (forall s', root s' = topx c v -> owns s' (cx None c v ++ L') -> Q tt s' []) ->
  wp (relink (par None c) (par None c) x v) s Q.
Proof.
  intros Ho Hr HL HL' HQ. destruct c as [|[[[d q] b] u] c]; cbn [par].
  - apply (owns_equiv _ _ _ HL) in Ho. cbn [relink]. astep. by apply HQ.
  - eapply wp_relink_path; [done..|]. intros s' Hr' Ho'. apply HQ; [by rewrite Hr'|done].
Qed.

Ltac step_relink :=
  try apply wp_bind;
  lazymatch goal with H : owns ?s _ |- wp (relink _ _ _ _) ?s _ =>
    eapply wp_relink; [exact H|eassumption|apply _|apply _|];
    match goal with Hr : root s = _ |- _ => clear Hr end; after_write H
  end.
Ltac place_done :=
  split; [eassumption|]; lazymatch goal with H : owns ?s _ |- owns ?s _ =>
    eapply owns_equiv; [|exact H]; cbn [tr top mk cx par]; solve_Permutation
  end.

(** Opens a [place] for the accesses of its nodes. *)
Ltac open_place H :=
  destruct H as [?Hr ?Ho]; cbn [mk negb top tr topx cx par] in *;
  match goal with H : owns _ _ |- _ => rewrite <- ?app_assoc in H end.

Lemma avl_mk d t x b u :
  avl (mk d t x b u) <-> avl t /\ avl u /\ OPTNEG b (negb d) = height t - height u /\ -1 <= b <= 1.
Proof. destruct d; cbn; intuition lia. Qed.
Lemma height_mk d t x b u : height (mk d t x b u) = 1 + Z.max (height t) (height u).
Proof. destruct d; cbn; lia. Qed.

(** The test [x == q->link[1]] tells on which side of its parent a node is. *)
Lemma wp_side d q b u c t x R s (Q : option ptr -> heap_t -> list Empty_set -> Prop) :
  place s ((d, q, b, u) :: c) t R -> top t = Some x ->
  (forall l, bool_decide (Some x = l) = d -> Q l s []) -> wp (get_link q true) s Q.
Proof.
  intros [_ Ho] Ht HQ. cbn [cx par] in Ho. rewrite <- !app_assoc in Ho.
  assert (Hu : top u <> Some x).
  { intros Hu. eapply (owns_disjoint s _ _ _ (tr (Some q) u) (tr (Some q) t) x Ho);
      [apply _|apply _|by apply top_in..]. }
  astep. apply HQ. destruct d; case_bool_decide; congruence.
Qed.

Lemma wp_parent c t x R s (Q : option ptr -> heap_t -> list Empty_set -> Prop) :
  place s c t R -> top t = Some x -> Q (par None c) s [] -> wp (get_parent x) s Q.
Proof.
  intros Hp Ht HQ. destruct t as [|l y b r]; [done|]. injection Ht as ->. open_place Hp. astep. exact HQ.
Qed.

Lemma wp_balance c d t x b u R s (Q : Z -> heap_t -> list Empty_set -> Prop) :
  place s c (mk d t x b u) R -> Q b s [] -> wp (get_balance x) s Q.
Proof. intros Hp HQ. destruct d; open_place Hp; astep; exact HQ. Qed.
Lemma wp_rebalance c d t x b v u R s (Q : unit -> heap_t -> list Empty_set -> Prop) :
  place s c (mk d t x b u) R -> - 2 ^ 7 <= v < 2 ^ 7 ->
  (forall s', place s' c (mk d t x v u) R -> Q tt s' []) -> wp (set_balance x v) s Q.
Proof.
  intros Hp Hv HQ. rewrite <- (to_int8_small v) in HQ by lia.
  destruct d; open_place Hp; astep; apply HQ; place_done.
Qed.

(** The pieces around a node and one further down on its left. *)
Lemma open_below c c2 ml m mb mr x b r R s :
  owns s (cx None (c2 ++ (false, x, b, r) :: c) (Some m)
    ++ tr (par None (c2 ++ (false, x, b, r) :: c)) (Node ml m mb mr) ++ R) <->
  owns s (cx (Some x) c2 (Some m) ++ [(x, mk_node (par None c) (topx c2 (Some m)) (top r) b)]
    ++ tr (Some x) r ++ cx None c (Some x) ++ [(m, mk_node (par (Some x) c2) (top ml) (top mr) mb)]
    ++ tr (Some m) ml ++ tr (Some m) mr ++ R).
Proof.
  split; apply owns_equiv; rewrite cx_app, par_app; cbn [cx par topx tr top]; solve_Permutation.
Qed.

Lemma swap_balance_ok c c2 ml m mb mr x b r R s :
  place s (c2 ++ (false, m, mb, r) :: c) (Node ml x b mr) R -> -1 <= b <= 1 -> -1 <= mb <= 1 ->
  wp (swap_balance x m) s (fun _ s' _ =>
    place s' (c2 ++ (false, m, b, r) :: c) (Node ml x mb mr) R).
Proof.
  intros [Hr Ho] Hb Hmb. cbn [top] in Hr, Ho. rewrite open_below in Ho.
  unfold swap_balance. do 4 astep.
  match goal with Ho : owns _ _ |- _ => rewrite !to_int8_small in Ho by lia end.
  split; [by rewrite topx_app in *|]. cbn [top]. rewrite open_below.
  match goal with Ho : owns ?s1 _ |- owns ?s1 _ => eapply owns_equiv; [|exact Ho] end. solve_Permutation.
Qed.


(** ** Paths and elements *)

Definition stays (d : bool) (c : path) : Prop := Forall (fun f => f.1.1.1 = d) c.
Lemma after_path_stays c : stays true c -> after_path c = [].
Proof. induction 1 as [|[[[d x] b] u] c Hd _ IH]; [done|]. cbn in *. by rewrite Hd, IH. Qed.
Lemma before_path_stays c : stays false c -> before_path c = [].
Proof. induction 1 as [|[[[d x] b] u] c Hd _ IH]; [done|]. cbn in *. by rewrite Hd, IH. Qed.

Lemma mk_top t x : top t = Some x -> exists l b r, t = Node l x b r.
Proof. destruct t as [|l y b r]; [done|]. intros [= ->]. eauto. Qed.

(** No path is longer than there are nodes: the fuel of the loops. *)
Lemma length_cx p c h : (length c <= length (cx p c h))%nat.
Proof.
  revert h. induction c as [|[[[d x] b] u] c IH]; intros h; cbn; [lia|].
  rewrite length_app. specialize (IH (Some x)). lia.
Qed.
Lemma length_tr p t : length (tr p t) = length (elements t).
Proof. rewrite <- (fst_tr p t), length_fmap. done. Qed.
Lemma place_fuel s c t R : place s c t R -> (length c + length (elements t) <= size (nodes s))%nat.
Proof.
  intros [_ Ho]. rewrite (owns_size _ _ Ho), !length_app, length_tr. pose proof (length_cx None c (top t)). lia.
Qed.
Lemma height_elements t : height t <= len (elements t).
Proof. induction t as [|l IHl x b r IHr]; cbn; [done|]. zlia. Qed.
Lemma height_fuel s c t R : place s c t R -> height t <= Z.of_nat (S (size (nodes s))).
Proof.
  intros H. apply place_fuel in H. rewrite !length_len in H. pose proof (height_elements t). zlia.
Qed.
Definition fuel_of : hdl nat := s ← get; mret (S (size (nodes s))).
Lemma wp_fuel_of s (Q : nat -> heap_t -> list Empty_set -> Prop) : Q (S (size (nodes s))) s [] -> wp fuel_of s Q.
Proof. intros HQ. unfold fuel_of. hstep. hstep. by hstep. Qed.


Lemma before_path_app c c' : before_path (c ++ c') = before_path c' ++ before_path c.
Proof.
  induction c as [|[[[d x] b] u] c IH]; cbn; [by rewrite app_nil_r|]. by rewrite IH, app_assoc.
Qed.
Lemma after_path_app c c' : after_path (c ++ c') = after_path c ++ after_path c'.
Proof. induction c as [|[[[d x] b] u] c IH]; cbn; [done|]. by rewrite IH, app_assoc. Qed.

Lemma find_node t x : x ∈ elements t -> exists c l b r, t = plug c (Node l x b r).
Proof.
  induction t as [|l IHl y b r IHr]; [by intros ?%not_elem_of_nil|].
  cbn. rewrite elem_of_app, elem_of_cons. intros [Hx|[-> |Hx]].
  - destruct (IHl Hx) as (c & l' & b' & r' & ->). exists (c ++ [(false, y, b, r)]), l', b', r'. by rewrite plug_app.
  - by exists [], l, b, r.
  - destruct (IHr Hx) as (c & l' & b' & r' & ->). exists (c ++ [(true, y, b, l)]), l', b', r'. by rewrite plug_app.
Qed.

Lemma length_paths c : (length c <= length (before_path c) + length (after_path c))%nat.
Proof.
  induction c as [|[[[d x] b] u] c IH]; [cbn; lia|].
  destruct d; cbn; rewrite ?length_app; cbn; rewrite ?length_app; cbn; lia.
Qed.
Lemma place_app s c c' t R : place s (c ++ c') t R <-> place s c' (plug c t) R.
Proof. by rewrite (place_plug s c'), (place_plug s (c ++ c')), plug_app. Qed.

Lemma path_avl_app c c' t : avl t -> path_avl (c ++ c') (height t) <-> path_avl c (height t) /\ path_avl c' (height (plug c t)).
Proof.
  intros Ht. pose proof (avl_plug (c ++ c') t) as H1. rewrite plug_app, avl_plug, avl_plug in H1. tauto.
Qed.
Lemma path_avl_relabel x y d b u c2 c h :
  path_avl (c2 ++ (d, x, b, u) :: c) h -> path_avl (c2 ++ (d, y, b, u) :: c) h.
Proof.
  revert h. induction c2 as [|[[[d' x'] b'] u'] c2 IH]; intros h; [done|]. cbn [app path_avl].
  intros (? & ? & ? & ?). split_and!; try done; try lia. by apply IH.
Qed.


Lemma split_unique (x : ptr) a b a' b' : NoDup (a ++ x :: b) -> a ++ x :: b = a' ++ x :: b' -> a = a' /\ b = b'.
Proof.
  revert a'. induction a as [|y a IH]; intros [|z a'] Hn E; cbn in *.
  - by injection E as ->.
  - injection E as -> ->. apply NoDup_cons in Hn as [Hn _]. destruct Hn. apply elem_of_app. right. left.
  - injection E as -> <-. apply NoDup_cons in Hn as [Hn _]. destruct Hn. apply elem_of_app. right. left.
  - injection E as -> E. apply NoDup_cons in Hn as [_ Hn]. destruct (IH a' Hn E) as [-> ->]. done.
Qed.
Lemma sorted_remove (P : ptr -> ptr -> Prop) x a b : StronglySorted P (a ++ x :: b) -> StronglySorted P (a ++ b).
Proof.
  intros (H1 & H2 & [H3 _]%StronglySorted_inv)%StronglySorted_app. apply StronglySorted_app.
  split_and!; [|done|done]. intros z w Hz Hw. apply H1; [done|by right].
Qed.
Lemma holds_nodup s t R : holds s t R -> NoDup (elements t).
Proof.
  intros [_ [Hn _]]. cbn [cx topx par app] in Hn. rewrite fmap_app in Hn.
  apply NoDup_app in Hn as (Hn & _ & _). by rewrite <- (fst_tr None t).
Qed.

Lemma plug_top c t : plug c t = Leaf -> c = [] /\ t = Leaf.
Proof.
  destruct c as [|[[[d q] b] u] c]; [done|]. intros H. apply (f_equal top) in H. rewrite top_plug in H.
  cbn in H. exfalso. revert q H. induction c as [|[[[d' q'] b'] u'] c IH]; intros q; [done|]. apply IH.
Qed.

