(* ===== verification/AvlTree.v ===== *)
(** * Balanced search trees

    The algorithms that [structure/BAVL.h] and [structure/CAvl_impl.h] share
    word for word: descent, insertion, removal, rebalancing, the walks to
    neighbours.  They are built on three operations on pointers which the two
    files write differently: the class [AvlOps], with what these operations do
    to the tree of a heap as its laws [AvlLaws].  Everything here is proved from the laws. *)
From stdpp Require Import sorting.
From S2P Require Import Prelude AvlHeap.

(** ** The operations on pointers *)

(** The second argument of [rotate] is the direction, the third one how the
    caller finds the parent of the node; [replace_subtree] gets the node, what
    replaces it and its parent. *)
Class AvlOps := {
  rotate : ptr -> bool -> hdl (option ptr) -> hdl unit;
  swap_nodes : ptr -> ptr -> hdl unit;
  replace_subtree : ptr -> option ptr -> option ptr -> hdl unit }.

(** [swap_nodes] is used with a node and one that is below it on the left. *)
Class AvlLaws `{AvlOps} : Prop := {
  rotate_law c dir m nr bn o r br a R s p :
    place s c (mk (negb dir) (mk dir m nr bn o) r br a) R ->
    (forall Q : option ptr -> heap_t -> list Empty_set -> Prop, Q (par None c) s [] -> wp p s Q) ->
    wp (rotate r dir p) s (fun _ s' _ => place s' c (mk dir (mk (negb dir) m r br a) nr bn o) R);
  swap_law c c2 ml m mb mr x b r R s :
    place s (c2 ++ (false, x, b, r) :: c) (Node ml m mb mr) R -> -1 <= b <= 1 -> -1 <= mb <= 1 ->
    wp (swap_nodes x m) s (fun _ s' _ => place s' (c2 ++ (false, m, b, r) :: c) (Node ml x mb mr) R);
  replace_law c d t x b R s :
    place s c (mk d t x b Leaf) R ->
    wp (replace_subtree x (top t) (par None c)) s (fun _ s' _ => exists nd, place s' c t ([(x, nd)] ++ R)) }.

(** ** Rebalancing *)

Definition MAX (a b : Z) : Z := if b <? a then a else b.

Section algorithms.
Context {ops : AvlOps}.

Definition ASSERT_int8 (lo hi z : Z) : hdl unit := ASSERT ((lo <=? z) && (z <=? hi)).

(** The switch over the balance of the heavy child; the result is the new top
    of the subtree and how much the height of the subtree changed. *)
Definition rebalance_transform (node : ptr) (delta : Z) : hdl (ptr * Z) :=
  bal ← get_balance node;
  let bside := bal =? 2 in
  let bsidef := if bal =? 2 then 1 else -1 in
  childp ← get_link node bside;
  child ← of_option childp;
  cb ← get_balance child;
  if cb * bsidef =? 1 then
    rotate node (negb bside) (get_parent node);;
    set_balance node 0;;
    set_balance child 0;;
    mret (child, to_int8 (delta - 1))
  else if cb * bsidef =? 0 then
    rotate node (negb bside) (get_parent node);;
    set_balance node (1 * bsidef);;
    set_balance child (-1 * bsidef);;
    mret (child, delta)
  else if cb * bsidef =? -1 then
    gchildp ← get_link child (negb bside);
    gchild ← of_option gchildp;
    rotate child bside (mret (Some node));;
    rotate node (negb bside) (get_parent node);;
    gb ← get_balance gchild;
    set_balance node (- MAX 0 (gb * bsidef) * bsidef);;
    gb ← get_balance gchild;
    set_balance child (MAX 0 (- gb * bsidef) * bsidef);;
    set_balance gchild 0;;
    mret (gchild, to_int8 (delta - 1))
  else ASSERT false;; mret (node, delta).

(** One turn for each node on the path to the root. *)
Fixpoint rebalance (fuel : nat) (node : ptr) (side : bool) (deltac : Z) : hdl unit :=
  match fuel with
  | O => ASSERT false
  | S fuel =>
      ASSERT_int8 (-1) 1 deltac;;
      nb ← get_balance node;
      ASSERT_int8 (-1) 1 nb;;
      if deltac =? 0 then mret tt
      else
        let delta := to_int8 (MAX deltac (OPTNEG nb side) - MAX 0 (OPTNEG nb side)) in
        ASSERT_int8 (-1) 1 delta;;
        set_balance node (nb - OPTNEG deltac side);;
        nb ← get_balance node;
        r ← (if (nb =? 2) || (nb =? -2) then rebalance_transform node delta else mret (node, delta));
        let '(node, delta) := r in
        ASSERT_int8 (-1) 1 delta;;
        np ← get_parent node;
        match np with
        | Some q => l1 ← get_link q true; rebalance fuel q (bool_decide (Some node = l1)) delta
        | None => mret tt
        end
  end.

(** ** Insertion and removal *)

Fixpoint subtree_max (fuel : nat) (n : ptr) : hdl ptr :=
  match fuel with
  | O => ASSERT false;; mret n
  | S fuel =>
      l ← get_link n true;
      match l with Some n => subtree_max fuel n | None => mret n end
  end.

(** The value of a node does not change while it is in the tree; the comparison
    function is the user's. *)
Context {V : Type} (value : ptr -> V) (comparator : V -> V -> Z).

Definition compare_values (v1 v2 : V) : hdl Z :=
  let res := comparator v1 v2 in
  ASSERT ((res =? -1) || (res =? 0) || (res =? 1));; mret res.
Definition compare_nodes (n1 n2 : ptr) : hdl Z := compare_values (value n1) (value n2).

Definition tree_Init : hdl unit := set_root None.

(** The loop that descends from [c]: the node that compares equal and its
    comparison, or the last node and the side on which nothing is. *)
Fixpoint descend (fuel : nat) (v : V) (c : ptr) : hdl (ptr * option bool) :=
  match fuel with
  | O => ASSERT false;; mret (c, None)
  | S fuel =>
      comp ← compare_values v (value c);
      if comp =? 0 then mret (c, None)
      else
        let side := comp =? 1 in
        l ← get_link c side;
        match l with
        | None => mret (c, Some side)
        | Some c => descend fuel v c
        end
  end.

Definition init_node (node : ptr) (p : option ptr) : hdl unit :=
  set_parent node p;; set_link node false None;; set_link node true None;; set_balance node 0.

(** The return value and what is written to [*ref]. *)
Definition tree_Insert (node : ptr) : hdl (bool * option ptr) :=
  r ← get_root;
  match r with
  | None => set_root (Some node);; init_node node None;; mret (true, None)
  | Some c =>
      fuel ← fuel_of;
      d ← descend fuel (value node) c;
      match d with
      | (c, None) => mret (false, Some c)
      | (c, Some side) =>
          set_link c side (Some node);;
          init_node node (Some c);;
          rebalance fuel c side 1;;
          mret (true, Some c)
      end
  end.

(** [tree_Remove] once the node has at most one child. *)
Definition remove_linked (fuel : nat) (node : ptr) : hdl unit :=
  l0 ← get_link node false;
  l1 ← get_link node true;
  ASSERT (is_null l0 || is_null l1);;
  parent ← get_parent node;
  let child := match l0 with Some _ => l0 | None => l1 end in
  match parent with
  | Some p =>
      pl1 ← get_link p true;
      let side := bool_decide (Some node = pl1) in
      replace_subtree node child parent;;
      rebalance fuel p side (-1)
  | None => replace_subtree node child parent
  end.

Definition tree_Remove (node : ptr) : hdl unit :=
  fuel ← fuel_of;
  l0 ← get_link node false;
  l1 ← get_link node true;
  match l0, l1 with
  | Some l, Some _ => max ← subtree_max fuel l; swap_nodes node max
  | _, _ => mret tt
  end;;
  remove_linked fuel node.

Definition tree_IsEmpty : hdl bool := r ← get_root; mret (is_null r).

Definition tree_Lookup (v : V) : hdl (option ptr) :=
  r ← get_root;
  match r with
  | None => mret None
  | Some c => fuel ← fuel_of; d ← descend fuel v c; mret (Some d.1)
  end.
Definition tree_LookupExact (v : V) : hdl (option ptr) :=
  r ← get_root;
  match r with
  | None => mret None
  | Some c =>
      fuel ← fuel_of;
      d ← descend fuel v c;
      mret (match d.2 with None => Some d.1 | Some _ => None end)
  end.

(** [while (n->link[d]) n = n->link[d];] *)
Fixpoint walk_down (fuel : nat) (d : bool) (n : ptr) : hdl ptr :=
  match fuel with
  | O => ASSERT false;; mret n
  | S fuel => l ← get_link n d; match l with Some n => walk_down fuel d n | None => mret n end
  end.
(** [while (n->parent && n == n->parent->link[d]) n = n->parent;] *)
Fixpoint walk_up (fuel : nat) (d : bool) (n : ptr) : hdl ptr :=
  match fuel with
  | O => ASSERT false;; mret n
  | S fuel =>
      p ← get_parent n;
      match p with
      | Some q =>
          l ← get_link q d;
          if bool_decide (Some n = l) then walk_up fuel d q else mret n
      | None => mret n
      end
  end.

Definition tree_GetFirst : hdl (option ptr) :=
  r ← get_root;
  match r with
  | None => mret None
  | Some n => fuel ← fuel_of; n ← walk_down fuel false n; mret (Some n)
  end.
Definition tree_GetLast : hdl (option ptr) :=
  r ← get_root;
  match r with
  | None => mret None
  | Some n => fuel ← fuel_of; n ← walk_down fuel true n; mret (Some n)
  end.

Definition tree_GetNext (n : ptr) : hdl (option ptr) :=
  fuel ← fuel_of;
  l ← get_link n true;
  match l with
  | Some n => n ← walk_down fuel false n; mret (Some n)
  | None => n ← walk_up fuel true n; get_parent n
  end.
Definition tree_GetPrev (n : ptr) : hdl (option ptr) :=
  fuel ← fuel_of;
  l ← get_link n false;
  match l with
  | Some n => n ← walk_down fuel true n; mret (Some n)
  | None => n ← walk_up fuel false n; get_parent n
  end.

(** The checks of the tree: parents, order, balance; the result is the height. *)
Definition verify_child (rec : ptr -> hdl Z) (n : ptr) (side : bool) : hdl Z :=
  l ← get_link n side;
  match l with
  | None => mret 0
  | Some c =>
      p ← get_parent c;
      ASSERT (bool_decide (p = Some n));;
      comp ← compare_nodes c n;
      ASSERT (comp =? if side then 1 else -1);;
      rec c
  end.
Fixpoint assert_recurser (fuel : nat) (n : ptr) : hdl Z :=
  match fuel with
  | O => ASSERT false;; mret 0
  | S fuel =>
      b ← get_balance n;
      ASSERT (-1 <=? b);;
      ASSERT (b <=? 1);;
      height_left ← verify_child (assert_recurser fuel) n false;
      height_right ← verify_child (assert_recurser fuel) n true;
      b ← get_balance n;
      ASSERT (b =? height_right - height_left);;
      mret (MAX height_left height_right + 1)
  end.
Definition tree_Verify : hdl unit :=
  r ← get_root;
  match r with
  | None => mret tt
  | Some n => p ← get_parent n; ASSERT (is_null p);; fuel ← fuel_of; assert_recurser fuel n;; mret tt
  end.
End algorithms.

Module AvlProofs.
Section proofs.
Context {ops : AvlOps} {laws : AvlLaws}.

(** How the callers of [rotate] know the parent. *)
Ltac caller_parent :=
  intros ? HQ; first [by hstep | eapply wp_parent; [eassumption|reflexivity|exact HQ]].

Lemma step_rotate c dir m nr bn o r br a R s p (Q : unit -> heap_t -> list Empty_set -> Prop) :
  place s c (mk (negb dir) (mk dir m nr bn o) r br a) R ->
  (forall Q : option ptr -> heap_t -> list Empty_set -> Prop, Q (par None c) s [] -> wp p s Q) ->
  (forall s', place s' c (mk dir (mk (negb dir) m r br a) nr bn o) R -> Q tt s' []) ->
  wp (rotate r dir p) s Q.
Proof.
  intros Hp Hpar HQ. eapply wp_mono; [by eapply rotate_law|]. intros [] s' [|[]] Hp'. by apply HQ.
Qed.

Lemma MAX_max a b : MAX a b = Z.max a b.
Proof. unfold MAX. destruct (b <? a) eqn:E; lia. Qed.

(** The tests of the code on a node whose balance is known. *)
Ltac decide_tests :=
  repeat match goal with
  | |- context [?a =? ?b] => first [ rewrite (proj2 (Z.eqb_eq a b)) by lia | rewrite (proj2 (Z.eqb_neq a b)) by lia ]
  end; cbv iota.
Ltac place_rebalanced t :=
  astep; exists t; split; [place_done|]; rewrite ?MAX_max; cbn in *; rewrite ?to_int8_small by lia;
  split; [intuition lia|split; [by rewrite <- ?app_assoc; cbn; rewrite <- ?app_assoc|split; [done|lia]]].

Lemma transform_ok c d child u x delta R s :
  place s c (mk d child x (if d then 2 else -2) u) R ->
  avl child -> avl u -> height child = height u + 2 -> -1 <= delta <= 1 ->
  wp (rebalance_transform x delta) s (fun r s' _ => exists t, place s' c t R /\ avl t /\
    elements t = elements (mk d child x 0 u) /\ top t = Some r.1 /\
    r.2 = delta + height t - (3 + height u) /\ height u + 2 <= height t <= height u + 3).
Proof.
  intros Hp Hc Hu Hh Hd. pose proof (height_nonneg u). unfold rebalance_transform.
  destruct child as [|cl y cb cr]; [cbn in Hh; lia|]. assert (Hp1 := Hp).
  destruct d; open_place Hp1; astep; decide_tests; do 3 astep; cbn in Hc, Hh;
    assert (cb = 1 \/ cb = 0 \/ cb = -1) as [-> | [-> | ->]] by lia; decide_tests.
  - apply wp_bind. eapply (step_rotate c false cl y 1 cr x 2 u); [exact Hp|caller_parent|]. intros s1 H1. clear dependent s.
    open_place H1. do 2 astep. place_rebalanced (Node (Node u x 0 cl) y 0 cr).
  - apply wp_bind. eapply (step_rotate c false cl y 0 cr x 2 u); [exact Hp|caller_parent|]. intros s1 H1. clear dependent s.
    open_place H1. do 2 astep. place_rebalanced (Node (Node u x 1 cl) y (-1) cr).
  - destruct cl as [|g1 g gb g2]; [cbn in *; lia|]. cbn [tr top] in Ho. rewrite <- !app_assoc in Ho.
    do 2 astep. apply wp_bind.
    eapply (step_rotate ((true, x, 2, u) :: c) true g2 g gb g1 y (-1) cr); [by apply place_step|caller_parent|].
    intros s1 H1. clear dependent s. rewrite place_step in H1. apply wp_bind.
    eapply (step_rotate c false g1 g gb (Node g2 y (-1) cr) x 2 u); [exact H1|caller_parent|].
    intros s2 H2. clear dependent s1. open_place H2. do 5 astep.
    place_rebalanced (Node (Node u x (to_int8 (- MAX 0 (gb * 1) * 1)) g1) g 0
      (Node g2 y (to_int8 (MAX 0 (- gb * 1) * 1)) cr)).
  - destruct cr as [|g1 g gb g2]; [cbn in *; lia|]. cbn [tr top] in Ho. rewrite <- !app_assoc in Ho.
    do 2 astep. apply wp_bind.
    eapply (step_rotate ((false, x, -2, u) :: c) false g1 g gb g2 y 1 cl); [by apply place_step|caller_parent|].
    intros s1 H1. clear dependent s. rewrite place_step in H1. apply wp_bind.
    eapply (step_rotate c true g2 g gb (Node cl y 1 g1) x (-2) u); [exact H1|caller_parent|].
    intros s2 H2. clear dependent s1. open_place H2. do 5 astep.
    place_rebalanced (Node (Node cl y (to_int8 (MAX 0 (- gb * -1) * -1)) g1) g 0
      (Node g2 x (to_int8 (- MAX 0 (gb * -1) * -1)) u)).
  - apply wp_bind. eapply (step_rotate c true cr y 0 cl x (-2) u); [exact Hp|caller_parent|]. intros s1 H1. clear dependent s.
    open_place H1. do 2 astep. place_rebalanced (Node cl y 1 (Node cr x (-1) u)).
  - apply wp_bind. eapply (step_rotate c true cr y (-1) cl x (-2) u); [exact Hp|caller_parent|]. intros s1 H1. clear dependent s.
    open_place H1. do 2 astep. place_rebalanced (Node cl y 0 (Node cr x 0 u)).
Qed.

(** What one turn does to a node whose subtrees have changed. *)
Lemma balanced_ok c d t x b u delta R s :
  place s c (mk d t x b u) R -> avl t -> avl u -> OPTNEG b (negb d) = height t - height u ->
  -2 <= height t - height u <= 2 -> -1 <= delta <= 1 ->
  wp (if (b =? 2) || (b =? -2) then rebalance_transform x delta else mret (x, delta)) s
    (fun r s' _ => exists t', place s' c t' R /\ avl t' /\ (forall b', elements (mk d t x b' u) = elements t') /\
      top t' = Some r.1 /\
      r.2 = delta + height t' - (1 + Z.max (height t) (height u)) /\
      (height t' = 1 + Z.max (height t) (height u) \/
       height t' = Z.max (height t) (height u) /\ (height t = height u + 2 \/ height u = height t + 2))).
Proof.
  intros Hp Ht Hu Hb Hh Hd. apply wp_if; intros Eb.
  - assert (Hel : forall b', elements (mk d t x b' u) = elements (mk d t x 0 u)) by by destruct d.
    assert (height t = height u + 2 \/ height u = height t + 2) as [E|E] by (destruct d; cbn in Hb; lia).
    + assert (b = if d then 2 else -2) as -> by (destruct d; cbn in Hb; lia).
      eapply wp_mono; [eapply transform_ok; [exact Hp|done..]|].
      intros r s' _ (t' & H1 & H2 & H3 & H4 & H5 & H6). exists t'. split_and!; try done; [congruence|lia..].
    + assert (b = if negb d then 2 else -2) as -> by (destruct d; cbn in *; lia).
      assert (Hmk : forall b', mk d t x b' u = mk (negb d) u x b' t) by by destruct d.
      rewrite Hmk in Hp. eapply wp_mono; [eapply transform_ok; [exact Hp|done..]|].
      intros r s' _ (t' & H1 & H2 & H3 & H4 & H5 & H6). exists t'. rewrite <- Hmk in H3.
      split_and!; try done; [congruence|lia..].
  - hstep. exists (mk d t x b u). rewrite height_mk, avl_mk. split_and!; try done; try lia; try by destruct d.
    all: destruct d; cbn in Hb |- *; lia || done.
Qed.

(** The loop goes up the path [c] from a node one of whose subtrees had the
    height [h] before it changed by [deltac]. *)
Lemma rebalance_ok fuel : forall c d t x b u h deltac R s,
  place s c (mk d t x b u) R -> (length c < fuel)%nat ->
  avl t -> avl u -> height t = h + deltac -> -1 <= deltac <= 1 ->
  OPTNEG b (negb d) = h - height u -> -1 <= b <= 1 -> path_avl c (1 + Z.max h (height u)) ->
  wp (rebalance fuel x d deltac) s (fun _ s' _ => exists T, holds s' T R /\ avl T /\
    elements T = elements (plug c (mk d t x b u))).
Proof.
  induction fuel as [|fuel IH]; intros c d t x b u h deltac R s Hp Hf Ht Hu Hh Hdc Hb Hb1 Hc; [lia|].
  cbn [rebalance]; unfold ASSERT_int8.
  apply wp_bind, wp_assert; [lia|]. apply wp_bind. eapply wp_balance; [exact Hp|].
  apply wp_bind, wp_assert; [lia|]. destruct (deltac =? 0) eqn:E0.
  { hstep. exists (plug c (mk d t x b u)). split_and!; [exact (proj1 (place_plug _ _ _ _) Hp)|apply avl_plug|done].
    rewrite avl_mk, height_mk. replace (height t) with h by lia. tauto. }
  rewrite !MAX_max. set (delta := to_int8 _). pose proof (height_nonneg t). pose proof (height_nonneg u).
  assert (Hhu : -1 <= h - height u <= 1) by (destruct d; cbn in Hb; lia).
  assert (Hdelta : delta = Z.max (height t) (height u) - Z.max h (height u) /\ -1 <= delta <= 1).
  { subst delta. destruct d; cbn [OPTNEG negb] in *; rewrite to_int8_small; lia. }
  apply wp_bind, wp_assert; [lia|]. set (b' := b - OPTNEG deltac d).
  assert (Hb' : OPTNEG b' (negb d) = height t - height u)
    by (subst b'; destruct d; cbn [OPTNEG negb] in *; lia).
  apply wp_bind. eapply wp_rebalance; [exact Hp|subst b'; destruct d; cbn in *; lia|]. clear s Hp. intros s Hp.
  apply wp_bind. eapply wp_balance; [exact Hp|]. apply wp_bind.
  eapply wp_mono; [eapply (balanced_ok c d t x b' u delta R s Hp); [done|done|done|lia..]|].
  intros [x' delta'] s' [|[]] (t' & Hp' & Ht' & He & Htop & Hd' & Hh'). cbn [fst snd] in Htop, Hd'.
  assert (Hd1 : -1 <= delta' <= 1) by lia.
  rewrite elements_plug, (He b), <- elements_plug.
  apply wp_bind, wp_assert; [lia|]. apply wp_bind. eapply wp_parent; [exact Hp'|exact Htop|].
  destruct c as [|[[[d' q] b2] u'] c]; cbn [par].
  - hstep. by exists t'.
  - apply wp_bind. eapply wp_side; [exact Hp'|exact Htop|]. intros l ->.
    cbn [path_avl] in Hc. destruct Hc as (Hu' & Hb2 & Hb2' & Hc).
    eapply (IH c d' t' q b2 u' (1 + Z.max h (height u))); [by apply place_step|cbn in Hf; lia|done|done|lia|lia| |done|].
    + destruct d'; cbn; lia.
    + done.
Qed.

(** ** Walking *)

Lemma walk_down_ok d t : forall c x fuel R s (Q : ptr -> heap_t -> list Empty_set -> Prop),
  place s c t R -> top t = Some x -> (length (elements t) <= fuel)%nat ->
  (forall y c2 b u, stays d c2 -> t = plug c2 (mk d Leaf y b u) -> Q y s []) ->
  wp (walk_down fuel d x) s Q.
Proof.
  induction t as [|l IHl y b r IHr]; intros c x fuel R s Q Hp Ht Hf HQ; [done|]. injection Ht as <-.
  cbn in Hf. rewrite length_app in Hf. cbn in Hf. destruct fuel as [|fuel]; [lia|]. cbn [walk_down].
  assert (Hp1 := Hp). open_place Hp1. astep.
  destruct d.
  - destruct r as [|r1 z br r2]; cbn [top].
    + hstep. by apply (HQ y [] b l); [constructor|].
    + eapply (IHr ((true, y, b, l) :: c)); [by apply place_step|done|lia|].
      intros z' c2 b2 u2 Hst E. eapply (HQ z' (c2 ++ [(true, y, b, l)])).
      * apply Forall_app. split; [done|by repeat constructor].
      * rewrite plug_app, <- E. done.
  - destruct l as [|l1 z bl l2]; cbn [top].
    + hstep. by apply (HQ y [] b r); [constructor|].
    + eapply (IHl ((false, y, b, r) :: c)); [by apply place_step|done|lia|].
      intros z' c2 b2 u2 Hst E. eapply (HQ z' (c2 ++ [(false, y, b, r)])).
      * apply Forall_app. split; [done|by repeat constructor].
      * rewrite plug_app, <- E. done.
Qed.

Lemma wp_subtree_max fuel n s Q : wp (walk_down fuel true n) s Q -> wp (subtree_max fuel n) s Q.
Proof.
  enough (H : subtree_max fuel n s = walk_down fuel true n s) by (unfold wp; by rewrite H).
  revert n s. induction fuel as [|fuel IH]; intros n s; [done|]. cbn [subtree_max walk_down].
  unfold mbind, handler_bind. destruct (get_link n true s) as [[[[q|] s'] o]|]; [|done..]. by rewrite IH.
Qed.

Lemma walk_up_ok d fuel : forall c t x R s (Q : ptr -> heap_t -> list Empty_set -> Prop),
  place s c t R -> top t = Some x -> (length c < fuel)%nat ->
  (forall y c1 c2, stays d c1 -> c = c1 ++ c2 -> top (plug c1 t) = Some y ->
    match c2 with [] => True | f :: _ => f.1.1.1 = negb d end -> Q y s []) ->
  wp (walk_up fuel d x) s Q.
Proof.
  induction fuel as [|fuel IH]; intros c t x R s Q Hp Ht Hf HQ; [lia|]. cbn [walk_up].
  apply wp_bind. eapply wp_parent; [exact Hp|exact Ht|].
  destruct c as [|[[[d' q] b] u] c]; cbn [par].
  - hstep. apply (HQ x [] []); [constructor|done|done|done].
  - assert (Hside : forall Q : option ptr -> heap_t -> list Empty_set -> Prop,
      (forall l, bool_decide (Some x = l) = bool_decide (d = d') -> Q l s []) -> wp (get_link q d) s Q).
    { intros Q' HQ'. assert (Hp1 := Hp). destruct Hp1 as [_ Ho]. cbn [cx par] in Ho. rewrite <- !app_assoc in Ho.
      assert (Hu : top u <> Some x).
      { intros Hu. eapply (owns_disjoint s _ _ _ (tr (Some q) u) (tr (Some q) t) x Ho);
          [apply _|apply _|by apply top_in..]. }
      astep. apply HQ'. destruct d, d'; repeat case_bool_decide; congruence. }
    apply wp_bind, Hside. intros l ->. case_bool_decide as E.
    + subst d'. eapply (IH c (mk d t q b u)); [by apply place_step|by destruct d|cbn in Hf; lia|].
      intros y c1 c2 Hst -> Hy Hc2. eapply (HQ y ((d, q, b, u) :: c1) c2); [by constructor|done|done|done].
    + hstep. eapply (HQ x [] ((d', q, b, u) :: c)); [constructor|done|done|]. by destruct d, d'.
Qed.

(** ** Taking a node out *)

Lemma remove_linked_ok fuel c d t x b R s :
  place s c (mk d t x b Leaf) R -> (length c <= fuel)%nat -> avl (plug c (mk d t x b Leaf)) ->
  wp (remove_linked fuel x) s (fun _ s' _ => exists T nd, holds s' T ([(x, nd)] ++ R) /\ avl T /\
    elements T = before_path c ++ elements t ++ after_path c).
Proof.
  intros Hp Hf Hav. rewrite avl_plug, avl_mk, height_mk in Hav.
  destruct Hav as [(Ht & _ & Hb & Hb1) Hc]. pose proof (height_nonneg t). unfold remove_linked.
  assert (exists l0 l1, is_null l0 || is_null l1 = true /\ match l0 with Some _ => l0 | None => l1 end = top t /\
    (forall Q : option ptr -> heap_t -> list Empty_set -> Prop, Q l0 s [] -> wp (get_link x false) s Q) /\
    (forall Q : option ptr -> heap_t -> list Empty_set -> Prop, Q l1 s [] -> wp (get_link x true) s Q))
    as (l0 & l1 & Hnull & Hchild & Hl0 & Hl1).
  { assert (Hp1 := Hp). destruct d; open_place Hp1.
    - exists None, (top t). split_and!; [done|done|..]; intros Q HQ; astep; exact HQ.
    - exists (top t), None. split_and!; [by rewrite orb_comm|by destruct (top t)|..]; intros Q HQ; astep; exact HQ. }
  apply wp_bind, Hl0, wp_bind, Hl1, wp_bind, wp_assert; [done|]. rewrite Hchild. clear Hl0 Hl1.
  assert (Htop : top (mk d t x b Leaf) = Some x) by by destruct d.
  apply wp_bind. eapply wp_parent; [exact Hp|exact Htop|].
  assert (Hrep := replace_law c d t x b R s Hp).
  destruct c as [|[[[d' q] b'] u'] c]; cbn [par] in *.
  - eapply wp_mono; [exact Hrep|]. intros [] s' _ (nd & Hp').
    exists t, nd. cbn. by rewrite app_nil_r.
  - apply wp_bind. eapply wp_side; [exact Hp|exact Htop|]. intros l ->.
    apply wp_bind. eapply wp_mono; [exact Hrep|]. intros [] s' [|[]] (nd & Hp').
    cbn [path_avl] in Hc. destruct Hc as (Hu' & Hb2 & Hb2' & Hc). cbn [height] in *.
    eapply wp_mono; [eapply (rebalance_ok fuel c d' t q b' u' (1 + height t) (-1))|].
    + apply place_step in Hp'. exact Hp'.
    + cbn in Hf. lia.
    + done.
    + done.
    + lia.
    + lia.
    + destruct d'; cbn; lia.
    + done.
    + replace (1 + height t) with (1 + Z.max (height t) 0) by lia. done.
    + intros [] s1 _ (T & HT & HavT & HelT). exists T, nd. split_and!; [done|done|]. rewrite HelT.
      change (plug c (mk d' t q b' u')) with (plug ((d', q, b', u') :: c) t). by rewrite elements_plug.
Qed.

(** A node is taken out of a balanced tree. *)
Lemma tree_remove_node_ok c l x b r R s :
  place s c (Node l x b r) R -> avl (plug c (Node l x b r)) ->
  wp (tree_Remove x) s (fun _ s' _ => exists T nd, holds s' T ([(x, nd)] ++ R) /\ avl T /\
    elements T = before_path c ++ elements l ++ elements r ++ after_path c).
Proof.
  intros Hp Hav. unfold tree_Remove. apply wp_bind, wp_fuel_of.
  assert (Hf := place_fuel _ _ _ _ Hp). cbn [elements] in Hf. rewrite length_app in Hf. cbn in Hf.
  assert (Hp1 := Hp). open_place Hp1. astep. astep.
  destruct r as [|r1 xr br r2]; [|destruct l as [|l1 xl bl l2]]; cbn [top].
  - destruct (top l); apply wp_bind, wp_ret.
    all: eapply wp_mono; [apply (remove_linked_ok _ c false l x b R s); [done|lia|done]|];
      intros [] s' _ (T & nd & HT & HavT & HelT); exists T, nd; by rewrite HelT.
  - apply wp_bind, wp_ret.
    eapply wp_mono; [apply (remove_linked_ok _ c true (Node r1 xr br r2) x b R s); [done|lia|done]|];
      intros [] s' _ (T & nd & HT & HavT & HelT); exists T, nd; by rewrite HelT.
  - set (l := Node l1 xl bl l2) in *. set (r := Node r1 xr br r2) in *.
    apply wp_bind, wp_bind, wp_subtree_max.
    eapply (walk_down_ok true l ((false, x, b, r) :: c)); [by apply place_step|done|lia|].
    intros m c2 mb u Hst El. cbn [mk] in El.
    rewrite avl_plug in Hav. destruct Hav as [(Hl & Hrt & Hb & Hb1) Hc].
    assert (Hl' := Hl). rewrite El, avl_plug in Hl'. destruct Hl' as [(Hu & _ & Hmb & Hmb1) Hc2].
    eapply wp_mono; [apply (swap_law c c2 u m mb Leaf x b r R s); [|done|done]|].
    { apply place_app. rewrite <- El. by apply place_step. }
    intros [] s1 [|[]] H1. eapply wp_mono; [apply (remove_linked_ok _ _ false u x mb R s1 H1)|].
    + rewrite length_app. cbn. rewrite El, elements_plug, !length_app in Hf. pose proof (length_paths c2). lia.
    + rewrite avl_plug. split; [done|]. eapply (path_avl_relabel x).
      change (height (mk false u x mb Leaf)) with (height (Node u m mb Leaf)).
      apply path_avl_app; [cbn; split_and!; lia || done|]. split; [done|]. rewrite <- El. cbn [path_avl]. split_and!; try lia; done.
    + intros [] s2 _ (T & nd & HT & HavT & HelT). exists T, nd. split_and!; [done|done|]. rewrite HelT, El.
      rewrite before_path_app, after_path_app, elements_plug, after_path_stays by done. cbn.
      by rewrite ?app_nil_r, <- !app_assoc.
Qed.
End proofs.
End AvlProofs.

(** ** The tree of a heap *)

(** What a comparison function promises: it returns -1, 0 or 1 and is an order
    on the values it is called with. *)
Class Comparator {V : Type} (comparator : V -> V -> Z) (wf : V -> Prop) : Prop := {
  comparator_range v w : wf v -> wf w -> comparator v w = -1 \/ comparator v w = 0 \/ comparator v w = 1;
  comparator_anti v w : wf v -> wf w -> comparator w v = - comparator v w;
  comparator_trans u v w : wf u -> wf v -> wf w ->
    comparator u v = -1 -> comparator v w = -1 -> comparator u w = -1 }.

(** Comparing numbers that the values have. *)
Lemma comparator_of_key {V} (comparator : V -> V -> Z) (wf : V -> Prop) (key : V -> Z) :
  (forall v w, wf v -> wf w -> comparator v w = Z.sgn (key v - key w)) -> Comparator comparator wf.
Proof. intros H. split; intros; rewrite ?H in * by done; lia. Qed.

Section tree.
Context {V : Type} (value : ptr -> V) (comparator : V -> V -> Z).

Definition sorted (l : list ptr) : Prop := StronglySorted (fun x y => comparator (value x) (value y) = -1) l.

(** The search for any value ends at the node that compares equal or next to its place. *)
Definition nearest (l : list ptr) (v : V) (y : ptr) : Prop :=
  comparator v (value y) = 0 \/
  exists a b, l = a ++ b /\ (last a = Some y \/ head b = Some y) /\
    (forall z, z ∈ a -> comparator v (value z) = 1) /\ (forall z, z ∈ b -> comparator v (value z) = -1).

(** The heap has a balanced tree of the nodes [l], in this order; [R] are the
    nodes that are not in it. *)
Definition makes (s : heap_t) (l : list ptr) (R : list cell) : Prop :=
  exists T, holds s T R /\ avl T /\ elements T = l /\ sorted l.
End tree.

(** ** The operations *)

Section operations.
Import AvlProofs.
Context {ops : AvlOps} {laws : AvlLaws}.
Context {V : Type} (value : ptr -> V) (comparator : V -> V -> Z) (wf : V -> Prop).
Context `{!Comparator comparator wf}.
Hypothesis Hwf : forall x, wf (value x).

Abbreviation sorted := (sorted value comparator).
Abbreviation nearest := (nearest value comparator).
Abbreviation makes := (makes value comparator).

Lemma wp_compare v x s (Q : Z -> heap_t -> list Empty_set -> Prop) :
  wf v -> Q (comparator v (value x)) s [] -> wp (compare_values comparator v (value x)) s Q.
Proof using All.
  intros Hv HQ. unfold compare_values. pose proof (comparator_range v (value x) Hv (Hwf x)).
  hstep. hstep; [lia|]. by hstep.
Qed.
Lemma below x y v : wf v -> comparator (value x) (value y) = -1 -> comparator v (value y) = 1 -> comparator v (value x) = 1.
Proof using All.
  intros Hv H1 H2. rewrite (comparator_anti (value y) v) in H2 by done. rewrite (comparator_anti (value x) v) by done.
  rewrite (comparator_trans (value x) (value y) v) by (done || lia). done.
Qed.
Lemma above x y v : wf v -> comparator (value y) (value x) = -1 -> comparator v (value y) = -1 -> comparator v (value x) = -1.
Proof using All. intros Hv H1 H2. by apply (comparator_trans v (value y) (value x)). Qed.
Lemma comparator_refl v : wf v -> comparator v v = 0.
Proof using All. intros Hv. pose proof (comparator_anti v v Hv Hv). lia. Qed.

(** The search ends at the node with the key, or at the place for it. *)
Lemma descend_ok v t : wf v -> forall c x fuel R s (Q : ptr * option bool -> heap_t -> list Empty_set -> Prop),
  place s c t R -> sorted (elements (plug c t)) -> top t = Some x -> height t <= Z.of_nat fuel ->
  (forall z, z ∈ before_path c -> comparator v (value z) = 1) -> (forall z, z ∈ after_path c -> comparator v (value z) = -1) ->
  (forall y, y ∈ elements t -> comparator v (value y) = 0 -> Q (y, None) s []) ->
  (forall d y b u c', place s ((d, y, b, u) :: c') Leaf R ->
     plug ((d, y, b, u) :: c') Leaf = plug c t ->
     (forall z, z ∈ before_path ((d, y, b, u) :: c') -> comparator v (value z) = 1) ->
     (forall z, z ∈ after_path ((d, y, b, u) :: c') -> comparator v (value z) = -1) ->
     Q (y, Some d) s []) ->
  wp (descend value comparator fuel v x) s Q.
Proof using All.
  intros Hv. induction t as [|l IHl y b r IHr]; intros c x fuel R s Q Hp Hs Ht Hf Hb Ha HQ1 HQ2; [done|].
  injection Ht as <-. cbn in Hf. pose proof (height_nonneg l). pose proof (height_nonneg r).
  destruct fuel as [|fuel]; [lia|]. cbn [descend]. apply wp_bind, wp_compare; [done|].
  rewrite elements_plug in Hs. cbn in Hs.
  assert (Hly : forall z, z ∈ elements l -> comparator (value z) (value y) = -1).
  { intros z Hz. apply StronglySorted_app in Hs as (_ & _ & Hs). rewrite <- app_assoc in Hs.
    apply StronglySorted_app in Hs as (Hs & _ & _). apply Hs; [done|left]. }
  assert (Hyr : forall z, z ∈ elements r -> comparator (value y) (value z) = -1).
  { intros z Hz. apply StronglySorted_app in Hs as (_ & _ & Hs). rewrite <- app_assoc in Hs.
    apply StronglySorted_app in Hs as (_ & _ & Hs). cbn in Hs. apply StronglySorted_inv in Hs as [_ Hs].
    rewrite Forall_forall in Hs. apply Hs, elem_of_app. by left. }
  destruct (_ =? 0) eqn:E0; [hstep; apply HQ1; [cbn; apply elem_of_app; right; left|lia]|].
  assert (Hp1 := Hp). open_place Hp1. astep.
  destruct (_ =? 1) eqn:E1; cbv iota.
  - assert (Hb' : forall z, z ∈ before_path ((true, y, b, l) :: c) -> comparator v (value z) = 1).
    { intros z. cbn. rewrite !elem_of_app, list_elem_of_singleton. intros [Hz|[Hz| ->]]; [by apply Hb| |lia].
      apply (below z y); [done|by apply Hly|lia]. }
    destruct r as [|r1 z br r2] eqn:Er; cbn [top].
    + hstep. apply (HQ2 true y b l c); [by apply place_step|done|exact Hb'|exact Ha].
    + rewrite <- Er in *. assert (top r = Some z) by by subst.
      eapply (IHr ((true, y, b, l) :: c)); [by apply place_step|by cbn; rewrite elements_plug|done|lia|done|done| |done].
      intros w Hw. apply HQ1. apply elem_of_app. right. by right.
  - assert (Ha' : forall z, z ∈ after_path ((false, y, b, r) :: c) -> comparator v (value z) = -1).
    { assert (Hvy : comparator v (value y) = -1) by (pose proof (comparator_range v (value y) Hv (Hwf y)); lia).
      intros z. cbn. rewrite elem_of_cons, elem_of_app. intros [-> |[Hz|Hz]]; [done| |by apply Ha].
      apply (above z y); [done|by apply Hyr|done]. }
    destruct l as [|l1 z bl l2] eqn:El; cbn [top].
    + hstep. apply (HQ2 false y b r c); [by apply place_step|done| |exact Ha'].
      intros w Hw. apply Hb. cbn in Hw. by rewrite app_nil_r in Hw.
    + rewrite <- El in *. assert (top l = Some z) by by subst.
      eapply (IHl ((false, y, b, r) :: c)); [by apply place_step|by cbn; rewrite elements_plug|done|lia| |done| |done].
      * intros w Hw. apply Hb. cbn in Hw. by rewrite app_nil_r in Hw.
      * intros w Hw. apply HQ1. apply elem_of_app. by left.
Qed.

Lemma insert_ok x nd l R s :
  makes s l ([(x, nd)] ++ R) ->
  wp (tree_Insert value comparator x) s (fun r s' _ =>
    (exists y, y ∈ l /\ comparator (value x) (value y) = 0 /\ r = (false, Some y) /\ s' = s) \/
    (exists a b, l = a ++ b /\ makes s' (a ++ x :: b) R /\ r.1 = true /\ (is_Some r.2 <-> l <> []))).
Proof using All.
  destruct nd as [p0 l0 r0 b0]. intros (T & Hp & Ht & <- & Hs). unfold tree_Insert, get_root, init_node.
  assert (Hp1 := Hp). destruct Hp1 as [Hr Ho]. hstep. hstep. rewrite Hr. cbn [topx].
  destruct (top T) as [c|] eqn:Etop.
  - apply wp_bind, wp_fuel_of. assert (Hfuel := height_fuel _ _ _ _ Hp).
    apply wp_bind. eapply (descend_ok (value x) T (Hwf x) []); [exact Hp|done|done|lia|by intros ? ?%not_elem_of_nil..| |].
    { intros y Hy Hk. hstep. left. eauto. }
    intros d y b u c' Hp' Epl Hb Ha. change (plug [] T) with T in Epl. assert (Hav : avl (plug ((d, y, b, u) :: c') Leaf)) by by rewrite Epl.
    rewrite avl_plug in Hav. destruct Hav as [_ (Hu & Hbal & Hb1 & Hc')].
    assert (Hlen := place_fuel _ _ _ _ Hp'). cbn [length elements] in Hlen.
    clear Ho Hr. destruct Hp' as [Hr Ho]. cbn [cx topx par top tr] in *. rewrite <- !app_assoc in Ho.
    do 5 astep.
    apply wp_bind. eapply wp_mono; [eapply (rebalance_ok _ c' d (Node Leaf x 0 Leaf) y b u 0 1 R)|].
    + destruct d; place_done.
    + lia.
    + cbn. lia.
    + done.
    + done.
    + lia.
    + destruct d; cbn in *; lia.
    + lia.
    + exact Hc'.
    + intros [] s' _ (T' & HpT & HavT & HelT). hstep. right.
      change (plug c' (mk d (Node Leaf x 0 Leaf) y b u)) with (plug ((d, y, b, u) :: c') (Node Leaf x 0 Leaf)) in HelT.
      rewrite elements_plug in HelT.
      exists (before_path ((d, y, b, u) :: c')), (after_path ((d, y, b, u) :: c')).
      rewrite <- Epl, elements_plug in Hs |- *. split; [done|]. split; [|split; [done|]].
      * exists T'. split_and!; [done|done|done|]. unfold sorted in *. cbn [elements app] in Hs.
        apply StronglySorted_app in Hs as (Hs1 & Hs2 & Hs3). apply StronglySorted_app. split_and!.
        -- intros z w Hz [-> |Hw]%elem_of_cons; [|by apply Hs1].
           by rewrite (comparator_anti (value x) (value z)), (Hb z Hz) by done.
        -- done.
        -- constructor; [done|]. apply Forall_forall. intros z Hz. by apply Ha.
      * split; [|by eauto]. intros _ E. apply app_nil in E as [E1 E2]. cbn in E1, E2.
        destruct d; [|done]. by destruct (before_path c'), (elements u).
  - destruct T; [|done]. cbn [cx topx par top tr] in *.
    do 6 astep. right. exists [], []. split; [done|]. split; [|split; [done|]].
    + exists (Node Leaf x 0 Leaf). split; [place_done|]. cbn. split_and!; try lia; try done. by repeat constructor.
    + split; [by intros [? ?]|done].
Qed.

(** Where a node of the tree is. *)
Lemma makes_at x l l' s R : makes s (l ++ x :: l') R ->
  exists c t b u, place s c (Node t x b u) R /\ avl (plug c (Node t x b u)) /\
    l = before_path c ++ elements t /\ l' = elements u ++ after_path c /\
    (length c + length (elements t) + length (elements u) < size (nodes s))%nat.
Proof.
  intros (T & Hp & Ht & Hel & Hs). assert (Hx : x ∈ elements T) by (rewrite Hel; apply elem_of_app; right; left).
  destruct (find_node T x Hx) as (c & t & b & u & ->). assert (Hp' := proj2 (place_plug _ _ _ _) Hp).
  assert (Hn : NoDup (l ++ x :: l')) by (rewrite <- Hel; by eapply holds_nodup).
  rewrite elements_plug in Hel. cbn in Hel. rewrite <- app_assoc in Hel. cbn in Hel.
  rewrite (app_assoc (before_path c)) in Hel.
  destruct (split_unique x l l' _ _ Hn (eq_sym Hel)) as [-> ->].
  exists c, t, b, u. split_and!; [done..|]. assert (Hf := place_fuel _ _ _ _ Hp').
  cbn [elements] in Hf. rewrite length_app in Hf. cbn in Hf. lia.
Qed.

Lemma tree_remove_ok x l l' R s :
  makes s (l ++ x :: l') R ->
  wp (tree_Remove x) s (fun _ s' _ => exists nd, makes s' (l ++ l') ([(x, nd)] ++ R)).
Proof.
  intros Hm. destruct (makes_at _ _ _ _ _ Hm) as (c & t & b & u & Hp & Hav & -> & -> & _).
  destruct Hm as (_ & _ & _ & _ & Hs). eapply wp_mono; [by eapply tree_remove_node_ok|].
  intros [] s' _ (T & nd & HT & HavT & HelT). exists nd, T.
  split_and!; [done|done|by rewrite HelT, <- app_assoc|]. by eapply sorted_remove.
Qed.

Lemma lookup_ok v l R s (Q : option ptr -> heap_t -> list Empty_set -> Prop) : wf v -> makes s l R ->
  (forall y, y ∈ l -> comparator v (value y) = 0 -> Q (Some y) s []) ->
  ((forall y, y ∈ l -> comparator v (value y) <> 0) -> Q None s []) ->
  wp (tree_LookupExact value comparator v) s Q.
Proof using All.
  intros Hv (T & Hp & Ht & <- & Hs) HQ1 HQ2. assert (Hp1 := Hp). destruct Hp1 as [Hr Ho].
  unfold tree_LookupExact, get_root. hstep. hstep. rewrite Hr. cbn [topx].
  destruct (top T) as [c|] eqn:Etop.
  - apply wp_bind, wp_fuel_of. assert (Hfuel := height_fuel _ _ _ _ Hp).
    apply wp_bind. eapply (descend_ok v T Hv []); [exact Hp|done|done|lia|by intros ? ?%not_elem_of_nil..| |].
    { intros y Hy Hk. hstep. by apply HQ1. }
    intros d y b u c' Hp' Epl Hb Ha. hstep. apply HQ2. intros z Hz.
    change (plug [] T) with T in Epl. rewrite <- Epl, elements_plug, !elem_of_app in Hz.
    destruct Hz as [Hz|[Hz|Hz]]; [specialize (Hb z Hz); lia|by apply not_elem_of_nil in Hz|specialize (Ha z Hz); lia].
  - destruct T; [|done]. hstep. apply HQ2. by intros ? ?%not_elem_of_nil.
Qed.

Lemma first_ok l R s : makes s l R -> wp tree_GetFirst s (fun r s' _ => s' = s /\ r = head l).
Proof.
  intros (T & Hp & Ht & <- & Hs). assert (Hp1 := Hp). destruct Hp1 as [Hr Ho].
  unfold tree_GetFirst, get_root. hstep. hstep. rewrite Hr. cbn [topx].
  destruct (top T) as [c|] eqn:Etop.
  - apply wp_bind, wp_fuel_of. assert (Hfuel := place_fuel _ _ _ _ Hp). cbn [length] in Hfuel.
    apply wp_bind. eapply walk_down_ok; [exact Hp|done|lia|]. intros y c2 b u Hst ->. hstep.
    rewrite elements_plug, before_path_stays by done. done.
  - destruct T; [|done]. by hstep.
Qed.
Lemma last_ok l R s : makes s l R -> wp tree_GetLast s (fun r s' _ => s' = s /\ r = last l).
Proof.
  intros (T & Hp & Ht & <- & Hs). assert (Hp1 := Hp). destruct Hp1 as [Hr Ho].
  unfold tree_GetLast, get_root. hstep. hstep. rewrite Hr. cbn [topx].
  destruct (top T) as [c|] eqn:Etop.
  - apply wp_bind, wp_fuel_of. assert (Hfuel := place_fuel _ _ _ _ Hp). cbn [length] in Hfuel.
    apply wp_bind. eapply walk_down_ok; [exact Hp|done|lia|]. intros y c2 b u Hst ->. hstep.
    rewrite elements_plug, (after_path_stays c2), app_nil_r by done. cbn. split; [done|].
    by rewrite app_assoc, last_snoc.
  - destruct T; [|done]. by hstep.
Qed.

Lemma lookup_near_ok v l R s : wf v -> makes s l R ->
  wp (tree_Lookup value comparator v) s (fun r s' _ => s' = s /\
    match r with Some y => y ∈ l /\ nearest l v y | None => l = [] end).
Proof using All.
  intros Hv (T & Hp & Ht & <- & Hs). assert (Hp1 := Hp). destruct Hp1 as [Hr Ho].
  unfold tree_Lookup, get_root. hstep. hstep. rewrite Hr. cbn [topx].
  destruct (top T) as [c|] eqn:Etop; [|destruct T; [by hstep|done]].
  apply wp_bind, wp_fuel_of. assert (Hfuel := height_fuel _ _ _ _ Hp).
  apply wp_bind. eapply (descend_ok v T Hv []); [exact Hp|done|done|lia|by intros ? ?%not_elem_of_nil..| |].
  { intros y Hy Hk. hstep. cbn. split_and!; [done|done|by left]. }
  intros d y b u c' Hp' Epl Hb Ha. change (plug [] T) with T in Epl.
  hstep. cbn [fst]. rewrite <- Epl, elements_plug. split; [done|]. split.
  - rewrite !elem_of_app. destruct d; cbn; [|right; right; left].
    left. rewrite !elem_of_app, list_elem_of_singleton. tauto.
  - right. exists (before_path ((d, y, b, u) :: c')), (after_path ((d, y, b, u) :: c')). split_and!; try done.
    destruct d; cbn; [left; by rewrite app_assoc, last_snoc|by right].
Qed.

Lemma next_ok x l l' R s : makes s (l ++ x :: l') R ->
  wp (tree_GetNext x) s (fun r s' _ => s' = s /\ r = head l').
Proof.
  intros (c & t & b & u & Hp & Hav & _ & -> & Hf)%makes_at.
  unfold tree_GetNext. apply wp_bind, wp_fuel_of.
  assert (Hp1 := Hp). open_place Hp1. astep. destruct u as [|u1 z bz u2]; cbn [top].
  - apply wp_bind. eapply walk_up_ok; [exact Hp|done|lia|]. intros y c1 c2 Hst -> Hy Hc2.
    eapply wp_parent; [exact (proj1 (place_app _ _ _ _ _) Hp)|exact Hy|]. split; [done|].
    rewrite after_path_app, after_path_stays by done. cbn.
    destruct c2 as [|[[[d q] bq] u] c2]; [done|]. cbn in Hc2. by subst d.
  - set (u := Node u1 z bz u2) in *. apply wp_bind.
    eapply (walk_down_ok false u ((true, x, b, t) :: c)); [by apply place_step|done|lia|].
    intros y c2 by_ w Hst ->. hstep. by rewrite elements_plug, before_path_stays.
Qed.
Lemma prev_ok x l l' R s : makes s (l ++ x :: l') R ->
  wp (tree_GetPrev x) s (fun r s' _ => s' = s /\ r = last l).
Proof.
  intros (c & t & b & u & Hp & Hav & -> & _ & Hf)%makes_at.
  unfold tree_GetPrev. apply wp_bind, wp_fuel_of.
  assert (Hp1 := Hp). open_place Hp1. astep. destruct t as [|t1 z bz t2]; cbn [top].
  - apply wp_bind. eapply walk_up_ok; [exact Hp|done|lia|]. intros y c1 c2 Hst -> Hy Hc2.
    eapply wp_parent; [exact (proj1 (place_app _ _ _ _ _) Hp)|exact Hy|]. split; [done|].
    rewrite app_nil_r, before_path_app, (before_path_stays c1), app_nil_r by done.
    destruct c2 as [|[[[d q] bq] w] c2]; [done|]. cbn in Hc2. subst d. cbn. by rewrite app_assoc, last_snoc.
  - set (t := Node t1 z bz t2) in *. apply wp_bind.
    eapply (walk_down_ok true t ((false, x, b, u) :: c)); [by apply place_step|done|lia|].
    intros y c2 by_ w Hst ->. hstep. rewrite elements_plug, (after_path_stays c2), app_nil_r by done. cbn.
    by rewrite !app_assoc, last_snoc.
Qed.

Lemma elements_in_heap l s R x : makes s l R -> x ∈ dom (nodes s) -> x ∉ l ->
  exists nd R', nodes s !! x = Some nd /\ R ≡ₚ [(x, nd)] ++ R'.
Proof.
  intros (T & [_ [Hn Ho]] & _ & <- & _) Hx Hl. rewrite Ho in Hx |- *. clear Ho.
  cbn [cx topx par app] in Hx, Hn |- *.
  rewrite dom_list_to_map, elem_of_list_to_set, fmap_app, elem_of_app in Hx.
  destruct Hx as [Hx|Hx]; [by rewrite (fst_tr None T) in Hx|].
  apply list_elem_of_fmap in Hx as ([y nd] & -> & Hin). apply list_elem_of_split in Hin as (R1 & R2 & ->).
  exists nd, (R1 ++ R2). split; [|by rewrite <- Permutation_middle].
  apply elem_of_list_to_map_1; [done|]. rewrite elem_of_app. right. rewrite elem_of_app. right. left.
Qed.
Lemma init_makes s : wp tree_Init s (fun _ s' _ => makes s' [] (map_to_list (nodes s)) /\ nodes s' = nodes s).
Proof using.
  unfold tree_Init, set_root. hstep. split; [|done]. exists Leaf. split_and!; [|done|done|constructor].
  split; [done|]. cbn [cx topx par tr app]. split; [|by rewrite list_to_map_to_list].
  apply NoDup_fst_map_to_list.
Qed.
Lemma makes_rest l s R R' : R ≡ₚ R' -> makes s l R -> makes s l R'.
Proof.
  intros E (T & [Hr Ho] & H). exists T. split; [|done]. split; [done|]. eapply owns_equiv; [|exact Ho]. by rewrite E.
Qed.
Lemma makes_lookup_rest l s R x nd : makes s l R -> (x, nd) ∈ R -> nodes s !! x = Some nd.
Proof.
  intros (T & [_ [Hn Ho]] & _) Hin. rewrite Ho. apply elem_of_list_to_map_1; [done|].
  rewrite !elem_of_app. tauto.
Qed.
Lemma makes_nodes l s R x : makes s l R -> x ∈ dom (nodes s) <-> x ∈ l \/ x ∈ R.*1.
Proof.
  intros (T & [_ [Hn Ho]] & _ & <- & _). rewrite Ho, dom_list_to_map, elem_of_list_to_set.
  cbn [cx topx par app]. by rewrite fmap_app, elem_of_app, (fst_tr None T).
Qed.

(** A tree that the operations have made passes its own checks. *)
Lemma verify_child_ok rec d c t x b u R s (Q : Z -> heap_t -> list Empty_set -> Prop) :
  place s c (mk d t x b u) R ->
  (forall y, y ∈ elements t -> comparator (value y) (value x) = if d then 1 else -1) ->
  (forall y Q, top t = Some y -> Q (height t) s [] -> wp (rec y) s Q) ->
  Q (height t) s [] -> wp (verify_child value comparator rec x d) s Q.
Proof using All.
  intros Hp Hord Hrec HQ. unfold verify_child.
  assert (Hl : forall Q : option ptr -> heap_t -> list Empty_set -> Prop, Q (top t) s [] -> wp (get_link x d) s Q).
  { intros Q' HQ'. destruct d; open_place Hp; astep; exact HQ'. }
  apply wp_bind, Hl. destruct t as [|t1 y bt t2] eqn:Et; cbn [top]; [by hstep|]. rewrite <- Et in *.
  assert (Hy : top t = Some y) by by rewrite Et.
  apply wp_bind. eapply wp_parent; [apply place_step; exact Hp|done|]. hstep. hstep; [by apply bool_decide_true|].
  apply wp_bind, wp_compare; [done|].
  assert (Hin : y ∈ elements t) by (rewrite Et; apply elem_of_app; right; left).
  hstep. hstep; [rewrite (Hord y Hin); by destruct d|]. by apply Hrec.
Qed.

Lemma recurser_ok fuel : forall t c x R s (Q : Z -> heap_t -> list Empty_set -> Prop),
  place s c t R -> top t = Some x -> height t <= Z.of_nat fuel -> avl t -> sorted (elements t) ->
  Q (height t) s [] -> wp (assert_recurser value comparator fuel x) s Q.
Proof using All.
  induction fuel as [|fuel IH]; intros [|l y b r] c x R s Q Hp Htop Hf Ht Hs HQ; try done.
  { cbn in Hf. pose proof (height_nonneg l). pose proof (height_nonneg r). lia. }
  injection Htop as ->. cbn [elements] in Hs. destruct Ht as (Hl & Hr & Hb & Hb1).
  apply StronglySorted_app in Hs as (Hlx & Hsl & [Hsr Hxr]%StronglySorted_inv). rewrite Forall_forall in Hxr.
  assert (Hbal : forall Q : Z -> heap_t -> list Empty_set -> Prop, Q b s [] -> wp (get_balance x) s Q)
    by (intros Q' HQ'; eapply (wp_balance c false l); [exact Hp|done]).
  cbn [assert_recurser]. apply wp_bind, Hbal. hstep. hstep; [lia|]. hstep. hstep; [lia|]. cbn [height] in Hf.
  apply wp_bind. eapply (verify_child_ok _ false c l); [exact Hp| | |].
  { intros y Hy. apply Hlx; [done|left]. }
  { intros y Q' Hy HQ'. eapply (IH l ((false, x, b, r) :: c)); [by apply place_step|done|lia|done|done|done]. }
  apply wp_bind. eapply (verify_child_ok _ true c r x b l); [exact Hp| | |].
  { intros y Hy. by rewrite (comparator_anti (value x) (value y)), (Hxr y Hy) by done. }
  { intros y Q' Hy HQ'. eapply (IH r ((true, x, b, l) :: c)); [by apply place_step|done|lia|done|done|done]. }
  apply wp_bind, Hbal. hstep. hstep; [lia|]. hstep. cbn [height] in HQ. rewrite AvlProofs.MAX_max.
  by replace (Z.max (height l) (height r) + 1) with (1 + Z.max (height l) (height r)) by lia.
Qed.
Lemma verify_ok l R s : makes s l R -> tree_Verify value comparator s = Some (tt, s, []).
Proof using All.
  intros (T & Hp & Ht & <- & Hs). assert (Hp1 := Hp). destruct Hp1 as [Hr _]. apply wp_eq.
  unfold tree_Verify, get_root. hstep. hstep. rewrite Hr. cbn [topx].
  destruct (top T) as [c|] eqn:Etop; [|by hstep].
  apply wp_bind. eapply wp_parent; [exact Hp|exact Etop|]. hstep. hstep; [done|].
  apply wp_bind, wp_fuel_of. apply wp_bind. eapply (recurser_ok _ T []); [exact Hp|done|by eapply height_fuel|done|done|].
  by hstep.
Qed.
End operations.
