(* ===== verification/BAVL.v ===== *)
(** * The balanced tree of the program

    [structure/BAVL.h]: its pointer operations, shown to be those of [AvlTree],
    and what the tree is: an ordered set, and a finite map. *)
From stdpp Require Import sorting.
From S2P Require Import Prelude AvlHeap AvlTree.

(** ** Pointers *)

Definition _BAVL_rotate (r : ptr) (dir : bool) : hdl unit :=
  nrp ← get_link r (negb dir);
  nr ← of_option nrp;
  v ← get_link nr dir;
  set_link r (negb dir) v;;
  v ← get_link r (negb dir);
  set_parent_if v (Some r);;
  set_link nr dir (Some r);;
  rp ← get_parent r;
  set_parent nr rp;;
  np ← get_parent nr;
  rp ← get_parent r;
  relink np rp r (Some nr);;
  set_parent r (Some nr).

Definition _BAVL_replace_subtree (dest : ptr) (n : option ptr) : hdl unit :=
  dp ← get_parent dest;
  relink dp dp dest n;;
  dp ← get_parent dest;
  set_parent_if n dp.

(** The nodes are directly connected, [n1] above. *)
Definition swap_adjacent (n1 n2 : ptr) : hdl unit :=
  l1 ← get_link n1 true;
  let side := bool_decide (Some n2 = l1) in
  c ← get_link n1 (negb side);
  l ← get_link n2 false; adopt n1 false l;;
  l ← get_link n2 true; adopt n1 true l;;
  p1 ← get_parent n1;
  set_parent n2 p1;;
  p2 ← get_parent n2;
  p1 ← get_parent n1;
  relink p2 p1 n1 (Some n2);;
  set_link n2 side (Some n1);;
  set_parent n1 (Some n2);;
  set_link n2 (negb side) c;;
  set_parent_if c (Some n2).

Definition swap_apart (n1 n2 : ptr) : hdl unit :=
  temp ← get_parent n1;
  p2 ← get_parent n2;
  set_parent n1 p2;;
  p1 ← get_parent n1;
  p2 ← get_parent n2;
  relink p1 p2 n2 (Some n1);;
  set_parent n2 temp;;
  p2 ← get_parent n2;
  relink p2 temp n1 (Some n2);;
  swap_children n1 n2 false;;
  swap_children n1 n2 true.

Definition _BAVL_swap_nodes (n1 n2 : ptr) : hdl unit :=
  p2 ← get_parent n2;
  p1 ← get_parent n1;
  (if bool_decide (p2 = Some n1) || bool_decide (p1 = Some n2) then
     if bool_decide (p1 = Some n2) then swap_adjacent n2 n1;; swap_balance n2 n1
     else swap_adjacent n1 n2;; swap_balance n1 n2
   else swap_apart n1 n2;; swap_balance n1 n2).


#[export] Instance BAVL_ops : AvlOps := {|
  rotate r dir _ := _BAVL_rotate r dir;
  swap_nodes := _BAVL_swap_nodes;
  replace_subtree dest n _ := _BAVL_replace_subtree dest n |}.

(** ** Operations *)

Definition _BAVL_rebalance : nat -> ptr -> bool -> Z -> hdl unit := rebalance.
Definition _BAVL_subtree_max : nat -> ptr -> hdl ptr := subtree_max.
Definition BAVL_Init : hdl unit := tree_Init.
Definition BAVL_Remove : ptr -> hdl unit := tree_Remove.
Definition BAVL_IsEmpty : hdl bool := tree_IsEmpty.
Definition BAVL_GetFirst : hdl (option ptr) := tree_GetFirst.
Definition BAVL_GetLast : hdl (option ptr) := tree_GetLast.
Definition BAVL_GetNext : ptr -> hdl (option ptr) := tree_GetNext.
Definition BAVL_GetPrev : ptr -> hdl (option ptr) := tree_GetPrev.

Section BAVL.
(** The value of a node is at a fixed offset from it. *)
Context {V : Type} (value : ptr -> V) (comparator : V -> V -> Z).
Definition _BAVL_compare_values : V -> V -> hdl Z := compare_values comparator.
Definition _BAVL_compare_nodes : ptr -> ptr -> hdl Z := compare_nodes value comparator.
Definition BAVL_Insert : ptr -> hdl (bool * option ptr) := tree_Insert value comparator.
Definition BAVL_Lookup : V -> hdl (option ptr) := tree_Lookup value comparator.
Definition BAVL_LookupExact : V -> hdl (option ptr) := tree_LookupExact value comparator.
Definition _BAVL_assert_recurser : nat -> ptr -> hdl Z := assert_recurser value comparator.
Definition BAVL_Verify : hdl unit := tree_Verify value comparator.
End BAVL.

(** ** The laws *)

Module BAVLProofs.
Lemma rotate_ok c dir m nr bn o r br a R s :
  place s c (mk (negb dir) (mk dir m nr bn o) r br a) R ->
  wp (_BAVL_rotate r dir) s (fun _ s' _ => place s' c (mk dir (mk (negb dir) m r br a) nr bn o) R).
Proof.
  intros [Hr Ho]. unfold _BAVL_rotate. destruct dir; cbn [mk negb top tr] in *; rewrite <- !app_assoc in Ho.
  all: do 11 astep; step_relink; astep; place_done.
Qed.

Lemma swap_adjacent_ok c ml m mb mr x b r R s :
  place s c (Node (Node ml m mb mr) x b r) R ->
  wp (swap_adjacent x m) s (fun _ s' _ => place s' c (Node (Node ml x b mr) m mb r) R).
Proof.
  intros Hp. open_place Hp. unfold swap_adjacent, adopt. astep.
  assert (top r <> Some m) by (eapply (owns_ne_tree s _ _ _ m _ (Some x) r Ho); apply _).
  rewrite bool_decide_false by congruence. do 13 astep. step_relink. do 4 astep. place_done.
Qed.

Lemma swap_apart_ok c d q bq u c2 ml m mb mr x b r R s :
  place s (((d, q, bq, u) :: c2) ++ (false, x, b, r) :: c) (Node ml m mb mr) R ->
  wp (swap_apart x m) s (fun _ s' _ =>
    place s' (((d, q, bq, u) :: c2) ++ (false, m, mb, r) :: c) (Node ml x b mr) R).
Proof.
  intros [Hr Ho]. cbn [top] in *. rewrite open_below in Ho. rewrite topx_app in Hr. cbn [par topx] in *.
  unfold swap_apart, swap_children, adopt. do 5 astep.
  apply wp_bind. eapply wp_relink_path; [exact Ho0|apply _|apply _|after_write Ho0].
  do 2 astep. step_relink. do 7 astep.
  match goal with Ho : owns ?s1 _ |- _ =>
    eapply (wp_set_parent_path (Some x) d q bq u c2); [exact Ho|apply _|after_write Ho] end.
  do 8 astep. split; [by rewrite topx_app|]. cbn [top]. rewrite open_below. cbn [par topx].
  match goal with Ho : owns ?s1 _ |- owns ?s1 _ => eapply owns_equiv; [|exact Ho] end. solve_Permutation.
Qed.

(** The node [m] takes the place of [x], with its balance, and [x] that of [m]. *)
Lemma swap_nodes_ok c c2 ml m mb mr x b r R s :
  place s (c2 ++ (false, x, b, r) :: c) (Node ml m mb mr) R -> -1 <= b <= 1 -> -1 <= mb <= 1 ->
  wp (_BAVL_swap_nodes x m) s (fun _ s' _ =>
    place s' (c2 ++ (false, m, b, r) :: c) (Node ml x mb mr) R).
Proof.
  intros Hp Hb Hmb. unfold _BAVL_swap_nodes. assert (Hp1 := Hp). destruct Hp1 as [_ Ho].
  cbn [top] in Ho. rewrite open_below in Ho. do 2 astep.
  assert (Hm : par None c <> Some m).
  { destruct c as [|[[[d0 q0] b0] u0] c0]; [done|]. intros [= ->]. cbn [cx] in Ho. rewrite <- !app_assoc in Ho.
    by eapply (owns_ne s _ _ _ m _ m _ Ho); [apply _|apply _|]. }
  rewrite (bool_decide_false (par None c = Some m)), orb_false_r by done.
  assert (H : forall (P : hdl unit), wp P s (fun _ s' _ => place s' (c2 ++ (false, m, mb, r) :: c) (Node ml x b mr) R) ->
    wp (P;; swap_balance x m) s (fun _ s' _ => place s' (c2 ++ (false, m, b, r) :: c) (Node ml x mb mr) R)).
  { intros P HP. apply wp_bind. eapply wp_mono; [exact HP|]. intros [] s1 [|[]] H1. by apply swap_balance_ok. }
  destruct c2 as [|[[[d q] bq] u] c2]; cbn [par].
  - rewrite bool_decide_true by done. apply H. cbn [app] in *. eapply wp_mono.
    + apply swap_adjacent_ok. by apply place_step in Hp.
    + intros [] s1 _ H1. by apply place_step.
  - rewrite bool_decide_false; [by apply H, swap_apart_ok|]. intros [= ->]. cbn [cx] in Ho.
    rewrite <- !app_assoc in Ho. by eapply (owns_ne s _ _ _ x _ x _ Ho); [apply _|apply _|].
Qed.

Lemma replace_subtree_ok c d t x b R s :
  place s c (mk d t x b Leaf) R ->
  wp (_BAVL_replace_subtree x (top t)) s (fun _ s' _ => exists nd, place s' c t ([(x, nd)] ++ R)).
Proof.
  intros Hp. assert (Ht : top (mk d t x b Leaf) = Some x) by by destruct d. destruct Hp as [Hr Ho].
  rewrite Ht in *. unfold _BAVL_replace_subtree.
  destruct d; cbn [mk tr] in Ho; rewrite <- !app_assoc in Ho;
    astep; step_relink; do 2 astep; (eexists; place_done).
Qed.

#[export] Instance BAVL_laws : AvlLaws.
Proof.
  split.
  - intros c dir m nr bn o r br a R s p Hp _. by apply rotate_ok.
  - intros. by apply swap_nodes_ok.
  - intros. by eapply replace_subtree_ok.
Qed.
End BAVLProofs.

(** ** The tree as an ordered set *)

Section spec.
Context {V : Type} (value : ptr -> V) (comparator : V -> V -> Z) (wf : V -> Prop).

Inductive op :=
  | Insert (x : ptr) | Remove (x : ptr) | Lookup (v : V) | LookupExact (v : V)
  | GetFirst | GetLast | GetNext (x : ptr) | GetPrev (x : ptr) | IsEmpty.
Inductive result :=
  | Ret_insert (r : bool) (ref : option ptr) | Ret_void | Ret_node (n : option ptr) | Ret_bool (b : bool).
Definition exec (o : op) : hdl result :=
  match o with
  | Insert x => r ← BAVL_Insert value comparator x; mret (Ret_insert r.1 r.2)
  | Remove x => BAVL_Remove x;; mret Ret_void
  | Lookup v => r ← BAVL_Lookup value comparator v; mret (Ret_node r)
  | LookupExact v => r ← BAVL_LookupExact value comparator v; mret (Ret_node r)
  | GetFirst => r ← BAVL_GetFirst; mret (Ret_node r)
  | GetLast => r ← BAVL_GetLast; mret (Ret_node r)
  | GetNext x => r ← BAVL_GetNext x; mret (Ret_node r)
  | GetPrev x => r ← BAVL_GetPrev x; mret (Ret_node r)
  | IsEmpty => r ← BAVL_IsEmpty; mret (Ret_bool r)
  end.
Fixpoint run (ops : list op) : hdl (list result) :=
  match ops with [] => mret [] | o :: ops => r ← exec o; rs ← run ops; mret (r :: rs) end.

Abbreviation sorted := (sorted value comparator).
Abbreviation nearest := (nearest value comparator).

(** What each operation does to a sorted sequence of nodes. *)
Inductive set_spec : list ptr -> op -> result -> list ptr -> Prop :=
  | spec_insert_present l x y : y ∈ l -> comparator (value x) (value y) = 0 ->
      set_spec l (Insert x) (Ret_insert false (Some y)) l
  | spec_insert a b x ref : sorted (a ++ x :: b) -> (is_Some ref <-> a ++ b <> []) ->
      set_spec (a ++ b) (Insert x) (Ret_insert true ref) (a ++ x :: b)
  | spec_remove a b x : set_spec (a ++ x :: b) (Remove x) Ret_void (a ++ b)
  | spec_lookup_none v : set_spec [] (Lookup v) (Ret_node None) []
  | spec_lookup l v y : y ∈ l -> nearest l v y -> set_spec l (Lookup v) (Ret_node (Some y)) l
  | spec_exact_none l v : (forall y, y ∈ l -> comparator v (value y) <> 0) -> set_spec l (LookupExact v) (Ret_node None) l
  | spec_exact l v y : y ∈ l -> comparator v (value y) = 0 -> set_spec l (LookupExact v) (Ret_node (Some y)) l
  | spec_first l : set_spec l GetFirst (Ret_node (head l)) l
  | spec_last l : set_spec l GetLast (Ret_node (last l)) l
  | spec_next a b x : set_spec (a ++ x :: b) (GetNext x) (Ret_node (head b)) (a ++ x :: b)
  | spec_prev a b x : set_spec (a ++ x :: b) (GetPrev x) (Ret_node (last a)) (a ++ x :: b)
  | spec_empty l : set_spec l IsEmpty (Ret_bool (bool_decide (l = []))) l.
Inductive run_spec : list ptr -> list op -> list result -> list ptr -> Prop :=
  | run_nil l : run_spec l [] [] l
  | run_cons l o r l1 ops rs l2 : set_spec l o r l1 -> run_spec l1 ops rs l2 -> run_spec l (o :: ops) (r :: rs) l2.

(** When an operation may be called: [D] are the nodes there are, [l] those in
    the tree. *)
Definition allowed (D : gset ptr) (l : list ptr) (o : op) : Prop :=
  match o with
  | Insert x => x ∈ D /\ x ∉ l
  | Remove x | GetNext x | GetPrev x => x ∈ l
  | Lookup v | LookupExact v => wf v
  | GetFirst | GetLast | IsEmpty => True
  end.
Fixpoint legal (D : gset ptr) (l : list ptr) (ops : list op) : Prop :=
  match ops with
  | [] => True
  | o :: ops => allowed D l o /\ forall r l', set_spec l o r l' -> legal D l' ops
  end.

End spec.
#[global] Arguments op : clear implicits.

Section bavl_properties.
Import BAVLProofs.
Context {V : Type} (value : ptr -> V) (comparator : V -> V -> Z) (wf : V -> Prop).
Context `{!Comparator comparator wf}.
Hypothesis Hwf : forall x, wf (value x).
Abbreviation makes := (makes value comparator).
Abbreviation legal := (legal value comparator wf).
Abbreviation exec := (exec value comparator).
Abbreviation set_spec := (set_spec value comparator).

Lemma bavl_exec_ok s l R o : makes s l R -> allowed wf (dom (nodes s)) l o ->
  wp (exec o) s (fun r s' _ => exists l' R', set_spec l o r l' /\ makes s' l' R' /\
    dom (nodes s') = dom (nodes s)).
Proof using All.
  intros Hm Ha. assert (Hl : sorted value comparator l) by by destruct Hm as (T & _ & _ & _ & Hs).
  destruct o as [x|x|v|v| | |x|x|]; cbn [exec BAVL.exec allowed] in *.
  - destruct Ha as [Hx Hxl]. destruct (elements_in_heap value comparator l s R x Hm Hx Hxl) as (nd & R' & _ & HR).
    apply (makes_rest _ _ _ _ _ _ HR) in Hm. apply wp_bind. eapply wp_mono; [exact (insert_ok value comparator wf Hwf x nd l R' s Hm)|].
    intros [r ref] s' _ [(y & Hy & Hk & [= -> ->] & ->)|(a & b & -> & Hm' & Hr & Href)]; hstep; cbn in *.
    + exists l, ([(x, nd)] ++ R'). split_and!; [by constructor|done|done].
    + subst r. exists (a ++ x :: b), R'. split_and!; [|done|].
      * constructor; [by destruct Hm' as (T & _ & _ & _ & Hs)|done].
      * apply set_eq. intros z. rewrite (makes_nodes value comparator _ _ _ z Hm'), (makes_nodes value comparator _ _ _ z Hm).
        cbn. rewrite !elem_of_app, !elem_of_cons. tauto.
  - apply list_elem_of_split in Ha as (a & b & ->). apply wp_bind. eapply wp_mono; [exact (tree_remove_ok value comparator x a b R s Hm)|].
    intros [] s' _ (nd & Hm'). hstep. exists (a ++ b), ([(x, nd)] ++ R). split_and!; [constructor|done|].
    apply set_eq. intros z. rewrite (makes_nodes value comparator _ _ _ z Hm'), (makes_nodes value comparator _ _ _ z Hm).
    cbn. rewrite !elem_of_app, !elem_of_cons. tauto.
  - apply wp_bind. eapply wp_mono; [exact (lookup_near_ok value comparator wf Hwf v l R s Ha Hm)|]. intros r s' _ [-> Hr]. hstep.
    exists l, R. split_and!; [|done|done]. destruct r as [y|]; [destruct Hr; by constructor|subst l; constructor].
  - apply wp_bind. eapply (lookup_ok value comparator wf Hwf v l R s); [done|done|..]; intros; hstep; exists l, R; (split_and!; [by constructor|done|done]).
  - apply wp_bind. eapply wp_mono; [exact (first_ok value comparator l R s Hm)|]. intros r s' _ [-> ->]. hstep.
    exists l, R. split_and!; [constructor|done|done].
  - apply wp_bind. eapply wp_mono; [exact (last_ok value comparator l R s Hm)|]. intros r s' _ [-> ->]. hstep.
    exists l, R. split_and!; [constructor|done|done].
  - apply list_elem_of_split in Ha as (a & b & ->). apply wp_bind. eapply wp_mono; [exact (next_ok value comparator x a b R s Hm)|].
    intros r s' _ [-> ->]. hstep. exists (a ++ x :: b), R. split_and!; [constructor|done|done].
  - apply list_elem_of_split in Ha as (a & b & ->). apply wp_bind. eapply wp_mono; [exact (prev_ok value comparator x a b R s Hm)|].
    intros r s' _ [-> ->]. hstep. exists (a ++ x :: b), R. split_and!; [constructor|done|done].
  - unfold BAVL_IsEmpty, tree_IsEmpty, get_root. do 4 hstep. exists l, R. split_and!; [|done|done].
    destruct Hm as (T & [Hr _] & _ & <- & _). rewrite Hr. cbn [topx].
    replace (is_null (top T)) with (bool_decide (elements T = [])); [constructor|].
    destruct T as [|t1 x b t2]; [done|]. cbn. rewrite bool_decide_false; [done|]. by destruct (elements t1).
Qed.

Lemma bavl_run_ok ops : forall s l R, makes s l R -> legal (dom (nodes s)) l ops ->
  wp (run value comparator ops) s (fun rs s' _ => exists l' R', run_spec value comparator l ops rs l' /\ makes s' l' R').
Proof using All.
  induction ops as [|o ops IH]; intros s l R Hm Hl; cbn [run].
  - hstep. exists l, R. split; [constructor|done].
  - destruct Hl as [Ha Hl]. apply wp_bind. eapply wp_mono; [by eapply bavl_exec_ok|].
    intros r s1 o1 (l1 & R1 & Hspec & Hm1 & Hd). apply wp_bind. eapply wp_mono.
    { eapply IH; [exact Hm1|]. rewrite Hd. by eapply Hl. }
    intros rs s2 o2 (l2 & R2 & Hrun & Hm2). hstep. exists l2, R2. split; [by econstructor|done].
Qed.

(** C28: For every sequence of operations on a tree that starts empty (only nodes
    that are not in the tree are inserted, only nodes of the tree removed or
    asked for their neighbours), no pointer to nothing is followed, no assertion
    fails and every loop ends, each operation returns what it should of the
    sequence of nodes ordered by their keys, and in the end the heap holds that
    sequence as a search tree with all parent pointers and balance factors right,
    so that it passes [BAVL_Verify]. *)
Theorem bavl_refines ops s : legal (dom (nodes s)) [] ops ->
  exists rs l' R' s', (BAVL_Init;; run value comparator ops) s = Some (rs, s', []) /\
    run_spec value comparator [] ops rs l' /\ makes s' l' R' /\
    BAVL_Verify value comparator s' = Some (tt, s', []).
Proof using All.
  intros Hl. assert (H : wp (BAVL_Init;; run value comparator ops) s (fun rs s' _ =>
    exists l' R', run_spec value comparator [] ops rs l' /\ makes s' l' R')).
  { apply wp_bind. eapply wp_mono; [apply (init_makes value comparator)|]. intros [] s1 o1 [Hm Hn].
    eapply wp_mono; [eapply bavl_run_ok; [exact Hm|by rewrite Hn]|]. eauto. }
  apply wp_spec in H as (rs & s' & [|[]] & H & l' & R' & Hr & Hm).
  assert (Hv := verify_ok value comparator wf Hwf l' R' s' Hm). eauto 10.
Qed.

Lemma avl_size t : avl t -> 2 ^ height t <= (len (elements t) + 1) ^ 2.
Proof using.
  induction t as [|l IHl x b r IHr]; [done|]. intros (Hl & Hr & Hb & Hb1). cbn [height elements].
  specialize (IHl Hl). specialize (IHr Hr). rewrite len_app, len_cons.
  pose proof (height_nonneg l). pose proof (height_nonneg r).
  pose proof (len_nonneg (elements l)). pose proof (len_nonneg (elements r)).
  set (n := len (elements l)) in *. set (m := len (elements r)) in *.
  replace (1 + Z.max (height l) (height r)) with (Z.succ (Z.max (height l) (height r))) by lia.
  rewrite Z.pow_succ_r by lia.
  assert (height l = height r \/ height l = Z.succ (height r) \/ height r = Z.succ (height l)) as [E|[E|E]] by lia.
  - rewrite E, Z.max_id in *. nia.
  - rewrite E, Z.max_l, Z.pow_succ_r in * by lia. assert (0 < 2 ^ height r) by lia. nia.
  - rewrite E, Z.max_r, Z.pow_succ_r in * by lia. assert (0 < 2 ^ height l) by lia. nia.
Qed.

(** The tree stays shallow: a search in a tree of [n] nodes looks at no more
    than [2 * log2 (n + 1)] of them. *)
Theorem bavl_search_bound s l R c v : makes s l R -> root s = Some c -> wf v ->
  exists fuel r, 2 ^ Z.of_nat fuel <= (len l + 1) ^ 2 /\ descend value comparator fuel v c s = Some (r, s, []).
Proof using All.
  intros (T & Hp & Ht & <- & Hs) Hc Hv. assert (Htop : top T = Some c) by (destruct Hp as [Hr _]; by rewrite Hc in Hr).
  exists (Z.to_nat (height T)). pose proof (height_nonneg T).
  assert (Hw : wp (descend value comparator (Z.to_nat (height T)) v c) s (fun r s' o => s' = s /\ o = [])).
  { eapply (descend_ok value comparator wf Hwf v T Hv []);
      [exact Hp|done|done|lia|by intros ? ?%not_elem_of_nil..|done|done]. }
  apply wp_spec in Hw as (r & s' & o & Hw & -> & ->). exists r. split; [|done].
  rewrite Z2Nat.id by lia. by apply avl_size.
Qed.

(** *** As a finite map *)

Context `{Countable V}.
Hypothesis comparator_eq : forall v w, wf v -> wf w -> comparator v w = 0 -> v = w.

Definition tree_map (l : list ptr) : gmap V ptr := list_to_map ((fun x => (value x, x)) <$> l).

Lemma tree_map_nodup l : sorted value comparator l -> NoDup ((fun x => (value x, x)) <$> l).*1.
Proof using All.
  intros Hs. rewrite <- list_fmap_compose. induction Hs as [|x l _ IH Hx]; constructor; [|done].
  intros (y & Hy & Hin)%list_elem_of_fmap. rewrite Forall_forall in Hx. specialize (Hx y Hin).
  cbn in Hy. rewrite Hy, (comparator_refl value comparator wf) in Hx by done. done.
Qed.
Lemma tree_map_Some l x : sorted value comparator l -> x ∈ l -> tree_map l !! value x = Some x.
Proof using All.
  intros Hs Hx. apply elem_of_list_to_map_1; [by apply tree_map_nodup|].
  apply list_elem_of_fmap. by exists x.
Qed.
Lemma tree_map_None l v : (forall x, x ∈ l -> value x <> v) -> tree_map l !! v = None.
Proof using.
  intros Hl. apply not_elem_of_list_to_map. intros ([w x] & -> & Hin)%list_elem_of_fmap.
  apply list_elem_of_fmap in Hin as (y & [= -> ->] & Hy). by apply (Hl y).
Qed.
Lemma tree_map_middle a b x : sorted value comparator (a ++ x :: b) ->
  tree_map (a ++ x :: b) = <[value x := x]> (tree_map (a ++ b)) /\ tree_map (a ++ b) !! value x = None.
Proof using All.
  intros Hs. split.
  - unfold tree_map. rewrite (list_to_map_proper _ (((fun x => (value x, x)) <$> (x :: a ++ b)))); [done| |].
    + by apply tree_map_nodup.
    + by rewrite <- Permutation_middle.
  - apply tree_map_None. intros y Hy E. assert (Hn := tree_map_nodup _ Hs).
    rewrite <- list_fmap_compose, fmap_app, fmap_cons, <- Permutation_middle, <- fmap_app in Hn.
    apply NoDup_cons in Hn as [Hn _]. apply Hn. cbn. rewrite <- E. apply list_elem_of_fmap. by exists y.
Qed.

(** A heap whose tree is the map [m] from values to nodes: [BAVL_LookupExact]
    looks a value up, [BAVL_Insert] inserts a node under its value, or returns 0
    and changes nothing when the value has a node already, and [BAVL_Remove]
    deletes. *)
Definition map_tree (s : heap_t) (l : list ptr) : Prop :=
  (forall v, wf v -> BAVL_LookupExact value comparator v s = Some (tree_map l !! v, s, [])) /\
  (forall x, x ∈ dom (nodes s) -> x ∉ l ->
    match tree_map l !! value x with
    | Some y => BAVL_Insert value comparator x s = Some ((false, Some y), s, [])
    | None => exists ref s' l' R', BAVL_Insert value comparator x s = Some ((true, ref), s', []) /\
        makes s' l' R' /\ tree_map l' = <[value x := x]> (tree_map l)
    end) /\
  (forall x, tree_map l !! value x = Some x -> exists s' l' R', BAVL_Remove x s = Some (tt, s', []) /\
    makes s' l' R' /\ tree_map l' = delete (value x) (tree_map l)).

(** A tree whose comparison function tells all values apart is a finite map. *)
Lemma finite_map_ok s l R : makes s l R -> map_tree s l.
Proof using All.
  intros Hm. assert (Hl : sorted value comparator l) by by destruct Hm as (T & _ & _ & _ & Hs).
  split_and!.
  - intros v Hv. apply wp_eq. eapply (lookup_ok value comparator wf Hwf v l R s); [done|done|..].
    + intros y Hy Hk. apply comparator_eq in Hk; [subst v|done..]. split_and!; [|done|done]. by rewrite tree_map_Some.
    + intros Hk. split_and!; [|done|done]. rewrite tree_map_None; [done|]. intros x Hx <-. by apply (Hk x Hx), (comparator_refl value comparator wf).
  - intros x Hx Hxl. destruct (elements_in_heap value comparator l s R x Hm Hx Hxl) as (nd & R' & _ & HR).
    apply (makes_rest _ _ _ _ _ _ HR) in Hm.
    assert (Hins := insert_ok value comparator wf Hwf x nd l R' s Hm).
    apply wp_spec in Hins as ([r ref] & s' & [|[]] & E & [(y & Hy & Hk & [= -> ->] & ->)|(a & b & -> & Hm' & Hr & _)]).
    + apply comparator_eq in Hk; [|apply Hwf..]. rewrite Hk, tree_map_Some by done. done.
    + assert (Hs' : sorted value comparator (a ++ x :: b)) by by destruct Hm' as (T & _ & _ & _ & ?).
      destruct (tree_map_middle a b x Hs') as [E1 E2]. rewrite E2. cbn in Hr. subst r. eauto 8.
  - intros x Hx. assert (Hxl : x ∈ l).
    { apply elem_of_list_to_map_2, list_elem_of_fmap in Hx as (y & [= _ ->] & Hy). done. }
    apply list_elem_of_split in Hxl as (a & b & ->).
    assert (Hrem := tree_remove_ok value comparator x a b R s Hm).
    apply wp_spec in Hrem as ([] & s' & [|[]] & E & nd & Hm').
    destruct (tree_map_middle a b x Hl) as [E1 E2]. rewrite E1, delete_insert_id by done. eauto 8.
Qed.
End bavl_properties.

(** Numbers, as [uint16_comparator] of the udpgw client compares them. *)
#[export] Instance B_COMPARE_comparator : Comparator B_COMPARE (fun _ => True).
Proof. apply (comparator_of_key _ _ (fun v => v)). intros v w _ _. apply B_COMPARE_sgn. Qed.

Module BAVLWitnesses.
(** Nodes 0 to 19, none in a tree; the value of a node is its number. *)
Definition blank : node_t := mk_node None None None 0.
Definition demo_heap : heap_t := mk_heap None (list_to_map ((fun x => (x, blank)) <$> seq 0 20)).
Definition demo_run (ops : list (op Z)) : option (list result) :=
  match (BAVL_Init;; run Z.of_nat B_COMPARE ops) demo_heap with Some (rs, _, _) => Some rs | None => None end.

(** A rotation, a double rotation, the removal of a node with two subtrees. *)
Example demo_ordered :
  demo_run (map Insert [1; 2; 3; 9; 5; 7; 6; 4; 8; 5]%nat ++
    [Remove 5%nat; GetFirst; GetNext 4%nat; GetPrev 4%nat; GetLast; LookupExact 7; LookupExact 5; GetNext 9%nat]) =
  Some (map (fun r => Ret_insert true r) [None; Some 1; Some 2; Some 3; Some 9; Some 9; Some 7; Some 3; Some 9]%nat ++
    [Ret_insert false (Some 5%nat); Ret_void; Ret_node (Some 1%nat); Ret_node (Some 6%nat); Ret_node (Some 3%nat);
     Ret_node (Some 9%nat); Ret_node (Some 7%nat); Ret_node None; Ret_node None]).
Proof. vm_compute. reflexivity. Qed.

Definition demo_ops : list (op Z) :=
  [Insert 2%nat; Insert 1%nat; Insert 3%nat; GetNext 1%nat; Remove 2%nat; LookupExact 2].

Lemma demo_insert l x r l' : x ∉ l -> set_spec Z.of_nat B_COMPARE l (Insert x) r l' ->
  forall y, y ∈ l' <-> y = x \/ y ∈ l.
Proof.
  intros Hx H. inversion H as [? ? z Hz Hk|a b z ref Hs Href| | | | | | | | | |]; subst; intros y.
  - rewrite B_COMPARE_sgn in Hk. replace z with x in Hz by lia. done.
  - rewrite !elem_of_app, elem_of_cons. tauto.
Qed.
Lemma demo_legal : legal Z.of_nat B_COMPARE (fun _ => True) (dom (nodes demo_heap)) [] demo_ops.
Proof.
  assert (Hd : forall x, (x < 20)%nat -> x ∈ dom (nodes demo_heap)).
  { intros x Hx. apply elem_of_dom. do 20 (destruct x as [|x]; [by eexists|]). lia. }
  cbn [legal demo_ops allowed].
  assert (H0 : 2%nat ∉ @nil ptr) by apply not_elem_of_nil. split; [split; [apply Hd; lia|done]|].
  intros r1 l1 E1. assert (M1 := demo_insert _ _ _ _ H0 E1).
  assert (H1 : 1%nat ∉ l1) by (rewrite M1; intros [?|?%not_elem_of_nil]; done).
  split; [split; [apply Hd; lia|done]|]. intros r2 l2 E2. assert (M2 := demo_insert _ _ _ _ H1 E2).
  assert (H3 : 3%nat ∉ l2) by (rewrite M2, M1; intros [?|[?|?%not_elem_of_nil]]; done).
  split; [split; [apply Hd; lia|done]|]. intros r3 l3 E3. assert (M3 := demo_insert _ _ _ _ H3 E3).
  split; [rewrite M3, M2; tauto|]. intros r4 l4 E4. inversion E4; subst.
  split; [rewrite M3, M2, M1; tauto|done].
Qed.

Lemma bavl_refines_witness : exists rs l' R' s',
  (BAVL_Init;; run Z.of_nat B_COMPARE demo_ops) demo_heap = Some (rs, s', []) /\
  run_spec Z.of_nat B_COMPARE [] demo_ops rs l' /\ makes Z.of_nat B_COMPARE s' l' R' /\
  BAVL_Verify Z.of_nat B_COMPARE s' = Some (tt, s', []).
Proof. apply (bavl_refines Z.of_nat B_COMPARE (fun _ => True) (fun _ => I)), demo_legal. Defined.

(** Three nodes, as the code has linked them. *)
Definition demo_tree : heap_t :=
  mk_heap (Some 2%nat) {[ 1%nat := mk_node (Some 2%nat) None None 0;
    2%nat := mk_node None (Some 1%nat) (Some 3%nat) 0; 3%nat := mk_node (Some 2%nat) None None 0;
    4%nat := blank ]}.
Lemma demo_tree_makes : makes Z.of_nat B_COMPARE demo_tree [1; 2; 3]%nat [(4%nat, blank)].
Proof.
  exists (Node (Node Leaf 1%nat 0 Leaf) 2%nat 0 (Node Leaf 3%nat 0 Leaf)). split_and!.
  - split; [done|]. split; [apply (bool_decide_unpack _); by vm_compute|]. by vm_compute.
  - cbn. lia.
  - done.
  - repeat constructor; by vm_compute.
Qed.
Lemma bavl_search_bound_witness : exists fuel r, 2 ^ Z.of_nat fuel <= 16 /\
  descend Z.of_nat B_COMPARE fuel 3 2%nat demo_tree = Some (r, demo_tree, []).
Proof.
  apply (bavl_search_bound Z.of_nat B_COMPARE (fun _ => True) (fun _ => I) demo_tree
    [1; 2; 3]%nat [(4%nat, blank)] 2%nat 3 demo_tree_makes eq_refl I).
Defined.
End BAVLWitnesses.
