(* ===== verification/CAvl.v ===== *)
(** * The balanced tree of the event loop and of the fair queue

    [structure/CAvl_impl.h], as it is built for [BReactor__TimersTree] and,
    through [structure/SAvl_impl.h], for [PacketPassFairQueue__Tree]: with a
    comparison of entries, without keys, counts and sums.  An entry and the link
    to it are one pointer.  The functions written as in [BAVL.h] are those of
    [AvlTree]; here are the others, with the parents that they are given and
    check.  The tree implements the sorted sequences of [OrderedTree] that the
    models of the two programs use. *)
From stdpp Require Import sorting.
From S2P Require Import Prelude OrderedTree AvlHeap AvlTree.

Abbreviation ptr := nat.

(** ** Pointers *)

Definition CAvl_check_parent (p : option ptr) (c : ptr) : hdl bool :=
  cp ← get_parent c;
  if negb (bool_decide (p = cp)) then mret false else
  match p with
  | None => mret true
  | Some q =>
      l0 ← get_link q false;
      if bool_decide (Some c = l0) then mret true else
      l1 ← get_link q true;
      mret (bool_decide (Some c = l1))
  end.
Definition assert_parent (p : option ptr) (c : ptr) : hdl unit := b ← CAvl_check_parent p c; ASSERT b.

Definition CAvl_rotate (r : ptr) (dir : bool) (r_parent : option ptr) : hdl unit :=
  assert_parent r_parent r;;
  nrp ← get_link r (negb dir);
  nr ← of_option nrp;
  v ← get_link nr dir; adopt r (negb dir) v;;
  set_link nr dir (Some r);;
  set_parent nr r_parent;;
  relink r_parent r_parent r (Some nr);;
  set_parent r (Some nr).

Definition CAvl_replace_subtree_fix_assoc (dest : ptr) (n dest_parent : option ptr) : hdl unit :=
  assert_parent dest_parent dest;;
  relink dest_parent dest_parent dest n;;
  match n with
  | Some n => dp ← get_parent dest; set_parent n dp
  | None => mret tt
  end.

(** The nodes are directly connected. *)
Definition swap_connected (node enode : ptr) (node_parent : option ptr) : hdl unit :=
  l1 ← get_link node true;
  let side := bool_decide (Some enode = l1) in
  c ← get_link node (negb side);
  l ← get_link enode false; adopt node false l;;
  l ← get_link enode true; adopt node true l;;
  np ← get_parent node;
  set_parent enode np;;
  relink node_parent node_parent node (Some enode);;
  set_link enode side (Some node);;
  set_parent node (Some enode);;
  set_link enode (negb side) c;;
  set_parent_if c (Some enode).

Definition swap_distant (node enode : ptr) (node_parent enode_parent : option ptr) : hdl unit :=
  ep ← get_parent enode;
  set_parent node ep;;
  relink enode_parent enode_parent enode (Some node);;
  set_parent enode node_parent;;
  relink node_parent node_parent node (Some enode);;
  swap_children node enode false;;
  swap_children node enode true.

Definition CAvl_swap_for_remove (node enode : ptr) (node_parent enode_parent : option ptr) : hdl unit :=
  assert_parent node_parent node;;
  assert_parent enode_parent enode;;
  (if bool_decide (enode_parent = Some node) then swap_connected node enode node_parent
   else swap_distant node enode node_parent enode_parent);;
  swap_balance node enode.

#[export] Instance CAvl_ops : AvlOps := {|
  rotate r dir p := r_parent ← p; CAvl_rotate r dir r_parent;
  swap_nodes node enode := np ← get_parent node; ep ← get_parent enode; CAvl_swap_for_remove node enode np ep;
  replace_subtree dest n p := CAvl_replace_subtree_fix_assoc dest n p |}.

(** ** Operations *)

Definition CAvl_rebalance : nat -> ptr -> bool -> Z -> hdl unit := rebalance.
Definition CAvl_subtree_min (fuel : nat) (n : ptr) : hdl ptr := walk_down fuel false n.
Definition CAvl_subtree_max : nat -> ptr -> hdl ptr := subtree_max.
Definition CAvl_Init : hdl unit := tree_Init.
Definition CAvl_Remove : ptr -> hdl unit := tree_Remove.
Definition CAvl_IsEmpty : hdl bool := tree_IsEmpty.
Definition CAvl_GetFirst : hdl (option ptr) := tree_GetFirst.
Definition CAvl_GetLast : hdl (option ptr) := tree_GetLast.
Definition CAvl_GetNext : ptr -> hdl (option ptr) := tree_GetNext.
Definition CAvl_GetPrev : ptr -> hdl (option ptr) := tree_GetPrev.

Section CAvl.
(** The user's comparison of entries. *)
Context (compare : ptr -> ptr -> Z).
Definition CAvl_compare_entries : ptr -> ptr -> hdl Z := compare_nodes id compare.
Definition CAvl_Insert : ptr -> hdl (bool * option ptr) := tree_Insert id compare.
Definition CAvl_verify_recurser : nat -> ptr -> hdl Z := assert_recurser id compare.
Definition CAvl_Verify : hdl unit := tree_Verify id compare.

(** [SAvl] passes entries through. *)
Definition SAvl_Init : hdl unit := CAvl_Init.
Definition SAvl_Insert : ptr -> hdl (bool * option ptr) := CAvl_Insert.
Definition SAvl_Remove : ptr -> hdl unit := CAvl_Remove.
Definition SAvl_GetFirst : hdl (option ptr) := CAvl_GetFirst.
Definition SAvl_IsEmpty : hdl bool := CAvl_IsEmpty.
End CAvl.

(** ** The laws *)

Module CAvlProofs.
Lemma wp_assert_parent c t x R s (Q : unit -> heap_t -> list Empty_set -> Prop) :
  place s c t R -> top t = Some x -> Q tt s [] -> wp (assert_parent (par None c) x) s Q.
Proof.
  intros Hp Ht HQ. unfold assert_parent, CAvl_check_parent. apply wp_bind, wp_bind.
  eapply wp_parent; [exact Hp|exact Ht|]. rewrite bool_decide_true by done. cbn [negb].
  destruct c as [|[[[d q] b] u] c]; cbn [par]; [hstep; by hstep|].
  open_place Hp. rewrite Ht in *. astep. destruct d.
  - case_bool_decide; [hstep; by hstep|]. astep. hstep. hstep; [by apply bool_decide_true|done].
  - rewrite bool_decide_true by done. hstep. by hstep.
Qed.
Lemma cavl_rotate_ok c dir m nr bn o r br a R s :
  place s c (mk (negb dir) (mk dir m nr bn o) r br a) R ->
  wp (CAvl_rotate r dir (par None c)) s (fun _ s' _ =>
    place s' c (mk dir (mk (negb dir) m r br a) nr bn o) R).
Proof.
  intros Hp. unfold CAvl_rotate, adopt. apply wp_bind.
  eapply wp_assert_parent; [exact Hp|by destruct dir|].
  destruct Hp as [Hr Ho]. destruct dir; cbn [mk negb top tr] in *; rewrite <- !app_assoc in Ho.
  all: do 8 astep; step_relink; astep; place_done.
Qed.

Lemma swap_connected_ok c ml m mb mr x b r R s :
  place s c (Node (Node ml m mb mr) x b r) R ->
  wp (swap_connected x m (par None c)) s (fun _ s' _ => place s' c (Node (Node ml x b mr) m mb r) R).
Proof.
  intros Hp. open_place Hp. unfold swap_connected, adopt. astep.
  assert (top r <> Some m) by (eapply (owns_ne_tree s _ _ _ m _ (Some x) r Ho); apply _).
  rewrite bool_decide_false by congruence. do 11 astep. step_relink. do 4 astep. place_done.
Qed.
Lemma swap_distant_ok c d q bq u c2 ml m mb mr x b r R s :
  place s (((d, q, bq, u) :: c2) ++ (false, x, b, r) :: c) (Node ml m mb mr) R ->
  wp (swap_distant x m (par None c) (Some q)) s (fun _ s' _ =>
    place s' (((d, q, bq, u) :: c2) ++ (false, m, mb, r) :: c) (Node ml x b mr) R).
Proof.
  intros [Hr Ho]. cbn [top] in *. rewrite open_below in Ho. rewrite topx_app in Hr. cbn [par topx] in *.
  unfold swap_distant, swap_children, adopt. do 2 astep.
  apply wp_bind. eapply wp_relink_path; [exact Ho0|apply _|apply _|after_write Ho0]. astep.
  step_relink. do 7 astep.
  match goal with Ho : owns ?s1 _ |- _ =>
    eapply (wp_set_parent_path (Some x) d q bq u c2); [exact Ho|apply _|after_write Ho] end.
  do 8 astep. split; [by rewrite topx_app|]. cbn [top]. rewrite open_below. cbn [par topx].
  match goal with Ho : owns ?s1 _ |- owns ?s1 _ => eapply owns_equiv; [|exact Ho] end. solve_Permutation.
Qed.
Lemma swap_for_remove_ok c c2 ml m mb mr x b r R s :
  place s (c2 ++ (false, x, b, r) :: c) (Node ml m mb mr) R -> -1 <= b <= 1 -> -1 <= mb <= 1 ->
  wp (CAvl_swap_for_remove x m (par None c) (par (Some x) c2)) s (fun _ s' _ =>
    place s' (c2 ++ (false, m, b, r) :: c) (Node ml x mb mr) R).
Proof.
  intros Hp Hb Hmb. unfold CAvl_swap_for_remove.
  assert (Hx : place s c (Node (plug c2 (Node ml m mb mr)) x b r) R).
  { apply place_app in Hp. by apply place_step in Hp. }
  apply wp_bind. eapply wp_assert_parent; [exact Hx|done|].
  apply wp_bind. assert (Hpar : par None (c2 ++ (false, x, b, r) :: c) = par (Some x) c2) by by rewrite par_app.
  rewrite <- Hpar at 1. eapply wp_assert_parent; [exact Hp|done|].
  apply wp_bind. eapply (wp_mono _ _ (fun _ s' _ =>
    place s' (c2 ++ (false, m, mb, r) :: c) (Node ml x b mr) R)).
  2: { intros [] s1 [|[]] H1. by apply swap_balance_ok. }
  destruct c2 as [|[[[d q] bq] u] c2]; cbn [par].
  - rewrite bool_decide_true by done. eapply wp_mono.
    + apply swap_connected_ok. exact Hx.
    + intros [] s1 _ H1. by apply place_step.
  - rewrite bool_decide_false; [by apply swap_distant_ok|]. intros [= ->].
    destruct Hp as [_ Ho]. cbn [top] in Ho. rewrite open_below in Ho. cbn [cx] in Ho.
    rewrite <- !app_assoc in Ho. by eapply (owns_ne s _ _ _ x _ x _ Ho); [apply _|apply _|].
Qed.

Lemma replace_fix_ok c d t x b R s :
  place s c (mk d t x b Leaf) R ->
  wp (CAvl_replace_subtree_fix_assoc x (top t) (par None c)) s (fun _ s' _ =>
    exists nd, place s' c t ([(x, nd)] ++ R)).
Proof.
  intros Hp. assert (Ht : top (mk d t x b Leaf) = Some x) by by destruct d.
  unfold CAvl_replace_subtree_fix_assoc. apply wp_bind. eapply wp_assert_parent; [exact Hp|exact Ht|].
  destruct Hp as [Hr Ho]. rewrite Ht in *.
  destruct d; cbn [mk tr] in Ho; rewrite <- !app_assoc in Ho; step_relink.
  all: destruct t as [|l y by_ r]; cbn [top tr] in *; rewrite <- ?app_assoc in *;
    [hstep|do 2 astep]; (eexists; place_done).
Qed.

#[export] Instance CAvl_laws : AvlLaws.
Proof.
  split.
  - intros c dir m nr bn o r br a R s p Hp Hpar. cbn. apply wp_bind, Hpar. by apply cavl_rotate_ok.
  - intros c c2 ml m mb mr x b r R s Hp Hb Hmb. cbn.
    assert (Hx : place s c (Node (plug c2 (Node ml m mb mr)) x b r) R).
    { apply place_app in Hp. by apply place_step in Hp. }
    apply wp_bind. eapply wp_parent; [exact Hx|done|]. apply wp_bind. eapply wp_parent; [exact Hp|done|].
    rewrite par_app. by apply swap_for_remove_ok.
  - intros. by eapply replace_fix_ok.
Qed.
End CAvlProofs.

(** ** The tree as a sorted sequence *)

(** [compare_timers] and [compare_flows]: times first, then addresses. *)
Definition compare_by (key : ptr -> Z) (p q : ptr) : Z :=
  let cmp := B_COMPARE (key p) (key q) in
  if negb (cmp =? 0) then cmp else B_COMPARE (Z.of_nat p) (Z.of_nat q).

Inductive tree_op := Tree_Insert (p : ptr) | Tree_Remove (p : ptr) | Tree_GetFirst | Tree_IsEmpty.
Inductive tree_result := Inserted (r : bool) | Removed | First (p : option ptr) | Empty (b : bool).

Section sequence.
Context (key : ptr -> Z).

(** What the programs do with the tree, and what the models do instead. *)
Definition exec (o : tree_op) : hdl tree_result :=
  match o with
  | Tree_Insert p => r ← CAvl_Insert (compare_by key) p; mret (Inserted r.1)
  | Tree_Remove p => CAvl_Remove p;; mret Removed
  | Tree_GetFirst => r ← CAvl_GetFirst; mret (First r)
  | Tree_IsEmpty => b ← CAvl_IsEmpty; mret (Empty b)
  end.
Fixpoint run (ops : list tree_op) : hdl (list tree_result) :=
  match ops with [] => mret [] | o :: ops => r ← exec o; rs ← run ops; mret (r :: rs) end.

Definition seq := handler (list ptr) Empty_set.
Definition seq_exec (o : tree_op) : seq tree_result :=
  l ← get;
  match o with
  | Tree_Insert p =>
      r ← tree_insert (fun p q => mret (compare_by key p q)) p l;
      match r with
      | Some l => modify (fun _ => l);; mret (Inserted true)
      | None => mret (Inserted false)
      end
  | Tree_Remove p => modify (without p);; mret Removed
  | Tree_GetFirst => mret (First (head l))
  | Tree_IsEmpty => mret (Empty (is_null (head l)))
  end.
Fixpoint seq_run (ops : list tree_op) : seq (list tree_result) :=
  match ops with [] => mret [] | o :: ops => r ← seq_exec o; rs ← seq_run ops; mret (r :: rs) end.

(** [D] are the entries there are, [l] those in the tree. *)
Definition allowed (D : gset ptr) (l : list ptr) (o : tree_op) : bool :=
  match o with
  | Tree_Insert p => bool_decide (p ∈ D /\ p ∉ l)
  | Tree_Remove p => bool_decide (p ∈ l)
  | Tree_GetFirst | Tree_IsEmpty => true
  end.
Fixpoint legal (D : gset ptr) (l : list ptr) (ops : list tree_op) : bool :=
  match ops with
  | [] => true
  | o :: ops => allowed D l o && match seq_exec o l with Some (_, l', _) => legal D l' ops | None => false end
  end.
End sequence.

Section cavl_properties.
Import CAvlProofs.
Context (key : ptr -> Z).
Abbreviation compare := (compare_by key).
Abbreviation makes := (makes id compare).

Lemma compare_by_sgn p q : compare p q =
  if key p =? key q then Z.sgn (Z.of_nat p - Z.of_nat q) else Z.sgn (key p - key q).
Proof using. unfold compare_by. rewrite !B_COMPARE_sgn. repeat case_match; lia. Qed.
Lemma compare_by_before p q : compare p q = -1 <-> before key p q.
Proof using. rewrite compare_by_sgn. unfold before. case_match; lia. Qed.
Lemma compare_by_0 p q : compare p q = 0 <-> p = q.
Proof using. rewrite compare_by_sgn. split; [|intros ->]; case_match; lia. Qed.

#[local] Instance compare_by_order : Comparator compare (fun _ => True).
Proof using.
  split; intros *; intros; rewrite !compare_by_sgn in *; repeat case_match; lia.
Qed.
Lemma compare_by_sorted l : sorted id compare l <-> StronglySorted (before key) l.
Proof using.
  split; induction 1 as [|p l _ IH Hp]; constructor; try done;
    (eapply Forall_impl; [exact Hp|]; intros q; apply compare_by_before).
Qed.
Lemma sorted_unique l l' : StronglySorted (before key) l -> StronglySorted (before key) l' -> l ≡ₚ l' -> l = l'.
Proof using.
  apply StronglySorted_unique_strong. intros p q _ _ H1 H2. unfold before in *. lia.
Qed.

(** The comparison of the sequence's insertion. *)
Lemma insert_sequence p l l' : p ∉ l -> StronglySorted (before key) l -> StronglySorted (before key) l' ->
  l' ≡ₚ p :: l -> tree_insert (fun p q => mret (compare p q)) p l l = Some (Some l', l, @nil Empty_set).
Proof using.
  intros Hp Hl Hl' E. apply wp_eq. eapply wp_mono.
  - apply (tree_insert_ok _ key l p l); [|done]. intros q Hq. unfold decides. hstep.
    pose proof (compare_by_before p q). pose proof (compare_by_0 p q). pose proof (compare_by_sgn p q).
    assert (p <> q) by congruence. unfold before. split_and!; [done|done|tauto|..]; case_match; lia.
  - intros r m o (-> & -> & t & -> & Ht & Hs). split_and!; [|done|done]. do 2 f_equal.
    apply sorted_unique; [done|done|]. by rewrite Ht, E.
Qed.

Lemma cavl_exec_ok s l R o : makes s l R -> allowed (dom (nodes s)) l o = true ->
  wp (exec key o) s (fun r s' _ => exists l' R', seq_exec key o l = Some (r, l', []) /\ makes s' l' R' /\
    dom (nodes s') = dom (nodes s)).
Proof using.
  intros Hm Ha. assert (Hl : StronglySorted (before key) l).
  { apply compare_by_sorted. by destruct Hm as (T & _ & _ & _ & Hs). }
  assert (Hwf : forall x : ptr, True) by done.
  destruct o as [x|x| |]; cbn [exec allowed] in *.
  - apply bool_decide_eq_true_1 in Ha as [Hx Hxl].
    destruct (elements_in_heap id compare l s R x Hm Hx Hxl) as (nd & R' & _ & HR).
    apply (makes_rest _ _ _ _ _ _ HR) in Hm. apply wp_bind.
    eapply wp_mono; [exact (insert_ok id compare (fun _ => True) Hwf x nd l R' s Hm)|].
    intros [r ref] s' _ [(y & Hy & Hk & _)|(a & b & -> & Hm' & Hr & _)].
    { apply compare_by_0 in Hk. cbv in Hk. by subst. }
    hstep. cbn in Hr |- *. subst r. exists (a ++ x :: b), R'. split_and!; [|done|].
    + apply wp_eq. unfold seq_exec. do 2 hstep. apply wp_bind, wp_spec. eexists _, _, _. split.
      * apply (insert_sequence x (a ++ b) (a ++ x :: b)); [done|done| |by rewrite <- Permutation_middle].
        apply compare_by_sorted. by destruct Hm' as (T & _ & _ & _ & Hs).
      * cbv beta iota. do 3 hstep. done.
    + apply set_eq. intros z. rewrite (makes_nodes id compare _ _ _ z Hm'), (makes_nodes id compare _ _ _ z Hm).
      cbn. rewrite !elem_of_app, !elem_of_cons. tauto.
  - apply bool_decide_eq_true_1, list_elem_of_split in Ha as (a & b & ->). apply wp_bind.
    eapply wp_mono; [exact (tree_remove_ok id compare x a b R s Hm)|].
    intros [] s' _ (nd & Hm'). hstep. exists (a ++ b), ([(x, nd)] ++ R). split_and!; [|done|].
    + apply wp_eq. unfold seq_exec. do 5 hstep.
      rewrite without_middle by (by eapply sorted_nodup). done.
    + apply set_eq. intros z. rewrite (makes_nodes id compare _ _ _ z Hm'), (makes_nodes id compare _ _ _ z Hm).
      cbn. rewrite !elem_of_app, !elem_of_cons. tauto.
  - apply wp_bind. eapply wp_mono; [exact (first_ok id compare l R s Hm)|]. intros r s' _ [-> ->]. hstep.
    exists l, R. done.
  - unfold CAvl_IsEmpty, tree_IsEmpty, get_root. do 4 hstep. exists l, R. split_and!; [|done|done].
    destruct Hm as (T & [Hr _] & _ & <- & _). rewrite Hr. cbn [topx seq_exec].
    replace (is_null (top T)) with (is_null (head (elements T))); [done|].
    destruct T as [|t1 x b t2]; [done|]. cbn. by destruct (elements t1).
Qed.
Lemma cavl_run_ok ops : forall s l R, makes s l R -> legal key (dom (nodes s)) l ops = true ->
  wp (run key ops) s (fun rs s' _ => exists l' R', seq_run key ops l = Some (rs, l', []) /\ makes s' l' R').
Proof using.
  induction ops as [|o ops IH]; intros s l R Hm Hl; cbn [run legal] in *.
  - hstep. by exists l, R.
  - apply andb_true_iff in Hl as [Ha Hl]. apply wp_bind. eapply wp_mono; [by eapply cavl_exec_ok|].
    intros r s1 o1 (l1 & R1 & Hspec & Hm1 & Hd). rewrite Hspec in Hl. apply wp_bind. eapply wp_mono.
    { eapply IH; [exact Hm1|]. by rewrite Hd. }
    intros rs s2 o2 (l2 & R2 & Hrun & Hm2). hstep. exists l2, R2. split; [|done].
    apply wp_eq. cbn [seq_run]. apply wp_bind, wp_spec. eexists _, _, _. split; [exact Hspec|].
    apply wp_bind, wp_spec. eexists _, _, _. split; [exact Hrun|]. by hstep.
Qed.

(** Keys may change under the tree if the order stays, as when the fair queue
    subtracts from all times. *)
Lemma makes_rekey key' s l R : makes s l R -> StronglySorted (before key') l -> AvlTree.makes id (compare_by key') s l R.
Proof using.
  intros (T & Hp & Ht & Hl & _) Hs. exists T. split_and!; [done..|]. unfold sorted.
  clear Hl. induction Hs as [|p k _ IH Hp']; constructor; [done|]. eapply Forall_impl; [exact Hp'|].
  intros q Hq. unfold compare_by. cbn in *. rewrite !B_COMPARE_sgn. unfold before in Hq. repeat case_match; lia.
Qed.

(** C30: The balanced tree at the level of pointers does what the sorted sequence
    does that stands for it in the models of the event loop and of the fair
    queue: for every sequence of operations on a tree that starts empty, in
    which only entries that are out of the tree are inserted and only entries
    of the tree removed, no assertion about parents fails, no pointer to
    nothing is followed, all loops end, all results are those of the sequence,
    and at the end the tree holds that sequence and passes [CAvl_Verify]. *)
Theorem cavl_refines_sequence ops s : legal key (dom (nodes s)) [] ops = true ->
  exists rs l' R' s', (CAvl_Init;; run key ops) s = Some (rs, s', []) /\
    seq_run key ops [] = Some (rs, l', []) /\ makes s' l' R' /\ CAvl_Verify compare s' = Some (tt, s', []).
Proof using All.
  intros Hl. assert (H : wp (CAvl_Init;; run key ops) s (fun rs s' _ => exists l' R',
    seq_run key ops [] = Some (rs, l', []) /\ makes s' l' R')).
  { apply wp_bind. eapply wp_mono; [apply (init_makes id compare)|]. intros [] s1 o1 [Hm Hn].
    eapply wp_mono; [eapply cavl_run_ok; [exact Hm|by rewrite Hn]|]. eauto. }
  apply wp_spec in H as (rs & s' & [|[]] & H & l' & R' & Hr & Hm).
  assert (Hwf : forall x : ptr, True) by done.
  assert (Hv := verify_ok id compare (fun _ => True) Hwf l' R' s' Hm). eauto 10.
Qed.
End cavl_properties.

Module CAvlWitnesses.
(** Twelve timers, those from 6 on at the times of the first ones. *)
Definition demo_time (p : ptr) : Z := Z.of_nat (p mod 6).
Definition blank_entry : node_t := mk_node None None None 0.
Definition demo_entries : heap_t := mk_heap None (list_to_map ((fun x => (Z.to_nat x, blank_entry)) <$> seqZ 0 12)).
Definition demo_ops : list tree_op :=
  map Tree_Insert [7; 2; 11; 0; 3; 9; 1; 4; 8]%nat ++
  [Tree_GetFirst; Tree_Remove 2%nat; Tree_Remove 0%nat; Tree_GetFirst; Tree_Insert 6%nat; Tree_Insert 0%nat;
   Tree_GetFirst; Tree_IsEmpty].

Example demo_first : exists rs l, seq_run demo_time demo_ops [] = Some (rs, l, []) /\
  drop 9 rs = [First (Some 0%nat); Removed; Removed; First (Some 1%nat); Inserted true; Inserted true;
    First (Some 0%nat); Empty false] /\ l = [0; 6; 1; 7; 8; 3; 9; 4; 11]%nat.
Proof. vm_compute. eauto. Qed.

Lemma cavl_refines_sequence_witness : exists rs l' R' s',
  (CAvl_Init;; run demo_time demo_ops) demo_entries = Some (rs, s', []) /\
  seq_run demo_time demo_ops [] = Some (rs, l', []) /\ makes id (compare_by demo_time) s' l' R' /\
  CAvl_Verify (compare_by demo_time) s' = Some (tt, s', []).
Proof. apply (cavl_refines_sequence demo_time demo_ops demo_entries). vm_compute. reflexivity. Defined.
End CAvlWitnesses.
