(* ===== verification/PacketProto.v ===== *)
(** * PacketProto: packets over a byte stream

    [protocol/packetproto.h], [flow/PacketProtoEncoder.c] and
    [flow/PacketProtoDecoder.c].  A packet travels as a 16-bit little-endian
    length followed by its payload; the decoder rebuilds the packets from a
    stream that arrives in pieces of any size.  The stream and packet
    interfaces on both sides are the environment: their calls are the outputs
    of the handlers and their completions are events. *)
From S2P Require Import Prelude.

(** ** The wire format *)

Definition sizeof_packetproto_header : Z := 2.
Definition PACKETPROTO_MAXPAYLOAD : Z := UINT16_MAX.
Definition PACKETPROTO_ENCLEN (n : Z) : Z := sizeof_packetproto_header + n.

(** Reference encoding of one packet and of a sequence of packets. *)
Definition encode (p : bytes) : bytes := le_split 2 (len p) ++ p.
Definition encode_all (ps : list bytes) : bytes := concat (encode <$> ps).
#[global] Arguments encode : simpl never.
#[global] Arguments encode_all : simpl never.

(** [ltoh16] of the header read by [memcpy] at the start of [l]. *)
Definition header_len (l : bytes) : Z := le_combine (zslice 0 2 l).

(** ** PacketProtoDecoder *)

Module PacketProtoDecoder.

Record decoder := mk_decoder {
  output_mtu : Z;
  buf_size : Z;
  buf_start : Z;
  buf_used : Z;
  buf : bytes;
}.
#[export] Instance decoder_eta : Eta decoder := fun r =>
  mk_decoder (output_mtu r) (buf_size r) (buf_start r) (buf_used r) (buf r).

(** Calls on the other objects; pointers into [buf] are offsets. *)
Inductive out :=
  | Receiver_Recv (off n : Z)
  | Sender_Send (off n : Z)
  | handler_error.

(** The code after the [do ... while (0)] of [process_data]. *)
Definition process_data_end (was_error : bool) : handler decoder out unit :=
  (if was_error then
     modify (fun o => o <| buf_start := 0 |> <| buf_used := 0 |>)
   else
     o ← get;
     if buf_start o + buf_used o =? buf_size o then
       moved ← of_option (load (buf_start o) (buf_used o) (buf o));
       buf' ← of_option (store 0 moved (buf o));
       modify (fun o => o <| buf := buf' |> <| buf_start := 0 |>)
     else mret tt);;
  o ← get;
  call (Receiver_Recv (buf_start o + buf_used o)
          (buf_size o - (buf_start o + buf_used o)));;
  if was_error then call handler_error else mret tt.
#[global] Arguments process_data_end : simpl never.

Definition process_data : handler decoder out unit :=
  enc ← get;
  let data := buf_start enc in
  let left := buf_used enc in
  if left <? sizeof_packetproto_header then process_data_end false else
  header ← of_option (load data sizeof_packetproto_header (buf enc));
  let data := data + sizeof_packetproto_header in
  let left := left - sizeof_packetproto_header in
  let data_len := le_combine header in
  if output_mtu enc <? data_len then process_data_end true else
  if left <? data_len then process_data_end false else
  modify (fun o =>
    o <| buf_start := buf_start o + PACKETPROTO_ENCLEN data_len |>
      <| buf_used := buf_used o - PACKETPROTO_ENCLEN data_len |>);;
  call (Sender_Send data data_len).
#[global] Arguments process_data : simpl never.

Definition input_handler_done (data_len : Z) : handler decoder out unit :=
  enc ← get;
  ASSERT (0 <? data_len);;
  ASSERT (data_len <=? buf_size enc - (buf_start enc + buf_used enc));;
  modify (fun o => o <| buf_used := buf_used o + data_len |>);;
  process_data.

Definition output_handler_done : handler decoder out unit := process_data.

(** [malloc n] is the block the C library returns, with unspecified contents. *)
Definition PacketProtoDecoder_Init (if_mtu : Z) (malloc : Z -> option bytes)
    : option (decoder * list out) :=
  let mtu := Z.min if_mtu PACKETPROTO_MAXPAYLOAD in
  let size := PACKETPROTO_ENCLEN mtu in
  match malloc size with
  | None => None
  | Some mem => Some (mk_decoder mtu size 0 0 mem, [Receiver_Recv 0 size])
  end.

Definition PacketProtoDecoder_Reset : handler decoder out unit :=
  modify (fun o =>
    o <| buf_start := buf_start o + buf_used o |> <| buf_used := 0 |>).

(** *** The decoder between its two interfaces

    [pend] is the operation in progress; [inp] are the bytes received and
    [del] the packets passed on since the start or the last reset. *)

Inductive pending := RecvPending (off n : Z) | SendPending (off n : Z).

Record sys := mk_sys {
  dec : decoder;
  pend : pending;
  inp : bytes;
  del : list bytes;
  errors : nat;
}.
#[export] Instance sys_eta : Eta sys := fun r =>
  mk_sys (dec r) (pend r) (inp r) (del r) (errors r).

Inductive event := Received (data : bytes) | Sent.

(** What the calls of a handler start. *)
Definition apply_out (s : sys) (o : out) : sys :=
  match o with
  | Receiver_Recv off n => s <| pend := RecvPending off n |>
  | Sender_Send off n =>
      s <| pend := SendPending off n |>
        <| del := del s ++ [zslice off n (buf (dec s))] |>
  | handler_error => s <| errors := S (errors s) |> <| inp := [] |> <| del := [] |>
  end.

Definition run_handler (h : handler decoder out unit) (s : sys) : option sys :=
  match h (dec s) with
  | Some (_, d, o) => Some (foldl apply_out (s <| dec := d |>) o)
  | None => None
  end.

(** The events the interfaces allow: data for the receive in progress, not
    empty and not longer than asked for; completion of the send in progress. *)
Definition event_ok (s : sys) (e : event) : bool :=
  match e, pend s with
  | Received data, RecvPending off n => (0 <? len data) && (len data <=? n)
  | Sent, SendPending _ _ => true
  | _, _ => false
  end.

Definition step (s : sys) (e : event) : option sys :=
  match e, pend s with
  | Received data, RecvPending off n =>
      match store off data (buf (dec s)) with
      | Some buf' =>
          run_handler (input_handler_done (len data))
            (s <| dec := dec s <| buf := buf' |> |> <| inp := inp s ++ data |>)
      | None => None
      end
  | Sent, SendPending _ _ => run_handler output_handler_done s
  | _, _ => None
  end.

Fixpoint run (s : sys) (es : list event) : option sys :=
  match es with
  | [] => Some s
  | e :: es => if event_ok s e then s' ← step s e; run s' es else None
  end.

Definition start (d : decoder) (o : list out) : sys :=
  foldl apply_out (mk_sys d (RecvPending 0 0) [] [] 0) o.

End PacketProtoDecoder.

(** ** PacketProtoEncoder *)

Module PacketProtoEncoder.

(** [mem] is the block the receiver of the output handed over; the pointer
    [output_packet] into it is an offset. *)
Record encoder := mk_encoder {
  input_mtu : Z;
  output_packet : option Z;
  mem : bytes;
}.
#[export] Instance encoder_eta : Eta encoder := fun r =>
  mk_encoder (input_mtu r) (output_packet r) (mem r).

Inductive out := Receiver_Recv (data : Z) | Done (data_len : Z).

Definition PacketProtoEncoder_Init (if_mtu : Z) : option encoder :=
  if if_mtu <=? PACKETPROTO_MAXPAYLOAD then Some (mk_encoder if_mtu None []) else None.

(** The MTU of the interface [PacketProtoEncoder_GetOutput] returns. *)
Definition output_mtu (enc : encoder) : Z := PACKETPROTO_ENCLEN (input_mtu enc).

Definition output_handler_recv (data : Z) : handler encoder out unit :=
  enc ← get;
  ASSERT (bool_decide (output_packet enc = None));;
  modify (fun o => o <| output_packet := Some data |>);;
  call (Receiver_Recv (data + sizeof_packetproto_header)).

Definition input_handler_done (in_len : Z) : handler encoder out unit :=
  enc ← get;
  data ← of_option (output_packet enc);
  mem' ← of_option (store data (le_split 2 in_len) (mem enc));
  modify (fun o => o <| mem := mem' |> <| output_packet := None |>);;
  call (Done (PACKETPROTO_ENCLEN in_len)).

(** One packet through the encoder: the receiver hands over a block of the
    output MTU, the sender below writes [p] where it is asked to, the result is
    what the receiver finds in the block. *)
Definition encode_packet (enc : encoder) (block p : bytes) : option (bytes * encoder) :=
  match output_handler_recv 0 (enc <| mem := block |>) with
  | Some (_, enc1, [Receiver_Recv at_]) =>
      match store at_ p (mem enc1) with
      | Some mem1 =>
          match input_handler_done (len p) (enc1 <| mem := mem1 |>) with
          | Some (_, enc2, [Done n]) =>
              (fun l => (l, enc2)) <$> load 0 n (mem enc2)
          | _ => None
          end
      | None => None
      end
  | _ => None
  end.

(** Packets one after the other, each with the block of its index. *)
Fixpoint encode_packets (enc : encoder) (block : nat -> bytes) (ps : list bytes)
    : option bytes :=
  match ps with
  | [] => Some []
  | p :: ps =>
      match encode_packet enc (block (length ps)) p with
      | Some (l, enc') => app l <$> encode_packets enc' block ps
      | None => None
      end
  end.

End PacketProtoEncoder.

(** ** Specification *)

Lemma header_len_bounds l : 0 <= header_len l < 2 ^ 16.
Proof.
  unfold header_len. pose proof (le_combine_bound (zslice 0 2 l)) as H.
  split; [lia|]. eapply Z.lt_le_trans; [apply H|].
  apply Z.pow_le_mono_r; [lia|]. unfold zslice. rewrite length_take. lia.
Qed.

Lemma header_len_app l k : 2 <= len l -> header_len (l ++ k) = header_len l.
Proof. intros. unfold header_len. by rewrite zslice_app_lt by lia. Qed.

Lemma header_len_encode p k :
  len p <= PACKETPROTO_MAXPAYLOAD -> header_len (encode p ++ k) = len p.
Proof.
  intros. unfold PACKETPROTO_MAXPAYLOAD, UINT16_MAX, encode in *.
  rewrite <- app_assoc. unfold header_len. rewrite zslice_app_l by by rewrite len_split.
  rewrite le_combine_split. apply Z.mod_small. zlia.
Qed.

Lemma len_encode p : len (encode p) = PACKETPROTO_ENCLEN (len p).
Proof.
  unfold encode, PACKETPROTO_ENCLEN, sizeof_packetproto_header.
  rewrite len_app, len_split. lia.
Qed.

(** A stream that begins with fewer bytes than its header announces. *)
Definition incomplete (mtu : Z) (l : bytes) : Prop :=
  len l < 2 \/ (header_len l <= mtu /\ len l < 2 + header_len l).
(** A stream whose first packet is larger than the decoder accepts. *)
Definition too_large (mtu : Z) (l : bytes) : Prop :=
  2 <= len l /\ mtu < header_len l.

Lemma encode_of_slice l n :
  2 <= len l -> header_len l = n -> 2 + n <= len l ->
  l = encode (zslice 2 n l) ++ zslice (2 + n) (len l - (2 + n)) l.
Proof.
  intros Hl <- Hn. pose proof (header_len_bounds l). unfold encode.
  rewrite len_zslice, <- app_assoc by lia.
  replace (le_split 2 (header_len l)) with (zslice 0 2 l).
  - rewrite <- (zslice_app 2) by lia. rewrite <- (zslice_app 0 2) by lia.
    symmetry. apply zslice_all. lia.
  - unfold header_len. symmetry. apply split_le_combine'.
    pose proof (len_zslice 0 2 l ltac:(lia) ltac:(lia) ltac:(lia)) as E.
    Transparent len. unfold len in E. lia. Opaque len.
Qed.

(** Decoding is deterministic: what follows the packets decides. *)
Lemma encode_all_cons p ps : encode_all (p :: ps) = encode p ++ encode_all ps.
Proof. done. Qed.
Lemma encode_all_app ps qs : encode_all (ps ++ qs) = encode_all ps ++ encode_all qs.
Proof. unfold encode_all. by rewrite fmap_app, concat_app. Qed.

Lemma encode_inj p q k k' :
  len p <= PACKETPROTO_MAXPAYLOAD -> len q <= PACKETPROTO_MAXPAYLOAD ->
  encode p ++ k = encode q ++ k' -> p = q /\ k = k'.
Proof.
  intros Hp Hq E.
  assert (Hlen : len p = len q).
  { by rewrite <- (header_len_encode p k), E, header_len_encode. }
  unfold encode in E. rewrite Hlen, <- !app_assoc in E.
  apply app_inv_head in E. apply app_inj_1 in E; [done|].
  Transparent len. unfold len in Hlen. lia. Opaque len.
Qed.

Lemma encode_not_incomplete mtu p k :
  len p <= PACKETPROTO_MAXPAYLOAD -> ~ incomplete mtu (encode p ++ k).
Proof.
  intros Hp. unfold incomplete.
  rewrite header_len_encode, len_app, len_encode by done.
  unfold PACKETPROTO_ENCLEN, sizeof_packetproto_header. zlia.
Qed.

Lemma decode_unique mtu ps qs r :
  Forall (fun p => len p <= PACKETPROTO_MAXPAYLOAD) ps ->
  Forall (fun p => len p <= PACKETPROTO_MAXPAYLOAD) qs ->
  incomplete mtu r ->
  encode_all ps = encode_all qs ++ r -> ps = qs /\ r = [].
Proof.
  intros Hps. revert qs. induction Hps as [|p ps Hp Hps IH]; intros qs Hqs Hr E.
  - symmetry in E. apply app_nil in E as [E ->]. destruct qs as [|q qs]; [done|].
    apply (f_equal len) in E. rewrite encode_all_cons in E.
    rewrite len_app, len_encode in E.
    unfold PACKETPROTO_ENCLEN, sizeof_packetproto_header in E. zlia.
  - destruct Hqs as [|q qs Hq Hqs].
    + rewrite encode_all_cons in E. change (encode_all []) with (@nil byte) in E.
      cbn [app] in E. subst r.
      by apply encode_not_incomplete in Hr.
    + rewrite !encode_all_cons, <- app_assoc in E.
      apply encode_inj in E as [-> E]; [|done..].
      by destruct (IH qs Hqs Hr E) as [-> ->].
Qed.

Lemma decode_prefix mtu ps qs r k :
  Forall (fun p => len p <= PACKETPROTO_MAXPAYLOAD) ps ->
  Forall (fun p => len p <= PACKETPROTO_MAXPAYLOAD) qs ->
  Forall (fun p => len p <= mtu) ps ->
  encode_all ps = encode_all qs ++ r ++ k ->
  ~ too_large mtu r /\ qs `prefix_of` ps.
Proof.
  intros Hps. revert qs. induction Hps as [|p ps Hp Hps IH]; intros qs Hqs Hm E.
  - symmetry in E. apply app_nil in E as [E [-> ->]%app_nil].
    destruct qs as [|q qs]; [split; [|done]; unfold too_large; zlia|].
    apply (f_equal len) in E. rewrite encode_all_cons, len_app, len_encode in E.
    unfold PACKETPROTO_ENCLEN, sizeof_packetproto_header in E. zlia.
  - inversion_clear Hm as [|?? Hpm Hpsm]. destruct Hqs as [|q qs Hq Hqs].
    + split; [|apply prefix_nil]. intros [Hl Ht].
      rewrite encode_all_cons in E. change (encode_all []) with (@nil byte) in E.
      cbn [app] in E.
      rewrite <- (header_len_app r k), <- E, header_len_encode in Ht by done. lia.
    + rewrite !encode_all_cons, <- app_assoc in E.
      apply encode_inj in E as [-> E]; [|done..].
      destruct (IH qs Hqs Hpsm E). split; [done|]. by apply prefix_cons.
Qed.

(** ** The decoder meets it *)

Module DecoderProofs.
Import PacketProtoDecoder.

Definition contents (d : decoder) : bytes := zslice (buf_start d) (buf_used d) (buf d).

Record buf_inv (mtu : Z) (d : decoder) : Prop := {
  bi_mtu : output_mtu d = mtu /\ 0 <= mtu <= PACKETPROTO_MAXPAYLOAD;
  bi_size : buf_size d = PACKETPROTO_ENCLEN mtu /\ len (buf d) = buf_size d;
  bi_start : 0 <= buf_start d;
  bi_used : 0 <= buf_used d;
  bi_end : buf_start d + buf_used d <= buf_size d;
}.

Lemma len_contents mtu d : buf_inv mtu d -> len (contents d) = buf_used d.
Proof. intros []. unfold contents. apply len_zslice; lia. Qed.

(** What [process_data] does, by what the buffer begins with. *)
Definition process_post (mtu : Z) (r : bytes) (d' : decoder) (o : list out) : Prop :=
  buf_inv mtu d' /\
  ( (incomplete mtu r /\ contents d' = r /\
     buf_start d' + buf_used d' < buf_size d' /\
     o = [Receiver_Recv (buf_start d' + buf_used d')
            (buf_size d' - (buf_start d' + buf_used d'))])
  \/ (too_large mtu r /\ buf_used d' = 0 /\ buf_start d' = 0 /\
     o = [Receiver_Recv 0 (buf_size d'); handler_error])
  \/ (exists p off, len p <= mtu /\ r = encode p ++ contents d' /\
     0 <= off /\ off + len p <= buf_start d' /\
     zslice off (len p) (buf d') = p /\ o = [Sender_Send off (len p)]) ).

Lemma process_data_end_error mtu d (r : bytes) :
  buf_inv mtu d -> too_large mtu r ->
  wp (process_data_end true) d (fun _ d' o => process_post mtu r d' o).
Proof.
  intros [] Hr. unfold process_data_end. hsteps.
  split; [by constructor; cbn; lia|]. right; left.
  split_and!; try done. by rewrite Z.sub_0_r.
Qed.

Lemma process_data_end_more mtu d :
  buf_inv mtu d -> incomplete mtu (contents d) ->
  wp (process_data_end false) d (fun _ d' o => process_post mtu (contents d) d' o).
Proof.
  intros Hi Hr. assert (Hlen := len_contents _ _ Hi). destruct Hi as [Hm [Hs Hb] ???].
  assert (buf_used d < buf_size d).
  { unfold incomplete, PACKETPROTO_ENCLEN, sizeof_packetproto_header in *. lia. }
  unfold process_data_end. hsteps.
  - apply wp_of_option with (contents d); [by apply load_Some; lia|]. cbn.
    destruct (store_Some 0 (contents d) (buf d)) as [buf' Hst]; [lia..|].
    hsteps. eapply wp_of_option; [done|]. hsteps.
    split; [constructor; cbn; rewrite ?(len_store _ _ _ _ Hst); lia|]. left.
    split_and!; cbn; [done| |lia|done].
    unfold contents at 1; cbn. by apply (zslice_store_same _ _ _ _ Hst).
  - split; [by constructor|]. left. split_and!; [done..|lia|done].
Qed.

Lemma process_data_spec mtu d :
  buf_inv mtu d -> wp process_data d (fun _ d' o => process_post mtu (contents d) d' o).
Proof.
  intros Hi. assert (Hlen := len_contents _ _ Hi).
  destruct (Hi) as [[Hm ?] [Hs Hb] ???].
  assert (Hh : 2 <= buf_used d ->
    le_combine (zslice (buf_start d) 2 (buf d)) = header_len (contents d)).
  { intros. unfold header_len, contents. rewrite zslice_zslice by lia.
    do 2 f_equal. lia. }
  pose proof (header_len_bounds (contents d)) as Hhb.
  unfold process_data, sizeof_packetproto_header, PACKETPROTO_ENCLEN. hsteps.
  { apply process_data_end_more; [done|]. left. lia. }
  eapply wp_of_option; [apply load_Some; lia|]. rewrite Hh by lia. hsteps.
  { apply process_data_end_error; [done|]. split; lia. }
  { apply process_data_end_more; [done|]. right. lia. }
  set (n := header_len (contents d)) in *.
  assert (Hp : zslice 2 n (contents d) = zslice (buf_start d + 2) n (buf d)).
  { unfold contents. by rewrite zslice_zslice by lia. }
  split; [constructor; cbn; unfold sizeof_packetproto_header; lia|]. right; right.
  exists (zslice 2 n (contents d)), (buf_start d + 2). rewrite Hp.
  rewrite len_zslice by lia. cbn. unfold sizeof_packetproto_header.
  split_and!; try done; try lia.
  rewrite (encode_of_slice (contents d) n) at 1 by lia. rewrite Hp, Hlen. f_equal.
  unfold contents; cbn. rewrite zslice_zslice by lia. f_equal; lia.
Qed.

(** *** Between the two interfaces *)

Definition pend_inv (mtu : Z) (d : decoder) (p : pending) : Prop :=
  match p with
  | RecvPending off n =>
      off = buf_start d + buf_used d /\ n = buf_size d - off /\ 0 < n /\
      incomplete mtu (contents d)
  | SendPending off n => 0 <= off /\ 0 <= n <= mtu /\ off + n <= buf_start d
  end.

Record inv (mtu : Z) (s : sys) : Prop := {
  inv_buf : buf_inv mtu (dec s);
  inv_pend : pend_inv mtu (dec s) (pend s);
  inv_inp : inp s = encode_all (del s) ++ contents (dec s);
  inv_del : Forall (fun p => len p <= mtu) (del s);
}.

Lemma incomplete_nil mtu : incomplete mtu [].
Proof. left. by rewrite len_nil. Qed.

Lemma inv_del_max mtu s :
  inv mtu s -> Forall (fun p => len p <= PACKETPROTO_MAXPAYLOAD) (del s).
Proof.
  intros [[] _ _ Hd]. eapply Forall_impl; [exact Hd|]. intros ? ?. cbn in *. lia.
Qed.

(** A handler that ends in [process_data], run on a state whose buffer holds
    the undelivered part of [inp]. *)
Lemma run_handler_inv mtu s h :
  wp h (dec s) (fun _ d' o => process_post mtu (contents (dec s)) d' o) ->
  inp s = encode_all (del s) ++ contents (dec s) ->
  Forall (fun p => len p <= mtu) (del s) ->
  exists s', run_handler h s = Some s' /\ inv mtu s' /\
    (~ too_large mtu (contents (dec s)) ->
       errors s' = errors s /\ inp s' = inp s /\ del s `prefix_of` del s') /\
    (too_large mtu (contents (dec s)) ->
       errors s' = S (errors s) /\ inp s' = [] /\ del s' = [] /\
       pend s' = RecvPending 0 (buf_size (dec s'))).
Proof.
  intros Hwp Hinp Hdel. apply wp_spec in Hwp as ([] & d' & o & Hh & Hi & Hpost).
  unfold run_handler. rewrite Hh. eexists; split; [done|].
  destruct Hpost as [(Hr & Hc & Hlt & ->)|[(Hr & Hu & Hs & ->)|
    (p & off & Hp & Hc & ? & Hoff & Hsl & ->)]]; cbn.
  - split; [constructor; cbn; [done| |by rewrite Hc|done]|].
    { rewrite Hc. do 2 (split; [done|]). split; [lia|done]. }
    split; [done|]. unfold too_large, incomplete in *. lia.
  - assert (contents d' = []) as Hc by (unfold contents; by rewrite Hu).
    split; [constructor; cbn; [done| | |done]|].
    + rewrite Hu, Hs, Hc. split; [done|]. split; [lia|]. split; [|apply incomplete_nil].
      destruct Hi as [[_ ?] [-> _] _ _ _].
      unfold PACKETPROTO_ENCLEN, sizeof_packetproto_header. lia.
    + by rewrite Hc.
    + by split.
  - rewrite Hsl. split; [constructor; cbn; [done| | |]|].
    + zlia.
    + rewrite Hinp, Hc, encode_all_app. unfold encode_all at 3; cbn.
      by rewrite app_nil_r, <- app_assoc.
    + apply Forall_app. by split; [|apply Forall_singleton].
    + split; [intros _; do 2 (split; [done|]); by eexists|].
      intros [_ Ht]. rewrite Hc, header_len_encode in Ht; [lia|].
      destruct Hi as [[_ ?] _ _ _ _]. lia.
Qed.

Lemma received_spec mtu s data buf' :
  inv mtu s -> pend s = RecvPending (buf_start (dec s) + buf_used (dec s))
                 (buf_size (dec s) - (buf_start (dec s) + buf_used (dec s))) ->
  0 < len data <= buf_size (dec s) - (buf_start (dec s) + buf_used (dec s)) ->
  store (buf_start (dec s) + buf_used (dec s)) data (buf (dec s)) = Some buf' ->
  let d := dec s <| buf := buf' |> in
  let d' := d <| buf_used := buf_used d + len data |> in
  contents d' = contents (dec s) ++ data /\
  wp (input_handler_done (len data)) d
    (fun _ d'' o => process_post mtu (contents d') d'' o).
Proof.
  intros [[] _ _ _] _ Hn Hst d d'.
  assert (Hc : contents d' = contents (dec s) ++ data).
  { unfold contents, d', d; cbn. rewrite zslice_app by lia. f_equal.
    - rewrite (zslice_store_before _ _ _ _ Hst) by lia. done.
    - by rewrite (zslice_store_same _ _ _ _ Hst). }
  split; [done|]. unfold input_handler_done. unfold d. hsteps; [lia..|].
  apply (process_data_spec mtu d'). unfold d', d.
  constructor; cbn; rewrite ?(len_store _ _ _ _ Hst); lia.
Qed.

(** Every event the interfaces allow is handled: no assertion fails, no access
    is out of bounds, the invariant is kept. *)
Lemma step_inv mtu s e :
  inv mtu s -> event_ok s e = true ->
  exists s' c, step s e = Some s' /\ inv mtu s' /\
    let inp' := match e with Received data => inp s ++ data | Sent => inp s end in
    inp' = encode_all (del s) ++ c /\
    (~ too_large mtu c ->
       errors s' = errors s /\ inp s' = inp' /\ del s `prefix_of` del s') /\
    (too_large mtu c -> errors s' = S (errors s) /\ inp s' = [] /\ del s' = [] /\
       pend s' = RecvPending 0 (buf_size (dec s'))).
Proof.
  intros Hinv Hok. assert (Hi := Hinv). destruct Hi as [Hb Hp Hinp Hdel].
  destruct e as [data|]; cbn in Hok; destruct (pend s) as [off n|off n] eqn:Epend;
    try done; unfold step; rewrite Epend.
  - destruct Hp as (-> & -> & Hn & Hinc).
    assert (Hb' := Hb). destruct Hb'.
    destruct (store_Some (buf_start (dec s) + buf_used (dec s)) data (buf (dec s)))
      as [buf' Hst]; [lia..|]. rewrite Hst.
    destruct (received_spec mtu s data buf' Hinv Epend ltac:(lia) Hst) as [Hc Hwp].
    set (s1 := s <| dec := dec s <| buf := buf' |> |> <| inp := inp s ++ data |>).
    set (s2 := s1 <| dec := dec s1 <| buf_used := buf_used (dec s1) + len data |> |>).
    destruct (run_handler_inv mtu s2 (fun _ => input_handler_done (len data) (dec s1)))
      as (s' & Hrun & Hinv' & Hok' & Herr); [exact Hwp| |done|].
    + cbn in Hc |- *. rewrite Hc. rewrite Hinp. by rewrite <- app_assoc.
    + exists s', (contents (dec s2)). split; [exact Hrun|]. split; [done|].
      split; [|by split]. cbn in Hc |- *. rewrite Hc, Hinp. by rewrite <- app_assoc.
  - destruct (run_handler_inv mtu s output_handler_done)
      as (s' & Hrun & Hinv' & Hok' & Herr); [by apply process_data_spec|done..|].
    by exists s', (contents (dec s)).
Qed.

Lemma init_inv if_mtu malloc d o :
  0 <= if_mtu -> (forall n mem, malloc n = Some mem -> len mem = n) ->
  PacketProtoDecoder_Init if_mtu malloc = Some (d, o) ->
  inv (Z.min if_mtu PACKETPROTO_MAXPAYLOAD) (start d o)
  /\ errors (start d o) = 0%nat /\ inp (start d o) = [] /\ del (start d o) = [].
Proof.
  intros Hm Hmalloc. unfold PacketProtoDecoder_Init.
  set (mtu := Z.min _ _). destruct (malloc _) as [mem|] eqn:Em; [|done].
  intros [= <- <-]. apply Hmalloc in Em. split; [|done].
  assert (0 <= mtu <= PACKETPROTO_MAXPAYLOAD).
  { unfold mtu, PACKETPROTO_MAXPAYLOAD, UINT16_MAX. lia. }
  unfold PACKETPROTO_ENCLEN, sizeof_packetproto_header in *.
  constructor; cbn; [|do 2 (split; [lia|]); split; [lia|]; apply incomplete_nil|done..].
  constructor; cbn; unfold PACKETPROTO_ENCLEN, sizeof_packetproto_header; lia.
Qed.

Definition received (es : list event) : bytes :=
  concat ((fun e => match e with Received data => data | Sent => [] end) <$> es).

Lemma run_inv mtu s es s' : inv mtu s -> run s es = Some s' -> inv mtu s'.
Proof.
  revert s. induction es as [|e es IH]; intros s Hinv; cbn; [by intros [= <-]|].
  destruct (event_ok s e) eqn:Hok; [|done].
  destruct (step_inv mtu s e Hinv Hok) as (s1 & c & -> & Hinv1 & _). cbn. by apply IH.
Qed.

Lemma run_stream mtu s es s' ps rest :
  inv mtu s -> run s es = Some s' -> Forall (fun p => len p <= mtu) ps ->
  inp s ++ received es ++ rest = encode_all ps ->
  errors s' = errors s /\ inp s' = inp s ++ received es.
Proof.
  intros Hinv Hrun Hps. assert (Hm : mtu <= PACKETPROTO_MAXPAYLOAD).
  { destruct Hinv as [[[_ ?] _ _ _ _] _ _ _]. lia. }
  assert (Hps' : Forall (fun p => len p <= PACKETPROTO_MAXPAYLOAD) ps).
  { eapply Forall_impl; [exact Hps|]. intros ??; cbn in *; lia. }
  revert s Hinv Hrun. induction es as [|e es IH]; intros s Hinv Hrun Hin; cbn in Hrun.
  { injection Hrun as <-. cbn. by rewrite app_nil_r. }
  destruct (event_ok s e) eqn:Hok; [|done].
  destruct (step_inv mtu s e Hinv Hok) as (s1 & c & Hs1 & Hinv1 & Hc & Hno & _).
  rewrite Hs1 in Hrun. cbn in Hrun.
  set (inp' := match e with Received data => inp s ++ data | Sent => inp s end) in *.
  assert (Happ : inp s ++ received (e :: es) = inp' ++ received es).
  { unfold inp', received. destruct e; cbn; [by rewrite <- app_assoc|done]. }
  rewrite app_assoc, Happ, <- app_assoc in Hin.
  destruct (decode_prefix mtu ps (del s) c (received es ++ rest)) as [Hnt _];
    [done|by eapply inv_del_max|done| |].
  { by rewrite <- Hin, Hc, <- app_assoc. }
  destruct (Hno Hnt) as (He & Hi & _).
  destruct (IH s1 Hinv1 Hrun) as [He' Hi']; [by rewrite Hi|].
  split; [congruence|]. by rewrite Hi', Hi, Happ.
Qed.

(** [stream_delivered] is the conclusion for a state with nothing delivered. *)
Lemma stream_delivered mtu s es s' ps rest :
  inv mtu s -> run s es = Some s' -> Forall (fun p => len p <= mtu) ps ->
  inp s = [] -> received es ++ rest = encode_all ps ->
  errors s' = errors s /\ del s' `prefix_of` ps /\
  (rest = [] -> forall off n, pend s' = RecvPending off n -> del s' = ps).
Proof.
  intros Hinv Hrun Hps Hi Hrec.
  assert (Hinv' := run_inv _ _ _ _ Hinv Hrun).
  destruct (run_stream mtu _ es s' ps rest Hinv Hrun Hps) as [He' Hi'];
    [by rewrite Hi|]. rewrite Hi in Hi'. cbn in Hi'.
  assert (Hps' : Forall (fun p => len p <= PACKETPROTO_MAXPAYLOAD) ps).
  { destruct Hinv as [[[_ ?] _ _ _ _] _ _ _].
    eapply Forall_impl; [exact Hps|]. intros ??. cbn in *. lia. }
  split; [done|]. rewrite <- Hi' in Hrec. rewrite (inv_inp _ _ Hinv') in Hrec.
  split.
  - eapply (decode_prefix mtu ps (del s') (contents (dec s')) rest); try done.
    { by eapply inv_del_max. } by rewrite <- Hrec, <- app_assoc.
  - intros -> off n Hpend. rewrite app_nil_r in Hrec. symmetry.
    assert (Hp := inv_pend _ _ Hinv'). rewrite Hpend in Hp.
    destruct Hp as (_ & _ & _ & Hinc).
    by eapply (decode_unique mtu); [|eapply inv_del_max| |].
Qed.

Definition reset_sys (s : sys) : sys :=
  match PacketProtoDecoder_Reset (dec s) with
  | Some (_, d, _) => s <| dec := d |> <| inp := [] |> <| del := [] |>
  | None => s
  end.

Lemma reset_inv mtu s : inv mtu s -> inv mtu (reset_sys s).
Proof.
  intros [[] Hp _ _]. constructor; cbn; [constructor; cbn; lia| |done..].
  destruct (pend s); cbn in *; [|lia].
  do 2 (split; [lia|]). split; [lia|]. apply incomplete_nil.
Qed.

Lemma sent_shrinks mtu s s' :
  inv mtu s -> step s Sent = Some s' ->
  len (contents (dec s')) < len (contents (dec s))
  \/ exists off n, pend s' = RecvPending off n.
Proof.
  intros [Hb _ _ _]. unfold step. destruct (pend s) as [|off n]; [done|].
  unfold run_handler.
  destruct (proj1 (wp_spec _ _ _) (process_data_spec mtu (dec s) Hb))
    as ([] & d' & o & Hh & _ & Hpost).
  change (output_handler_done (dec s)) with (process_data (dec s)). rewrite Hh.
  intros [= <-].
  destruct Hpost as [(_&_&_&->)|[(_&_&_&->)|(p&off'&_&Hc&_&_&_&->)]]; cbn;
    [right; eauto..|left].
  rewrite Hc, len_app, len_encode. unfold PACKETPROTO_ENCLEN, sizeof_packetproto_header.
  zlia.
Qed.

Lemma drain mtu s :
  inv mtu s ->
  exists k s', run s (repeat Sent k) = Some s' /\
    Z.of_nat k <= 1 + len (contents (dec s)) /\
    exists off n, pend s' = RecvPending off n.
Proof.
  remember (len (contents (dec s))) as m eqn:Em.
  assert (Hm : 0 <= m) by zlia. revert s Em. pattern m.
  apply Zlt_0_ind; [clear m Hm|done]. intros m IH Hm s -> Hinv.
  destruct (pend s) as [off n|off n] eqn:Ep.
  { exists 0%nat, s. split_and!; [done|lia|eauto]. }
  assert (Hsent : event_ok s Sent = true) by (cbn; by rewrite Ep).
  destruct (step_inv mtu s Sent Hinv Hsent) as (s1 & c & Hs1 & Hinv1 & Hc & Hno & Hyes).
  rewrite (inv_inp _ _ Hinv) in Hc. apply app_inv_head in Hc. subst c.
  assert (Hrun : forall k s', run s1 (repeat Sent k) = Some s' ->
    run s (repeat Sent (S k)) = Some s').
  { intros k s' Hk. cbn [repeat run]. rewrite Hsent, Hs1. exact Hk. }
  destruct (pend s1) as [off1 n1|off1 n1] eqn:Ep1.
  { exists 1%nat, s1. split_and!; [by apply (Hrun 0%nat)|lia|eauto]. }
  destruct (sent_shrinks mtu s s1 Hinv Hs1) as [Hlt|(?&?&?)]; [|congruence].
  destruct (IH (len (contents (dec s1))) ltac:(zlia) s1 eq_refl Hinv1)
    as (k & s' & Hk & Hkle & Hex).
  exists (S k), s'. split_and!; [by apply Hrun|lia|done].
Qed.
End DecoderProofs.

(** ** Properties *)

Section decoder_properties.
Import PacketProtoDecoder DecoderProofs.

Context (if_mtu : Z) (malloc : Z -> option bytes) (d : decoder) (o : list out).
Hypothesis (Hmtu : 0 <= if_mtu).
Hypothesis (Hmalloc : forall n mem, malloc n = Some mem -> len mem = n).
Hypothesis (Hinit : PacketProtoDecoder_Init if_mtu malloc = Some (d, o)).
Let mtu := Z.min if_mtu PACKETPROTO_MAXPAYLOAD.

(** C1: fed, in pieces of any size, a prefix of the encoding of packets that
    fit the output, the decoder reports no error, has passed on a prefix of
    these packets, and when the whole encoding was received and the decoder is
    waiting for more it has passed on exactly these packets in order. *)
Theorem decoder_delivers (ps : list bytes) (es : list event) (rest : bytes) (s : sys) :
  Forall (fun p => len p <= mtu) ps ->
  run (start d o) es = Some s ->
  received es ++ rest = encode_all ps ->
  errors s = 0%nat /\ del s `prefix_of` ps /\
  (rest = [] -> forall off n, pend s = RecvPending off n -> del s = ps).
Proof using Hmtu Hmalloc Hinit.
  intros Hps Hrun Hrec.
  destruct (init_inv if_mtu malloc d o Hmtu Hmalloc Hinit) as (Hinv & He & Hi & _).
  rewrite <- He. by eapply stream_delivered.
Qed.

(** C2: whatever the stream holds, every completion the two interfaces can
    deliver is handled: no assertion fails, no byte outside the buffer is
    touched, and the operation started next is a receive of at least one byte
    into the buffer or a send of bytes inside it. *)
Theorem decoder_safe (es : list event) (s : sys) (e : event) :
  run (start d o) es = Some s -> event_ok s e = true ->
  exists s', step s e = Some s' /\
    match pend s' with
    | RecvPending off n => 0 <= off /\ 0 < n /\ off + n = len (buf (dec s'))
    | SendPending off n =>
        0 <= off /\ 0 <= n <= mtu /\ off + n <= len (buf (dec s'))
    end.
Proof using Hmtu Hmalloc Hinit.
  intros Hrun Hok.
  destruct (init_inv if_mtu malloc d o Hmtu Hmalloc Hinit) as (Hinv & _).
  fold mtu in Hinv. assert (Hinv' := run_inv _ _ _ _ Hinv Hrun).
  destruct (step_inv mtu s e Hinv' Hok) as (s' & _ & Hs & [[] Hp _ _] & _).
  exists s'. split; [done|]. destruct (pend s'); cbn in Hp; lia.
Qed.

(** When what the decoder holds begins with the header of a packet larger
    than the output accepts, the next completion reports the error once,
    forgets the data and starts receiving again into the whole buffer. *)
Theorem decoder_rejects (es : list event) (s : sys) (data : bytes) :
  run (start d o) es = Some s -> event_ok s (Received data) = true ->
  too_large mtu (contents (dec s) ++ data) ->
  exists s', step s (Received data) = Some s' /\ errors s' = S (errors s) /\
    contents (dec s') = [] /\ pend s' = RecvPending 0 (buf_size (dec s')).
Proof using Hmtu Hmalloc Hinit.
  intros Hrun Hok Ht.
  destruct (init_inv if_mtu malloc d o Hmtu Hmalloc Hinit) as (Hinv & _).
  fold mtu in Hinv. assert (Hinv' := run_inv _ _ _ _ Hinv Hrun).
  destruct (step_inv mtu s _ Hinv' Hok) as (s' & c & Hs & Hi' & Hc & _ & Hlarge).
  cbn in Hc. rewrite (inv_inp _ _ Hinv'), <- app_assoc in Hc.
  apply app_inv_head in Hc. subst c. destruct (Hlarge Ht) as (He & Hinp & Hdel & Hp).
  exists s'. split_and!; [done..| |done].
  assert (E := inv_inp _ _ Hi'). by rewrite Hinp, Hdel in E.
Qed.

(** After [PacketProtoDecoder_Reset] the data received next is decoded as
    a new stream, whatever was buffered before and whatever operation was in
    progress. *)
Theorem decoder_reset (es es' : list event) (s s' : sys) (ps : list bytes) :
  run (start d o) es = Some s ->
  Forall (fun p => len p <= mtu) ps ->
  run (reset_sys s) es' = Some s' ->
  received es' = encode_all ps ->
  errors s' = errors s /\ del s' `prefix_of` ps /\
  (forall off n, pend s' = RecvPending off n -> del s' = ps).
Proof using Hmtu Hmalloc Hinit.
  intros Hrun Hps Hrun' Hrec.
  destruct (init_inv if_mtu malloc d o Hmtu Hmalloc Hinit) as (Hinv & _).
  fold mtu in Hinv. assert (Hinv1 := reset_inv _ _ (run_inv _ _ _ _ Hinv Hrun)).
  destruct (stream_delivered mtu _ es' s' ps [] Hinv1 Hrun' Hps) as (He & Hp & Hd); [done|..].
  { cbn. by rewrite app_nil_r. }
  split_and!; eauto.
Qed.

(** the decoder does not hold complete packets back: from any state a
    bounded number of completed sends leads it to ask for more data. *)
Theorem decoder_drains (es : list event) (s : sys) :
  run (start d o) es = Some s ->
  exists k s', run s (repeat Sent k) = Some s' /\
    Z.of_nat k <= 1 + len (contents (dec s)) /\
    exists off n, pend s' = RecvPending off n.
Proof using Hmtu Hmalloc Hinit.
  intros Hrun.
  destruct (init_inv if_mtu malloc d o Hmtu Hmalloc Hinit) as (Hinv & _).
  eapply drain, run_inv; eauto.
Qed.

End decoder_properties.

Section encoder_properties.
Import PacketProtoEncoder.

Lemma encode_packet_spec enc block p :
  output_packet enc = None -> len p <= input_mtu enc ->
  input_mtu enc <= PACKETPROTO_MAXPAYLOAD ->
  len block = output_mtu enc ->
  exists enc', encode_packet enc block p = Some (encode p, enc') /\
    output_packet enc' = None /\ input_mtu enc' = input_mtu enc.
Proof.
  unfold output_mtu, PACKETPROTO_ENCLEN, sizeof_packetproto_header.
  intros Ho Hp Hm Hb. unfold encode_packet.
  assert (Hr : output_handler_recv 0 (enc <| mem := block |>)
    = Some (tt, mk_encoder (input_mtu enc) (Some 0) block, [Receiver_Recv 2])).
  { unfold output_handler_recv, mbind, handler_bind, get. cbn. by rewrite Ho. }
  rewrite Hr. cbn.
  destruct (store_Some 2 p block) as [mem1 Hst]; [lia..|]. rewrite Hst.
  destruct (store_Some 0 (le_split 2 (len p)) mem1) as [mem2 Hst2];
    [lia|rewrite len_split, (len_store _ _ _ _ Hst); zlia|].
  unfold input_handler_done, mbind, handler_bind, get; cbn. rewrite Hst2. cbn.
  unfold PACKETPROTO_ENCLEN, sizeof_packetproto_header.
  rewrite load_Some by (rewrite ?(len_store _ _ _ _ Hst2), ?(len_store _ _ _ _ Hst); zlia).
  cbn. replace (zslice 0 (2 + len p) mem2) with (encode p); [by eexists|].
  rewrite zslice_app by zlia. unfold encode. f_equal; symmetry.
  - by apply (zslice_store_same _ _ _ _ Hst2).
  - rewrite (zslice_store_after _ _ _ _ Hst2) by (rewrite len_split; lia).
    by apply (zslice_store_same _ _ _ _ Hst).
Qed.

Lemma encode_packets_spec enc block ps :
  output_packet enc = None -> input_mtu enc <= PACKETPROTO_MAXPAYLOAD ->
  (forall i, len (block i) = output_mtu enc) ->
  Forall (fun p => len p <= input_mtu enc) ps ->
  encode_packets enc block ps = Some (encode_all ps).
Proof.
  intros Ho Hm Hblock Hps. revert enc Ho Hm Hblock Hps.
  induction ps as [|p ps IH]; intros enc Ho Hm Hblock Hps; [done|].
  inversion_clear Hps as [|?? Hp Hps']. cbn [encode_packets].
  destruct (encode_packet_spec enc (block (length ps)) p) as (enc' & -> & Ho' & Him'); auto.
  rewrite (IH enc'); [done|done|lia| |by rewrite Him'].
  intros i. rewrite Hblock. unfold output_mtu. by rewrite Him'.
Qed.

Lemma encoder_init_inv if_mtu enc :
  PacketProtoEncoder_Init if_mtu = Some enc ->
  output_packet enc = None /\ input_mtu enc = if_mtu /\ if_mtu <= PACKETPROTO_MAXPAYLOAD.
Proof.
  unfold PacketProtoEncoder_Init. destruct (if_mtu <=? _) eqn:Em; [|done].
  intros [= <-]. split_and!; [done..|lia].
Qed.

(** The encoder hands its output interface exactly the encoding of every
    packet its input delivers, whatever the block held before, and is ready for
    the next one. *)
Theorem encoder_encodes (if_mtu : Z) (enc : encoder) (block : nat -> bytes) (ps : list bytes) :
  PacketProtoEncoder_Init if_mtu = Some enc ->
  (forall i, len (block i) = output_mtu enc) ->
  Forall (fun p => len p <= if_mtu) ps ->
  encode_packets enc block ps = Some (encode_all ps).
Proof.
  intros (?&<-&?)%encoder_init_inv ??. by apply encode_packets_spec.
Qed.

Import PacketProtoDecoder DecoderProofs.

(** C3: round trip.  What an encoder writes for packets of at most its MTU, cut
    into pieces of any size, comes out of a decoder of the same MTU as the same
    packets in the same order. *)
Theorem encoder_decoder_roundtrip (mtu : Z) (enc : encoder) (block : nat -> bytes)
    (malloc : Z -> option bytes) (d : decoder) (o : list PacketProtoDecoder.out)
    (ps : list bytes) (es : list event) (s : sys) (off n : Z) :
  0 <= mtu ->
  PacketProtoEncoder_Init mtu = Some enc ->
  (forall i, len (block i) = PacketProtoEncoder.output_mtu enc) ->
  (forall n mem, malloc n = Some mem -> len mem = n) ->
  PacketProtoDecoder_Init mtu malloc = Some (d, o) ->
  Forall (fun p => len p <= mtu) ps ->
  run (start d o) es = Some s ->
  encode_packets enc block ps = Some (received es) ->
  pend s = RecvPending off n ->
  del s = ps.
Proof.
  intros Hm (Ho&Hi&Hmax)%encoder_init_inv Hblock Hmalloc Hd Hps Hrun Henc Hpend.
  rewrite encode_packets_spec in Henc by (rewrite ?Hi; auto). injection Henc as Henc.
  destruct (init_inv mtu malloc d o Hm Hmalloc Hd) as (Hinv & _ & Hin & _).
  rewrite Z.min_l in Hinv by done.
  eapply (stream_delivered mtu _ es s ps []); eauto. by rewrite app_nil_r.
Qed.
End encoder_properties.

(** ** Witnesses *)

Module PacketProtoWitnesses.
Import PacketProtoDecoder DecoderProofs.

Definition demo_packets : list bytes := [[Byte.x41; Byte.x42]; []; [Byte.x43]].
Definition demo_decoder : decoder := mk_decoder 3 5 0 0 (repeat Byte.x00 5).
Definition demo_start : sys := start demo_decoder [Receiver_Recv 0 5].
(** The encoding of [demo_packets] in four pieces, one cutting a header. *)
Definition demo_events : list event :=
  [Received [Byte.x02]; Received [Byte.x00; Byte.x41]; Received [Byte.x42; Byte.x00];
   Sent; Received [Byte.x00; Byte.x01; Byte.x00]; Sent; Received [Byte.x43]; Sent].
Definition demo_end : sys := default demo_start (run demo_start demo_events).
Definition demo_mid : sys := default demo_start (run demo_start (take 2 demo_events)).
(** A header announcing 4 bytes, one more than the decoder accepts. *)
Definition demo_bad : bytes := [Byte.x04; Byte.x00].

Lemma decoder_delivers_witness :
  errors demo_end = 0%nat /\ del demo_end `prefix_of` demo_packets /\
  ([] = [] :> bytes -> forall off n, pend demo_end = RecvPending off n ->
     del demo_end = demo_packets).
Proof.
  apply (decoder_delivers 3 zero_malloc demo_decoder [Receiver_Recv 0 5] ltac:(lia)
    zero_malloc_len eq_refl demo_packets demo_events []).
  - repeat constructor; vm_compute; discriminate.
  - vm_compute; reflexivity.
  - vm_compute; reflexivity.
Defined.

Lemma decoder_safe_witness :
  exists s', step demo_mid (Received [Byte.x42]) = Some s' /\
    match pend s' with
    | RecvPending off n => 0 <= off /\ 0 < n /\ off + n = len (buf (dec s'))
    | SendPending off n => 0 <= off /\ 0 <= n <= 3 /\ off + n <= len (buf (dec s'))
    end.
Proof.
  apply (decoder_safe 3 zero_malloc demo_decoder [Receiver_Recv 0 5] ltac:(lia)
    zero_malloc_len eq_refl (take 2 demo_events)); vm_compute; reflexivity.
Defined.

Lemma decoder_rejects_witness :
  exists s', step demo_start (Received demo_bad) = Some s' /\
    errors s' = S (errors demo_start) /\ contents (dec s') = [] /\
    pend s' = RecvPending 0 (buf_size (dec s')).
Proof.
  apply (decoder_rejects 3 zero_malloc demo_decoder [Receiver_Recv 0 5] ltac:(lia)
    zero_malloc_len eq_refl []); [vm_compute; reflexivity..|].
  split; vm_compute; [discriminate|reflexivity].
Defined.

Lemma decoder_reset_witness :
  errors (default demo_mid (run (reset_sys demo_mid) [Received [Byte.x00; Byte.x00]]))
    = errors demo_mid /\
  del (default demo_mid (run (reset_sys demo_mid) [Received [Byte.x00; Byte.x00]]))
    `prefix_of` [[]] /\
  (forall off n,
     pend (default demo_mid (run (reset_sys demo_mid) [Received [Byte.x00; Byte.x00]]))
       = RecvPending off n ->
     del (default demo_mid (run (reset_sys demo_mid) [Received [Byte.x00; Byte.x00]])) = [[]]).
Proof.
  apply (decoder_reset 3 zero_malloc demo_decoder [Receiver_Recv 0 5] ltac:(lia)
    zero_malloc_len eq_refl (take 2 demo_events) [Received [Byte.x00; Byte.x00]]).
  - vm_compute; reflexivity.
  - repeat constructor; vm_compute; discriminate.
  - vm_compute; reflexivity.
  - vm_compute; reflexivity.
Defined.

Lemma decoder_drains_witness :
  exists k s', run demo_mid (repeat Sent k) = Some s' /\
    Z.of_nat k <= 1 + len (contents (dec demo_mid)) /\
    exists off n, pend s' = RecvPending off n.
Proof.
  apply (decoder_drains 3 zero_malloc demo_decoder [Receiver_Recv 0 5] ltac:(lia)
    zero_malloc_len eq_refl (take 2 demo_events)); vm_compute; reflexivity.
Defined.

Definition demo_block (i : nat) : bytes := repeat Byte.xff 5.

Lemma encoder_encodes_witness :
  PacketProtoEncoder.encode_packets (PacketProtoEncoder.mk_encoder 3 None [])
    demo_block demo_packets = Some (encode_all demo_packets).
Proof.
  apply (encoder_encodes 3); [reflexivity|reflexivity|].
  repeat constructor; vm_compute; discriminate.
Defined.

Lemma encoder_decoder_roundtrip_witness : del demo_end = demo_packets.
Proof.
  apply (encoder_decoder_roundtrip 3 (PacketProtoEncoder.mk_encoder 3 None []) demo_block
    zero_malloc demo_decoder [Receiver_Recv 0 5] demo_packets demo_events demo_end 0 5).
  - lia.
  - reflexivity.
  - reflexivity.
  - exact zero_malloc_len.
  - reflexivity.
  - repeat constructor; vm_compute; discriminate.
  - vm_compute; reflexivity.
  - vm_compute; reflexivity.
  - vm_compute; reflexivity.
Defined.

End PacketProtoWitnesses.
