(* ===== verification/ChunkBuffer.v ===== *)
(** * ChunkBuffer2 and PacketBuffer

    [structure/ChunkBuffer2.h], a circular buffer of packets stored without
    being split, and [flow/PacketBuffer.c], which moves packets from a receive
    interface through it to a send interface.  The buffer is modelled down to
    its bytes: blocks of four bytes, of which the first of a packet holds its
    length.  The assertions of the debug build are part of the operations. *)
From S2P Require Import Prelude.

(** [misc/balign.h] *)
Definition bdivide_up (a b : Z) : Z :=
  let r := a mod b in if 0 <? r then a / b + 1 else a / b.

Lemma bdivide_up_4 n : 0 <= n -> n <= 4 * bdivide_up n 4 < n + 4.
Proof.
  intros. unfold bdivide_up. pose proof (Z.div_mod n 4). pose proof (Z.mod_pos_bound n 4).
  destruct (0 <? n mod 4) eqn:E; lia.
Qed.

Lemma bdivide_up_le n k : 0 <= n -> n <= 4 * k -> bdivide_up n 4 <= k.
Proof. intros. pose proof (bdivide_up_4 n). lia. Qed.

Module ChunkBuffer2.

Definition sizeof_block : Z := 4.

(** [mem] are the bytes of [buffer]; [input_dest] and [output_dest] are offsets
    into it, [None] for [NULL]. *)
Record chunkbuf := mk_chunkbuf {
  mem : bytes;
  size : Z;
  wrap : Z;
  start : Z;
  used : Z;
  mtu : Z;
  input_dest : option Z;
  input_avail : Z;
  output_dest : option Z;
  output_avail : Z;
}.
#[export] Instance chunkbuf_eta : Eta chunkbuf := fun r =>
  mk_chunkbuf (mem r) (size r) (wrap r) (start r) (used r) (mtu r)
    (input_dest r) (input_avail r) (output_dest r) (output_avail r).

(** [buf->buffer[i].len] *)
Definition block_len (buf : chunkbuf) (i : Z) : option Z :=
  (fun l => to_int (le_combine l)) <$> load (sizeof_block * i) sizeof_block (mem buf).
Definition set_block_len (buf : chunkbuf) (i n : Z) : option chunkbuf :=
  (fun m => buf <| mem := m |>) <$> store (sizeof_block * i) (le_split 4 n) (mem buf).

Definition _ChunkBuffer2_end (buf : chunkbuf) : Z :=
  if wrap buf - start buf <=? used buf then used buf - (wrap buf - start buf)
  else start buf + used buf.

Definition _ChunkBuffer2_assert_buffer (buf : chunkbuf) : bool :=
  (0 <? size buf) && (0 <? wrap buf) && (wrap buf <=? size buf)
  && (0 <=? start buf) && (start buf <? wrap buf)
  && (0 <=? used buf) && (used buf <=? wrap buf)
  && ((wrap buf =? size buf) || (wrap buf - start buf <=? used buf))
  && (0 <=? mtu buf).

Definition free_blocks (buf : chunkbuf) : Z :=
  let end_ := _ChunkBuffer2_end buf in
  if wrap buf - start buf <=? used buf then start buf - end_ else size buf - end_.

Definition _ChunkBuffer2_assert_io (buf : chunkbuf) : option unit :=
  let end_ := _ChunkBuffer2_end buf in
  let no_input := bool_decide (input_dest buf = None) && (input_avail buf =? -1) in
  let input_ok :=
    if size buf - end_ - 1 <? mtu buf then no_input else
    let free := free_blocks buf in
    if 0 <? free then
      bool_decide (input_dest buf = Some (sizeof_block * (end_ + 1)))
      && (input_avail buf =? (free - 1) * sizeof_block)
    else no_input in
  if negb input_ok then None else
  if 0 <? used buf then
    datalen ← block_len buf (start buf);
    let blocklen := bdivide_up datalen sizeof_block in
    if (0 <=? datalen) && (blocklen <=? used buf - 1)
       && (blocklen <=? wrap buf - start buf - 1)
       && bool_decide (output_dest buf = Some (sizeof_block * (start buf + 1)))
       && (output_avail buf =? datalen)
    then Some tt else None
  else if bool_decide (output_dest buf = None) && (output_avail buf =? -1)
  then Some tt else None.

Definition _ChunkBuffer2_update_input (buf : chunkbuf) : chunkbuf :=
  let end_ := _ChunkBuffer2_end buf in
  if size buf - end_ - 1 <? mtu buf then
    buf <| input_dest := None |> <| input_avail := -1 |>
  else
    let free := free_blocks buf in
    if 0 <? free then
      buf <| input_dest := Some (sizeof_block * (end_ + 1)) |>
          <| input_avail := to_int ((free - 1) * sizeof_block) |>
    else buf <| input_dest := None |> <| input_avail := -1 |>.

Definition guard_ (b : bool) : option unit := if b then Some tt else None.

Ltac guards_ok tac :=
  repeat match goal with |- context [guard_ ?b] =>
    replace b with true by tac; cbn [guard_ mbind option_bind] end.

Definition _ChunkBuffer2_update_output (buf : chunkbuf) : option chunkbuf :=
  if 0 <? used buf then
    datalen ← block_len buf (start buf);
    let blocklen := bdivide_up datalen sizeof_block in
    guard_ (0 <=? datalen);;
    guard_ (blocklen <=? used buf - 1);;
    guard_ (blocklen <=? wrap buf - start buf - 1);;
    Some (buf <| output_dest := Some (sizeof_block * (start buf + 1)) |>
              <| output_avail := datalen |>)
  else Some (buf <| output_dest := None |> <| output_avail := -1 |>).

(** [None] is the return value [-1]. *)
Definition ChunkBuffer2_calc_blocks (chunk_len num : Z) : option Z :=
  let chunk_data_blocks := bdivide_up chunk_len sizeof_block in
  if INT_MAX - 1 <? chunk_data_blocks then None else
  let chunk_blocks := 1 + chunk_data_blocks in
  if INT_MAX - 1 <? num then None else
  let num_chunks := num + 1 in
  if INT_MAX / num_chunks <? chunk_blocks then None else
  Some (chunk_blocks * num_chunks).

Definition ChunkBuffer2_Init (buffer : bytes) (blocks mtu_ : Z) : option chunkbuf :=
  guard_ (0 <? blocks);;
  guard_ (0 <=? mtu_);;
  let buf := mk_chunkbuf buffer blocks blocks 0 0
               (bdivide_up mtu_ sizeof_block) None (-1) None (-1) in
  guard_ (_ChunkBuffer2_assert_buffer buf);;
  let buf := _ChunkBuffer2_update_input buf in
  buf ← _ChunkBuffer2_update_output buf;
  _ChunkBuffer2_assert_io buf;;
  Some buf.

Definition ChunkBuffer2_SubmitPacket (len_ : Z) (buf : chunkbuf) : option chunkbuf :=
  guard_ (bool_decide (is_Some (input_dest buf)));;
  guard_ (0 <=? len_);;
  guard_ (len_ <=? input_avail buf);;
  guard_ (_ChunkBuffer2_assert_buffer buf);;
  _ChunkBuffer2_assert_io buf;;
  let end_ := _ChunkBuffer2_end buf in
  let blocklen := bdivide_up len_ sizeof_block in
  guard_ (blocklen <=? size buf - end_ - 1);;
  guard_ ((used buf <? wrap buf - start buf) || (blocklen <=? start buf - end_ - 1));;
  buf ← set_block_len buf end_ len_;
  let buf := buf <| used := used buf + (1 + blocklen) |> in
  let buf :=
    if (used buf <=? wrap buf - start buf)
       && (size buf - (end_ + 1 + blocklen) - 1 <? mtu buf)
    then buf <| wrap := end_ + 1 + blocklen |> else buf in
  guard_ (_ChunkBuffer2_assert_buffer buf);;
  let buf := _ChunkBuffer2_update_input buf in
  buf ← (if used buf =? 1 + blocklen then _ChunkBuffer2_update_output buf else Some buf);
  _ChunkBuffer2_assert_io buf;;
  Some buf.

Definition ChunkBuffer2_ConsumePacket (buf : chunkbuf) : option chunkbuf :=
  guard_ (bool_decide (is_Some (output_dest buf)));;
  guard_ (_ChunkBuffer2_assert_buffer buf);;
  _ChunkBuffer2_assert_io buf;;
  guard_ (1 <=? wrap buf - start buf);;
  guard_ (1 <=? used buf);;
  datalen ← block_len buf (start buf);
  let blocklen := bdivide_up datalen sizeof_block in
  guard_ (blocklen <=? wrap buf - start buf - 1);;
  guard_ (blocklen <=? used buf - 1);;
  let data_wrapped := wrap buf - start buf <=? used buf in
  let buf := buf <| start := start buf + (1 + blocklen) |>
                 <| used := used buf - (1 + blocklen) |> in
  let buf := if start buf =? wrap buf then buf <| start := 0 |> <| wrap := size buf |>
             else buf in
  guard_ (_ChunkBuffer2_assert_buffer buf);;
  let buf := if data_wrapped then _ChunkBuffer2_update_input buf else buf in
  buf ← _ChunkBuffer2_update_output buf;
  _ChunkBuffer2_assert_io buf;;
  Some buf.

End ChunkBuffer2.

(** ** Representation: the packets the buffer holds *)

Module ChunkBuffer2Proofs.
Import ChunkBuffer2.

(** Blocks a packet of [n] bytes takes, header included. *)
Definition blk (n : Z) : Z := 1 + bdivide_up n 4.
Fixpoint total (q : list bytes) : Z :=
  match q with [] => 0 | p :: q => blk (len p) + total q end.

(** The packets [q] lie one after the other from block [b] to block [e]; none
    begins after block [lim]. *)
Fixpoint seg (m : bytes) (lim b : Z) (q : list bytes) (e : Z) : Prop :=
  match q with
  | [] => b = e
  | p :: q =>
      b <= lim /\ to_int (le_combine (zslice (4 * b) 4 m)) = len p /\
      zslice (4 * (b + 1)) (len p) m = p /\ seg m lim (b + blk (len p)) q e
  end.

Lemma blk_pos n : 0 <= n -> 1 <= blk n /\ n <= 4 * (blk n - 1) < n + 4.
Proof. intros. unfold blk. pose proof (bdivide_up_4 n). lia. Qed.

Lemma total_bound q : len q <= total q.
Proof.
  induction q as [|p q IH]; cbn; [done|]. rewrite len_cons.
  pose proof (blk_pos (len p) (len_nonneg p)). lia.
Qed.
Lemma total_app q1 q2 : total (q1 ++ q2) = total q1 + total q2.
Proof. induction q1 as [|p q IH]; cbn; [done|]. lia. Qed.
Lemma total_nonneg q : 0 <= total q.
Proof. pose proof (total_bound q). zlia. Qed.

Lemma seg_total m lim b q e : seg m lim b q e -> e = b + total q.
Proof.
  revert b. induction q as [|p q IH]; intros b; cbn; [lia|].
  intros (_ & _ & _ & H). apply IH in H. lia.
Qed.

Lemma seg_snoc m lim b q p e :
  seg m lim b q e -> e <= lim -> to_int (le_combine (zslice (4 * e) 4 m)) = len p ->
  zslice (4 * (e + 1)) (len p) m = p ->
  seg m lim b (q ++ [p]) (e + blk (len p)).
Proof.
  intros Hs He Hl Hp. revert b Hs. induction q as [|p' q IH]; intros b; cbn.
  - by intros ->.
  - intros (? & ? & ? & Hs). split_and!; auto.
Qed.

Lemma seg_frame m m' lim b q e :
  (forall off n, 4 * b <= off -> 0 <= n -> off + n <= 4 * e ->
     zslice off n m' = zslice off n m) ->
  seg m lim b q e -> seg m' lim b q e.
Proof.
  revert b. induction q as [|p q IH]; intros b Hf; cbn; [done|].
  intros (Hb & Hl & Hp & Hs). assert (Ht := seg_total _ _ _ _ _ Hs).
  pose proof (blk_pos (len p) (len_nonneg p)). pose proof (total_nonneg q).
  split; [done|]. rewrite !Hf by zlia. split_and!; [done..|].
  apply IH; [|done]. intros. apply Hf; lia.
Qed.

Lemma seg_store m lim b q e off data m' :
  store off data m = Some m' -> off + len data <= 4 * b \/ 4 * e <= off -> 0 <= b ->
  seg m lim b q e -> seg m' lim b q e.
Proof.
  intros Hst Hd Hb. apply seg_frame. intros off' n ???.
  destruct Hd; [eapply zslice_store_after|eapply zslice_store_before]; try done; lia.
Qed.

(** Arithmetic of the indices; [lim buf] is the last block a packet may begin
    at. *)
Definition lim (buf : chunkbuf) : Z := size buf - 1 - mtu buf.

Record bounds (buf : chunkbuf) : Prop := {
  b_size : 0 < size buf /\ 4 * size buf <= INT_MAX /\ len (mem buf) = 4 * size buf;
  b_mtu : 0 <= mtu buf <= size buf - 1;
  b_wrap : lim buf < wrap buf <= size buf;
  b_start : 0 <= start buf < wrap buf;
  b_used : 0 <= used buf <= wrap buf;
}.

Definition stored (buf : chunkbuf) (q : list bytes) : Prop :=
  (used buf < wrap buf - start buf /\ wrap buf = size buf /\
   start buf + used buf <= lim buf /\
   seg (mem buf) (lim buf) (start buf) q (start buf + used buf))
  \/ (wrap buf - start buf <= used buf /\
      exists q1 q2, q = q1 ++ q2 /\
        seg (mem buf) (lim buf) (start buf) q1 (wrap buf) /\
        seg (mem buf) (lim buf) 0 q2 (used buf - (wrap buf - start buf))).

(** What the fields for input and output must be. *)
Definition in_fields (buf : chunkbuf) : option Z * Z :=
  let end_ := _ChunkBuffer2_end buf in
  if size buf - end_ - 1 <? mtu buf then (None, -1)
  else if 0 <? free_blocks buf then
    (Some (4 * (end_ + 1)), (free_blocks buf - 1) * 4)
  else (None, -1).
Definition out_fields (buf : chunkbuf) (q : list bytes) : option Z * Z :=
  match q with [] => (None, -1) | p :: _ => (Some (4 * (start buf + 1)), len p) end.

Record repr (buf : chunkbuf) (q : list bytes) : Prop := {
  r_bounds : bounds buf;
  r_stored : stored buf q;
  r_in : (input_dest buf, input_avail buf) = in_fields buf;
  r_out : (output_dest buf, output_avail buf) = out_fields buf q;
}.

Lemma stored_total buf q : bounds buf -> stored buf q -> used buf = total q.
Proof.
  intros [] [(_ & _ & _ & H)|(_ & q1 & q2 & -> & H1 & H2)].
  - apply seg_total in H. lia.
  - apply seg_total in H1, H2. rewrite total_app. lia.
Qed.

Lemma stored_empty buf : stored buf [] -> bounds buf -> used buf = 0.
Proof. intros Hs Hb. by rewrite (stored_total buf [] Hb Hs). Qed.

(** The first packet, when there is one, lies at [start]. *)
Lemma stored_head buf q :
  bounds buf -> stored buf q -> 0 < used buf ->
  exists p q', q = p :: q' /\ block_len buf (start buf) = Some (len p) /\
    1 <= blk (len p) <= used buf /\ blk (len p) <= wrap buf - start buf /\
    zslice (4 * (start buf + 1)) (len p) (mem buf) = p.
Proof.
  intros [] Hs Hu. unfold block_len, sizeof_block.
  assert (Hgen : forall q1 e, seg (mem buf) (lim buf) (start buf) q1 e ->
    start buf < e -> e <= wrap buf -> e <= start buf + used buf ->
    exists p q', q1 = p :: q' /\
    (λ l : bytes, to_int (le_combine l)) <$> load (4 * start buf) 4 (mem buf)
      = Some (len p) /\
    1 <= blk (len p) <= used buf /\ blk (len p) <= wrap buf - start buf /\
    zslice (4 * (start buf + 1)) (len p) (mem buf) = p).
  { intros [|p q1] e Hseg He ??; [cbn in Hseg; lia|]. exists p, q1. split; [done|].
    assert (Ht := seg_total _ _ _ _ _ Hseg). destruct Hseg as (_ & Hl & Hp & _).
    pose proof (blk_pos (len p) (len_nonneg p)). pose proof (total_nonneg q1).
    cbn in Ht. rewrite load_Some by lia. cbn. rewrite Hl.
    split; [done|]. split; [lia|]. split; [lia|done]. }
  destruct Hs as [(? & ? & ? & Hseg)|(? & q1 & q2 & -> & Hseg & _)].
  - apply (Hgen _ _ Hseg); lia.
  - destruct (Hgen _ _ Hseg) as (p & q' & -> & ?); [lia..|]. by exists p, (q' ++ q2).
Qed.

(** The two shapes of the used area. *)
Lemma end_cases buf q :
  bounds buf -> stored buf q ->
  let e := _ChunkBuffer2_end buf in
  (used buf < wrap buf - start buf /\ wrap buf = size buf /\
   (wrap buf - start buf <=? used buf) = false /\
   e = start buf + used buf /\ e <= lim buf /\ free_blocks buf = size buf - e)
  \/ (wrap buf - start buf <= used buf /\
   (wrap buf - start buf <=? used buf) = true /\
   e = used buf - (wrap buf - start buf) /\ 0 <= e <= start buf /\
   free_blocks buf = start buf - e).
Proof.
  intros [] Hs e. unfold free_blocks, e, _ChunkBuffer2_end.
  destruct Hs as [(?&?&?&_)|(?&_)].
  - left. replace (_ <=? _) with false by lia. lia.
  - right. replace (_ <=? _) with true by lia. lia.
Qed.

Lemma assert_buffer_ok buf q :
  bounds buf -> stored buf q -> _ChunkBuffer2_assert_buffer buf = true.
Proof.
  intros [] Hs. unfold _ChunkBuffer2_assert_buffer.
  destruct Hs as [(?&?&_)|(?&_)]; lia.
Qed.

Lemma update_input_fields buf q :
  bounds buf -> stored buf q ->
  _ChunkBuffer2_update_input buf
  = buf <| input_dest := fst (in_fields buf) |> <| input_avail := snd (in_fields buf) |>.
Proof.
  intros Hb Hs. assert (He := end_cases buf q Hb Hs). destruct Hb. cbn in He.
  unfold _ChunkBuffer2_update_input, in_fields, sizeof_block, INT_MAX in *.
  destruct (size buf - _ChunkBuffer2_end buf - 1 <? mtu buf) eqn:E1; [done|].
  destruct (0 <? free_blocks buf) eqn:E2; [|done]. cbn. f_equal.
  apply to_int_small. lia.
Qed.

Lemma update_output_fields buf q :
  bounds buf -> stored buf q ->
  _ChunkBuffer2_update_output buf
  = Some (buf <| output_dest := fst (out_fields buf q) |>
              <| output_avail := snd (out_fields buf q) |>).
Proof.
  intros Hb Hs. unfold _ChunkBuffer2_update_output, sizeof_block.
  destruct (0 <? used buf) eqn:E.
  - destruct (stored_head buf q Hb Hs) as (p & q' & -> & -> & ? & ? & _); [lia|]. cbn.
    unfold blk in *. unfold guard_.
    repeat match goal with |- context [if ?b then _ else _] =>
      replace b with true by zlia end. done.
  - destruct q as [|p q]; [done|]. rewrite (stored_total buf _ Hb Hs) in E.
    cbn in E. pose proof (blk_pos (len p) (len_nonneg p)). pose proof (total_nonneg q). lia.
Qed.

Lemma assert_io_ok buf q : repr buf q -> _ChunkBuffer2_assert_io buf = Some tt.
Proof.
  intros [Hb Hs Hin Hout]. unfold _ChunkBuffer2_assert_io, in_fields, sizeof_block in *.
  match goal with |- context [negb ?b] => assert (b = true) as -> end.
  { destruct (size buf - _ChunkBuffer2_end buf - 1 <? mtu buf);
      [|destruct (0 <? free_blocks buf)]; injection Hin as -> ->;
      rewrite bool_decide_eq_true_2 by done; cbn; lia. }
  cbn. destruct (0 <? used buf) eqn:E.
  - destruct (stored_head buf q Hb Hs) as (p & q' & -> & -> & ? & ? & _); [lia|]. cbn.
    injection Hout as -> ->. rewrite (bool_decide_eq_true_2 (Some _ = _)) by done.
    unfold blk in *.
    match goal with |- context [if ?b then _ else _] =>
      replace b with true by zlia end. done.
  - destruct q as [|p q].
    + injection Hout as -> ->. done.
    + rewrite (stored_total buf _ Hb Hs) in E. cbn in E.
      pose proof (blk_pos (len p) (len_nonneg p)). pose proof (total_nonneg q). lia.
Qed.

(** Where the next packet may be written. *)
Lemma input_room buf q d :
  repr buf q -> input_dest buf = Some d ->
  d = 4 * (_ChunkBuffer2_end buf + 1) /\ 0 <= _ChunkBuffer2_end buf <= lim buf /\
  0 < free_blocks buf /\ input_avail buf = (free_blocks buf - 1) * 4.
Proof.
  intros [Hb Hs Hin _] Hd. assert (He := end_cases buf q Hb Hs). cbn in He.
  rewrite Hd in Hin. unfold in_fields in Hin. destruct Hb. unfold lim in *.
  destruct (size buf - _ChunkBuffer2_end buf - 1 <? mtu buf) eqn:E1; [done|].
  destruct (0 <? free_blocks buf) eqn:E2; [|done].
  injection Hin as -> ->. lia.
Qed.

Lemma input_room_bytes buf q d :
  repr buf q -> input_dest buf = Some d ->
  0 <= d /\ d + input_avail buf <= len (mem buf).
Proof.
  intros Hr Hd. destruct (input_room buf q d Hr Hd) as (-> & He & Hf & ->).
  destruct Hr as [Hb Hs _ _]. assert (Hec := end_cases buf q Hb Hs). cbn in Hec.
  destruct Hb. lia.
Qed.

(** Writing a packet at [input_dest] does not disturb what is stored. *)
Lemma repr_write buf q d p mem' :
  repr buf q -> input_dest buf = Some d -> len p <= input_avail buf ->
  store d p (mem buf) = Some mem' -> repr (buf <| mem := mem' |>) q.
Proof.
  intros Hr Hd Hp Hst. destruct (input_room buf q d Hr Hd) as (Hd' & He & Hf & Ha).
  destruct Hr as [Hb Hs Hin Hout]. assert (Hec := end_cases buf q Hb Hs). cbn in Hec.
  destruct Hb as [(?&?&?) ? ? ? ?].
  constructor; [|  |exact Hin|exact Hout].
  { constructor; unfold lim in *; cbn; rewrite ?(len_store _ _ _ _ Hst); lia. }
  destruct Hs as [(?&?&?&Hseg)|(?&q1&q2&->&Hs1&Hs2)]; [left|right]; cbn.
  - split_and!; [done..|]. eapply seg_store; try done; [|lia].
    change (lim (buf <| mem := mem' |>)) with (lim buf) in *. right. lia.
  - split; [done|]. exists q1, q2. split_and!; [done| |];
      (eapply seg_store; [done| |lia|done]); [left|right]; zlia.
Qed.

(** The same for a part of the room. *)
Lemma store_behind d k (p m : bytes) : 0 <= d -> 0 <= k -> d + k + len p <= len m ->
  store (d + k) p m = store d (zslice d k m ++ p) m.
Proof.
  intros Hd Hk Hl. assert (Hz : len (zslice d k m) = k) by (apply len_zslice; zlia).
  unfold store. rewrite len_app, Hz, !(proj2 (in_range_true _ _ _)) by zlia.
  f_equal. rewrite Z.add_assoc, !app_assoc. do 2 f_equal. unfold zslice.
  by rewrite take_take_drop, <- Z2Nat.inj_add by lia.
Qed.
Lemma repr_write_at buf q d k p mem' :
  repr buf q -> input_dest buf = Some d -> 0 <= k -> k + len p <= input_avail buf ->
  store (d + k) p (mem buf) = Some mem' -> repr (buf <| mem := mem' |>) q.
Proof.
  intros Hr Hd Hk Hp Hst. destruct (input_room_bytes buf q d Hr Hd) as [H0 Hl].
  rewrite store_behind in Hst by zlia. eapply repr_write; [done..| |exact Hst].
  rewrite len_app, len_zslice by zlia. lia.
Qed.

(** *** Submitting *)

(** [SubmitPacket] once its assertions are discharged: the length is written,
    the used area grows and the wrap mark moves down when no packet of the MTU
    fits behind it. *)
Definition submitted (buf : chunkbuf) (p : bytes) (m : bytes) : chunkbuf :=
  let e := _ChunkBuffer2_end buf in
  let b := buf <| mem := m |> <| used := used buf + blk (len p) |> in
  if (used b <=? wrap b - start b) && (size b - (e + blk (len p)) - 1 <? mtu b)
  then b <| wrap := e + blk (len p) |> else b.

Lemma submitted_stored buf q d p m :
  repr buf q -> input_dest buf = Some d -> len p <= input_avail buf ->
  zslice d (len p) (mem buf) = p ->
  store (4 * _ChunkBuffer2_end buf) (le_split 4 (len p)) (mem buf) = Some m ->
  bounds (submitted buf p m) /\ stored (submitted buf p m) (q ++ [p]).
Proof.
  intros Hr Hd Hp Hdata Hst. destruct (input_room buf q d Hr Hd) as (-> & He & Hf & Ha).
  pose proof (blk_pos (len p) (len_nonneg p)) as Hblk.
  assert (Hfit : blk (len p) <= free_blocks buf) by lia.
  destruct Hr as [Hb Hs _ _]. assert (Hec := end_cases buf q Hb Hs). cbn in Hec.
  destruct Hb as [(?&?&?) ? ? ? ?].
  set (e := _ChunkBuffer2_end buf) in *.
  assert (Hlen : to_int (le_combine (zslice (4 * e) 4 m)) = len p).
  { rewrite (zslice_store_same _ _ _ _ Hst) by by rewrite len_split.
    rewrite le_combine_split, Z.mod_small by (unfold INT_MAX in *; zlia).
    apply to_int_small. unfold INT_MAX in *. zlia. }
  assert (Hpay : zslice (4 * (e + 1)) (len p) m = p).
  { rewrite (zslice_store_after _ _ _ _ Hst); [done|]. rewrite len_split. lia. }
  assert (Hm := len_store _ _ _ _ Hst).
  destruct Hs as [(?&?&?&Hseg)|(?&q1&q2&->&Hs1&Hs2)].
  - assert (Hseg' : seg m (lim buf) (start buf) (q ++ [p]) (e + blk (len p))).
    { apply seg_snoc; [|lia|done|done].
      replace e with (start buf + used buf) in * by lia.
      eapply seg_store; [done| |lia|done]. right. lia. }
    unfold submitted. fold e. cbn. unfold lim in *.
    destruct (_ && _) eqn:Ew; (split; [constructor; unfold lim; cbn; lia|]).
    + right; cbn. split; [lia|]. exists (q ++ [p]), [].
      rewrite app_nil_r. split_and!; [done|exact Hseg'|cbn; lia].
    + destruct (decide (used buf + blk (len p) < wrap buf - start buf)) as [Hlt|Hge].
      * left; cbn. unfold lim; cbn. split_and!; [lia..|].
        replace (start buf + (used buf + blk (len p))) with (e + blk (len p)) by lia. done.
      * exfalso. lia.
  - unfold submitted. fold e. cbn. unfold lim in *. rewrite andb_false_intro1 by lia.
    split; [constructor; unfold lim; cbn; lia|]. right; cbn. split; [lia|].
    exists q1, (q2 ++ [p]). split_and!; [by rewrite app_assoc| |].
    + unfold lim; cbn. eapply seg_store; [done| |lia|done]. left. rewrite len_split. lia.
    + unfold lim; cbn. replace (used buf + blk (len p) - (wrap buf - start buf))
        with (e + blk (len p)) by lia.
      replace (used buf - (wrap buf - start buf)) with e in * by lia.
      apply seg_snoc; [|lia|done|done].
      eapply seg_store; [done| |lia|done]. right. lia.
Qed.

Lemma SubmitPacket_repr buf q d p :
  repr buf q -> input_dest buf = Some d -> len p <= input_avail buf ->
  zslice d (len p) (mem buf) = p ->
  exists buf', ChunkBuffer2_SubmitPacket (len p) buf = Some buf' /\
    repr buf' (q ++ [p]) /\ size buf' = size buf /\ mtu buf' = mtu buf /\
    start buf' = start buf.
Proof.
  intros Hr Hd Hp Hdata. destruct (input_room buf q d Hr Hd) as (Hd' & He & Hf & Ha).
  pose proof (blk_pos (len p) (len_nonneg p)) as Hblk.
  destruct (store_Some (4 * _ChunkBuffer2_end buf) (le_split 4 (len p)) (mem buf))
    as [m Hst].
  { lia. } { rewrite len_split. destruct Hr as [[(?&?&?) ? ? ? ?] _ _ _].
    unfold lim in *. lia. }
  destruct (submitted_stored buf q d p m Hr Hd Hp Hdata Hst) as [Hb' Hs'].
  assert (Hfit : blk (len p) <= free_blocks buf) by lia.
  assert (Hec := end_cases buf q (r_bounds _ _ Hr) (r_stored _ _ Hr)). cbn in Hec.
  assert (Hsz : size (submitted buf p m) = size buf /\ mtu (submitted buf p m) = mtu buf
    /\ start (submitted buf p m) = start buf
    /\ used (submitted buf p m) = used buf + blk (len p)
    /\ output_dest (submitted buf p m) = output_dest buf
    /\ output_avail (submitted buf p m) = output_avail buf).
  { unfold submitted. cbn. by destruct (_ && _). }
  unfold ChunkBuffer2_SubmitPacket.
  rewrite Hd, bool_decide_eq_true_2 by eauto.
  rewrite (assert_buffer_ok buf q (r_bounds _ _ Hr) (r_stored _ _ Hr)),
    (assert_io_ok buf q Hr).
  unfold set_block_len, sizeof_block. rewrite Hst. cbn.
  change (1 + bdivide_up (len p) 4) with (blk (len p)).
  replace (_ChunkBuffer2_end buf + 1 + bdivide_up (len p) 4)
    with (_ChunkBuffer2_end buf + blk (len p)) by (unfold blk; lia).
  match goal with |- context [guard_ (_ChunkBuffer2_assert_buffer ?b)] =>
    change b with (submitted buf p m) end.
  rewrite (assert_buffer_ok (submitted buf p m) (q ++ [p])) by done.
  rewrite !(update_input_fields (submitted buf p m) (q ++ [p])) by done.
  set (b1 := _ <| input_avail := _ |>).
  assert (Hb1 : bounds b1 /\ stored b1 (q ++ [p])).
  { split; [|exact Hs']. destruct Hb'. by constructor. }
  replace (if used b1 =? blk (len p) then _ else _)
    with (Some (b1 <| output_dest := fst (out_fields b1 (q ++ [p])) |>
                   <| output_avail := snd (out_fields b1 (q ++ [p])) |>)).
  2: { destruct (used b1 =? blk (len p)) eqn:Eu.
    - symmetry. apply update_output_fields; apply Hb1.
    - destruct q as [|p0 q0].
      { rewrite (stored_total buf [] (r_bounds _ _ Hr) (r_stored _ _ Hr)) in Hsz.
        unfold b1 in Eu. cbn in Eu, Hsz. lia. }
      assert (Ho := r_out _ _ Hr). cbn in Ho. injection Ho as Ho1 Ho2.
      destruct Hsz as (_&_&E1&_&E2&E3). unfold b1. cbn. f_equal.
      rewrite E1, <- Ho1, <- Ho2, <- E2, <- E3. by destruct (submitted buf p m). }
  set (b2 := b1 <| output_dest := _ |> <| output_avail := _ |>).
  assert (Hr2 : repr b2 (q ++ [p])).
  { destruct Hb1 as [[B1 B2 B3 B4 B5] Hst1].
    constructor; [exact (Build_bounds b2 B1 B2 B3 B4 B5)|exact Hst1| |].
    - exact (eq_sym (surjective_pairing (in_fields (submitted buf p m)))).
    - exact (eq_sym (surjective_pairing (out_fields b1 (q ++ [p])))). }
  cbn [mbind option_bind]. rewrite (assert_io_ok _ _ Hr2).
  destruct (r_bounds _ _ Hr).
  guards_ok ltac:(unfold lim, blk in *; zlia).
  exists b2. destruct Hsz as (Esz & Emtu & Est & _). by split_and!.
Qed.

(** *** Consuming *)

Definition consumed (buf : chunkbuf) (n : Z) : chunkbuf :=
  let b := buf <| start := start buf + blk n |> <| used := used buf - blk n |> in
  if start b =? wrap b then b <| start := 0 |> <| wrap := size b |> else b.

Lemma consumed_stored buf p q :
  bounds buf -> stored buf (p :: q) ->
  bounds (consumed buf (len p)) /\ stored (consumed buf (len p)) q /\
  _ChunkBuffer2_end (consumed buf (len p)) = _ChunkBuffer2_end buf /\
  free_blocks buf <= free_blocks (consumed buf (len p)) /\
  (used buf < wrap buf - start buf ->
     free_blocks (consumed buf (len p)) = free_blocks buf).
Proof.
  intros Hb Hs. pose proof (blk_pos (len p) (len_nonneg p)) as Hblk.
  assert (Hec := end_cases buf (p :: q) Hb Hs). cbn in Hec.
  assert (Hb2 : bounds (consumed buf (len p)) /\ stored (consumed buf (len p)) q).
  { destruct Hb as [(?&?&?) ? ? ? ?]. unfold consumed. cbn.
    destruct Hs as [(?&?&?&Hseg)|(?&q1&q2&Hq&Hs1&Hs2)].
    - destruct Hseg as (_&_&_&Hseg). assert (Ht := seg_total _ _ _ _ _ Hseg).
      pose proof (total_nonneg q). replace (_ =? _) with false by lia. unfold lim in *.
      split; [constructor; unfold lim; cbn; lia|]. left; cbn.
      unfold lim; cbn. split_and!; [lia..|].
      by replace (start buf + blk (len p) + (used buf - blk (len p)))
        with (start buf + used buf) by lia.
    - destruct q1 as [|p1 q1]; [cbn in Hs1; lia|]. injection Hq as <- ->.
      destruct Hs1 as (Hstart&_&_&Hs1). assert (Ht := seg_total _ _ _ _ _ Hs1).
      pose proof (total_bound q1). pose proof (total_nonneg q1).
      assert (Ht2 := seg_total _ _ _ _ _ Hs2). pose proof (total_nonneg q2).
      destruct (start buf + blk (len p) =? wrap buf) eqn:Ew; unfold lim in *.
      + assert (q1 = []) as -> by (apply len_zero_nil; zlia).
        split; [constructor; unfold lim; cbn; lia|]. left; cbn.
        unfold lim; cbn. split_and!; [lia..|].
        by replace (used buf - blk (len p)) with (used buf - (wrap buf - start buf)) by lia.
      + split; [constructor; unfold lim; cbn; lia|]. right; cbn. split; [lia|].
        exists q1, q2. unfold lim; cbn. split_and!; [done..|].
        by replace (used buf - blk (len p) - (wrap buf - (start buf + blk (len p))))
          with (used buf - (wrap buf - start buf)) by lia. }
  destruct Hb2 as [Hb2 Hs2]. split; [done|]. split; [done|].
  assert (Hec2 := end_cases _ _ Hb2 Hs2). cbn in Hec2.
  assert (Htot := stored_total _ _ Hb Hs). pose proof (total_nonneg q). cbn in Htot.
  assert (Hsh : size (consumed buf (len p)) = size buf
    /\ used (consumed buf (len p)) = used buf - blk (len p)
    /\ ((start (consumed buf (len p)) = start buf + blk (len p)
         /\ wrap (consumed buf (len p)) = wrap buf)
        \/ (start (consumed buf (len p)) = 0 /\ start buf + blk (len p) = wrap buf
            /\ wrap (consumed buf (len p)) = size buf))).
  { unfold consumed. cbn. destruct (_ =? _) eqn:E; cbn; [|by auto].
    split_and!; [done..|]. right. split_and!; [done|lia|done]. }
  destruct Hb. lia.
Qed.

Lemma ConsumePacket_repr buf p q :
  repr buf (p :: q) ->
  exists buf', ChunkBuffer2_ConsumePacket buf = Some buf' /\ repr buf' q /\
    mem buf' = mem buf /\ size buf' = size buf /\ mtu buf' = mtu buf /\
    (forall d, input_dest buf = Some d ->
       input_dest buf' = Some d /\ input_avail buf <= input_avail buf').
Proof.
  intros Hr. assert (Hr0 := Hr). destruct Hr0 as [Hb Hs Hin Hout].
  destruct (consumed_stored buf p q Hb Hs) as (Hb2 & Hs2 & Hend & Hfree & Hsame).
  pose proof (blk_pos (len p) (len_nonneg p)) as Hblk.
  assert (Hu : 0 < used buf).
  { rewrite (stored_total _ _ Hb Hs). cbn. pose proof (total_nonneg q). lia. }
  destruct (stored_head buf _ Hb Hs Hu) as (p0 & q0 & [= <- <-] & Hl & ? & ? & _).
  assert (Hec := end_cases buf (p :: q) Hb Hs). cbn in Hec.
  unfold ChunkBuffer2_ConsumePacket.
  injection Hout as Ho1 Ho2. rewrite Ho1, bool_decide_eq_true_2 by eauto.
  rewrite (assert_buffer_ok buf _ Hb Hs), (assert_io_ok buf _ Hr), Hl.
  cbn [mbind option_bind guard_].
  change (1 + bdivide_up (len p) sizeof_block) with (blk (len p)).
  match goal with |- context [guard_ (_ChunkBuffer2_assert_buffer ?b)] =>
    change b with (consumed buf (len p)) end.
  rewrite (assert_buffer_ok _ _ Hb2 Hs2).
  set (c := consumed buf (len p)) in *.
  assert (Hc : input_dest c = input_dest buf /\ input_avail c = input_avail buf
    /\ mem c = mem buf /\ size c = size buf /\ mtu c = mtu buf).
  { unfold c, consumed. cbn. by destruct (_ =? _). }
  destruct Hc as (Ec1 & Ec2 & Ec3 & Ec4 & Ec5).
  assert (Hin2 : (wrap buf - start buf <=? used buf) = false -> in_fields c = in_fields buf).
  { intros Hf. unfold in_fields. rewrite Hend, Ec4, Ec5, Hsame by lia. done. }
  replace (if wrap buf - start buf <=? used buf then _ else c)
    with (c <| input_dest := fst (in_fields c) |> <| input_avail := snd (in_fields c) |>).
  2: { destruct (wrap buf - start buf <=? used buf).
    - symmetry. by apply (update_input_fields _ q).
    - rewrite Hin2, <- Hin by done. cbn. rewrite <- Ec1, <- Ec2. by destruct c. }
  set (b1 := c <| input_dest := _ |> <| input_avail := _ |>).
  assert (Hb1 : bounds b1) by (destruct Hb2 as [B1 B2 B3 B4 B5];
    exact (Build_bounds b1 B1 B2 B3 B4 B5)).
  rewrite (update_output_fields b1 q Hb1 Hs2). cbn [mbind option_bind guard_].
  set (b2 := b1 <| output_dest := _ |> <| output_avail := _ |>).
  assert (Hr2 : repr b2 q).
  { destruct Hb1 as [B1 B2 B3 B4 B5].
    constructor; [exact (Build_bounds b2 B1 B2 B3 B4 B5)|exact Hs2| |].
    - exact (eq_sym (surjective_pairing (in_fields c))).
    - exact (eq_sym (surjective_pairing (out_fields b1 q))). }
  rewrite (assert_io_ok _ _ Hr2).
  guards_ok ltac:(unfold sizeof_block, blk in *; destruct Hb; lia).
  exists b2. split_and!; [done|exact Hr2|exact Ec3|exact Ec4|exact Ec5|]. intros d Hd.
  destruct (input_room buf _ d Hr Hd) as (-> & ? & ? & ->).
  unfold b2, b1; cbn. unfold in_fields. rewrite Hend, Ec4, Ec5.
  unfold lim in *. destruct Hb.
  replace (size buf - _ChunkBuffer2_end buf - 1 <? mtu buf) with false by lia.
  replace (0 <? free_blocks c) with true by lia. cbn. split; [done|lia].
Qed.

(** *** Initial state and capacity *)

Lemma Init_repr buffer blocks m :
  0 < blocks -> 4 * blocks <= INT_MAX -> len buffer = 4 * blocks -> 0 <= m ->
  bdivide_up m 4 <= blocks - 1 ->
  exists buf, ChunkBuffer2_Init buffer blocks m = Some buf /\ repr buf [] /\
    size buf = blocks /\ mtu buf = bdivide_up m 4.
Proof.
  intros Hblk Hmax Hlen Hm Hfit. pose proof (bdivide_up_4 m Hm).
  unfold ChunkBuffer2_Init, sizeof_block. guards_ok ltac:(lia).
  set (b0 := mk_chunkbuf _ _ _ _ _ _ _ _ _ _).
  assert (Hb0 : bounds b0) by (constructor; unfold lim; cbn; lia).
  assert (Hs0 : stored b0 []).
  { left. unfold lim; cbn. split_and!; lia. }
  rewrite (assert_buffer_ok _ _ Hb0 Hs0). cbn [guard_ mbind option_bind].
  rewrite (update_input_fields _ _ Hb0 Hs0).
  set (b1 := _ <| input_avail := _ |>).
  assert (Hb1 : bounds b1) by (destruct Hb0 as [B1 B2 B3 B4 B5];
    exact (Build_bounds b1 B1 B2 B3 B4 B5)).
  rewrite (update_output_fields b1 [] Hb1 Hs0). cbn [mbind option_bind].
  set (b2 := b1 <| output_dest := _ |> <| output_avail := _ |>).
  assert (Hr2 : repr b2 []).
  { destruct Hb1 as [B1 B2 B3 B4 B5].
    constructor; [exact (Build_bounds b2 B1 B2 B3 B4 B5)|exact Hs0| |done].
    exact (eq_sym (surjective_pairing (in_fields b0))). }
  rewrite (assert_io_ok _ _ Hr2). by exists b2.
Qed.

Lemma total_le q m d :
  Forall (fun p => len p <= m) q -> bdivide_up m 4 = d -> total q <= len q * (1 + d).
Proof.
  intros Hq <-. induction Hq as [|p q Hp _ IH]; cbn; [done|]. rewrite len_cons.
  assert (blk (len p) <= 1 + bdivide_up m 4).
  { unfold blk. pose proof (bdivide_up_4 m). pose proof (bdivide_up_4 (len p)). zlia. }
  lia.
Qed.

(** While fewer than [num] packets are stored there is room for one more of
    the MTU, wherever the used area lies. *)
Lemma capacity buf q m num :
  repr buf q -> mtu buf = bdivide_up m 4 -> 0 <= m ->
  (1 + mtu buf) * (num + 1) <= size buf ->
  Forall (fun p => len p <= m) q -> len q < num ->
  m <= input_avail buf /\ is_Some (input_dest buf).
Proof.
  intros Hr Hm Hm0 Hsz Hq Hnum. destruct Hr as [Hb Hs Hin _].
  assert (Hec := end_cases buf q Hb Hs). cbn in Hec.
  assert (Ht := stored_total buf q Hb Hs).
  assert (Hle := total_le q m (mtu buf) Hq ltac:(done)).
  pose proof (bdivide_up_4 m Hm0). destruct Hb. unfold lim in *.
  assert ((len q + 2) * (1 + mtu buf) <= size buf) by (pose_len; nia).
  assert (Hroom : mtu buf <= size buf - _ChunkBuffer2_end buf - 1
    /\ mtu buf <= free_blocks buf - 1) by lia.
  unfold in_fields in Hin.
  replace (size buf - _ChunkBuffer2_end buf - 1 <? mtu buf) with false in Hin by lia.
  replace (0 <? free_blocks buf) with true in Hin by lia.
  injection Hin as -> ->. split; [lia|eauto].
Qed.

End ChunkBuffer2Proofs.

(** ** PacketBuffer *)

Module PacketBuffer.
Import ChunkBuffer2.

Record pktbuf := mk_pktbuf { buf : chunkbuf; input_mtu : Z }.
#[export] Instance pktbuf_eta : Eta pktbuf := fun r => mk_pktbuf (buf r) (input_mtu r).

(** Calls on the two interfaces; pointers are offsets into the buffer. *)
Inductive out :=
  | Receiver_Recv (data : option Z)
  | Sender_Send (data : option Z) (data_len : Z).

Definition input_handler_done (in_len : Z) : handler pktbuf out unit :=
  o ← get;
  ASSERT (0 <=? in_len);;
  ASSERT (in_len <=? input_mtu o);;
  let was_empty := output_avail (buf o) <? 0 in
  b ← of_option (ChunkBuffer2_SubmitPacket in_len (buf o));
  modify (fun o => o <| buf := b |>);;
  (if input_mtu o <=? input_avail b then call (Receiver_Recv (input_dest b)) else mret tt);;
  if was_empty then call (Sender_Send (output_dest b) (output_avail b)) else mret tt.

Definition output_handler_done : handler pktbuf out unit :=
  o ← get;
  let was_full := input_avail (buf o) <? input_mtu o in
  b ← of_option (ChunkBuffer2_ConsumePacket (buf o));
  modify (fun o => o <| buf := b |>);;
  (if was_full && (input_mtu o <=? input_avail b)
   then call (Receiver_Recv (input_dest b)) else mret tt);;
  if 0 <=? output_avail b then call (Sender_Send (output_dest b) (output_avail b))
  else mret tt.

(** [BAlloc n] is the block allocated, or [None].  The result is [None] when an
    assertion fails and [Some None] for the return value 0. *)
Definition PacketBuffer_Init (mtu_in mtu_out num_packets : Z) (BAlloc : Z -> option bytes)
    : option (option (pktbuf * list out)) :=
  guard_ (mtu_in <=? mtu_out);;
  guard_ (0 <? num_packets);;
  match ChunkBuffer2_calc_blocks mtu_in num_packets with
  | None => Some None
  | Some num_blocks =>
      match BAlloc (num_blocks * sizeof_block) with
      | None => Some None
      | Some mem =>
          b ← ChunkBuffer2_Init mem num_blocks mtu_in;
          Some (Some (mk_pktbuf b mtu_in, [Receiver_Recv (input_dest b)]))
      end
  end.

(** *** Between its interfaces: at most one operation in progress on each *)

Record sys := mk_sys {
  pb : pktbuf;
  recv : option Z;
  send : option (Z * Z);
  inp : list bytes;
  outp : list bytes;
}.
#[export] Instance sys_eta : Eta sys := fun r =>
  mk_sys (pb r) (recv r) (send r) (inp r) (outp r).

(** The interfaces assert that no operation is in progress and that the
    pointer is not [NULL]. *)
Definition apply_out (s : sys) (o : out) : option sys :=
  match o with
  | Receiver_Recv (Some d) =>
      if recv s is None then Some (s <| recv := Some d |>) else None
  | Sender_Send (Some d) n =>
      if send s is None then Some (s <| send := Some (d, n) |>) else None
  | _ => None
  end.
Fixpoint apply_outs (s : sys) (os : list out) : option sys :=
  match os with [] => Some s | o :: os => s ← apply_out s o; apply_outs s os end.

Definition run_handler (h : handler pktbuf out unit) (s : sys) : option sys :=
  match h (pb s) with
  | Some (_, p, o) => apply_outs (s <| pb := p |>) o
  | None => None
  end.

Inductive event := RecvDone (p : bytes) | SendDone.

Definition event_ok (s : sys) (e : event) : bool :=
  match e with
  | RecvDone p => bool_decide (is_Some (recv s)) && (len p <=? input_mtu (pb s))
  | SendDone => bool_decide (is_Some (send s))
  end.

(** The sender writes the packet where it was asked to; the receiver has read
    its packet when it reports completion. *)
Definition step (s : sys) (e : event) : option sys :=
  match e with
  | RecvDone p =>
      d ← recv s;
      m ← store d p (mem (buf (pb s)));
      run_handler (input_handler_done (len p))
        (s <| pb := pb s <| buf := buf (pb s) <| mem := m |> |> |>
           <| recv := None |> <| inp := inp s ++ [p] |>)
  | SendDone =>
      '(d, n) ← send s;
      p ← load d n (mem (buf (pb s)));
      run_handler output_handler_done
        (s <| send := None |> <| outp := outp s ++ [p] |>)
  end.

Fixpoint run (s : sys) (es : list event) : option sys :=
  match es with
  | [] => Some s
  | e :: es => if event_ok s e then s' ← step s e; run s' es else None
  end.

Definition start (p : pktbuf) (o : list out) : option sys :=
  apply_outs (mk_sys p None None [] []) o.

End PacketBuffer.

Module PacketBufferProofs.
Import ChunkBuffer2 ChunkBuffer2Proofs PacketBuffer.

(** Which operations must be in progress: a receive when a packet of the MTU
    fits, a send of the first packet when there is one. *)
Definition want_recv (m : Z) (b : chunkbuf) : option Z :=
  if m <=? input_avail b then input_dest b else None.
Definition want_send (b : chunkbuf) (q : list bytes) : option (Z * Z) :=
  match q with [] => None | p :: _ => Some (4 * (ChunkBuffer2.start b + 1), len p) end.

Record inv (sz : Z) (s : sys) (q : list bytes) : Prop := {
  i_repr : repr (buf (pb s)) q;
  i_size : size (buf (pb s)) = sz;
  i_mtu : mtu (buf (pb s)) = bdivide_up (input_mtu (pb s)) 4 /\ 0 <= input_mtu (pb s);
  i_fit : Forall (fun p => len p <= input_mtu (pb s)) q;
  i_fifo : inp s = outp s ++ q;
  i_recv : recv s = want_recv (input_mtu (pb s)) (buf (pb s));
  i_send : send s = want_send (buf (pb s)) q;
}.

Lemma avail_dest b q m :
  repr b q -> 0 <= m <= input_avail b -> exists d, input_dest b = Some d.
Proof.
  intros [_ _ Hin _] Hm. unfold in_fields in Hin.
  destruct (_ <? mtu b); [injection Hin as _ Ha; lia|].
  destruct (0 <? free_blocks b); injection Hin as Hd Ha; [eauto|lia].
Qed.

Lemma output_avail_q b q :
  repr b q ->
  (output_avail b <? 0) = bool_decide (q = []) /\
  want_send b q = (if 0 <=? output_avail b then
                     (fun d => (d, output_avail b)) <$> output_dest b else None).
Proof.
  intros [_ _ _ Hout]. destruct q as [|p q]; injection Hout as -> ->; [done|].
  rewrite bool_decide_eq_false_2 by done. cbn.
  replace (0 <=? len p) with true by zlia. split; [zlia|done].
Qed.

(** The first packet can be read where the fields for output say. *)
Lemma head_load b p q : repr b (p :: q) -> load (4 * (ChunkBuffer2.start b + 1)) (len p) (mem b) = Some p.
Proof.
  intros [Hb Hs _ _]. pose proof (blk_pos (len p) (len_nonneg p)). pose proof (total_nonneg q).
  destruct (stored_head _ _ Hb Hs) as (p0 & q0 & [= <- <-] & _ & Hb1 & Hb2 & Hsl).
  { rewrite (stored_total _ _ Hb Hs). cbn. lia. }
  destruct Hb. rewrite load_Some, Hsl by zlia. done.
Qed.

(** The effect of the two handlers on the object, on the calls they make. *)
Lemma input_handler_done_spec (o : pktbuf) q d p :
  repr (buf o) q -> input_dest (buf o) = Some d -> 0 <= input_mtu o ->
  len p <= input_mtu o <= input_avail (buf o) ->
  zslice d (len p) (mem (buf o)) = p ->
  wp (input_handler_done (len p)) o (fun _ o' calls =>
    repr (buf o') (q ++ [p]) /\ size (buf o') = size (buf o) /\
    mtu (buf o') = mtu (buf o) /\ input_mtu o' = input_mtu o /\
    ChunkBuffer2.start (buf o') = ChunkBuffer2.start (buf o) /\
    calls = (if input_mtu o <=? input_avail (buf o')
             then [Receiver_Recv (input_dest (buf o'))] else [])
         ++ (if bool_decide (q = [])
             then [Sender_Send (output_dest (buf o')) (output_avail (buf o'))] else [])).
Proof.
  intros Hr Hd Hm Hp Hdata.
  destruct (SubmitPacket_repr (buf o) q d p Hr Hd ltac:(lia) Hdata)
    as (b' & Hsub & Hr' & Hsz & Hmtu & Hst).
  destruct (output_avail_q _ _ Hr) as [Hwas _].
  unfold input_handler_done. rewrite <- Hwas. hsteps; [zlia..|].
  eapply wp_of_option; [exact Hsub|]. hsteps; split_and!; try done;
    rewrite_bools; done.
Qed.

Lemma output_handler_done_spec (o : pktbuf) p q :
  repr (buf o) (p :: q) ->
  wp output_handler_done o (fun _ o' calls =>
    repr (buf o') q /\ mem (buf o') = mem (buf o) /\ size (buf o') = size (buf o) /\
    mtu (buf o') = mtu (buf o) /\ input_mtu o' = input_mtu o /\
    (forall d, input_dest (buf o) = Some d ->
       input_dest (buf o') = Some d /\ input_avail (buf o) <= input_avail (buf o')) /\
    calls = (if (input_avail (buf o) <? input_mtu o) && (input_mtu o <=? input_avail (buf o'))
             then [Receiver_Recv (input_dest (buf o'))] else [])
         ++ (if bool_decide (q = []) then []
             else [Sender_Send (output_dest (buf o')) (output_avail (buf o'))])).
Proof.
  intros Hr. destruct (ConsumePacket_repr (buf o) p q Hr)
    as (b' & Hcon & Hr' & Hmem & Hsz & Hmtu & Hin).
  destruct (output_avail_q _ _ Hr') as [Hwas _].
  unfold output_handler_done. hsteps.
  eapply wp_of_option; [exact Hcon|]. rewrite <- Hwas.
  hsteps; split_and!; try done; try (by apply Hin).
  all: replace (output_avail b' <? 0) with (negb (0 <=? output_avail b')) by lia.
  all: by rewrite_bools.
Qed.

(** Starting the operations a handler asks for. *)
Lemma apply_recv_send s (r : bool) (dr : option Z) (w : bool) (ds : option Z) (n : Z) :
  (r = true -> recv s = None /\ is_Some dr) ->
  (w = true -> send s = None /\ is_Some ds) ->
  exists s', apply_outs s ((if r then [Receiver_Recv dr] else [])
                           ++ (if w then [Sender_Send ds n] else [])) = Some s' /\
    pb s' = pb s /\ inp s' = inp s /\ outp s' = outp s /\
    recv s' = (if r then dr else recv s) /\
    send s' = (if w then (fun d => (d, n)) <$> ds else send s).
Proof.
  intros Hr Hw. destruct r; [destruct Hr as [Er [d ->]]; [done|]|];
    (destruct w; [destruct Hw as [Ew [d' ->]]; [done|]|]);
    cbn; rewrite ?Er; cbn; rewrite ?Ew; eexists; by split_and!.
Qed.

Lemma recv_step sz s q p :
  inv sz s q -> event_ok s (RecvDone p) = true ->
  exists s', step s (RecvDone p) = Some s' /\ inv sz s' (q ++ [p]) /\
    input_mtu (pb s') = input_mtu (pb s) /\ outp s' = outp s /\ inp s' = inp s ++ [p].
Proof.
  intros [Hr Hsz [Hm Hm0] Hfit Hfifo Hrecv Hsend] Hok. cbn in Hok.
  apply andb_true_iff in Hok as [Hrv Hp]. apply bool_decide_eq_true_1 in Hrv as [d Hd].
  apply Z.leb_le in Hp.
  assert (Hdest : input_dest (buf (pb s)) = Some d /\
    input_mtu (pb s) <= input_avail (buf (pb s))).
  { rewrite Hrecv in Hd. unfold want_recv in Hd. destruct (_ <=? _) eqn:E; [|done]. split; [done|lia]. }
  destruct Hdest as [Hdest Hav].
  destruct (input_room_bytes _ _ _ Hr Hdest) as [Hd0 Hd1].
  destruct (store_Some d p (mem (buf (pb s)))) as [m Hst]; [lia..|].
  set (o1 := pb s <| buf := buf (pb s) <| mem := m |> |>).
  assert (Hr1 : repr (buf o1) q)
    by exact (repr_write _ q d p m Hr Hdest ltac:(lia) Hst).
  destruct (proj1 (wp_spec _ _ _) (input_handler_done_spec o1 q d p Hr1 Hdest Hm0
    (conj Hp Hav) (zslice_store_same _ _ _ _ Hst _ eq_refl)))
    as ([] & o2 & calls & Hh & Hr2 & Hsz2 & Hmtu2 & Him2 & Hstart2 & ->).
  cbn [step]. rewrite Hd. cbn [mbind option_bind]. rewrite Hst. cbn [mbind option_bind].
  unfold run_handler. change (pb (_ <| inp := _ |>)) with o1. rewrite Hh.
  change (input_mtu o1) with (input_mtu (pb s)) in *.
  change (ChunkBuffer2.start (buf o1)) with (ChunkBuffer2.start (buf (pb s))) in Hstart2.
  assert (Ho2 := r_out _ _ Hr2).
  match goal with |- context [apply_outs ?s1 ((if ?r then [Receiver_Recv ?dr] else _)
    ++ (if ?w then [Sender_Send ?ds ?n] else _))] =>
    destruct (apply_recv_send s1 r dr w ds n) as (s' & -> & Epb & Ei & Eo & Er & Es) end.
  { intros Hle%Z.leb_le. split; [done|].
    exact (avail_dest _ _ _ Hr2 (conj Hm0 Hle)). }
  { intros ->%bool_decide_eq_true_1. split; [exact Hsend|]. injection Ho2 as -> _. eauto. }
  exists s'. split; [done|]. cbn in Epb, Ei, Eo, Er, Es.
  split; [|split_and!; [by rewrite Epb|done..]].
  constructor; rewrite ?Epb, ?Him2; try done.
  - by rewrite Hsz2.
  - by rewrite Hmtu2.
  - apply Forall_app. by split; [|apply Forall_singleton].
  - by rewrite Ei, Eo, Hfifo, app_assoc.
  - rewrite Es. destruct q as [|p0 q].
    + injection Ho2 as -> ->. done.
    + rewrite bool_decide_eq_false_2 by done. cbn. by rewrite Hsend, Hstart2.
Qed.

Lemma send_step sz s q :
  inv sz s q -> event_ok s SendDone = true ->
  exists s' p q', q = p :: q' /\ step s SendDone = Some s' /\ inv sz s' q' /\
    input_mtu (pb s') = input_mtu (pb s) /\ outp s' = outp s ++ [p] /\ inp s' = inp s.
Proof.
  intros [Hr Hsz [Hm Hm0] Hfit Hfifo Hrecv Hsend] Hok. cbn in Hok.
  apply bool_decide_eq_true_1 in Hok as [[d n] Hd].
  destruct q as [|p q]; [by rewrite Hsend in Hd|]. rewrite Hsend in Hd. injection Hd as <- <-.
  destruct (proj1 (wp_spec _ _ _) (output_handler_done_spec (pb s) p q Hr))
    as ([] & o2 & calls & Hh & Hr2 & Hmem2 & Hsz2 & Hmtu2 & Him2 & Hdest2 & ->).
  assert (Hld := head_load _ _ _ Hr).
  cbn [step]. rewrite Hsend. cbn [want_send mbind option_bind]. rewrite Hld.
  cbn [mbind option_bind]. unfold run_handler. change (pb (_ <| outp := _ |>)) with (pb s).
  rewrite Hh. assert (Ho2 := r_out _ _ Hr2).
  replace (if bool_decide (q = []) then [] else _)
    with (if bool_decide (q <> []) then
      [Sender_Send (output_dest (buf o2)) (output_avail (buf o2))] else []).
  2: { destruct q; [|by rewrite bool_decide_eq_true_2, bool_decide_eq_false_2 by done].
       by rewrite bool_decide_eq_false_2, bool_decide_eq_true_2 by naive_solver. }
  inversion_clear Hfit as [|?? Hfp Hfq].
  match goal with |- context [apply_outs ?s1 ((if ?r then [Receiver_Recv ?dr] else _)
    ++ (if ?w then [Sender_Send ?ds ?n] else _))] =>
    destruct (apply_recv_send s1 r dr w ds n) as (s' & -> & Epb & Ei & Eo & Er & Es) end.
  { intros [Hlt Hle]%andb_true_iff. split.
    - cbn. rewrite Hrecv. unfold want_recv. by replace (_ <=? _) with false by lia.
    - exact (avail_dest _ _ _ Hr2 (conj Hm0 (proj1 (Z.leb_le _ _) Hle))). }
  { intros Hq%bool_decide_eq_true_1. split; [done|]. destruct q; [done|].
    injection Ho2 as -> _. eauto. }
  exists s', p, q. split; [done|]. split; [done|]. cbn in Epb, Ei, Eo, Er, Es.
  split; [|split_and!; [by rewrite Epb|done..]].
  constructor; rewrite ?Epb, ?Him2; try done.
  - by rewrite Hsz2.
  - by rewrite Hmtu2.
  - by rewrite Ei, Eo, Hfifo, <- app_assoc.
  - rewrite Er, Hrecv. unfold want_recv.
    destruct (input_mtu (pb s) <=? input_avail (buf (pb s))) eqn:E.
    + destruct (avail_dest _ _ (input_mtu (pb s)) Hr) as [d Hd]; [lia|].
      destruct (Hdest2 d Hd) as [Hd2 Hle]. rewrite Hd, Hd2.
      replace (_ <? _) with false by lia. by replace (_ <=? _) with true by lia.
    + replace (_ <? _) with true by lia. done.
  - rewrite Es. destruct q as [|p1 q]; [done|].
    rewrite bool_decide_eq_true_2 by done. by injection Ho2 as -> ->.
Qed.

Lemma pb_step_inv sz s q e :
  inv sz s q -> event_ok s e = true ->
  exists s' q', step s e = Some s' /\ inv sz s' q' /\
    input_mtu (pb s') = input_mtu (pb s).
Proof.
  intros Hi He. destruct e as [p|].
  - destruct (recv_step sz s q p Hi He) as (s' & ? & ? & ? & _). eauto 6.
  - destruct (send_step sz s q Hi He) as (s' & p & q' & _ & ? & ? & ? & _). eauto 6.
Qed.

(** The packets the events hand over. *)
Definition received (es : list event) : list bytes :=
  omap (fun e => match e with RecvDone p => Some p | SendDone => None end) es.

Lemma pb_run_inv sz s q es s' :
  inv sz s q -> run s es = Some s' ->
  exists q', inv sz s' q' /\ input_mtu (pb s') = input_mtu (pb s)
    /\ inp s' = inp s ++ received es.
Proof.
  revert s q. induction es as [|e es IH]; intros s q Hi Hrun; cbn [run] in Hrun.
  { injection Hrun as <-. exists q. by rewrite app_nil_r. }
  destruct (event_ok s e) eqn:He; [|done]. destruct e as [p|].
  - destruct (recv_step sz s q p Hi He) as (s1 & Hs & Hi1 & Hm & _ & Hin).
    rewrite Hs in Hrun. destruct (IH _ _ Hi1 Hrun) as (q' & ? & ? & ->).
    exists q'. rewrite Hin, <- app_assoc. split_and!; [done|congruence|done].
  - destruct (send_step sz s q Hi He) as (s1 & p & q1 & _ & Hs & Hi1 & Hm & _ & Hin).
    rewrite Hs in Hrun. destruct (IH _ _ Hi1 Hrun) as (q' & ? & ? & ->).
    exists q'. rewrite Hin. split_and!; [done|congruence|done].
Qed.

Lemma drain_inv sz s q :
  inv sz s q -> exists s', run s (repeat SendDone (length q)) = Some s' /\
    inv sz s' [] /\ inp s' = inp s.
Proof.
  revert s. induction q as [|p q IH]; intros s Hi; [by exists s|].
  assert (He : event_ok s SendDone = true).
  { cbn. rewrite (i_send _ _ _ Hi). by apply bool_decide_eq_true_2. }
  destruct (send_step sz s _ Hi He) as (s1 & p0 & q1 & [= <- <-] & Hs & Hi1 & _ & _ & Hin).
  destruct (IH s1 Hi1) as (s' & Hr & Hi' & Hin'). exists s'. cbn [length repeat run].
  rewrite He, Hs. cbn [mbind option_bind]. split_and!; [done..|congruence].
Qed.

Lemma pending_packet sz s p q :
  inv sz s (p :: q) ->
  exists d, send s = Some (d, len p) /\ load d (len p) (mem (buf (pb s))) = Some p.
Proof. intros [Hr _ _ _ _ _ Hs]. rewrite Hs. eexists. split; [done|]. by eapply head_load. Qed.

Lemma calc_blocks_ok m num nb :
  0 <= m -> 0 < num -> ChunkBuffer2_calc_blocks m num = Some nb ->
  nb = (1 + bdivide_up m 4) * (num + 1) /\ 0 < nb <= INT_MAX.
Proof.
  intros Hm Hn. unfold ChunkBuffer2_calc_blocks, sizeof_block. pose proof (bdivide_up_4 m Hm).
  repeat case_match; try done. intros [= <-]. split; [done|].
  pose proof (Z.mul_div_le INT_MAX (num + 1)). nia.
Qed.

Lemma PacketBuffer_Init_ok m mo num BAlloc :
  0 <= m -> m <= mo -> 0 < num -> (forall n b, BAlloc n = Some b -> len b = n) ->
  4 * ((1 + bdivide_up m 4) * (num + 1)) <= INT_MAX ->
  PacketBuffer_Init m mo num BAlloc = Some None \/
  exists c d, PacketBuffer_Init m mo num BAlloc = Some (Some (mk_pktbuf c m, [Receiver_Recv (Some d)])) /\
    repr c [] /\ size c = (1 + bdivide_up m 4) * (num + 1) /\ mtu c = bdivide_up m 4 /\
    input_dest c = Some d /\ m <= input_avail c.
Proof.
  intros Hm Hmo Hn HB Hmax. unfold PacketBuffer_Init, guard_.
  replace (m <=? mo) with true by lia. replace (0 <? num) with true by lia. cbn [mbind option_bind].
  destruct (ChunkBuffer2_calc_blocks m num) as [nb|] eqn:Hc; [|by left].
  apply (calc_blocks_ok m num nb Hm Hn) in Hc as [-> Hnb].
  destruct (BAlloc _) as [b|] eqn:Hb; [|by left]. apply HB in Hb.
  pose proof (bdivide_up_4 m Hm).
  destruct (Init_repr b ((1 + bdivide_up m 4) * (num + 1)) m)
    as (c & Hi & Hr & Hsz & Hmtu); [lia|lia|unfold sizeof_block in *; lia|lia|nia|].
  destruct (capacity c [] m (num) Hr Hmtu Hm) as [Hav [d Hd]];
    [rewrite Hmtu, Hsz; lia|by constructor|rewrite len_nil; lia|].
  right. exists c, d. rewrite Hi. cbn [mbind option_bind]. by rewrite Hd.
Qed.

Lemma start_inv m mo num BAlloc p calls :
  0 <= m -> (forall n b, BAlloc n = Some b -> len b = n) ->
  4 * ((1 + bdivide_up m 4) * (num + 1)) <= INT_MAX ->
  PacketBuffer_Init m mo num BAlloc = Some (Some (p, calls)) ->
  exists s, start p calls = Some s /\
    inv ((1 + bdivide_up m 4) * (num + 1)) s [] /\ input_mtu (pb s) = m /\ inp s = [].
Proof.
  intros Hm HB Hmax Hi. assert (m <= mo /\ 0 < num) as [Hmo Hn].
  { revert Hi. unfold PacketBuffer_Init, guard_. destruct (m <=? mo) eqn:E, (0 <? num) eqn:F; try done. lia. }
  destruct (PacketBuffer_Init_ok m mo num BAlloc Hm Hmo Hn HB Hmax) as [E|(c & d & E & Hr & Hsz & Hmtu & Hd & Hav)];
    rewrite E in Hi; [done|]. injection Hi as <- <-. eexists. split; [done|].
  split; [|done]. constructor; cbn; try done.
  unfold want_recv. by replace (m <=? input_avail c) with true by lia.
Qed.
End PacketBufferProofs.

(** ** Properties *)

Section packetbuffer_properties.
Import ChunkBuffer2 ChunkBuffer2Proofs PacketBuffer PacketBufferProofs.
Context (mtu_in mtu_out num_packets : Z) (BAlloc : Z -> option bytes)
        (p : pktbuf) (calls : list out).
Hypotheses (Hmtu : 0 <= mtu_in)
  (HB : forall n b, BAlloc n = Some b -> len b = n)
  (Hmax : 4 * ((1 + bdivide_up mtu_in 4) * (num_packets + 1)) <= INT_MAX)
  (Hinit : PacketBuffer_Init mtu_in mtu_out num_packets BAlloc = Some (Some (p, calls))).

Lemma reachable es s :
  (start p calls ≫= fun s0 => run s0 es) = Some s ->
  exists q, inv ((1 + bdivide_up mtu_in 4) * (num_packets + 1)) s q /\
    input_mtu (pb s) = mtu_in /\ inp s = received es.
Proof using All.
  destruct (start_inv _ _ _ _ _ _ Hmtu HB Hmax Hinit) as (s0 & -> & Hi & Hm & Hin).
  intros Hrun. destruct (pb_run_inv _ _ _ _ _ Hi Hrun) as (q & ? & ? & ->).
  exists q. rewrite Hin. split_and!; [done|congruence|done].
Qed.

(** C4: a PacketBuffer is a FIFO.  Whatever the order in which packets arrive
    and are sent, the packets sent are a prefix of those received, byte for
    byte; a send is in progress exactly when some are left, and the bytes it
    points to are those of the next one. *)
Theorem packetbuffer_fifo es s :
  (start p calls ≫= fun s0 => run s0 es) = Some s ->
  inp s = received es /\
  exists q, inp s = outp s ++ q /\
    match q with
    | [] => send s = None
    | next :: _ => exists d, send s = Some (d, len next) /\
        load d (len next) (mem (buf (pb s))) = Some next
    end.
Proof using All.
  intros (q & Hi & _ & Hin)%reachable. split; [done|]. exists q.
  split; [exact (i_fifo _ _ _ Hi)|].
  destruct q as [|next q]; [exact (i_send _ _ _ Hi)|exact (pending_packet _ _ _ _ Hi)].
Qed.

(** No assertion of PacketBuffer.c, ChunkBuffer2.h or of the interfaces
    fails and no byte outside the buffer is touched: the component handles
    every event its interfaces can deliver, in every state it can reach. *)
Theorem packetbuffer_safe es s e :
  (start p calls ≫= fun s0 => run s0 es) = Some s ->
  event_ok s e = true -> is_Some (step s e).
Proof using All.
  intros (q & Hi & _)%reachable He.
  destruct (pb_step_inv _ _ _ _ Hi He) as (s' & q' & -> & _). eauto.
Qed.

(** the buffer has the capacity it was created with: while fewer than
    [num_packets] packets are waiting, it is receiving. *)
Theorem packetbuffer_capacity es s :
  (start p calls ≫= fun s0 => run s0 es) = Some s ->
  len (inp s) < len (outp s) + num_packets -> is_Some (recv s).
Proof using All.
  intros (q & Hi & Hm & _)%reachable Hnum.
  destruct Hi as [Hr Hsz [Hmt _] Hfit Hfifo Hrecv _]. rewrite Hm in *.
  rewrite Hfifo in Hnum. autorewrite with len in Hnum.
  destruct (capacity _ q mtu_in num_packets Hr Hmt Hmtu) as [Hav Hd];
    [rewrite Hmt, Hsz; lia|done|lia|].
  rewrite Hrecv. unfold want_recv. by replace (mtu_in <=? _) with true by lia.
Qed.

(** No packet is stuck: if the next interface keeps completing sends,
    every packet received is delivered, and nothing else is. *)
Theorem packetbuffer_drains es s :
  (start p calls ≫= fun s0 => run s0 es) = Some s ->
  exists s', run s (repeat SendDone (length (inp s) - length (outp s))) = Some s' /\
    outp s' = inp s /\ inp s' = inp s /\ send s' = None.
Proof using All.
  intros (q & Hi & _)%reachable. assert (Hf := i_fifo _ _ _ Hi).
  destruct (drain_inv _ _ _ Hi) as (s' & Hrun & Hi' & Hin). exists s'.
  replace (length (inp s) - length (outp s))%nat with (length q)
    by (rewrite Hf, length_app; lia).
  assert (Hf' := i_fifo _ _ _ Hi'). rewrite app_nil_r, Hin in Hf'.
  by rewrite Hrun, (i_send _ _ _ Hi').
Qed.
End packetbuffer_properties.

Module PacketBufferWitnesses.
Import ChunkBuffer2 ChunkBuffer2Proofs PacketBuffer PacketBufferProofs.

Definition demo_init : pktbuf * list out :=
  match PacketBuffer_Init 6 8 2 zero_malloc with
  | Some (Some r) => r
  | _ => (mk_pktbuf (mk_chunkbuf [] 0 0 0 0 0 None 0 None 0) 0, [])
  end.
(** Three packets, of which the third wraps around the end of the buffer. *)
Definition demo_events : list event :=
  [RecvDone [Byte.x01; Byte.x02; Byte.x03; Byte.x04; Byte.x05]; RecvDone [Byte.x06];
   SendDone; SendDone; RecvDone [Byte.x07; Byte.x08]; RecvDone []].
Definition demo_run : option sys :=
  start (fst demo_init) (snd demo_init) ≫= fun s0 => run s0 demo_events.
Definition demo_end : sys := default (mk_sys (fst demo_init) None None [] []) demo_run.

Lemma packetbuffer_fifo_witness :
  inp demo_end = received demo_events /\
  exists q, inp demo_end = outp demo_end ++ q /\
    match q with
    | [] => send demo_end = None
    | next :: _ => exists d, send demo_end = Some (d, len next) /\
        load d (len next) (mem (buf (pb demo_end))) = Some next
    end.
Proof.
  apply (packetbuffer_fifo 6 8 2 zero_malloc (fst demo_init) (snd demo_init) ltac:(lia)
    zero_malloc_len ltac:(vm_compute; discriminate) ltac:(vm_compute; reflexivity)
    demo_events). vm_compute; reflexivity.
Defined.

Lemma packetbuffer_safe_witness : is_Some (step demo_end SendDone).
Proof.
  apply (packetbuffer_safe 6 8 2 zero_malloc (fst demo_init) (snd demo_init) ltac:(lia)
    zero_malloc_len ltac:(vm_compute; discriminate) ltac:(vm_compute; reflexivity)
    demo_events); vm_compute; reflexivity.
Defined.

Lemma packetbuffer_capacity_witness :
  is_Some (recv (default demo_end
    (start (fst demo_init) (snd demo_init) ≫= fun s0 => run s0 (take 5 demo_events)))).
Proof.
  apply (packetbuffer_capacity 6 8 2 zero_malloc (fst demo_init) (snd demo_init) ltac:(lia)
    zero_malloc_len ltac:(vm_compute; discriminate) ltac:(vm_compute; reflexivity)
    (take 5 demo_events)); vm_compute; reflexivity.
Defined.

Lemma packetbuffer_drains_witness :
  exists s', run demo_end (repeat SendDone (length (inp demo_end) - length (outp demo_end)))
    = Some s' /\ outp s' = inp demo_end /\ inp s' = inp demo_end /\ send s' = None.
Proof.
  apply (packetbuffer_drains 6 8 2 zero_malloc (fst demo_init) (snd demo_init) ltac:(lia)
    zero_malloc_len ltac:(vm_compute; discriminate) ltac:(vm_compute; reflexivity)
    demo_events). vm_compute; reflexivity.
Defined.
End PacketBufferWitnesses.
