(* ===== verification/InetProto.v ===== *)
(** * IPv4, IPv6 and UDP headers

    [misc/byteorder.h] (little-endian targets), the reads of
    [misc/read_write_int.h] they rest on, [misc/ipv4_proto.h],
    [misc/ipv6_proto.h] and [misc/udp_proto.h].  A header is a record of the
    values its fields have in memory, multi-byte fields in network order as
    the code keeps them.  Every read of a packet is bounds-checked: [None] is
    a read outside it or a failing assertion, [Some None] the return value 0. *)
From S2P Require Import Prelude.

(** ** Byte order *)

Definition badvpn_reverse16 (x : Z) : Z := le_combine (rev (le_split 2 x)).
Definition badvpn_reverse32 (x : Z) : Z := le_combine (rev (le_split 4 x)).
Definition hton16 (x : Z) : Z := badvpn_reverse16 x.
Definition hton32 (x : Z) : Z := badvpn_reverse32 x.
Definition ntoh16 (x : Z) : Z := hton16 x.
Definition ntoh32 (x : Z) : Z := hton32 x.

Definition badvpn_read_be16 (c_ptr : bytes) : option Z :=
  match c_ptr with
  | p0 :: p1 :: _ => Some (Z.lor (Z.shiftl (b2z p0) 8) (Z.shiftl (b2z p1) 0))
  | _ => None
  end.

(** [for (i = 0; i < n; i++) t += badvpn_read_be16(p + 2 * i)] *)
Fixpoint sum_be16 (n : nat) (p : bytes) (t : Z) : option Z :=
  match n with
  | O => Some t
  | S n => x ← badvpn_read_be16 p; sum_be16 n (drop 2 p) (to_u32 (t + x))
  end.

(** [while (t >> 16) t = (t & 0xFFFF) + (t >> 16)]; three tests are enough for
    32 bits ([fold_carries_total]). *)
Fixpoint fold_carries (fuel : nat) (t : Z) : option Z :=
  match fuel with
  | O => None
  | S fuel =>
      if Z.shiftr t 16 =? 0 then Some t
      else fold_carries fuel (to_u32 (Z.land t 0xFFFF + Z.shiftr t 16))
  end.

(** [hton16(~t)] *)
Definition complement16 (t : Z) : Z := hton16 (to_u16 (Z.lnot t)).

(** ** IPv4 *)

Definition IPV4_PROTOCOL_UDP : Z := 17.

Record ipv4_header := mk_ipv4_header {
  version4_ihl4 : Z;
  ds : Z;
  total_length : Z;
  identification : Z;
  flags3_fragmentoffset13 : Z;
  ttl : Z;
  protocol : Z;
  ip_checksum : Z;
  source_address : Z;
  destination_address : Z;
}.
#[export] Instance ipv4_header_eta : Eta ipv4_header := fun r =>
  mk_ipv4_header (version4_ihl4 r) (ds r) (total_length r) (identification r)
    (flags3_fragmentoffset13 r) (ttl r) (protocol r) (ip_checksum r)
    (source_address r) (destination_address r).
Definition sizeof_ipv4_header : Z := 20.

(** The bytes of the packed structure, and the structure at the start of [p]. *)
Definition ipv4_bytes (h : ipv4_header) : bytes :=
  le_split 1 (version4_ihl4 h) ++ le_split 1 (ds h) ++ le_split 2 (total_length h)
  ++ le_split 2 (identification h) ++ le_split 2 (flags3_fragmentoffset13 h)
  ++ le_split 1 (ttl h) ++ le_split 1 (protocol h) ++ le_split 2 (ip_checksum h)
  ++ le_split 4 (source_address h) ++ le_split 4 (destination_address h).
Definition field (off n : Z) (p : bytes) : Z := le_combine (zslice off n p).
Definition ipv4_of_bytes (p : bytes) : ipv4_header :=
  mk_ipv4_header (field 0 1 p) (field 1 1 p) (field 2 2 p) (field 4 2 p) (field 6 2 p)
    (field 8 1 p) (field 9 1 p) (field 10 2 p) (field 12 4 p) (field 16 4 p).

Definition IPV4_GET_VERSION (h : ipv4_header) : Z :=
  Z.shiftr (Z.land (version4_ihl4 h) 0xF0) 4.
Definition IPV4_GET_IHL (h : ipv4_header) : Z :=
  Z.shiftr (Z.land (version4_ihl4 h) 0x0F) 0.
Definition IPV4_MAKE_VERSION_IHL (size : Z) : Z := size / 4 + Z.shiftl 4 4.

Definition ipv4_checksum (header : ipv4_header) (extra : bytes) (extra_len : Z) : option Z :=
  if negb (extra_len mod 2 =? 0) then None else
  t ← sum_be16 (Z.to_nat (sizeof_ipv4_header / 2)) (ipv4_bytes header) 0;
  t ← sum_be16 (Z.to_nat (extra_len / 2)) extra t;
  t ← fold_carries 3 t;
  Some (complement16 t).

(** The payload is an offset into [data] and a length. *)
Definition ipv4_check (data : bytes) (data_len : Z)
    : option (option (ipv4_header * Z * Z)) :=
  if data_len <? 0 then None else
  if data_len <? sizeof_ipv4_header then Some None else
  raw ← load 0 sizeof_ipv4_header data;
  let out_header := ipv4_of_bytes raw in
  if negb (IPV4_GET_VERSION out_header =? 4) then Some None else
  let header_len := to_u16 (IPV4_GET_IHL out_header * 4) in
  if header_len <? sizeof_ipv4_header then Some None else
  if data_len <? header_len then Some None else
  let total_length := ntoh16 (total_length out_header) in
  if total_length <? header_len then Some None else
  if data_len <? total_length then Some None else
  let checksum_in_packet := ip_checksum out_header in
  checksum_computed ← ipv4_checksum (out_header <| ip_checksum := hton16 0 |>)
    (drop (Z.to_nat sizeof_ipv4_header) data) (header_len - sizeof_ipv4_header);
  if negb (checksum_in_packet =? checksum_computed) then Some None else
  Some (Some (out_header, header_len, total_length - header_len)).

(** ** IPv6 *)

Definition IPV6_NEXT_UDP : Z := 17.

Record ipv6_header := mk_ipv6_header {
  version4_tc4 : Z;
  tc4_fl4 : Z;
  fl : Z;
  payload_length : Z;
  next_header : Z;
  hop_limit : Z;
  source_address6 : bytes;
  destination_address6 : bytes;
}.
Definition sizeof_ipv6_header : Z := 40.

Definition ipv6_bytes (h : ipv6_header) : bytes :=
  le_split 1 (version4_tc4 h) ++ le_split 1 (tc4_fl4 h) ++ le_split 2 (fl h)
  ++ le_split 2 (payload_length h) ++ le_split 1 (next_header h)
  ++ le_split 1 (hop_limit h) ++ source_address6 h ++ destination_address6 h.
Definition ipv6_of_bytes (p : bytes) : ipv6_header :=
  mk_ipv6_header (field 0 1 p) (field 1 1 p) (field 2 2 p) (field 4 2 p) (field 6 1 p)
    (field 7 1 p) (zslice 8 16 p) (zslice 24 16 p).

Definition ipv6_check (data : bytes) (data_len : Z)
    : option (option (ipv6_header * Z * Z)) :=
  if data_len <? 0 then None else
  if data_len <? sizeof_ipv6_header then Some None else
  raw ← load 0 sizeof_ipv6_header data;
  let out_header := ipv6_of_bytes raw in
  if negb (Z.shiftr (version4_tc4 out_header) 4 =? 6) then Some None else
  let payload_length := ntoh16 (payload_length out_header) in
  if data_len - sizeof_ipv6_header <? payload_length then Some None else
  Some (Some (out_header, sizeof_ipv6_header, payload_length)).

(** ** UDP *)

Record udp_header := mk_udp_header {
  source_port : Z;
  dest_port : Z;
  udp_length : Z;
  checksum : Z;
}.
#[export] Instance udp_header_eta : Eta udp_header := fun r =>
  mk_udp_header (source_port r) (dest_port r) (udp_length r) (checksum r).
Definition sizeof_udp_header : Z := 8.

Definition udp_bytes (h : udp_header) : bytes :=
  le_split 2 (source_port h) ++ le_split 2 (dest_port h) ++ le_split 2 (udp_length h)
  ++ le_split 2 (checksum h).
Definition udp_of_bytes (p : bytes) : udp_header :=
  mk_udp_header (field 0 2 p) (field 2 2 p) (field 4 2 p) (field 6 2 p).

(** The sum of [len] bytes, added to [t]. *)
Definition udp_checksum_summer (data : bytes) (len : Z) : option Z :=
  if negb (len mod 2 =? 0) then None else sum_be16 (Z.to_nat (len / 2)) data 0.
Definition add_sum (t : Z) (data : bytes) (len : Z) : option Z :=
  x ← udp_checksum_summer data len; Some (to_u32 (t + x)).

(** The part the two checksums share: header, payload, folding. *)
Definition udp_checksum_rest (t : Z) (header : udp_header) (payload : bytes)
    (payload_len : Z) : option Z :=
  t ← add_sum t (udp_bytes header) sizeof_udp_header;
  t ← (if payload_len mod 2 =? 0 then add_sum t payload payload_len
       else
         t ← add_sum t payload (payload_len - 1);
         last ← load (payload_len - 1) 1 payload;
         add_sum t (le_split 2 (hton16 (to_u16 (Z.shiftl (le_combine last) 8)))) 2);
  t ← fold_carries 3 t;
  let t := if t =? 0 then UINT16_MAX else t in
  Some (complement16 t).

Definition udp_checksum (header : udp_header) (payload : bytes) (payload_len : Z)
    (source_addr dest_addr : Z) : option Z :=
  t ← add_sum 0 (le_split 4 source_addr) 4;
  t ← add_sum t (le_split 4 dest_addr) 4;
  t ← add_sum t (le_split 2 (hton16 IPV4_PROTOCOL_UDP)) 2;
  t ← add_sum t (le_split 2 (hton16 (to_u16 (sizeof_udp_header + payload_len)))) 2;
  udp_checksum_rest t header payload payload_len.

Definition udp_ip6_checksum (header : udp_header) (payload : bytes) (payload_len : Z)
    (source_addr dest_addr : bytes) : option Z :=
  t ← add_sum 0 source_addr 16;
  t ← add_sum t dest_addr 16;
  t ← add_sum t (le_split 4 (hton32 (to_u32 (sizeof_udp_header + payload_len)))) 4;
  t ← add_sum t (le_split 4 (hton32 IPV6_NEXT_UDP)) 4;
  udp_checksum_rest t header payload payload_len.

Definition udp_check (data : bytes) (data_len : Z) : option (option (udp_header * Z * Z)) :=
  if data_len <? 0 then None else
  if data_len <? sizeof_udp_header then Some None else
  raw ← load 0 sizeof_udp_header data;
  let out_header := udp_of_bytes raw in
  let data_len := data_len - sizeof_udp_header in
  let udp_length := ntoh16 (udp_length out_header) in
  if udp_length <? sizeof_udp_header then Some None else
  if sizeof_udp_header + data_len <? udp_length then Some None else
  Some (Some (out_header, sizeof_udp_header, udp_length - sizeof_udp_header)).

(** ** Ones' complement sums *)

Module Checksum.

(** Reference: the sum of the 16-bit big-endian words, an odd last byte being
    the high half of a word (RFC 1071). *)
Fixpoint word_sum (l : bytes) : Z :=
  match l with
  | a :: b :: l => 256 * b2z a + b2z b + word_sum l
  | [a] => 256 * b2z a
  | [] => 0
  end.

Lemma b2z_range b : 0 <= b2z b < 256.
Proof. apply byte.unsigned_range. Qed.

Lemma bytes_ind2 (P : bytes -> Prop) :
  P [] -> (forall a, P [a]) -> (forall a b l, P l -> P (a :: b :: l)) -> forall l, P l.
Proof.
  intros H0 H1 H2 l. cut (P l /\ forall a, P (a :: l)); [tauto|].
  induction l as [|b l [IH1 IH2]]; [auto|]. split; [apply IH2|]. intros a. auto.
Qed.

Lemma word_sum_app n l k :
  length l = (2 * n)%nat -> word_sum (l ++ k) = word_sum l + word_sum k.
Proof.
  revert l. induction n as [|n IH]; intros [|a [|b l]] Hl; cbn in *; try lia.
  rewrite IH by lia. lia.
Qed.

Lemma word_sum_bounds l : 0 <= word_sum l /\ 2 * word_sum l <= 65535 * (len l + 1).
Proof.
  induction l as [|a|a b l IH] using bytes_ind2; cbn [word_sum]; autorewrite with len.
  - lia.
  - pose proof (b2z_range a). lia.
  - pose proof (b2z_range a). pose proof (b2z_range b). lia.
Qed.

Lemma lor_256 x y : 0 <= x < 256 -> Z.lor x (y * 256) = x + 256 * y.
Proof.
  intros Hx. rewrite (Z.mul_comm 256), <- Z.add_lor_land. replace (Z.land _ _) with 0; [lia|].
  symmetry. apply Z.bits_inj'. intros i Hi. rewrite Z.land_spec, Z.bits_0.
  change 256 with (2 ^ 8). destruct (Z.ltb_spec i 8).
  - rewrite Z.mul_pow2_bits_low by lia. apply andb_false_r.
  - assert (E : x mod 2 ^ 8 = x) by (apply Z.mod_small; lia).
    rewrite <- E, Z.mod_pow2_bits_high; [done|lia].
Qed.

Lemma le_combine_cons a l : le_combine (a :: l) = b2z a + 256 * le_combine l.
Proof.
  change (le_combine (a :: l)) with (Z.lor (b2z a) (le_combine l ≪ 8)).
  rewrite Z.shiftl_mul_pow2 by lia. apply lor_256, b2z_range.
Qed.

Lemma read_be16_cons a b l : badvpn_read_be16 (a :: b :: l) = Some (256 * b2z a + b2z b).
Proof.
  unfold badvpn_read_be16. f_equal.
  rewrite Z.shiftl_0_r, Z.lor_comm, Z.shiftl_mul_pow2 by lia.
  change (2 ^ 8) with 256. rewrite (lor_256 (b2z b) (b2z a)) by apply b2z_range. lia.
Qed.

Lemma sum_be16_spec n p t :
  (2 * n <= length p)%nat -> 0 <= t -> t + word_sum (take (2 * n) p) < 2 ^ 32 ->
  sum_be16 n p t = Some (t + word_sum (take (2 * n) p)).
Proof.
  revert p t. induction n as [|n IH]; intros p t Hn Ht Hmax.
  { change (word_sum (take (2 * 0) p)) with 0. by rewrite Z.add_0_r. }
  replace (2 * S n)%nat with (S (S (2 * n))) in * by lia.
  destruct p as [|a [|b p]]; cbn [length] in Hn; try lia.
  cbn [take word_sum] in *. cbn [sum_be16]. rewrite read_be16_cons. cbn [mbind option_bind].
  change (drop 2 (a :: b :: p)) with p.
  pose proof (b2z_range a). pose proof (b2z_range b).
  pose proof (word_sum_bounds (take (2 * n) p)).
  rewrite to_u32_small by lia. rewrite IH by lia. f_equal. lia.
Qed.

Lemma add_sum_spec t data n :
  0 <= n <= len data -> n mod 2 = 0 -> 0 <= t -> t + word_sum (zslice 0 n data) < 2 ^ 32 ->
  add_sum t data n = Some (t + word_sum (zslice 0 n data)).
Proof.
  intros Hn Hev Ht Hmax. unfold add_sum, udp_checksum_summer. rewrite Hev. cbn [negb Z.eqb].
  pose proof (Z.div_mod n 2 ltac:(lia)) as Hdm. pose proof (word_sum_bounds (zslice 0 n data)).
  assert (Htake : take (2 * Z.to_nat (n / 2)) data = zslice 0 n data).
  { unfold zslice. rewrite drop_0. f_equal. lia. }
  rewrite sum_be16_spec; rewrite ?Htake, ?length_len; try lia.
  cbn. rewrite to_u32_small; [done|lia].
Qed.

Lemma shiftr_mod_split t : 0 <= t ->
  Z.land t 0xFFFF = t mod 65536 /\ Z.shiftr t 16 = t / 65536.
Proof.
  intros. split; [change 0xFFFF with (Z.ones 16); by apply Z.land_ones|].
  by apply Z.shiftr_div_pow2.
Qed.

Lemma fold_carries_total t :
  0 <= t < 2 ^ 32 ->
  exists r, fold_carries 3 t = Some r /\ 0 <= r < 65536 /\
    r mod 65535 = t mod 65535 /\ (r = 0 <-> t = 0).
Proof.
  assert (Hstep : forall x, 0 <= x < 2 ^ 32 ->
    Z.shiftr x 16 = x / 65536 /\
    to_u32 (Z.land x 0xFFFF + Z.shiftr x 16) = x mod 65536 + x / 65536 /\
    (x mod 65536 + x / 65536) mod 65535 = x mod 65535 /\
    0 <= x mod 65536 < 65536 /\ 0 <= x / 65536 /\ x = 65536 * (x / 65536) + x mod 65536).
  { intros x Hx. destruct (shiftr_mod_split x) as [-> ->]; [lia|].
    pose proof (Z.div_mod x 65536 ltac:(lia)). pose proof (Z.mod_pos_bound x 65536 ltac:(lia)).
    pose proof (Z.div_pos x 65536). split; [done|].
    split; [apply to_u32_small; lia|]. split; [|lia].
    replace (x mod 65536 + x / 65536) with (x + (- (x / 65536)) * 65535) by lia.
    by rewrite Z.mod_add. }
  intros Ht. cbn [fold_carries]. destruct (Hstep t Ht) as (-> & -> & E1 & ? & ? & D1).
  set (u := t mod 65536 + t / 65536) in *.
  destruct (t / 65536 =? 0) eqn:C1; [exists t; split_and!; [done|lia..]|].
  destruct (Hstep u) as (-> & -> & E2 & ? & ? & D2); [lia|].
  set (v := u mod 65536 + u / 65536) in *.
  destruct (u / 65536 =? 0) eqn:C2; [exists u; split_and!; [done|lia..]|].
  destruct (Hstep v) as (-> & _ & E3 & ? & ? & D3); [lia|].
  replace (v / 65536 =? 0) with true by lia. exists v. split_and!; [done|lia..].
Qed.

(** The 16 bits [complement16] leaves, as the value of the field. *)
Lemma complement16_value t : 0 <= t < 65536 -> complement16 t = hton16 (65535 - t).
Proof.
  intros. unfold complement16, to_u16. f_equal.
  replace (Z.lnot t) with (65535 - t + (-1) * 2 ^ 16) by (unfold Z.lnot; lia).
  rewrite Z.mod_add by lia. apply Z.mod_small. lia.
Qed.

Lemma hton16_range x : 0 <= hton16 x < 65536.
Proof.
  unfold hton16, badvpn_reverse16.
  pose proof (le_combine_bound (rev (le_split 2 x))) as H.
  rewrite length_rev, length_le_split in H. exact H.
Qed.

Lemma le_split_hton16 x : le_split 2 (hton16 x) = rev (le_split 2 x).
Proof.
  unfold hton16, badvpn_reverse16. apply split_le_combine'.
  by rewrite length_rev, length_le_split.
Qed.

Lemma ntoh16_hton16 x : 0 <= x < 65536 -> ntoh16 (hton16 x) = x.
Proof.
  intros. unfold ntoh16. unfold hton16 at 1, badvpn_reverse16.
  rewrite le_split_hton16, rev_involutive, le_combine_split. by apply Z.mod_small.
Qed.

Lemma hton32_ntoh32 x : 0 <= x < 2 ^ 32 -> hton32 (ntoh32 x) = x.
Proof.
  intros. unfold ntoh32. unfold hton32 at 1, badvpn_reverse32.
  assert (E : le_split 4 (hton32 x) = rev (le_split 4 x)).
  { unfold hton32, badvpn_reverse32. apply split_le_combine'. by rewrite length_rev, length_le_split. }
  rewrite E, rev_involutive, le_combine_split. by apply Z.mod_small.
Qed.

Lemma word_sum_field x : word_sum (le_split 2 x) = ntoh16 x.
Proof.
  change (le_split 2 x) with [byte.of_Z x; byte.of_Z (Z.shiftr x 8)].
  unfold ntoh16, hton16, badvpn_reverse16.
  change (rev (le_split 2 x)) with [byte.of_Z (Z.shiftr x 8); byte.of_Z x].
  rewrite !le_combine_cons. change (le_combine []) with 0. cbn [word_sum]. lia.
Qed.

Lemma word_sum_hton16 x : 0 <= x < 65536 -> word_sum (le_split 2 (hton16 x)) = x.
Proof. intros. by rewrite word_sum_field, ntoh16_hton16. Qed.

Lemma word_sum_hton32 x : 0 <= x < 65536 -> word_sum (le_split 4 (hton32 x)) = x.
Proof.
  intros Hx. unfold hton32, badvpn_reverse32. rewrite split_le_combine'
    by by rewrite length_rev, length_le_split.
  pose proof (le_combine_split 4 x) as E.
  change (le_split 4 x) with [byte.of_Z x; byte.of_Z (Z.shiftr x 8);
    byte.of_Z (Z.shiftr (Z.shiftr x 8) 8); byte.of_Z (Z.shiftr (Z.shiftr (Z.shiftr x 8) 8) 8)]
    in *.
  cbn [rev app word_sum]. rewrite !le_combine_cons in E.
  change (le_combine []) with 0 in E. rewrite Z.mod_small in E by (cbn; lia).
  repeat match goal with |- context [b2z ?b] =>
    lazymatch goal with H : 0 <= b2z b < 256 |- _ => fail | _ => pose proof (b2z_range b) end end.
  lia.
Qed.
End Checksum.

(** ** What the checks and checksums compute *)

Module InetProofs.
Import Checksum.

(** The value folding leaves: the representative of [s] modulo 65535 that is
    zero only for the sum zero. *)
Definition oc_fold (s : Z) : Z := if s =? 0 then 0 else (s - 1) mod 65535 + 1.
(** The 16-bit field at [off]. *)
Definition be16_at (off : Z) (p : bytes) : Z := word_sum (zslice off 2 p).

Lemma oc_fold_spec s :
  0 <= s -> 0 <= oc_fold s < 65536 /\ oc_fold s mod 65535 = s mod 65535 /\
  (oc_fold s = 0 <-> s = 0).
Proof.
  intros. unfold oc_fold. destruct (s =? 0) eqn:E; [replace s with 0 by lia; done|].
  pose proof (Z.mod_pos_bound (s - 1) 65535 ltac:(lia)). split_and!; [lia..| |lia].
  rewrite Z.add_mod_idemp_l by lia. f_equal. lia.
Qed.

Lemma fold_carries_spec t : 0 <= t < 2 ^ 32 -> fold_carries 3 t = Some (oc_fold t).
Proof.
  intros Ht. destruct (fold_carries_total t Ht) as (r & -> & Hr & Hm & Hz). f_equal.
  destruct (oc_fold_spec t ltac:(lia)) as (Ho & Hom & Hoz).
  pose proof (Z.div_mod r 65535 ltac:(lia)). pose proof (Z.div_mod (oc_fold t) 65535 ltac:(lia)).
  lia.
Qed.

(** [65535 - oc_fold s] is the only 16-bit value other than 65535 that makes a
    positive sum a multiple of 65535. *)
Lemma cksum_unique s c :
  0 < s -> 0 <= c < 65536 ->
  (c = 65535 - oc_fold s <-> (s + c) mod 65535 = 0 /\ c <> 65535).
Proof.
  intros Hs Hc. destruct (oc_fold_spec s ltac:(lia)) as (Ho & Hom & Hoz).
  rewrite <- (Z.add_mod_idemp_l s), <- Hom, Z.add_mod_idemp_l by lia. split.
  - intros ->. split; [|lia]. by replace (_ + _) with 65535 by lia.
  - intros [Hm Hne]. pose proof (Z.div_mod (oc_fold s + c) 65535 ltac:(lia)). lia.
Qed.

(** *** Fields *)

Lemma le_split_field n off p :
  0 <= off -> off + Z.of_nat n <= len p ->
  le_split n (field off (Z.of_nat n) p) = zslice off (Z.of_nat n) p.
Proof.
  intros. unfold field. apply split_le_combine'.
  rewrite length_len, len_zslice by lia. lia.
Qed.

Lemma field_range off n p : 0 <= n -> 0 <= field off n p < 2 ^ (8 * n).
Proof.
  intros. pose proof (le_combine_bound (zslice off n p)) as H'. unfold field.
  split; [lia|]. eapply Z.lt_le_trans; [apply H'|].
  apply Z.pow_le_mono_r; [lia|]. unfold zslice. rewrite length_take. lia.
Qed.

Lemma ntoh16_field off p :
  0 <= off -> off + 2 <= len p -> ntoh16 (field off 2 p) = be16_at off p.
Proof.
  intros. rewrite <- word_sum_field. unfold be16_at. f_equal.
  by apply (le_split_field 2).
Qed.

Lemma field_load off n m (p : bytes) :
  0 <= off -> 0 <= n -> off + n <= m -> field off n (zslice 0 m p) = field off n p.
Proof. intros. unfold field. by rewrite zslice_zslice by lia. Qed.

Lemma len_ipv4_bytes h : len (ipv4_bytes h) = 20.
Proof. unfold ipv4_bytes. rewrite !len_app, !len_split. lia. Qed.
Lemma len_udp_bytes h : len (udp_bytes h) = 8.
Proof. unfold udp_bytes. rewrite !len_app, !len_split. lia. Qed.

Lemma length_ipv4_bytes h : length (ipv4_bytes h) = 20%nat.
Proof. done. Qed.

Lemma ipv4_bytes_of p : len p = 20 -> ipv4_bytes (ipv4_of_bytes p) = p.
Proof.
  intros Hl. unfold ipv4_bytes, ipv4_of_bytes. cbn.
  rewrite !(le_split_field 1), !(le_split_field 2), !(le_split_field 4) by lia.
  change (Z.of_nat 1) with 1. change (Z.of_nat 2) with 2. change (Z.of_nat 4) with 4.
  rewrite <- (zslice_app 12 4 4) by lia. rewrite <- (zslice_app 10 2) by lia.
  rewrite <- (zslice_app 9 1) by lia. rewrite <- (zslice_app 8 1) by lia.
  rewrite <- (zslice_app 6 2) by lia. rewrite <- (zslice_app 4 2) by lia.
  rewrite <- (zslice_app 2 2) by lia. rewrite <- (zslice_app 1 1) by lia.
  rewrite <- (zslice_app 0 1) by lia. by apply zslice_all.
Qed.

Lemma udp_bytes_of p : len p = 8 -> udp_bytes (udp_of_bytes p) = p.
Proof.
  intros Hl. unfold udp_bytes, udp_of_bytes. cbn.
  rewrite !(le_split_field 2) by lia. change (Z.of_nat 2) with 2.
  rewrite <- (zslice_app 4 2 2) by lia. rewrite <- (zslice_app 2 2) by lia.
  rewrite <- (zslice_app 0 2) by lia. by apply zslice_all.
Qed.

Lemma ipv4_bytes_parts h :
  word_sum (ipv4_bytes h)
  = word_sum (ipv4_bytes (h <| ip_checksum := 0 |>)) + ntoh16 (ip_checksum h).
Proof.
  assert (Hs : forall c, word_sum (ipv4_bytes (h <| ip_checksum := c |>))
    = word_sum (take 10 (ipv4_bytes h)) + (ntoh16 c + word_sum (drop 12 (ipv4_bytes h)))).
  { intros c. rewrite <- word_sum_field.
    rewrite <- (word_sum_app 1) by by rewrite length_le_split.
    rewrite <- (word_sum_app 5) by by rewrite length_take. done. }
  rewrite Hs. change (ntoh16 0) with 0. rewrite <- (Z.add_0_l (word_sum (drop _ _))) at 1.
  pose proof (Hs (ip_checksum h)) as E.
  replace (h <| ip_checksum := ip_checksum h |>) with h in E by by destruct h. lia.
Qed.

Lemma udp_bytes_parts h :
  word_sum (udp_bytes h)
  = word_sum (udp_bytes (h <| checksum := 0 |>)) + ntoh16 (checksum h).
Proof.
  assert (Hs : forall c, word_sum (udp_bytes (h <| checksum := c |>))
    = word_sum (take 6 (udp_bytes h)) + ntoh16 c).
  { intros c. rewrite <- word_sum_field.
    rewrite <- (word_sum_app 3) by by rewrite length_take. done. }
  rewrite Hs. pose proof (Hs (checksum h)) as E.
  replace (h <| checksum := checksum h |>) with h in E by by destruct h.
  change (ntoh16 0) with 0. lia.
Qed.

(** *** Checksums *)

Lemma ipv4_checksum_spec h extra n :
  0 <= n <= len extra -> n mod 2 = 0 -> n < 65536 ->
  ipv4_checksum h extra n
  = Some (hton16 (65535 - oc_fold (word_sum (ipv4_bytes h) + word_sum (zslice 0 n extra)))).
Proof.
  intros Hn Hev Hmax. unfold ipv4_checksum. rewrite Hev. cbn [negb Z.eqb].
  pose proof (word_sum_bounds (ipv4_bytes h)) as B1.
  rewrite len_ipv4_bytes in B1.
  pose proof (word_sum_bounds (zslice 0 n extra)) as B2. rewrite len_zslice in B2 by lia.
  assert (Hh : take (2 * Z.to_nat (sizeof_ipv4_header / 2)) (ipv4_bytes h) = ipv4_bytes h).
  { apply take_ge. by rewrite length_ipv4_bytes. }
  assert (Htake : take (2 * Z.to_nat (n / 2)) extra = zslice 0 n extra).
  { pose proof (Z.div_mod n 2). unfold zslice. rewrite drop_0. f_equal. lia. }
  pose proof (Z.div_mod n 2 ltac:(lia)).
  rewrite sum_be16_spec; rewrite ?Hh; [|by rewrite length_ipv4_bytes|lia..].
  cbn [mbind option_bind].
  rewrite sum_be16_spec; rewrite ?Htake; [|rewrite length_len; lia|lia..].
  cbn [mbind option_bind]. rewrite fold_carries_spec by lia. cbn [mbind option_bind].
  rewrite complement16_value; [done|]. apply oc_fold_spec. lia.
Qed.

(** Source, destination, protocol, length, header and payload. *)
Definition udp_sum (h : udp_header) (payload : bytes) (addrs : bytes) : Z :=
  word_sum addrs + 17 + (8 + len payload) + word_sum (udp_bytes h) + word_sum payload.

Lemma udp_checksum_rest_spec t h payload plen :
  0 <= plen <= len payload -> plen < 65536 - 8 -> 0 <= t <= 2 ^ 21 ->
  udp_checksum_rest t h payload plen
  = Some (hton16 (65535 - (let s := t + word_sum (udp_bytes h)
                                    + word_sum (zslice 0 plen payload) in
                           if s =? 0 then 65535 else oc_fold s))).
Proof.
  intros Hp Hmax Ht. unfold udp_checksum_rest.
  pose proof (word_sum_bounds (udp_bytes h)) as B1. pose proof (len_udp_bytes h) as L1.
  pose proof (word_sum_bounds (zslice 0 plen payload)) as B2.
  rewrite len_zslice in B2 by lia. rewrite L1 in B1.
  unfold sizeof_udp_header.
  rewrite add_sum_spec by (rewrite ?(zslice_all 8 (udp_bytes h)); try done; lia).
  rewrite zslice_all by done. cbn [mbind option_bind].
  assert (Hpay : (if plen mod 2 =? 0 then add_sum (t + word_sum (udp_bytes h)) payload plen
     else t0 ← add_sum (t + word_sum (udp_bytes h)) payload (plen - 1);
          last ← load (plen - 1) 1 payload;
          add_sum t0 (le_split 2 (hton16 (to_u16 (Z.shiftl (le_combine last) 8)))) 2)
    = Some (t + word_sum (udp_bytes h) + word_sum (zslice 0 plen payload))).
  { destruct (plen mod 2 =? 0) eqn:Ev; [apply add_sum_spec; lia|].
    pose proof (Z.mod_pos_bound plen 2 ltac:(lia)). pose proof (Z.div_mod plen 2 ltac:(lia)).
    assert (Hsp : zslice 0 plen payload
      = zslice 0 (plen - 1) payload ++ zslice (plen - 1) 1 payload).
    { rewrite <- (zslice_app 0 (plen - 1) 1) by lia. f_equal. lia. }
    assert (Hl1 := len_zslice (plen - 1) 1 payload ltac:(lia) ltac:(lia) ltac:(lia)).
    rewrite (load_Some (plen - 1) 1) by lia. revert Hsp Hl1.
    generalize (zslice (plen - 1) 1 payload).
    intros [|x [|y k]] Hsp Hl1; [exfalso; zlia| |exfalso; zlia].
    pose proof (word_sum_bounds (zslice 0 (plen - 1) payload)).
    rewrite Hsp, (word_sum_app (Z.to_nat (plen / 2))) in *
      by (rewrite length_len, len_zslice by lia; lia).
    cbn [word_sum] in *. pose proof (b2z_range x).
    rewrite add_sum_spec; [|lia| |lia..].
    2: { replace (plen - 1) with (plen / 2 * 2) by lia. by apply Z.mod_mul. }
    cbn [mbind option_bind].
    rewrite le_combine_cons. change (le_combine []) with 0.
    rewrite Z.shiftl_mul_pow2, to_u16_small by lia.
    assert (Hz : forall v, zslice 0 2 (le_split 2 v) = le_split 2 v)
      by (intros; apply zslice_all; by rewrite len_split).
    rewrite add_sum_spec; rewrite ?Hz, ?len_split, ?word_sum_hton16 by lia;
      [f_equal|..]; try lia; done. }
  rewrite Hpay. cbn [mbind option_bind].
  set (s := t + _ + _) in *. rewrite fold_carries_spec by lia. cbn [mbind option_bind].
  destruct (oc_fold_spec s ltac:(lia)) as (? & ? & Hz).
  rewrite complement16_value.
  - do 3 f_equal. destruct (oc_fold s =? 0) eqn:E1, (s =? 0) eqn:E2; try lia.
    reflexivity.
  - destruct (oc_fold s =? 0); unfold UINT16_MAX; lia.
Qed.

Lemma add_sum_all t data n :
  n = len data -> n mod 2 = 0 -> n <= 40 -> 0 <= t < 2 ^ 30 ->
  add_sum t data n = Some (t + word_sum data).
Proof.
  intros -> Hev Hn Ht. pose proof (word_sum_bounds data). pose proof (len_nonneg data).
  rewrite add_sum_spec; rewrite ?zslice_all by done; done || lia.
Qed.

Lemma udp_checksum_value h payload plen src dst :
  0 <= plen <= len payload -> plen < 65536 - 8 ->
  udp_checksum h payload plen src dst
  = Some (hton16 (65535 - oc_fold (udp_sum h (zslice 0 plen payload)
                                     (le_split 4 src ++ le_split 4 dst)))).
Proof.
  intros Hp Hmax. unfold udp_checksum, udp_sum, IPV4_PROTOCOL_UDP, sizeof_udp_header.
  rewrite (word_sum_app 2), len_zslice by (done || lia).
  pose proof (word_sum_bounds (le_split 4 src)) as B1.
  pose proof (word_sum_bounds (le_split 4 dst)) as B2.
  pose proof (word_sum_bounds (udp_bytes h)) as B3.
  pose proof (word_sum_bounds (zslice 0 plen payload)) as B4.
  rewrite len_split in B1, B2.
  repeat (rewrite add_sum_all by (rewrite ?len_split; try done; lia);
          rewrite ?word_sum_hton16, ?to_u16_small by lia; cbn [mbind option_bind]).
  rewrite udp_checksum_rest_spec by lia. cbn zeta.
  set (s := _ + word_sum (udp_bytes h) + _).
  replace (s =? 0) with false by lia. do 4 f_equal.
Qed.

Lemma udp_ip6_checksum_value h payload plen src dst :
  0 <= plen <= len payload -> plen < 65536 - 8 -> len src = 16 -> len dst = 16 ->
  udp_ip6_checksum h payload plen src dst
  = Some (hton16 (65535 - oc_fold (udp_sum h (zslice 0 plen payload) (src ++ dst)))).
Proof.
  intros Hp Hmax Hs Hd. unfold udp_ip6_checksum, udp_sum, IPV6_NEXT_UDP, sizeof_udp_header.
  rewrite (word_sum_app 8), len_zslice by (rewrite ?length_len, ?Hs; try done; lia).
  pose proof (word_sum_bounds src) as B1. pose proof (word_sum_bounds dst) as B2.
  pose proof (word_sum_bounds (udp_bytes h)) as B3.
  pose proof (word_sum_bounds (zslice 0 plen payload)) as B4.
  assert (E17 : word_sum (le_split 4 (hton32 17)) = 17) by done.
  assert (Elen : word_sum (le_split 4 (hton32 (to_u32 (8 + plen)))) = 8 + plen).
  { rewrite to_u32_small by lia. apply word_sum_hton32. lia. }
  repeat (rewrite add_sum_all by (rewrite ?len_split; try done; lia);
          rewrite ?E17, ?Elen; cbn [mbind option_bind]).
  rewrite udp_checksum_rest_spec by lia. cbn zeta.
  set (s := _ + word_sum (udp_bytes h) + _).
  replace (s =? 0) with false by lia. do 4 f_equal. lia.
Qed.

Lemma hton16_ntoh16 x : 0 <= x < 65536 -> hton16 (ntoh16 x) = x.
Proof.
  intros Hx. unfold ntoh16. unfold hton16 at 1, badvpn_reverse16.
  rewrite le_split_hton16, rev_involutive, le_combine_split. by apply Z.mod_small.
Qed.

Lemma ntoh16_ffff c : 0 <= c < 65536 -> (ntoh16 c = 0xFFFF <-> c = 0xFFFF).
Proof.
  intros. split; [|by intros ->]. intros E.
  by rewrite <- (hton16_ntoh16 c), E by done.
Qed.

(** A checksum field [c] is the one computed from the sum [s] of the rest. *)
Lemma cksum_field s c :
  0 < s -> 0 <= c < 65536 ->
  (c = hton16 (65535 - oc_fold s) <-> (s + ntoh16 c) mod 65535 = 0 /\ ntoh16 c <> 0xFFFF).
Proof.
  intros Hs Hc. assert (Hn : 0 <= ntoh16 c < 65536) by apply hton16_range.
  destruct (oc_fold_spec s ltac:(lia)) as (Ho & _ & Hz).
  rewrite <- cksum_unique by done. split.
  - intros ->. rewrite ntoh16_hton16; lia.
  - intros <-. by rewrite hton16_ntoh16.
Qed.

(** What [ipv4_check] accepts: a packet whose first [off] bytes are an IPv4
    header with a correct checksum, followed by [plen] bytes of payload. *)
Record ipv4_valid (data : bytes) (off plen : Z) : Prop := {
  v4_version : field 0 1 data / 16 = 4;
  v4_header : off = 4 * (field 0 1 data mod 16);
  v4_size : 20 <= off /\ be16_at 2 data = off + plen /\ 0 <= plen /\ off + plen <= len data;
  v4_checksum : word_sum (zslice 0 off data) mod 65535 = 0 /\ be16_at 10 data <> 0xFFFF;
}.

Lemma nibbles v :
  0 <= v < 256 -> Z.shiftr (Z.land v 0xF0) 4 = v / 16 /\ Z.shiftr (Z.land v 0x0F) 0 = v mod 16.
Proof.
  intros Hv. change 0x0F with (Z.ones 4). rewrite Z.shiftr_0_r, Z.land_ones by lia.
  rewrite Z.shiftr_land. change (Z.shiftr 0xF0 4) with (Z.ones 4).
  rewrite Z.land_ones, Z.shiftr_div_pow2 by lia. change (2 ^ 4) with 16. split; [|done].
  apply Z.mod_small. split; [apply Z.div_pos|apply Z.div_lt_upper_bound]; lia.
Qed.

Lemma word_sum_head v k : 0 <= v < 256 -> 256 * v <= word_sum (le_split 1 v ++ k).
Proof.
  intros Hv. change (le_split 1 v) with [byte.of_Z v].
  assert (E : b2z (byte.of_Z v) = v).
  { unfold b2z. rewrite byte.unsigned_of_Z. by apply Z.mod_small. }
  destruct k as [|b k]; cbn [app word_sum]; rewrite E; [lia|].
  pose proof (b2z_range b). pose proof (word_sum_bounds k). lia.
Qed.

(** The fields the check looks at, read from the packet. *)
Lemma ipv4_fields data (h := ipv4_of_bytes (zslice 0 20 data)) :
  20 <= len data ->
  IPV4_GET_VERSION h = field 0 1 data / 16 /\
  to_u16 (IPV4_GET_IHL h * 4) = 4 * (field 0 1 data mod 16) /\
  ntoh16 (total_length h) = be16_at 2 data /\
  0 <= ip_checksum h < 65536 /\ ntoh16 (ip_checksum h) = be16_at 10 data /\
  (4 <= field 0 1 data / 16 -> 0 < word_sum (ipv4_bytes (h <| ip_checksum := 0 |>))).
Proof.
  intros Hl. assert (Hv : version4_ihl4 h = field 0 1 data) by (apply field_load; lia).
  assert (Hr := field_range 0 1 data ltac:(lia)). change (2 ^ (8 * 1)) with 256 in Hr.
  destruct (nibbles _ Hr) as [E1 E2]. pose proof (Z.mod_pos_bound (field 0 1 data) 16 ltac:(lia)).
  unfold IPV4_GET_VERSION, IPV4_GET_IHL. rewrite Hv, E1, E2.
  split; [done|]. split; [rewrite to_u16_small; lia|].
  split; [rewrite <- ntoh16_field by lia; f_equal; apply field_load; lia|].
  split; [apply (field_range 10 2); lia|].
  split; [rewrite <- (ntoh16_field 10) by lia; f_equal; apply field_load; lia|].
  intros H4. eapply Z.lt_le_trans; [|apply word_sum_head].
  - change (version4_ihl4 (h <| ip_checksum := 0 |>)) with (version4_ihl4 h).
    rewrite Hv. pose proof (Z.div_mod (field 0 1 data) 16). lia.
  - change (version4_ihl4 (h <| ip_checksum := 0 |>)) with (version4_ihl4 h). lia.
Qed.

Lemma ipv4_sum data off (h := ipv4_of_bytes (zslice 0 20 data)) :
  20 <= off <= len data ->
  word_sum (zslice 0 off data)
  = word_sum (ipv4_bytes (h <| ip_checksum := 0 |>))
    + word_sum (zslice 0 (off - 20) (drop 20 data)) + ntoh16 (ip_checksum h).
Proof.
  intros Ho. pose proof (ipv4_bytes_parts h) as E. unfold h in E at 1.
  rewrite ipv4_bytes_of in E by (apply len_zslice; lia).
  replace off with (20 + (off - 20)) at 1 by lia. rewrite (zslice_app 0 20) by lia.
  rewrite (word_sum_app 10) by (rewrite length_len, len_zslice by lia; lia).
  rewrite E. change (zslice 0 (off - 20) (drop 20 data)) with (zslice (0 + 20) (off - 20) data).
  lia.
Qed.

Lemma ipv4_check_correct data :
  exists r, ipv4_check data (len data) = Some r /\
  forall h off plen, r = Some (h, off, plen) <->
    20 <= len data /\ h = ipv4_of_bytes (zslice 0 20 data) /\ ipv4_valid data off plen.
Proof.
  assert (Hbad : (forall off plen, 20 <= len data -> ~ ipv4_valid data off plen) ->
    exists r, Some None = Some r /\ forall h off plen, r = Some (h, off, plen) <->
      20 <= len data /\ h = ipv4_of_bytes (zslice 0 20 data) /\ ipv4_valid data off plen).
  { intros Hno. exists None. split; [done|]. intros h off plen. split; [done|].
    intros (? & _ & Hv). by destruct (Hno off plen). }
  unfold ipv4_check, sizeof_ipv4_header.
  replace (len data <? 0) with false by zlia.
  destruct (len data <? 20) eqn:E0; [apply Hbad; lia|].
  rewrite load_Some by lia. cbn [mbind option_bind].
  destruct (ipv4_fields data ltac:(lia)) as (-> & -> & -> & Hcr & Hc & Hpos).
  set (h := ipv4_of_bytes (zslice 0 20 data)) in *.
  set (off := 4 * (field 0 1 data mod 16)).
  pose proof (Z.mod_pos_bound (field 0 1 data) 16 ltac:(lia)).
  repeat match goal with |- context [if ?b then Some None else _] =>
    destruct b eqn:?; [apply Hbad; intros ?? _ []; lia|] end.
  rewrite ipv4_checksum_spec; [|rewrite len_drop by lia; lia| |lia].
  2: { replace (off - 20) with ((field 0 1 data mod 16 * 2 - 10) * 2) by lia.
       by apply Z.mod_mul. }
  cbn [mbind option_bind]. change (Z.to_nat 20) with 20%nat.
  assert (Hsum := ipv4_sum data off ltac:(lia)). cbn zeta in Hsum. fold h in Hsum.
  change (hton16 0) with 0. specialize (Hpos ltac:(lia)).
  destruct (word_sum_bounds (zslice 0 (off - 20) (drop 20 data))) as [Hs2 _].
  assert (Hck := cksum_field _ (ip_checksum h) (Z.add_pos_nonneg _ _ Hpos Hs2) Hcr).
  rewrite <- Hsum, Hc in Hck.
  destruct (ip_checksum h =? _) eqn:E6; cbn [negb].
  - apply Z.eqb_eq, Hck in E6. eexists. split; [done|]. intros h0 off' plen. split.
    + intros [= <- <- <-]. split; [lia|]. split; [done|]. by constructor; [lia..|].
    + intros (_ & -> & []). repeat f_equal; lia.
  - apply Hbad. intros off' plen _ [_ -> _ Hv]. apply Hck in Hv. lia.
Qed.
End InetProofs.

Section inet_properties.
Import Checksum InetProofs.

(** [ipv4_check] reads nothing outside the packet, and accepts exactly the
    packets that begin with an IPv4 header of at least 20 bytes whose lengths
    lie in the packet and whose one's complement sum is right. *)
Theorem ipv4_check_spec data :
  exists r, ipv4_check data (len data) = Some r /\
  forall h off plen, r = Some (h, off, plen) <->
    20 <= len data /\ h = ipv4_of_bytes (zslice 0 20 data) /\ ipv4_valid data off plen.
Proof. apply ipv4_check_correct. Qed.

(** C5: the UDP checksums are the RFC 768 ones except for one value: over IPv4
    and over IPv6, [c] is computed exactly when it makes the one's complement
    sum of pseudo-header, header and payload right and is not 0xFFFF.  In
    particular the value 0 ("no checksum") is computed where the RFC requires
    0xFFFF, and a packet that carries 0xFFFF never matches. *)
Theorem udp_checksum_spec h payload src dst src6 dst6 c :
  len payload <= UINT16_MAX - 8 -> len src6 = 16 -> len dst6 = 16 -> 0 <= c <= UINT16_MAX ->
  (udp_checksum (h <| checksum := 0 |>) payload (len payload) src dst = Some c <->
   udp_sum (h <| checksum := c |>) payload (le_split 4 src ++ le_split 4 dst) mod 65535 = 0
   /\ c <> 0xFFFF) /\
  (udp_ip6_checksum (h <| checksum := 0 |>) payload (len payload) src6 dst6 = Some c <->
   udp_sum (h <| checksum := c |>) payload (src6 ++ dst6) mod 65535 = 0 /\ c <> 0xFFFF).
Proof.
  unfold UINT16_MAX. intros Hp Hs Hd Hc. pose proof (len_nonneg payload).
  rewrite udp_checksum_value, udp_ip6_checksum_value by lia. rewrite !(zslice_all (len payload)) by done.
  assert (Hsum : forall a, let s := udp_sum (h <| checksum := 0 |>) payload a in
    0 < s /\ udp_sum (h <| checksum := c |>) payload a = s + ntoh16 c).
  { intros a. cbv zeta. unfold udp_sum. pose proof (word_sum_bounds a) as [Ha _].
    pose proof (word_sum_bounds payload) as [Hpay _].
    destruct (word_sum_bounds (udp_bytes (h <| checksum := 0 |>))) as [Hu _]. split; [lia|].
    rewrite (udp_bytes_parts (h <| checksum := c |>)).
    change (h <| checksum := c |> <| checksum := 0 |>) with (h <| checksum := 0 |>).
    change (checksum (h <| checksum := c |>)) with c. lia. }
  rewrite <- (ntoh16_ffff c) by lia.
  destruct (Hsum (le_split 4 src ++ le_split 4 dst)) as [P1 ->], (Hsum (src6 ++ dst6)) as [P2 ->].
  rewrite <- !cksum_field by lia. split; split; congruence.
Qed.
End inet_properties.

Module InetWitnesses.
Import Checksum InetProofs.

(** A header and a payload, and the checksum both computations give. *)
Lemma udp_checksum_spec_witness :
  (udp_checksum (mk_udp_header 1 2 0x0a00 0 <| checksum := 0 |>) [Byte.x41; Byte.x42]
     (len [Byte.x41; Byte.x42]) 5 6 = Some 0 <->
   udp_sum (mk_udp_header 1 2 0x0a00 0 <| checksum := 0 |>) [Byte.x41; Byte.x42]
     (le_split 4 5 ++ le_split 4 6) mod 65535 = 0 /\ 0 <> 0xFFFF) /\
  (udp_ip6_checksum (mk_udp_header 1 2 0x0a00 0 <| checksum := 0 |>) [Byte.x41; Byte.x42]
     (len [Byte.x41; Byte.x42]) (repeat Byte.x01 16) (repeat Byte.x02 16) = Some 0 <->
   udp_sum (mk_udp_header 1 2 0x0a00 0 <| checksum := 0 |>) [Byte.x41; Byte.x42]
     (repeat Byte.x01 16 ++ repeat Byte.x02 16) mod 65535 = 0 /\ 0 <> 0xFFFF).
Proof.
  apply (udp_checksum_spec (mk_udp_header 1 2 0x0a00 0) [Byte.x41; Byte.x42] 5 6
    (repeat Byte.x01 16) (repeat Byte.x02 16) 0);
    first [vm_compute; reflexivity|vm_compute; discriminate|split; vm_compute; discriminate].
Defined.
End InetWitnesses.

(** ** Shared by the packet paths *)

Module InetLemmas.
Import Checksum InetProofs.

Lemma udp_check_value data :
  8 <= len data ->
  udp_check data (len data)
  = Some (if (8 <=? be16_at 4 data) && (be16_at 4 data <=? len data)
          then Some (udp_of_bytes (zslice 0 8 data), 8, be16_at 4 data - 8) else None).
Proof.
  intros Hl. unfold udp_check, sizeof_udp_header.
  replace (len data <? 0) with false by lia. replace (len data <? 8) with false by lia.
  rewrite load_Some by lia. cbn [mbind option_bind].
  replace (ntoh16 (udp_length (udp_of_bytes (zslice 0 8 data)))) with (be16_at 4 data).
  2: { rewrite <- ntoh16_field by lia. f_equal. symmetry. apply field_load; lia. }
  destruct (be16_at 4 data <? 8) eqn:E1; [by replace (8 <=? _) with false by lia|].
  replace (8 <=? _) with true by lia.
  destruct (8 + (len data - 8) <? be16_at 4 data) eqn:E2;
    [by replace (_ <=? len data) with false by lia|].
  by replace (_ <=? len data) with true by lia.
Qed.

(** The IPv4 header of [h] in front of a payload is accepted when its fields
    are right and its checksum was just computed. *)
Lemma ipv4_check_built h payload :
  version4_ihl4 h = 0x45 -> 20 + len payload < 65536 ->
  total_length h = hton16 (20 + len payload) ->
  ipv4_checksum (h <| ip_checksum := hton16 0 |>) [] 0 = Some (ip_checksum h) ->
  ipv4_of_bytes (ipv4_bytes h) = h ->
  ipv4_check (ipv4_bytes h ++ payload) (20 + len payload)
  = Some (Some (h, 20, len payload)).
Proof.
  intros Hv Hmax Ht Hc Hh. set (data := ipv4_bytes h ++ payload).
  pose proof (len_nonneg payload).
  assert (Hl : len data = 20 + len payload) by by unfold data; rewrite len_app, len_ipv4_bytes.
  assert (Hz : zslice 0 20 data = ipv4_bytes h)
    by (apply zslice_app_l; by rewrite len_ipv4_bytes).
  unfold ipv4_check, sizeof_ipv4_header. replace (20 + len payload <? 0) with false by lia.
  replace (20 + len payload <? 20) with false by lia.
  rewrite load_Some, Hz by lia. cbn [mbind option_bind]. rewrite Hh.
  unfold IPV4_GET_VERSION, IPV4_GET_IHL. rewrite Hv, Ht, ntoh16_hton16 by lia.
  change (to_u16 _) with 20. change (negb (_ =? 4)) with false. cbn iota.
  change (20 <? 20) with false. cbn iota.
  replace (20 + len payload <? 20) with false by lia. rewrite Z.ltb_irrefl.
  change (20 - 20) with 0.
  assert (He : forall x, ipv4_checksum x (drop (Z.to_nat 20) data) 0 = ipv4_checksum x [] 0).
  { intros x. rewrite !ipv4_checksum_spec by (try done; zlia). by rewrite !zslice_0. }
  rewrite He, Hc. cbn [mbind option_bind]. rewrite Z.eqb_refl. cbn. do 3 f_equal. lia.
Qed.

(** Headers whose fields are in range survive being written and read back. *)
Record wf_ipv4 (h : ipv4_header) : Prop := {
  wf4_version : 0 <= version4_ihl4 h < 2 ^ 8;
  wf4_ds : 0 <= ds h < 2 ^ 8;
  wf4_len : 0 <= total_length h < 2 ^ 16;
  wf4_id : 0 <= identification h < 2 ^ 16;
  wf4_frag : 0 <= flags3_fragmentoffset13 h < 2 ^ 16;
  wf4_ttl : 0 <= ttl h < 2 ^ 8;
  wf4_proto : 0 <= protocol h < 2 ^ 8;
  wf4_cksum : 0 <= ip_checksum h < 2 ^ 16;
  wf4_src : 0 <= source_address h < 2 ^ 32;
  wf4_dst : 0 <= destination_address h < 2 ^ 32;
}.
Record wf_udp (u : udp_header) : Prop := {
  wfu_src : 0 <= source_port u < 2 ^ 16;
  wfu_dst : 0 <= dest_port u < 2 ^ 16;
  wfu_len : 0 <= udp_length u < 2 ^ 16;
  wfu_cksum : 0 <= checksum u < 2 ^ 16;
}.

Lemma field_small n x : 0 <= x < 2 ^ (Z.of_nat n * 8) -> le_combine (le_split n x) = x.
Proof. intros. rewrite le_combine_split. by apply Z.mod_small. Qed.

Lemma ipv4_of_bytes_bytes h : wf_ipv4 h -> ipv4_of_bytes (ipv4_bytes h) = h.
Proof.
  intros [].
  change (ipv4_of_bytes (ipv4_bytes h)) with (mk_ipv4_header
    (le_combine (le_split 1 (version4_ihl4 h))) (le_combine (le_split 1 (ds h)))
    (le_combine (le_split 2 (total_length h))) (le_combine (le_split 2 (identification h)))
    (le_combine (le_split 2 (flags3_fragmentoffset13 h))) (le_combine (le_split 1 (ttl h)))
    (le_combine (le_split 1 (protocol h))) (le_combine (le_split 2 (ip_checksum h)))
    (le_combine (le_split 4 (source_address h))) (le_combine (le_split 4 (destination_address h)))).
  rewrite !field_small by done. by destruct h.
Qed.

Lemma udp_of_bytes_bytes u : wf_udp u -> udp_of_bytes (udp_bytes u) = u.
Proof.
  intros [].
  change (udp_of_bytes (udp_bytes u)) with (mk_udp_header
    (le_combine (le_split 2 (source_port u))) (le_combine (le_split 2 (dest_port u)))
    (le_combine (le_split 2 (udp_length u))) (le_combine (le_split 2 (checksum u)))).
  rewrite !field_small by done. by destruct u.
Qed.

Lemma wf_ipv4_of_bytes p : wf_ipv4 (ipv4_of_bytes p).
Proof.
  constructor; cbn [version4_ihl4 ds total_length identification flags3_fragmentoffset13 ttl
    protocol ip_checksum source_address destination_address ipv4_of_bytes].
  all: match goal with |- context [field ?o ?n _] => exact (field_range o n p ltac:(lia)) end.
Qed.
Lemma wf_udp_of_bytes p : wf_udp (udp_of_bytes p).
Proof.
  constructor; cbn [source_port dest_port udp_length checksum udp_of_bytes].
  all: match goal with |- context [field ?o ?n _] => exact (field_range o n p ltac:(lia)) end.
Qed.

Lemma udp_check_built u payload :
  wf_udp u -> 8 + len payload < 65536 -> udp_length u = hton16 (8 + len payload) ->
  udp_check (udp_bytes u ++ payload) (8 + len payload) = Some (Some (u, 8, len payload)).
Proof.
  intros Hu Hmax Hlen. pose proof (len_nonneg payload). set (d := udp_bytes u ++ payload).
  assert (Hl : len d = 8 + len payload) by by unfold d; rewrite len_app, len_udp_bytes.
  assert (Hz : zslice 0 8 d = udp_bytes u) by (apply zslice_app_l; by rewrite len_udp_bytes).
  rewrite <- Hl, udp_check_value, Hz, udp_of_bytes_bytes by lia || done.
  replace (be16_at 4 d) with (8 + len payload).
  - rewrite (proj2 (Z.leb_le _ _)), (proj2 (Z.leb_le _ _)) by lia. cbn. do 3 f_equal. lia.
  - rewrite <- (ntoh16_hton16 (8 + len payload)), <- Hlen by lia.
    rewrite <- (udp_of_bytes_bytes u Hu), <- Hz. rewrite <- ntoh16_field by lia.
    f_equal.
Qed.
End InetLemmas.
