(* ===== verification/BAddr.v ===== *)
(** * Socket addresses

    [system/BAddr.h]: addresses, their constructors and accessors, and the two
    comparisons.  Fields are in network byte order, as numbers of the host.
    [BAddr_CompareOrder] is the key order of the trees of the program, which
    the other files model as finite maps: its theorem is what makes them maps. *)
From S2P Require Import Prelude InetProto.

Inductive BIPAddr :=
  | BIPAddr_None
  | BIPAddr_IPv4 (ip : Z)
  | BIPAddr_IPv6 (ip : bytes).
#[export] Instance BIPAddr_eq_dec : EqDecision BIPAddr.
Proof. solve_decision. Defined.

(** The packet-socket type is never made by the code modelled. *)
Inductive BAddr :=
  | BAddr_None
  | BAddr_IPv4 (ip port : Z)
  | BAddr_IPv6 (ip : bytes) (port : Z).
#[export] Instance BAddr_eq_dec : EqDecision BAddr.
Proof. solve_decision. Defined.

(** [addr.ipv4.ip] and [addr.ipv4.port]: only defined for an IPv4 address. *)
Definition ipv4_ip (a : BAddr) : option Z :=
  match a with BAddr_IPv4 ip _ => Some ip | _ => None end.
Definition ipv4_port (a : BAddr) : option Z :=
  match a with BAddr_IPv4 _ port => Some port | _ => None end.

Definition BADDR_TYPE (a : BAddr) : Z :=
  match a with BAddr_None => 0 | BAddr_IPv4 _ _ => 1 | BAddr_IPv6 _ _ => 2 end.

Definition BAddr_IsInvalid (a : BAddr) : bool := BADDR_TYPE a =? 0.

(** [None]: an assertion fails. *)
Definition BAddr_GetPort (a : BAddr) : option Z :=
  match a with
  | BAddr_IPv4 _ port | BAddr_IPv6 _ port => Some port
  | BAddr_None => None
  end.
Definition BAddr_SetPort (a : BAddr) (port : Z) : option BAddr :=
  match a with
  | BAddr_IPv4 ip _ => Some (BAddr_IPv4 ip port)
  | BAddr_IPv6 ip _ => Some (BAddr_IPv6 ip port)
  | BAddr_None => None
  end.
Definition BAddr_GetIPAddr (a : BAddr) : BIPAddr :=
  match a with
  | BAddr_IPv4 ip _ => BIPAddr_IPv4 ip
  | BAddr_IPv6 ip _ => BIPAddr_IPv6 ip
  | BAddr_None => BIPAddr_None
  end.
Definition BAddr_MakeFromIpaddrAndPort (ipaddr : BIPAddr) (port : Z) : BAddr :=
  match ipaddr with
  | BIPAddr_None => BAddr_None
  | BIPAddr_IPv4 ip => BAddr_IPv4 ip port
  | BIPAddr_IPv6 ip => BAddr_IPv6 ip port
  end.

(** [memcmp]: the sign of the first difference. *)
Fixpoint memcmp (l k : bytes) : Z :=
  match l, k with
  | b :: l, c :: k => if b2z b =? b2z c then memcmp l k else b2z b - b2z c
  | _, _ => 0
  end.

Definition BIPAddr_Compare (a1 a2 : BIPAddr) : bool :=
  match a1, a2 with
  | BIPAddr_IPv4 ip1, BIPAddr_IPv4 ip2 => ip1 =? ip2
  | BIPAddr_IPv6 ip1, BIPAddr_IPv6 ip2 => memcmp ip1 ip2 =? 0
  | _, _ => false
  end.

Definition BAddr_Compare (a1 a2 : BAddr) : bool :=
  match a1, a2 with
  | BAddr_IPv4 ip1 port1, BAddr_IPv4 ip2 port2 => (ip1 =? ip2) && (port1 =? port2)
  | BAddr_IPv6 ip1 port1, BAddr_IPv6 ip2 port2 => (memcmp ip1 ip2 =? 0) && (port1 =? port2)
  | _, _ => false
  end.

Definition BAddr_CompareOrder (a1 a2 : BAddr) : Z :=
  let cmp := B_COMPARE (BADDR_TYPE a1) (BADDR_TYPE a2) in
  if negb (cmp =? 0) then cmp else
  match a1, a2 with
  | BAddr_IPv4 ip1 port1, BAddr_IPv4 ip2 port2 =>
      let cmp := B_COMPARE (ntoh32 ip1) (ntoh32 ip2) in
      if negb (cmp =? 0) then cmp else B_COMPARE (ntoh16 port1) (ntoh16 port2)
  | BAddr_IPv6 ip1 port1, BAddr_IPv6 ip2 port2 =>
      let cmp := memcmp ip1 ip2 in
      if negb (cmp =? 0) then B_COMPARE cmp 0 else B_COMPARE (ntoh16 port1) (ntoh16 port2)
  | _, _ => 0
  end.

(** What the type of an address allows. *)
Definition addr_wf (a : BAddr) : Prop :=
  match a with
  | BAddr_None => True
  | BAddr_IPv4 ip port => 0 <= ip < 2 ^ 32 /\ 0 <= port < 2 ^ 16
  | BAddr_IPv6 ip port => length ip = 16%nat /\ 0 <= port < 2 ^ 16
  end.

Module BAddrProofs.
Import Checksum InetProofs.

(** The number an address is in the order: the fields in host order. *)
Fixpoint be_value (l : bytes) : Z :=
  match l with [] => 0 | b :: l => b2z b * 2 ^ (8 * len l) + be_value l end.
Definition addr_key (a : BAddr) : Z :=
  match a with
  | BAddr_None => 0
  | BAddr_IPv4 ip port => 2 ^ 200 + ntoh32 ip * 65536 + ntoh16 port
  | BAddr_IPv6 ip port => 2 * 2 ^ 200 + be_value ip * 65536 + ntoh16 port
  end.

Lemma be_value_range l : 0 <= be_value l < 2 ^ (8 * len l).
Proof.
  induction l as [|b l IH]; cbn [be_value]; [rewrite (@len_nil byte); lia|].
  rewrite len_cons. replace (8 * (1 + len l)) with (8 + 8 * len l) by lia.
  rewrite Z.pow_add_r by zlia. pose proof (Checksum.b2z_range b). nia.
Qed.

Lemma memcmp_sgn l k : length l = length k -> Z.sgn (memcmp l k) = Z.sgn (be_value l - be_value k).
Proof.
  revert k. induction l as [|b l IH]; intros [|c k] H; try done.
  cbn [memcmp]. cbn [be_value]. assert (Hl : len k = len l) by (cbn in H; rewrite !length_len in H; zlia).
  rewrite Hl. assert (Rl := be_value_range l). assert (Rk := be_value_range k). rewrite Hl in Rk.
  destruct (b2z b =? b2z c) eqn:E.
  - rewrite (IH k) by (cbn in H; lia). f_equal. rewrite (proj1 (Z.eqb_eq _ _) E). lia.
  - assert (0 < 2 ^ (8 * len l)) by lia. set (p := 2 ^ (8 * len l)) in *. nia.
Qed.

Lemma be_value_inj l k : length l = length k -> be_value l = be_value k -> l = k.
Proof.
  revert k. induction l as [|b l IH]; intros [|c k] H E; try done.
  cbn [be_value] in E. cbn in H. assert (Hl : len k = len l) by (rewrite !length_len in H; zlia).
  rewrite Hl in E. assert (Rl := be_value_range l). assert (Rk := be_value_range k). rewrite Hl in Rk.
  set (p := 2 ^ (8 * len l)) in *. assert (Hb : b2z b = b2z c) by nia.
  f_equal; [by apply byte.unsigned_inj|]. apply IH; [lia|]. rewrite Hb in E. lia.
Qed.

Lemma ntoh16_bounds p : 0 <= ntoh16 p < 65536.
Proof. apply hton16_range. Qed.
Lemma ntoh32_range x : 0 <= ntoh32 x < 2 ^ 32.
Proof.
  unfold ntoh32, hton32, badvpn_reverse32.
  assert (H := le_combine_bound (rev (le_split 4 x))). by rewrite length_rev, length_le_split in H.
Qed.
Lemma ntoh16_inj x y : 0 <= x < 2 ^ 16 -> 0 <= y < 2 ^ 16 -> ntoh16 x = ntoh16 y -> x = y.
Proof.
  intros Hx Hy H. transitivity (ntoh16 (hton16 x)); [by rewrite ntoh16_hton16|].
  change (hton16 x) with (ntoh16 x). rewrite H. by apply ntoh16_hton16.
Qed.
Lemma ntoh32_ntoh32 x : 0 <= x < 2 ^ 32 -> ntoh32 (ntoh32 x) = x.
Proof.
  intros H. unfold ntoh32, hton32, badvpn_reverse32.
  rewrite (split_le_combine' (rev (le_split 4 x))) by (by rewrite length_rev, length_le_split).
  rewrite rev_involutive, le_combine_split. by apply Z.mod_small.
Qed.
Lemma ntoh32_inj x y : 0 <= x < 2 ^ 32 -> 0 <= y < 2 ^ 32 -> ntoh32 x = ntoh32 y -> x = y.
Proof. intros Hx Hy H. rewrite <- (ntoh32_ntoh32 x), H by done. by apply ntoh32_ntoh32. Qed.

(** The order is that of the keys. *)
Lemma addr_key_range a : addr_wf a ->
  BADDR_TYPE a * 2 ^ 200 <= addr_key a < (BADDR_TYPE a + 1) * 2 ^ 200.
Proof.
  destruct a as [|ip port|ip port]; cbn [addr_wf addr_key BADDR_TYPE]; intros; destruct_and?; [lia|..].
  - pose proof (ntoh32_range ip). pose proof (ntoh16_bounds port). lia.
  - pose proof (be_value_range ip) as Hb. pose proof (ntoh16_bounds port).
    replace (8 * len ip) with 128 in Hb by (match goal with H : length ip = _ |- _ => rewrite length_len in H end; zlia).
    lia.
Qed.

Lemma compare_order_key a b : addr_wf a -> addr_wf b ->
  BAddr_CompareOrder a b = Z.sgn (addr_key a - addr_key b).
Proof.
  intros Ha Hb. assert (Ka := addr_key_range a Ha). assert (Kb := addr_key_range b Hb).
  unfold BAddr_CompareOrder. rewrite !B_COMPARE_sgn.
  destruct (Z.eq_dec (BADDR_TYPE a) (BADDR_TYPE b)) as [E|E].
  - rewrite E, Z.sub_diag. cbn [Z.sgn Z.eqb negb].
    destruct a as [|ip port|ip port], b as [|ip' port'|ip' port']; try done;
      cbn [addr_wf addr_key] in *; rewrite ?B_COMPARE_sgn.
    + pose proof (ntoh16_bounds port). pose proof (ntoh16_bounds port').
      destruct (_ =? 0) eqn:E0; cbn [negb]; lia.
    + pose proof (ntoh16_bounds port). pose proof (ntoh16_bounds port').
      assert (Hm := memcmp_sgn ip ip' ltac:(lia)).
      destruct (_ =? 0) eqn:E0; cbn [negb]; lia.
  - replace (Z.sgn (BADDR_TYPE a - BADDR_TYPE b) =? 0) with false by lia. cbn [negb].
    destruct a, b; cbn [BADDR_TYPE] in *; lia.
Qed.

Lemma addr_key_inj a b : addr_wf a -> addr_wf b -> addr_key a = addr_key b -> a = b.
Proof.
  intros Ha Hb K. assert (Ka := addr_key_range a Ha). assert (Kb := addr_key_range b Hb).
  destruct a as [|ip port|ip port], b as [|ip' port'|ip' port'];
    cbn [addr_wf addr_key BADDR_TYPE] in *; try lia; try done.
  - pose proof (ntoh16_bounds port). pose proof (ntoh16_bounds port').
    f_equal; [apply ntoh32_inj; lia|apply ntoh16_inj; lia].
  - pose proof (ntoh16_bounds port). pose proof (ntoh16_bounds port').
    f_equal; [apply be_value_inj; lia|apply ntoh16_inj; lia].
Qed.

Lemma memcmp_0 l k : length l = length k -> memcmp l k = 0 <-> l = k.
Proof.
  intros H. assert (Hs := memcmp_sgn l k H). split.
  - intros E. rewrite E in Hs. apply be_value_inj; lia.
  - intros ->. lia.
Qed.

(** Addresses as keys of maps: the comparison with 0 decides equality. *)
Lemma compare_order_0 a b : addr_wf a -> addr_wf b -> BAddr_CompareOrder a b = 0 <-> a = b.
Proof.
  intros Ha Hb. rewrite compare_order_key by done. split.
  - intros. apply addr_key_inj; lia || done.
  - intros ->. lia.
Qed.
End BAddrProofs.

Section baddr_properties.
Import BAddrProofs.
Context (a b c : BAddr).
Hypotheses (Ha : addr_wf a) (Hb : addr_wf b) (Hc : addr_wf c).

(** [BAddr_CompareOrder] is a total order on addresses whose equality is
    identity, so a search tree keyed by addresses finds exactly the address
    asked for; [BAddr_Compare] decides identity too, except that two invalid
    addresses are not equal to each other. *)
Theorem baddr_compare_order :
  (BAddr_CompareOrder a b = 0 <-> a = b) /\
  BAddr_CompareOrder b a = - BAddr_CompareOrder a b /\
  (BAddr_CompareOrder a b <= 0 -> BAddr_CompareOrder b c <= 0 -> BAddr_CompareOrder a c <= 0) /\
  (BAddr_Compare a b = true <-> a = b /\ a <> BAddr_None).
Proof using All.
  split; [by apply compare_order_0|]. rewrite !compare_order_key by done.
  split; [lia|]. split; [lia|].
  destruct a as [|ip port|ip port], b as [|ip' port'|ip' port']; cbn [BAddr_Compare];
    try (split; [done|intros [? ?]; congruence]).
  - rewrite andb_true_iff, !Z.eqb_eq. split; [intros [-> ->]; done|].
    by intros [[= -> ->] _].
  - cbn [addr_wf] in *. rewrite andb_true_iff, !Z.eqb_eq, memcmp_0 by lia.
    split; [intros [-> ->]; done|]. by intros [[= -> ->] _].
Qed.
End baddr_properties.

Module BAddrWitnesses.
Lemma baddr_compare_order_witness :
  let a := BAddr_IPv4 0x0100a8c0 80 in let b := BAddr_IPv6 (repeat Byte.x01 16) 80 in
  (BAddr_CompareOrder a b = 0 <-> a = b) /\
  BAddr_CompareOrder b a = - BAddr_CompareOrder a b /\
  (BAddr_CompareOrder a b <= 0 -> BAddr_CompareOrder b a <= 0 -> BAddr_CompareOrder a a <= 0) /\
  (BAddr_Compare a b = true <-> a = b /\ a <> BAddr_None).
Proof. apply baddr_compare_order; cbn; lia. Defined.
End BAddrWitnesses.
