(* ===== verification/DevicePackets.v ===== *)
(** * The packet paths of the TUN device

    The part of [tun2socks/tun2socks.c] between the device and the rest of the
    program: the DNS relay ([process_device_dns_packet] with its table of
    connections), UDP from the device ([process_device_udp_packet]) and to it
    ([udpgw_client_handler_received]), the dispatch of a packet read
    ([device_read_handler_send], [netif_input_func]) and lwIP's output
    ([common_netif_output]).  The globals these functions use are one record;
    the command-line options are fields of it.  [BAVL] is used by the relay as
    a map from ports to connections, and modelled as such.  Packets are the
    bytes; [device_write_buf] is a buffer whose bounds are checked. *)
From S2P Require Import Prelude InetProto BAddr.

(** ** Addresses and the connections of the DNS relay *)

Definition baddr_from_lwip (is_ipv6 : bool) (ip4 : Z) (ip6 : bytes) (port_hostorder : Z)
    : BAddr :=
  if is_ipv6 then BAddr_IPv6 ip6 (hton16 port_hostorder)
  else BAddr_IPv4 ip4 (hton16 port_hostorder).

Record Connection := mk_connection {
  local_addr : BAddr;
  remote_addr : BAddr;
  con_port : Z;
  count : Z;
}.
#[export] Instance connection_eta : Eta Connection := fun r =>
  mk_connection (local_addr r) (remote_addr r) (con_port r) (count r).

Definition conaddr_comparator (v1 v2 : Z) : Z :=
  if v1 =? v2 then 0 else if v2 <? v1 then 1 else -1.

Abbreviation conn_tree := (gmap Z Connection).

Definition find_connection (port : Z) (tree : conn_tree) : option Connection := tree !! port.

Definition remove_connection (con : Connection) (tree : conn_tree) : conn_tree :=
  let con := con <| count := to_int (count con - 1) |> in
  if count con <=? 0 then delete (con_port con) tree else <[con_port con := con]> tree.

(** [malloc_ok] tells whether [malloc] returns a block; its result is used
    without a test. *)
Definition insert_connection (malloc_ok : bool) (local_addr remote_addr : BAddr) (port : Z)
    (tree : conn_tree) : option conn_tree :=
  match find_connection port tree with
  | Some con => Some (<[port := con <| count := to_int (count con + 1) |>]> tree)
  | None =>
      if malloc_ok then Some (<[port := mk_connection local_addr remote_addr port 1]> tree)
      else None
  end.

Definition free_connections (tree : conn_tree) : conn_tree :=
  foldr delete tree (map_to_list tree).*1.

(** ** The globals *)

Record device := mk_device {
  opt_dnsgw : bool;
  opt_udpgw_remote_server_addr : bool;
  opt_netif_ip6addr : bool;
  opt_udpgw_transparent_dns : bool;
  netif_ipaddr : Z;
  dnsgw_ip : Z;
  dnsgw_port : Z;
  udp_mtu : Z;
  tap_mtu : Z;
  quitting : bool;
  dns_init : bool;
  connections_tree : conn_tree;
  device_write_buf : bytes;
}.
#[export] Instance device_eta : Eta device := fun r =>
  mk_device (opt_dnsgw r) (opt_udpgw_remote_server_addr r) (opt_netif_ip6addr r)
    (opt_udpgw_transparent_dns r) (netif_ipaddr r) (dnsgw_ip r) (dnsgw_port r) (udp_mtu r)
    (tap_mtu r) (quitting r) (dns_init r) (connections_tree r) (device_write_buf r).

(** Calls out of this part.  A chain of pbufs is the list of its segments. *)
Inductive out :=
  | PacketPassInterface_Done
  | Tap_Send (data : bytes)
  | SocksUdpGwClient_SubmitPacket (local_addr remote_addr : BAddr) (is_dns : bool) (data : bytes)
  | ip_input (p : list bytes)
  | ip6_input (p : list bytes)
  | pbuf_free (p : list bytes).

Definition hdl := handler device out.

(** [BTap_Send(&device, data, data_len)] *)
Definition BTap_Send (data : bytes) : hdl unit :=
  o ← get; ASSERT (len data <=? tap_mtu o);; call (Tap_Send data).
Definition BTap_Send_buf (data_len : Z) : hdl unit :=
  o ← get; data ← of_option (load 0 data_len (device_write_buf o)); BTap_Send data.
(** [memcpy(device_write_buf + off, data, ...)] *)
Definition write_buf (off : Z) (data : bytes) : hdl unit :=
  o ← get;
  buf ← of_option (store off data (device_write_buf o));
  modify (fun o => o <| device_write_buf := buf |>).

Definition ip_version_of (data : bytes) : Z :=
  match data with [] => 0 | b :: _ => Z.shiftr (b2z b) 4 end.
(** [data[off]] *)
Definition byte_at (off : Z) (data : bytes) : option Z := le_combine <$> load off 1 data.

(** ** Parsing a UDP packet: the sequence of checks the UDP handlers share *)

Inductive udp_packet :=
  | Not_udp
  | Udp4 (iph : ipv4_header) (udph : udp_header) (payload : bytes)
  | Udp6 (iph : ipv6_header) (udph : udp_header) (payload : bytes).

(** [case 4] up to the checksum test; [Not_udp] is [goto fail]. *)
Definition parse_udp4 (data : bytes) : option udp_packet :=
  if len data <? sizeof_ipv4_header then Some Not_udp else
  proto ← byte_at 9 data;
  if negb (proto =? IPV4_PROTOCOL_UDP) then Some Not_udp else
  r ← ipv4_check data (len data);
  match r with
  | None => Some Not_udp
  | Some (ipv4_header, off, n) =>
      data ← load off n data;
      r ← udp_check data (len data);
      match r with
      | None => Some Not_udp
      | Some (udp_header, off, n) =>
          data ← load off n data;
          let checksum_in_packet := checksum udp_header in
          let udp_header := udp_header <| checksum := 0 |> in
          checksum_computed ← udp_checksum udp_header data (len data)
            (source_address ipv4_header) (destination_address ipv4_header);
          if checksum_in_packet =? checksum_computed
          then Some (Udp4 ipv4_header udp_header data) else Some Not_udp
      end
  end.

Definition parse_udp6 (data : bytes) : option udp_packet :=
  if len data <? sizeof_ipv6_header then Some Not_udp else
  proto ← byte_at 6 data;
  if negb (proto =? IPV6_NEXT_UDP) then Some Not_udp else
  r ← ipv6_check data (len data);
  match r with
  | None => Some Not_udp
  | Some (ipv6_header, off, n) =>
      data ← load off n data;
      r ← udp_check data (len data);
      match r with
      | None => Some Not_udp
      | Some (udp_header, off, n) =>
          data ← load off n data;
          let checksum_in_packet := checksum udp_header in
          let udp_header := udp_header <| checksum := 0 |> in
          checksum_computed ← udp_ip6_checksum udp_header data (len data)
            (source_address6 ipv6_header) (destination_address6 ipv6_header);
          if checksum_in_packet =? checksum_computed
          then Some (Udp6 ipv6_header udp_header data) else Some Not_udp
      end
  end.

(** ** The DNS relay *)

(** The code after the headers are rewritten: checksums, writing, sending. *)
Definition dns_send (ipv4_header : ipv4_header) (udp_header : udp_header) (data : bytes)
    : hdl bool :=
  c ← of_option (ipv4_checksum (ipv4_header <| ip_checksum := hton16 0 |>) [] 0);
  let ipv4_header := ipv4_header <| ip_checksum := c |> in
  c ← of_option (udp_checksum (udp_header <| checksum := hton16 0 |>) data (len data)
        (source_address ipv4_header) (destination_address ipv4_header));
  let udp_header := udp_header <| checksum := c |> in
  write_buf 0 (ipv4_bytes ipv4_header);;
  write_buf sizeof_ipv4_header (udp_bytes udp_header);;
  write_buf (sizeof_ipv4_header + sizeof_udp_header) data;;
  BTap_Send_buf (sizeof_ipv4_header + sizeof_udp_header + len data);;
  mret true.

(** [if (to_dns) { ... }] *)
Definition dns_query (malloc_ok : bool) (ipv4_header : ipv4_header) (udp_header : udp_header)
    (data : bytes) : hdl bool :=
  o ← get;
  (if dns_init o then mret tt
   else modify (fun o => o <| dns_init := true |> <| connections_tree := ∅ |>));;
  o ← get;
  let local_addr := BAddr_IPv4 (source_address ipv4_header) (source_port udp_header) in
  let remote_addr := BAddr_IPv4 (destination_address ipv4_header) (dest_port udp_header) in
  tree ← of_option (insert_connection malloc_ok local_addr remote_addr
           (source_port udp_header) (connections_tree o));
  modify (fun o => o <| connections_tree := tree |>);;
  dns_send (ipv4_header <| destination_address := dnsgw_ip o |>
                        <| source_address := netif_ipaddr o |>)
           (udp_header <| dest_port := dnsgw_port o |>) data.

(** [else if (from_dns) { ... }] *)
Definition dns_answer (ipv4_header : ipv4_header) (udp_header : udp_header) (data : bytes)
    : hdl bool :=
  o ← get;
  if negb (dns_init o) then mret false else
  match find_connection (dest_port udp_header) (connections_tree o) with
  | None => mret false
  | Some con =>
      rip ← of_option (ipv4_ip (remote_addr con));
      lip ← of_option (ipv4_ip (local_addr con));
      rport ← of_option (ipv4_port (remote_addr con));
      modify (fun o => o <| connections_tree := remove_connection con (connections_tree o) |>);;
      dns_send (ipv4_header <| source_address := rip |> <| destination_address := lip |>)
               (udp_header <| source_port := rport |>) data
  end.

Definition process_device_dns_packet (malloc_ok : bool) (data : bytes) : hdl bool :=
  o ← get;
  if negb (opt_dnsgw o) then mret false else
  if ip_version_of data =? 4 then
    p ← of_option (parse_udp4 data);
    match p with
    | Udp4 ipv4_header udp_header data =>
        let to_dns := dest_port udp_header =? hton16 53 in
        let from_dns := source_port udp_header =? dnsgw_port o in
        if negb to_dns && negb from_dns then mret false else
        if to_dns then dns_query malloc_ok ipv4_header udp_header data
        else dns_answer ipv4_header udp_header data
    | _ => mret false
    end
  else mret false.

(** ** UDP *)

Definition process_device_udp_packet (data : bytes) : hdl bool :=
  o ← get;
  if negb (opt_udpgw_remote_server_addr o) then mret false else
  p ← of_option (if ip_version_of data =? 4 then parse_udp4 data
                 else if ip_version_of data =? 6 then
                   if opt_netif_ip6addr o then parse_udp6 data else Some Not_udp
                 else Some Not_udp);
  match p with
  | Not_udp => mret false
  | Udp4 ipv4_header udp_header data =>
      if udp_mtu o <? len data then mret false else
      call (SocksUdpGwClient_SubmitPacket
              (BAddr_IPv4 (source_address ipv4_header) (source_port udp_header))
              (BAddr_IPv4 (destination_address ipv4_header) (dest_port udp_header))
              (opt_udpgw_transparent_dns o
               && (destination_address ipv4_header =? netif_ipaddr o)
               && (dest_port udp_header =? hton16 53)) data);;
      mret true
  | Udp6 ipv6_header udp_header data =>
      if udp_mtu o <? len data then mret false else
      call (SocksUdpGwClient_SubmitPacket
              (BAddr_IPv6 (source_address6 ipv6_header) (source_port udp_header))
              (BAddr_IPv6 (destination_address6 ipv6_header) (dest_port udp_header))
              false data);;
      mret true
  end.

Definition udpgw_client_handler_received (local_addr remote_addr : BAddr) (data : bytes)
    : hdl unit :=
  o ← get;
  ASSERT (opt_udpgw_remote_server_addr o);;
  match local_addr, remote_addr with
  | BAddr_IPv4 local_ip local_port, BAddr_IPv4 remote_ip remote_port =>
      if (UINT16_MAX - (sizeof_ipv4_header + sizeof_udp_header) <? len data)
         || (tap_mtu o - (sizeof_ipv4_header + sizeof_udp_header) <? len data)
      then mret tt else
      let iph := mk_ipv4_header (IPV4_MAKE_VERSION_IHL sizeof_ipv4_header) 0
        (hton16 (to_u16 (sizeof_ipv4_header + sizeof_udp_header + len data))) (hton16 0)
        (hton16 0) 64 IPV4_PROTOCOL_UDP (hton16 0) remote_ip local_ip in
      c ← of_option (ipv4_checksum iph [] 0);
      let iph := iph <| ip_checksum := c |> in
      let udph := mk_udp_header remote_port local_port
        (hton16 (to_u16 (sizeof_udp_header + len data))) (hton16 0) in
      c ← of_option (udp_checksum udph data (len data) (source_address iph)
            (destination_address iph));
      let udph := udph <| checksum := c |> in
      write_buf 0 (ipv4_bytes iph);;
      write_buf sizeof_ipv4_header (udp_bytes udph);;
      write_buf (sizeof_ipv4_header + sizeof_udp_header) data;;
      BTap_Send_buf (sizeof_ipv4_header + sizeof_udp_header + len data)
  | BAddr_IPv6 local_ip local_port, BAddr_IPv6 remote_ip remote_port =>
      if negb (opt_netif_ip6addr o) then mret tt else
      if (UINT16_MAX - sizeof_udp_header <? len data)
         || (tap_mtu o - (sizeof_ipv6_header + sizeof_udp_header) <? len data)
      then mret tt else
      let iph := mk_ipv6_header (Z.shiftl 6 4) 0 (hton16 0)
        (hton16 (to_u16 (sizeof_udp_header + len data))) IPV6_NEXT_UDP 64 remote_ip local_ip in
      let udph := mk_udp_header remote_port local_port
        (hton16 (to_u16 (sizeof_udp_header + len data))) (hton16 0) in
      c ← of_option (udp_ip6_checksum udph data (len data) (source_address6 iph)
            (destination_address6 iph));
      let udph := udph <| checksum := c |> in
      write_buf 0 (ipv6_bytes iph);;
      write_buf sizeof_ipv6_header (udp_bytes udph);;
      write_buf (sizeof_ipv6_header + sizeof_udp_header) data;;
      BTap_Send_buf (sizeof_ipv6_header + sizeof_udp_header + len data)
  | _, _ => ASSERT false
  end.

(** ** Between the device and lwIP *)

(** [ip_result] and [ip6_result] are what lwIP's input functions return
    ([true] for [ERR_OK]). *)
Definition netif_input_func (ip_result ip6_result : bool) (p : list bytes) : hdl bool :=
  o ← get;
  let ip_version := match p with seg :: _ => ip_version_of seg | [] => 0 end in
  if ip_version =? 4 then call (ip_input p);; mret ip_result
  else if (ip_version =? 6) && opt_netif_ip6addr o then call (ip6_input p);; mret ip6_result
  else call (pbuf_free p);; mret true.

(** What the C library and lwIP answer while a packet is processed:
    [pbuf_alloc_take] is the chain [pbuf_alloc] and [pbuf_take] make. *)
Record answers := mk_answers {
  malloc_ok : bool;
  pbuf_alloc_take : bytes -> option (list bytes);
  ip_result : bool;
  ip6_result : bool;
}.

Definition device_read_handler_send (env : answers) (data : bytes) : hdl unit :=
  o ← get;
  ASSERT (negb (quitting o));;
  call PacketPassInterface_Done;;
  done ← process_device_dns_packet (malloc_ok env) data;
  if done : bool then mret tt else
  done ← process_device_udp_packet data;
  if done : bool then mret tt else
  if UINT16_MAX <? len data then mret tt else
  match pbuf_alloc_take env data with
  | None => mret tt
  | Some p =>
      ok ← netif_input_func (ip_result env) (ip6_result env) p;
      if ok : bool then mret tt else call (pbuf_free p)
  end.

(** The loop over the chain; the result is the length, or [None] when the
    packet does not fit ([goto out]). *)
Fixpoint copy_chain (len_ : Z) (p : list bytes) : hdl (option Z) :=
  match p with
  | [] => mret (Some len_)
  | seg :: p =>
      o ← get;
      if tap_mtu o - len_ <? len seg then mret None else
      write_buf len_ seg;;
      copy_chain (len_ + len seg) p
  end.

Definition common_netif_output (p : list bytes) : hdl unit :=
  o ← get;
  if quitting o then mret tt else
  match p with
  | [] => ASSERT false
  | [seg] => if tap_mtu o <? len seg then mret tt else BTap_Send seg
  | _ =>
      r ← copy_chain 0 p;
      match r with None => mret tt | Some n => BTap_Send_buf n end
  end.

(** ** Lemmas *)

Module DeviceProofs.
Import Checksum InetProofs InetLemmas.

Lemma wp_write_buf off data o (Q : unit -> device -> list out -> Prop) :
  0 <= off -> off + len data <= len (device_write_buf o) ->
  (forall buf, store off data (device_write_buf o) = Some buf ->
     Q tt (o <| device_write_buf := buf |>) []) ->
  wp (write_buf off data) o Q.
Proof.
  intros ? ? HQ. destruct (store_Some off data (device_write_buf o)) as [buf Hst]; [lia..|].
  unfold write_buf. hsteps. eapply wp_of_option; [exact Hst|]. hsteps. by apply HQ.
Qed.

(** Three writes one after the other, read back. *)
Lemma load_stores a b c m m1 m2 m3 oa ob n :
  oa = len a -> ob = len a + len b -> n = len a + len b + len c ->
  store 0 a m = Some m1 -> store oa b m1 = Some m2 -> store ob c m2 = Some m3 ->
  load 0 n m3 = Some (a ++ b ++ c) /\ len m3 = len m.
Proof.
  intros -> -> -> H1 H2 H3.
  pose proof (len_store _ _ _ _ H1). pose proof (len_store _ _ _ _ H2).
  pose proof (len_store _ _ _ _ H3). destruct (store_inv _ _ _ _ H3) as (_ & ? & _).
  pose_len. split; [|lia]. rewrite load_Some by lia. f_equal.
  rewrite zslice_app, zslice_app by lia.
  rewrite (zslice_store_before _ _ _ _ H3 0 (len a)) by lia.
  rewrite (zslice_store_before _ _ _ _ H2 0 (len a)) by lia.
  rewrite (zslice_store_same _ _ _ _ H1) by done.
  rewrite (zslice_store_before _ _ _ _ H3 (0 + len a)) by lia.
  rewrite (zslice_store_same _ _ _ _ H2) by done.
  rewrite (zslice_store_same _ _ _ _ H3) by done. by rewrite <- app_assoc.
Qed.

(** The packet [a ++ b ++ c] is sent, and only the write buffer changes. *)
Definition sends (o : device) (pkt : bytes) (o' : device) (calls : list out) : Prop :=
  calls = [Tap_Send pkt] /\
  exists buf, o' = o <| device_write_buf := buf |> /\ len buf = len (device_write_buf o).

Lemma wp_writes {A} (k : hdl A) a b c oa ob n o (Q : A -> device -> list out -> Prop) :
  oa = len a -> ob = len a + len b -> n = len a + len b + len c ->
  n <= len (device_write_buf o) ->
  (forall buf, load 0 n buf = Some (a ++ b ++ c) -> len buf = len (device_write_buf o) ->
     wp k (o <| device_write_buf := buf |>) Q) ->
  wp (write_buf 0 a;; write_buf oa b;; write_buf ob c;; k) o Q.
Proof.
  intros -> -> -> Hn Hk. pose_len.
  hstep. apply wp_write_buf; [lia..|]. intros m1 Hst1. pose proof (len_store _ _ _ _ Hst1).
  hstep. apply wp_write_buf; [cbn; lia..|]. intros m2 Hst2. cbn in *.
  pose proof (len_store _ _ _ _ Hst2).
  hstep. apply wp_write_buf; [cbn; lia..|]. intros m3 Hst3. cbn in *.
  destruct (load_stores a b c _ m1 m2 m3 _ _ _ eq_refl eq_refl eq_refl Hst1 Hst2 Hst3)
    as [Hl Hlen]. eapply wp_mono; [by apply Hk|done].
Qed.

Lemma wp_BTap_Send_buf n pkt o (Q : unit -> device -> list out -> Prop) :
  load 0 n (device_write_buf o) = Some pkt -> len pkt <= tap_mtu o ->
  Q tt o [Tap_Send pkt] -> wp (BTap_Send_buf n) o Q.
Proof.
  intros Hl Hm HQ. unfold BTap_Send_buf, BTap_Send. hsteps.
  eapply wp_of_option; [exact Hl|]. hsteps; [lia|done].
Qed.

(** What a parsed packet is. *)
Record udp4_packet (data : bytes) (h : ipv4_header) (u : udp_header) (payload : bytes)
    (off : Z) : Prop := {
  up_size : 20 <= len data;
  up_header : h = ipv4_of_bytes (zslice 0 20 data);
  up_proto : protocol h = 17;
  up_off : off = 4 * (field 0 1 data mod 16) /\ 20 <= off;
  up_total : be16_at 2 data <= len data /\ off + 8 + len payload <= be16_at 2 data;
  up_valid : ipv4_valid data off (be16_at 2 data - off);
  up_udp : u = udp_of_bytes (zslice off 8 data) <| checksum := 0 |>;
  up_payload : payload = zslice (off + 8) (len payload) data;
  up_length : ntoh16 (udp_length u) = 8 + len payload;
  up_cksum : udp_checksum u payload (len payload) (source_address h) (destination_address h)
             = Some (field (off + 6) 2 data);
}.

Lemma udp_checksum_total h payload s d :
  len payload < 65536 - 8 -> exists c, udp_checksum h payload (len payload) s d = Some c
    /\ 0 <= c < 65536.
Proof.
  intros. pose proof (len_nonneg payload). rewrite udp_checksum_value by lia.
  eexists. split; [done|]. apply hton16_range.
Qed.

Lemma be16_at_range off p : 0 <= off -> off + 2 <= len p -> 0 <= be16_at off p < 65536.
Proof. intros. rewrite <- ntoh16_field by lia. apply hton16_range. Qed.

(** The UDP part of a packet, shared by IPv4 and IPv6. *)
Lemma udp_part d :
  exists r, udp_check d (len d) = Some r /\
  forall u off n, r = Some (u, off, n) <->
    off = 8 /\ 0 <= n /\ 8 + n <= len d /\ u = udp_of_bytes (zslice 0 8 d)
    /\ ntoh16 (udp_length u) = 8 + n.
Proof.
  destruct (len d <? 8) eqn:E.
  { exists None. split; [|split; [done|lia]]. unfold udp_check, sizeof_udp_header.
    replace (len d <? 0) with false by zlia. by rewrite E. }
  rewrite udp_check_value by lia. eexists. split; [done|]. intros u off n.
  assert (Hf : ntoh16 (udp_length (udp_of_bytes (zslice 0 8 d))) = be16_at 4 d).
  { rewrite <- ntoh16_field by lia. f_equal. apply field_load; lia. }
  pose proof (be16_at_range 4 d ltac:(lia) ltac:(lia)).
  destruct (_ && _) eqn:E2.
  - split; [intros [= <- <- <-]; split_and!; try done; lia|].
    intros (-> & ? & ? & -> & Hn). repeat f_equal. lia.
  - split; [done|]. intros (_ & ? & ? & -> & Hn). lia.
Qed.

Lemma udp_part_field off n data :
  0 <= off -> 8 <= n -> off + n <= len data ->
  zslice 0 8 (zslice off n data) = zslice off 8 data /\
  checksum (udp_of_bytes (zslice off 8 data)) = field (off + 6) 2 data.
Proof.
  intros. rewrite zslice_zslice, Z.add_0_r by lia. split; [done|]. cbn. unfold field.
  by rewrite zslice_zslice by lia.
Qed.

Lemma parse_udp4_spec data :
  exists r, parse_udp4 data = Some r /\
    match r with
    | Not_udp => forall h u payload off, ~ udp4_packet data h u payload off
    | Udp4 h u payload => exists off, udp4_packet data h u payload off
    | Udp6 _ _ _ => False
    end.
Proof.
  unfold parse_udp4, sizeof_ipv4_header, byte_at.
  destruct (len data <? 20) eqn:E0; [exists Not_udp; split; [done|intros ???? []; lia]|].
  rewrite load_Some by lia. cbn [mbind option_bind fmap option_fmap option_map].
  change (le_combine (zslice 9 1 data)) with (field 9 1 data).
  assert (Hproto : protocol (ipv4_of_bytes (zslice 0 20 data)) = field 9 1 data)
    by (apply field_load; lia).
  destruct (field 9 1 data =? IPV4_PROTOCOL_UDP) eqn:E1; cbn [negb]; unfold IPV4_PROTOCOL_UDP in E1.
  2: { exists Not_udp. split; [done|]. intros h u pl off []. subst h. lia. }
  destruct (ipv4_check_correct data) as (r & -> & Hr). cbn [mbind option_bind].
  destruct r as [[[h off] n]|].
  2: { exists Not_udp. split; [done|]. intros h u pl off [].
       by discriminate (proj2 (Hr h off (be16_at 2 data - off)) ltac:(done)). }
  destruct (proj1 (Hr h off n) eq_refl) as (_ & -> & Hv).
  assert (Hv' := Hv). destruct Hv' as [_ Hoff Hsz _].
  rewrite load_Some by lia. cbn [mbind option_bind]. set (d := zslice off n data).
  assert (Hd : len d = n) by (apply len_zslice; lia).
  destruct (udp_part d) as (ru & -> & Hru). cbn [mbind option_bind].
  assert (Hno : (forall u payload, ~ udp4_packet data (ipv4_of_bytes (zslice 0 20 data)) u payload off) ->
    exists r, Some Not_udp = Some r /\ match r with
      | Not_udp => forall h u payload off, ~ udp4_packet data h u payload off
      | Udp4 h u payload => exists off, udp4_packet data h u payload off
      | Udp6 _ _ _ => False end).
  { intros Hno. exists Not_udp. split; [done|]. intros h u pl off' Hp.
    assert (off' = off) as -> by (destruct Hp; lia).
    assert (h = ipv4_of_bytes (zslice 0 20 data)) as -> by apply Hp. by destruct (Hno u pl). }
  destruct ru as [[[u o8] m]|].
  2: { apply Hno. intros u pl Hp. destruct Hp as [? _ _ _ ? ? Hu Hpl Hlen _].
       pose proof (len_nonneg pl).
       destruct (udp_part_field off n data) as [Hz _]; [lia..|]. fold d in Hz.
       discriminate (proj2 (Hru (udp_of_bytes (zslice 0 8 d)) 8 (len pl))
         ltac:(rewrite Hz; split_and!; [done|lia|lia|done|by subst u])). }
  destruct (proj1 (Hru u o8 m) eq_refl) as (-> & Hm & Hmn & -> & Hlen).
  destruct (udp_part_field off n data) as [Hz Hck]; [lia..|]. fold d in Hz. rewrite Hz in *.
  rewrite load_Some by lia. cbn [mbind option_bind].
  assert (Hpd : zslice 8 m d = zslice (off + 8) m data) by (apply zslice_zslice; lia).
  rewrite Hpd. set (pl := zslice (off + 8) m data) in *.
  assert (Hpl : len pl = m) by (apply len_zslice; lia).
  assert (Hlr : 8 + m < 65536) by (rewrite <- Hlen; apply hton16_range).
  rewrite Hck.
  destruct (udp_checksum_total (udp_of_bytes (zslice off 8 data) <| checksum := 0 |>) pl
    (source_address (ipv4_of_bytes (zslice 0 20 data)))
    (destination_address (ipv4_of_bytes (zslice 0 20 data)))) as (c & Hc & _); [lia|].
  rewrite Hc. cbn [mbind option_bind].
  destruct (_ =? c) eqn:Ec.
  - eexists. split; [done|]. cbn beta iota. exists off.
    constructor; try done; try lia; rewrite ?Hpl; try done.
    + by replace (be16_at 2 data - off) with n by lia.
    + rewrite <- Hpl, Hc. f_equal. lia.
  - apply Hno. intros u pl' Hp. destruct Hp as [? _ _ _ ? ? Hu Hpl' Hlen' Hc'].
    assert (len pl' = m) as Hm'. { rewrite Hu in Hlen'. 
      change (udp_length (_ <| checksum := 0 |>)) with
        (udp_length (udp_of_bytes (zslice off 8 data))) in Hlen'. lia. }
    rewrite Hm' in Hpl'. fold pl in Hpl'. subst pl' u. rewrite Hc in Hc'.
    injection Hc' as ->. lia.
Qed.

(** A packet just built parses to what it was built from. *)
Lemma parse_udp4_built h u payload :
  version4_ihl4 h = 0x45 -> protocol h = 17 -> 28 + len payload < 65536 ->
  total_length h = hton16 (28 + len payload) -> wf_ipv4 h -> wf_udp u ->
  ipv4_checksum (h <| ip_checksum := hton16 0 |>) [] 0 = Some (ip_checksum h) ->
  udp_length u = hton16 (8 + len payload) ->
  udp_checksum (u <| checksum := 0 |>) payload (len payload) (source_address h)
    (destination_address h) = Some (checksum u) ->
  parse_udp4 (ipv4_bytes h ++ udp_bytes u ++ payload)
  = Some (Udp4 h (u <| checksum := 0 |>) payload).
Proof.
  intros Hv Hp Hmax Ht Hh Hu Hc Hul Huc. pose proof (len_nonneg payload).
  set (up := udp_bytes u ++ payload).
  assert (Hup : len up = 8 + len payload) by by unfold up; rewrite len_app, len_udp_bytes.
  set (data := ipv4_bytes h ++ up).
  assert (Hl : len data = 20 + len up) by by unfold data; rewrite len_app, len_ipv4_bytes.
  unfold parse_udp4, sizeof_ipv4_header, byte_at.
  replace (len data <? 20) with false by lia. rewrite load_Some by lia.
  cbn [mbind option_bind fmap option_fmap option_map].
  change (le_combine (zslice 9 1 data)) with (le_combine (le_split 1 (protocol h))).
  rewrite field_small by (rewrite Hp; done). rewrite Hp, Hl. cbn [negb Z.eqb].
  change (17 =? IPV4_PROTOCOL_UDP) with true. cbn [negb].
  assert (E : ipv4_check data (20 + len up) = Some (Some (h, 20, len up))).
  { apply ipv4_check_built; try done; [lia|rewrite Ht; f_equal; lia|].
    by apply ipv4_of_bytes_bytes. }
  rewrite E.
  cbn [mbind option_bind]. rewrite load_Some by lia. cbn [mbind option_bind].
  replace (zslice 20 (len up) data) with up.
  2: { unfold data. rewrite zslice_app_r, zslice_all; by rewrite ?len_ipv4_bytes. }
  assert (Eu : udp_check up (8 + len payload) = Some (Some (u, 8, len payload)))
    by (apply udp_check_built; try done; lia).
  rewrite Hup, Eu. cbn [mbind option_bind]. rewrite load_Some by lia. cbn [mbind option_bind].
  replace (zslice 8 (len payload) up) with payload.
  2: { unfold up. rewrite zslice_app_r, zslice_all; by rewrite ?len_udp_bytes. }
  rewrite Huc. cbn [mbind option_bind]. by rewrite Z.eqb_refl.
Qed.

Lemma ipv4_checksum_total h :
  exists c, ipv4_checksum h [] 0 = Some c /\ 0 <= c < 65536.
Proof.
  rewrite ipv4_checksum_spec by (try done; zlia). eexists. split; [done|]. apply hton16_range.
Qed.

(** The packet the relay sends for given headers. *)
Lemma dns_send_spec h u payload o :
  len payload < 65536 - 8 -> 28 + len payload <= len (device_write_buf o) ->
  28 + len payload <= tap_mtu o ->
  wp (dns_send h u payload) o (fun r o' calls =>
    r = true /\ exists buf ci cu,
    o' = o <| device_write_buf := buf |> /\ len buf = len (device_write_buf o) /\
    0 <= ci < 65536 /\ 0 <= cu < 65536 /\
    calls = [Tap_Send (ipv4_bytes (h <| ip_checksum := ci |>)
                       ++ udp_bytes (u <| checksum := cu |>) ++ payload)] /\
    ipv4_checksum (h <| ip_checksum := hton16 0 |>) [] 0 = Some ci /\
    udp_checksum (u <| checksum := 0 |>) payload (len payload) (source_address h)
      (destination_address h) = Some cu).
Proof.
  intros Hpl Hbuf Hmtu. unfold dns_send.
  destruct (ipv4_checksum_total (h <| ip_checksum := hton16 0 |>)) as (ci & Hci & ?).
  destruct (udp_checksum_total (u <| checksum := 0 |>) payload (source_address h)
    (destination_address h) Hpl) as (cu & Hcu & ?).
  hstep. eapply wp_of_option; [exact Hci|]. hstep. eapply wp_of_option; [exact Hcu|].
  apply wp_writes with (n := 28 + len payload);
    rewrite ?len_ipv4_bytes, ?len_udp_bytes; try done.
  intros buf Hload Hlen. hstep.
  eapply wp_BTap_Send_buf; [exact Hload|rewrite !len_app, len_ipv4_bytes, len_udp_bytes; cbn; lia|].
  hsteps. split; [done|]. by exists buf, ci, cu.
Qed.

(** *** IPv6 *)

Lemma len_ipv6_bytes h :
  len (source_address6 h) = 16 -> len (destination_address6 h) = 16 -> len (ipv6_bytes h) = 40.
Proof. intros H1 H2. unfold ipv6_bytes. rewrite !len_app, !len_split, H1, H2. lia. Qed.

(** What a parsed IPv6 packet is: the UDP header is the first after the IPv6 header. *)
Record udp6_packet (data : bytes) (h : ipv6_header) (u : udp_header) (payload : bytes) : Prop := {
  up6_size : 40 <= len data;
  up6_header : h = ipv6_of_bytes (zslice 0 40 data);
  up6_version : Z.shiftr (version4_tc4 h) 4 = 6;
  up6_next : next_header h = 17;
  up6_total : 8 + len payload <= ntoh16 (payload_length h) <= len data - 40;
  up6_udp : u = udp_of_bytes (zslice 40 8 data) <| checksum := 0 |>;
  up6_payload : payload = zslice 48 (len payload) data;
  up6_length : ntoh16 (udp_length u) = 8 + len payload;
  up6_cksum : udp_ip6_checksum u payload (len payload) (source_address6 h) (destination_address6 h)
              = Some (field 46 2 data);
}.

Lemma ipv6_check_spec data :
  exists r, ipv6_check data (len data) = Some r /\ forall h off n, r = Some (h, off, n) <->
    40 <= len data /\ h = ipv6_of_bytes (zslice 0 40 data) /\ off = 40 /\
    Z.shiftr (version4_tc4 h) 4 = 6 /\ n = ntoh16 (payload_length h) /\ 0 <= n <= len data - 40.
Proof.
  unfold ipv6_check, sizeof_ipv6_header. replace (len data <? 0) with false by zlia.
  destruct (len data <? 40) eqn:E; [exists None; split; [done|split; [done|lia]]|].
  rewrite load_Some by lia. cbn [mbind option_bind]. remember (ipv6_of_bytes (zslice 0 40 data)) as h eqn:Hh.
  assert (Hr : 0 <= ntoh16 (payload_length h) < 65536) by apply hton16_range.
  destruct (Z.shiftr (version4_tc4 h) 4 =? 6) eqn:Ev; cbn [negb].
  2: { exists None. split; [done|]. intros h' off n. split; [done|]. intros (_ & -> & _ & Hv & _). lia. }
  destruct (len data - 40 <? _) eqn:E2.
  { exists None. split; [done|]. intros h' off n. split; [done|]. intros (_ & -> & _ & _ & -> & Hn). lia. }
  eexists. split; [done|]. intros h' off n. split.
  - intros [= <- <- <-]. split_and!; try done; lia.
  - intros (_ & -> & -> & _ & -> & _). done.
Qed.

Lemma udp_ip6_checksum_total h data u payload : 40 <= len data -> h = ipv6_of_bytes (zslice 0 40 data) ->
  len payload < 65536 - 8 -> exists c, udp_ip6_checksum u payload (len payload) (source_address6 h) (destination_address6 h) = Some c.
Proof.
  intros Hl -> Hp. pose proof (len_nonneg payload).
  rewrite udp_ip6_checksum_value; [by eexists|lia|lia|cbn; rewrite len_zslice by (rewrite ?len_zslice; lia); lia..].
Qed.

Lemma parse_udp6_spec data :
  exists r, parse_udp6 data = Some r /\
    match r with
    | Not_udp => forall h u payload, ~ udp6_packet data h u payload
    | Udp4 _ _ _ => False
    | Udp6 h u payload => udp6_packet data h u payload
    end.
Proof.
  unfold parse_udp6, sizeof_ipv6_header, byte_at.
  destruct (len data <? 40) eqn:E0; [exists Not_udp; split; [done|intros ??? []; lia]|].
  rewrite load_Some by lia. cbn [mbind option_bind fmap option_fmap option_map].
  change (le_combine (zslice 6 1 data)) with (field 6 1 data).
  set (h := ipv6_of_bytes (zslice 0 40 data)).
  assert (Hnext : next_header h = field 6 1 data) by (apply field_load; lia).
  assert (Hno : (forall u payload, ~ udp6_packet data h u payload) ->
    exists r, Some Not_udp = Some r /\ match r with
      | Not_udp => forall h u payload, ~ udp6_packet data h u payload
      | Udp4 _ _ _ => False | Udp6 h u payload => udp6_packet data h u payload end).
  { intros Hno. exists Not_udp. split; [done|]. intros h' u pl Hp.
    assert (h' = h) as -> by apply Hp. by destruct (Hno u pl). }
  destruct (field 6 1 data =? IPV6_NEXT_UDP) eqn:E1; cbn [negb]; unfold IPV6_NEXT_UDP in E1.
  2: { apply Hno. intros u pl []. lia. }
  destruct (ipv6_check_spec data) as (r & -> & Hr). cbn [mbind option_bind].
  destruct r as [[[h' off] n]|].
  2: { apply Hno. intros u pl []. pose proof (len_nonneg pl).
       by discriminate (proj2 (Hr h 40 (ntoh16 (payload_length h))) ltac:(split_and!; try done; lia)). }
  destruct (proj1 (Hr h' off n) eq_refl) as (_ & -> & -> & Hv & -> & Hn). fold h in Hv, Hn |- *.
  set (n := ntoh16 (payload_length h)) in *.
  rewrite load_Some by lia. cbn [mbind option_bind]. set (d := zslice 40 n data).
  assert (Hd : len d = n) by (apply len_zslice; lia).
  destruct (udp_part d) as (ru & -> & Hru). cbn [mbind option_bind].
  destruct ru as [[[u o8] m]|].
  2: { apply Hno. intros u pl Hp. destruct Hp as [_ _ _ _ Htot Hu _ Hlen _]. pose proof (len_nonneg pl). fold n in Htot.
       destruct (udp_part_field 40 n data) as [Hz _]; [lia..|]. fold d in Hz.
       discriminate (proj2 (Hru (udp_of_bytes (zslice 0 8 d)) 8 (len pl))
         ltac:(rewrite Hz; split_and!; [done|lia|lia|done|by subst u])). }
  destruct (proj1 (Hru u o8 m) eq_refl) as (-> & Hm & Hmn & -> & Hlen).
  destruct (udp_part_field 40 n data) as [Hz Hck]; [lia..|]. fold d in Hz. rewrite Hz in *.
  rewrite load_Some by lia. cbn [mbind option_bind].
  assert (Hpd : zslice 8 m d = zslice 48 m data) by (apply (zslice_zslice 8 m 40); lia).
  rewrite Hpd. set (pl := zslice 48 m data) in *.
  assert (Hpl : len pl = m) by (apply len_zslice; lia).
  assert (Hlr : 8 + m < 65536) by (rewrite <- Hlen; apply hton16_range). rewrite Hck.
  destruct (udp_ip6_checksum_total h data (udp_of_bytes (zslice 40 8 data) <| checksum := 0 |>) pl)
    as (c & Hc); [lia|done|lia|].
  rewrite Hc. cbn [mbind option_bind]. destruct (_ =? c) eqn:Ec.
  - eexists. split; [done|]. constructor; try done; rewrite ?Hpl; try done; [lia..|].
    rewrite <- Hpl, Hc. f_equal. change (field 46 2 data) with (field (40 + 6) 2 data). lia.
  - apply Hno. intros u pl' Hp. destruct Hp as [_ _ _ _ _ Hu Hpl' Hlen' Hc'].
    assert (len pl' = m) as Hm'. { rewrite Hu in Hlen'.
      change (udp_length (_ <| checksum := 0 |>)) with
        (udp_length (udp_of_bytes (zslice 40 8 data))) in Hlen'. lia. }
    rewrite Hm' in Hpl'. fold pl in Hpl'. subst pl' u. rewrite Hc in Hc'. injection Hc' as ->.
    change (field 46 2 data) with (field (40 + 6) 2 data) in Ec. lia.
Qed.

Lemma parse_udp6_built h u payload :
  version4_tc4 h = 0x60 -> tc4_fl4 h = 0 -> fl h = 0 -> next_header h = 17 -> hop_limit h = 64 ->
  len (source_address6 h) = 16 -> len (destination_address6 h) = 16 ->
  8 + len payload < 65536 -> payload_length h = hton16 (8 + len payload) -> wf_udp u ->
  udp_length u = hton16 (8 + len payload) ->
  udp_ip6_checksum (u <| checksum := 0 |>) payload (len payload) (source_address6 h)
    (destination_address6 h) = Some (checksum u) ->
  parse_udp6 (ipv6_bytes h ++ udp_bytes u ++ payload)
  = Some (Udp6 h (u <| checksum := 0 |>) payload).
Proof.
  intros Hv Htc Hfl Hnh Hhop Hs Hd Hmax Ht Hu Hul Huc. pose proof (len_nonneg payload).
  set (up := udp_bytes u ++ payload).
  assert (Hup : len up = 8 + len payload) by by unfold up; rewrite len_app, len_udp_bytes.
  set (data := ipv6_bytes h ++ up).
  assert (Hl : len data = 40 + len up) by by unfold data; rewrite len_app, len_ipv6_bytes.
  assert (Hz : zslice 0 40 data = ipv6_bytes h)
    by (apply zslice_app_l; by rewrite len_ipv6_bytes).
  assert (Hpr : 0 <= payload_length h < 65536) by (rewrite Ht; apply hton16_range).
  assert (Hh : ipv6_of_bytes (ipv6_bytes h) = h).
  { assert (E1 : zslice 8 16 (ipv6_bytes h) = source_address6 h).
    { change (zslice 8 16 (ipv6_bytes h))
        with (zslice 0 16 (source_address6 h ++ destination_address6 h)).
      apply zslice_app_l. lia. }
    assert (E2 : zslice 24 16 (ipv6_bytes h) = destination_address6 h).
    { change (zslice 24 16 (ipv6_bytes h))
        with (zslice 16 16 (source_address6 h ++ destination_address6 h)).
      rewrite zslice_app_r by lia. apply zslice_all. lia. }
    unfold ipv6_of_bytes. rewrite E1, E2.
    change (field 0 1 (ipv6_bytes h)) with (le_combine (le_split 1 (version4_tc4 h))).
    change (field 1 1 (ipv6_bytes h)) with (le_combine (le_split 1 (tc4_fl4 h))).
    change (field 2 2 (ipv6_bytes h)) with (le_combine (le_split 2 (fl h))).
    change (field 4 2 (ipv6_bytes h)) with (le_combine (le_split 2 (payload_length h))).
    change (field 6 1 (ipv6_bytes h)) with (le_combine (le_split 1 (next_header h))).
    change (field 7 1 (ipv6_bytes h)) with (le_combine (le_split 1 (hop_limit h))).
    rewrite !field_small by (rewrite ?Hv, ?Htc, ?Hfl, ?Hnh, ?Hhop; done). by destruct h. }
  unfold parse_udp6, sizeof_ipv6_header, byte_at.
  replace (len data <? 40) with false by lia. rewrite load_Some by lia.
  cbn [mbind option_bind fmap option_fmap option_map].
  change (le_combine (zslice 6 1 data)) with (le_combine (le_split 1 (next_header h))).
  rewrite field_small by (rewrite Hnh; done). rewrite Hnh.
  change (17 =? IPV6_NEXT_UDP) with true. cbn [negb].
  assert (E : ipv6_check data (len data) = Some (Some (h, 40, len up))).
  { unfold ipv6_check, sizeof_ipv6_header. replace (len data <? 0) with false by lia.
    replace (len data <? 40) with false by lia. rewrite load_Some, Hz by lia.
    cbn [mbind option_bind]. rewrite Hh, Hv, Ht, ntoh16_hton16 by lia.
    change (Z.shiftr 96 4 =? 6) with true. cbn [negb].
    replace (len data - 40 <? 8 + len payload) with false by lia. by rewrite Hup. }
  rewrite E. cbn [mbind option_bind]. rewrite load_Some by lia. cbn [mbind option_bind].
  replace (zslice 40 (len up) data) with up.
  2: { unfold data. rewrite zslice_app_r, zslice_all; by rewrite ?len_ipv6_bytes. }
  assert (Eu : udp_check up (8 + len payload) = Some (Some (u, 8, len payload)))
    by (apply udp_check_built; try done; lia).
  rewrite Hup, Eu. cbn [mbind option_bind]. rewrite load_Some by lia. cbn [mbind option_bind].
  replace (zslice 8 (len payload) up) with payload.
  2: { unfold up. rewrite zslice_app_r, zslice_all; by rewrite ?len_udp_bytes. }
  rewrite Huc. cbn [mbind option_bind]. by rewrite Z.eqb_refl.
Qed.

(** *** The state between packets *)

Definition wf_ipv4_addr (a : BAddr) : Prop :=
  exists ip port, a = BAddr_IPv4 ip port /\ 0 <= ip < 2 ^ 32 /\ 0 <= port < 2 ^ 16.

Record dev_ok (o : device) : Prop := {
  d_buf : len (device_write_buf o) = tap_mtu o;
  d_netif : 0 <= netif_ipaddr o < 2 ^ 32;
  d_dnsgw : 0 <= dnsgw_ip o < 2 ^ 32 /\ 0 <= dnsgw_port o < 2 ^ 16;
  d_conns : forall port c, connections_tree o !! port = Some c ->
    con_port c = port /\ 1 <= count c < INT_MAX /\ wf_ipv4_addr (local_addr c)
    /\ wf_ipv4_addr (remote_addr c);
  d_init : dns_init o = false -> connections_tree o = ∅;
}.

Lemma dev_ok_buf o buf :
  dev_ok o -> len buf = len (device_write_buf o) -> dev_ok (o <| device_write_buf := buf |>).
Proof. intros [] Hb. constructor; try done. cbn. congruence. Qed.

(** What the relay sends for a packet [data], with the headers it gave it:
    a well-formed packet exactly when the length in the IPv4 header is still
    right, that is when [data] has no IPv4 options and nothing after the UDP
    payload; otherwise a packet [ipv4_check] rejects. *)
Definition relayed (data pkt : bytes) (h : ipv4_header) (u : udp_header) (payload : bytes)
    : Prop :=
  if be16_at 2 data =? 28 + len payload
  then exists c, parse_udp4 pkt = Some (Udp4 (h <| ip_checksum := c |>) u payload)
  else ipv4_check pkt (len pkt) = Some None.

Lemma be16_total h k : wf_ipv4 h -> be16_at 2 (ipv4_bytes h ++ k) = ntoh16 (total_length h).
Proof.
  intros Hw. rewrite <- ntoh16_field by (try rewrite len_app, len_ipv4_bytes; zlia). f_equal.
  change (field 2 2 (ipv4_bytes h ++ k)) with (le_combine (le_split 2 (total_length h))).
  apply field_small, (wf4_len _ Hw).
Qed.

Lemma relayed_sent data h u payload off s d sp dp ci cu
    (h1 := h <| source_address := s |> <| destination_address := d |>)
    (u1 := u <| source_port := sp |> <| dest_port := dp |>) :
  udp4_packet data h u payload off ->
  0 <= s < 2 ^ 32 -> 0 <= d < 2 ^ 32 -> 0 <= sp < 2 ^ 16 -> 0 <= dp < 2 ^ 16 ->
  0 <= ci < 65536 -> 0 <= cu < 65536 ->
  ipv4_checksum (h1 <| ip_checksum := hton16 0 |>) [] 0 = Some ci ->
  udp_checksum (u1 <| checksum := 0 |>) payload (len payload) s d = Some cu ->
  relayed data (ipv4_bytes (h1 <| ip_checksum := ci |>) ++ udp_bytes (u1 <| checksum := cu |>)
                ++ payload) h1 u1 payload.
Proof.
  intros Hp Hs Hd Hsp Hdp Hci Hcu Hick Huck. pose proof (len_nonneg payload).
  destruct Hp as [Hl Hh Hpr [Hoff Hoff20] [Ht Ht2] Hv Hu Hpl Hul _].
  assert (Hwh : wf_ipv4 (h1 <| ip_checksum := ci |>)).
  { destruct (wf_ipv4_of_bytes (zslice 0 20 data)). subst h. by constructor. }
  assert (Hwu : wf_udp (u1 <| checksum := cu |>)).
  { destruct (wf_udp_of_bytes (zslice off 8 data)). subst u. by constructor. }
  assert (Htl : ntoh16 (total_length h) = be16_at 2 data).
  { destruct (ipv4_fields data Hl) as (_ & _ & E & _). by rewrite Hh. }
  unfold relayed. destruct (be16_at 2 data =? 28 + len payload) eqn:E.
  - exists ci. destruct Hv as [Hv4 _ _ _]. pose proof (Z.div_mod (field 0 1 data) 16).
    assert (Hv45 : version4_ihl4 h = field 0 1 data) by (subst h; apply field_load; lia).
    assert (Hmax := be16_at_range 2 data ltac:(lia) ltac:(lia)).
    assert (Hu0 : u1 <| checksum := cu |> <| checksum := 0 |> = u1)
      by (unfold u1; rewrite Hu; reflexivity).
    rewrite <- Hu0 at 2. apply parse_udp4_built; [| | | |exact Hwh|exact Hwu|exact Hick| |exact Huck].
    + change (version4_ihl4 h = 0x45). lia.
    + exact Hpr.
    + lia.
    + change (total_length h = hton16 (28 + len payload)).
      rewrite <- (hton16_ntoh16 (total_length h)) by (subst h; apply wf_ipv4_of_bytes).
      f_equal. lia.
    + change (udp_length u = hton16 (8 + len payload)). 
      rewrite <- (hton16_ntoh16 (udp_length u)) by (subst u; apply (wfu_len _ (wf_udp_of_bytes _))).
      f_equal. lia.
  - set (pkt := _ ++ _). destruct (ipv4_check_correct pkt) as ([[[h' o'] n']|] & -> & Hr);
      [exfalso|done].
    destruct (proj1 (Hr h' o' n') eq_refl) as (_ & _ & [_ _ (_ & Hb & _ & Hle) _]).
    unfold pkt in Hb, Hle. rewrite be16_total in Hb by done.
    rewrite !len_app, len_ipv4_bytes, len_udp_bytes in Hle.
    change (total_length (h1 <| ip_checksum := ci |>)) with (total_length h) in Hb. lia.
Qed.

(** A rewritten packet is sent, whatever its addresses. *)
Lemma wp_relay data h u payload off s d sp dp o
    (h1 := h <| source_address := s |> <| destination_address := d |>)
    (u1 := u <| source_port := sp |> <| dest_port := dp |>) :
  udp4_packet data h u payload off -> len data <= tap_mtu o -> dev_ok o ->
  0 <= s < 2 ^ 32 -> 0 <= d < 2 ^ 32 -> 0 <= sp < 2 ^ 16 -> 0 <= dp < 2 ^ 16 ->
  wp (dns_send h1 u1 payload) o (fun r o' calls =>
    r = true /\ exists pkt, calls = [Tap_Send pkt] /\ relayed data pkt h1 u1 payload /\
    exists buf, o' = o <| device_write_buf := buf |> /\ dev_ok o').
Proof.
  intros Hp Hmtu Hok Hs Hd Hsp Hdp. pose proof (d_buf _ Hok).
  assert (Hlen : 28 + len payload <= len data /\ len payload < 65536 - 8).
  { destruct Hp as [Hl _ _ Hoff Ht _ _ _ _ _].
    pose proof (be16_at_range 2 data ltac:(lia) ltac:(lia)). lia. }
  eapply wp_mono; [apply dns_send_spec; lia|].
  intros r o' calls (-> & buf & ci & cu & -> & Hb & Hci & Hcu & -> & Hick & Huck).
  split; [done|]. eexists. split; [done|]. split; [by eapply relayed_sent|].
  exists buf. split; [done|]. by apply dev_ok_buf.
Qed.

Lemma parse_udp4_complete data h u payload off :
  udp4_packet data h u payload off -> parse_udp4 data = Some (Udp4 h u payload).
Proof.
  intros Hp. destruct (parse_udp4_spec data) as (r & Hr & Hspec). destruct r as [|h' u' pl'|].
  - by destruct (Hspec _ _ _ _ Hp).
  - destruct Hspec as [off' Hp']. rewrite Hr. f_equal.
    destruct Hp as [_ -> _ [-> _] _ _ -> Hpl Hlen _], Hp' as [_ -> _ [-> _] _ _ -> Hpl' Hlen' _].
    assert (len payload = len pl') as E by (rewrite Hlen in Hlen'; lia).
    rewrite Hpl, Hpl', E. done.
  - done.
Qed.

Lemma parse_udp4_sound data h u payload :
  parse_udp4 data = Some (Udp4 h u payload) ->
  udp4_packet data h u payload (4 * (field 0 1 data mod 16)).
Proof.
  intros Hp. destruct (parse_udp4_spec data) as (r & Hr & Hspec). rewrite Hp in Hr.
  injection Hr as <-. destruct Hspec as [off Ho]. by rewrite <- (proj1 (up_off _ _ _ _ _ Ho)).
Qed.

Lemma packet_version data h u payload off :
  udp4_packet data h u payload off -> ip_version_of data = 4.
Proof.
  intros [Hl _ _ _ _ [Hv _ _ _] _ _ _ _]. destruct data as [|b data]; [zlia|].
  change (field 0 1 (b :: data)) with (le_combine [b]) in Hv.
  rewrite le_combine_cons in Hv. change (le_combine []) with 0 in Hv.
  cbn [ip_version_of]. rewrite Z.shiftr_div_pow2 by lia. change (2 ^ 4) with 16.
  by replace (b2z b) with (b2z b + 256 * 0) by lia.
Qed.

Lemma packet_ranges data h u payload off :
  udp4_packet data h u payload off -> wf_ipv4 h /\ wf_udp u.
Proof.
  intros [_ -> _ _ _ _ -> _ _ _]. split; [apply wf_ipv4_of_bytes|].
  by destruct (wf_udp_of_bytes (zslice off 8 data)).
Qed.

Lemma parse_udp6_complete data h u payload :
  udp6_packet data h u payload -> parse_udp6 data = Some (Udp6 h u payload).
Proof.
  intros Hp. destruct (parse_udp6_spec data) as (r & Hr & Hspec). destruct r as [| |h' u' pl'].
  - by destruct (Hspec _ _ _ Hp).
  - done.
  - rewrite Hr. f_equal. destruct Hp as [_ -> _ _ _ -> Hpl Hlen _], Hspec as [_ -> _ _ _ -> Hpl' Hlen' _].
    assert (len payload = len pl') as E by (rewrite Hlen in Hlen'; lia).
    rewrite Hpl, Hpl', E. done.
Qed.
Lemma packet6_version data h u payload : udp6_packet data h u payload -> ip_version_of data = 6.
Proof.
  intros [Hl -> Hv _ _ _ _ _ _]. destruct data as [|b data]; [zlia|].
  change (version4_tc4 _) with (field 0 1 (zslice 0 40 (b :: data))) in Hv. rewrite field_load in Hv by lia.
  change (field 0 1 (b :: data)) with (le_combine [b]) in Hv.
  rewrite le_combine_cons in Hv. change (le_combine []) with 0 in Hv.
  cbn [ip_version_of]. by replace (b2z b) with (b2z b + 256 * 0) by lia.
Qed.

(** What a packet is parsed as, by its version. *)
Lemma udp_packet_parsed o data : exists r,
  (if ip_version_of data =? 4 then parse_udp4 data
   else if ip_version_of data =? 6 then if opt_netif_ip6addr o then parse_udp6 data else Some Not_udp
   else Some Not_udp) = Some r /\
  (forall h u payload, r = Udp4 h u payload <-> exists off, udp4_packet data h u payload off) /\
  (forall h u payload, r = Udp6 h u payload <-> udp6_packet data h u payload /\ opt_netif_ip6addr o = true).
Proof.
  destruct (ip_version_of data =? 4) eqn:E4; [|destruct (ip_version_of data =? 6) eqn:E6; [destruct (opt_netif_ip6addr o)|]].
  - destruct (parse_udp4_spec data) as (r & Hr & Hspec). exists r. split_and!; [done|intros h u pl..]; split.
    + intros ->. done.
    + intros [off Hp]. rewrite (parse_udp4_complete _ _ _ _ _ Hp) in Hr. by injection Hr.
    + intros ->. done.
    + intros [Hp _]. rewrite (packet6_version _ _ _ _ Hp) in E4. done.
  - destruct (parse_udp6_spec data) as (r & Hr & Hspec). exists r. split_and!; [done|intros h u pl..]; split.
    + intros ->. done.
    + intros [off Hp]. by rewrite (packet_version _ _ _ _ _ Hp) in E4.
    + intros ->. done.
    + intros [Hp _]. rewrite (parse_udp6_complete _ _ _ _ Hp) in Hr. by injection Hr.
  - exists Not_udp. split_and!; [done|intros h u pl..]; (split; [done|]).
    + intros [off Hp]. by rewrite (packet_version _ _ _ _ _ Hp) in E4.
    + by intros [_ ?].
  - exists Not_udp. split_and!; [done|intros h u pl..]; (split; [done|]).
    + intros [off Hp]. by rewrite (packet_version _ _ _ _ _ Hp) in E4.
    + intros [Hp _]. by rewrite (packet6_version _ _ _ _ Hp) in E6.
Qed.

(** The addresses a DNS query leaves under its port. *)
Definition query_conn (o : device) (h : ipv4_header) (u : udp_header) : Connection :=
  match connections_tree o !! source_port u with
  | Some c => c <| count := count c + 1 |>
  | None => mk_connection (BAddr_IPv4 (source_address h) (source_port u))
              (BAddr_IPv4 (destination_address h) (dest_port u)) (source_port u) 1
  end.

Lemma insert_connection_spec o h u :
  dev_ok o ->
  insert_connection true (BAddr_IPv4 (source_address h) (source_port u))
    (BAddr_IPv4 (destination_address h) (dest_port u)) (source_port u) (connections_tree o)
  = Some (<[source_port u := query_conn o h u]> (connections_tree o)).
Proof.
  intros Hok. unfold insert_connection, find_connection, query_conn.
  destruct (connections_tree o !! source_port u) as [c|] eqn:E; [|done].
  destruct (d_conns _ Hok _ _ E) as (_ & Hc & _).
  rewrite to_int_small; [done|]. unfold INT_MAX in Hc. lia.
Qed.

(** Removing a connection just entered undoes the insertion. *)
Lemma remove_inserted o h u :
  dev_ok o -> count (query_conn o h u) < INT_MAX ->
  remove_connection (query_conn o h u)
    (<[source_port u := query_conn o h u]> (connections_tree o)) = connections_tree o.
Proof.
  intros Hok. unfold remove_connection, query_conn.
  destruct (connections_tree o !! source_port u) as [c|] eqn:E; cbn; intros Hc.
  - destruct (d_conns _ Hok _ _ E) as (Hport & Hcnt & _). unfold INT_MAX in *.
    rewrite to_int_small by lia. replace (count c + 1 - 1 <=? 0) with false by lia.
    rewrite Hport, insert_insert_eq. replace (count c + 1 - 1) with (count c) by lia.
    rewrite insert_id; [done|]. rewrite E, <- Hport. by destruct c.
  - change (to_int (1 - 1) <=? 0) with true. cbn iota.
    rewrite delete_insert_eq, delete_id; done.
Qed.

Lemma dns_query_spec o data h u payload off :
  dev_ok o -> len data <= tap_mtu o -> udp4_packet data h u payload off ->
  count (query_conn o h u) < INT_MAX ->
  wp (dns_query true h u payload) o (fun r o' calls =>
    r = true /\ exists pkt buf, calls = [Tap_Send pkt] /\
    relayed data pkt (h <| source_address := netif_ipaddr o |>
                        <| destination_address := dnsgw_ip o |>)
                     (u <| dest_port := dnsgw_port o |>) payload /\
    o' = o <| dns_init := true |>
           <| connections_tree := <[source_port u := query_conn o h u]> (connections_tree o) |>
           <| device_write_buf := buf |> /\ dev_ok o').
Proof.
  intros Hok Hmtu Hp Hcnt. destruct (packet_ranges _ _ _ _ _ Hp) as [Hwh Hwu].
  assert (Hpre : wp (if dns_init o then mret tt
     else modify (fun o => o <| dns_init := true |> <| connections_tree := ∅ |>)) o
    (fun _ o' (calls : list out) => calls = [] /\ o' = o <| dns_init := true |>)).
  { destruct (dns_init o) eqn:Ei; hsteps; (split; [done|]).
    - destruct o. cbn in *. by subst.
    - pose proof (d_init _ Hok Ei) as E. destruct o. cbn in *. by subst. }
  unfold dns_query. hstep. hstep. hstep. eapply wp_mono; [exact Hpre|].
  intros _ o1 c1 [-> ->]. hsteps.
  eapply wp_of_option; [exact (insert_connection_spec o h u Hok)|]. hsteps.
  lazymatch goal with |- wp _ ?x _ => set (o2 := x) end.
  assert (Hok2 : dev_ok o2).
  { destruct Hok as [B N G C I]. constructor; try done. intros port c.
    change (connections_tree o2) with
      (<[source_port u := query_conn o h u]> (connections_tree o)).
    intros [[<- <-]|[_ ?]]%lookup_insert_Some; [|eauto].
    unfold query_conn in *. destruct (_ !! _) as [c'|] eqn:E; cbn in *.
    - destruct (C _ _ E) as (? & ? & ?). split_and!; [done|lia|lia|tauto..].
    - destruct Hwh, Hwu. unfold INT_MAX, wf_ipv4_addr. split_and!; [done|lia|lia|eauto..]. }
  eapply wp_mono; [apply (wp_relay data h u payload off (netif_ipaddr o) (dnsgw_ip o)
    (source_port u) (dnsgw_port o) o2); try done; try apply Hok; apply Hwu|].
  cbn. intros r o' calls (-> & pkt & -> & Hrel & buf & -> & Hok'). split; [done|].
  exists pkt, buf. split_and!; [done| |done|done].
  by replace (u <| dest_port := dnsgw_port o |>)
    with (u <| source_port := source_port u |> <| dest_port := dnsgw_port o |>)
    by (destruct u; done).
Qed.

Lemma dns_answer_spec o data h u payload off :
  dev_ok o -> len data <= tap_mtu o -> udp4_packet data h u payload off ->
  dns_init o = true ->
  match connections_tree o !! dest_port u with
  | None => dns_answer h u payload o = Some (false, o, [])
  | Some con =>
      exists lip lport rip rport, local_addr con = BAddr_IPv4 lip lport /\
        remote_addr con = BAddr_IPv4 rip rport /\
      wp (dns_answer h u payload) o (fun r o' calls =>
        r = true /\ exists pkt buf, calls = [Tap_Send pkt] /\
        relayed data pkt (h <| source_address := rip |> <| destination_address := lip |>)
          (u <| source_port := rport |>) payload /\
        o' = o <| connections_tree := remove_connection con (connections_tree o) |>
               <| device_write_buf := buf |> /\ dev_ok o')
  end.
Proof.
  intros Hok Hmtu Hp Hinit. destruct (packet_ranges _ _ _ _ _ Hp) as [Hwh Hwu].
  destruct (connections_tree o !! dest_port u) as [con|] eqn:E.
  - destruct (d_conns _ Hok _ _ E) as (Hport & Hcnt & (lip & lport & Hl & ? & ?)
      & (rip & rport & Hr & ? & ?)).
    exists lip, lport, rip, rport. split_and!; [done..|].
    unfold dns_answer. hstep. hstep. rewrite Hinit. cbn. unfold find_connection. rewrite E.
    hstep. eapply wp_of_option; [by rewrite Hr|]. hstep. eapply wp_of_option; [by rewrite Hl|].
    hstep. eapply wp_of_option; [by rewrite Hr|]. hstep. hstep.
    lazymatch goal with |- wp _ ?x _ => set (o2 := x) end.
    assert (Hok2 : dev_ok o2).
    { destruct Hok as [B N G C I]. constructor; try done; [|by cbn; rewrite Hinit].
      intros port c. cbn. unfold remove_connection. cbn.
      rewrite to_int_small by (unfold INT_MAX in *; lia).
      destruct (count con - 1 <=? 0) eqn:Ec; rewrite Hport.
      - intros [_ ?]%lookup_delete_Some. eauto.
      - intros [[<- <-]|[_ ?]]%lookup_insert_Some; [|eauto]. cbn.
        split_and!; [done|lia|lia|by exists lip, lport|by exists rip, rport]. }
    eapply wp_mono; [apply (wp_relay data h u payload off rip lip rport (dest_port u) o2);
      try done; apply Hwu|].
    cbn. intros r o' calls (-> & pkt & -> & Hrel & buf & -> & Hok'). split; [done|].
    exists pkt, buf. split_and!; [done| |done|done].
    by replace (u <| source_port := rport |>)
      with (u <| source_port := rport |> <| dest_port := dest_port u |>) by (destruct u; done).
  - unfold dns_answer, mbind, handler_bind, get. rewrite Hinit. cbn.
    unfold find_connection. by rewrite E.
Qed.

(** *** Packets from the udpgw client *)

Lemma received4_spec o lip lport rip rport data :
  dev_ok o -> opt_udpgw_remote_server_addr o = true -> 28 + len data <= tap_mtu o ->
  28 + len data < 65536 -> wf_ipv4_addr (BAddr_IPv4 lip lport) -> wf_ipv4_addr (BAddr_IPv4 rip rport) ->
  wp (udpgw_client_handler_received (BAddr_IPv4 lip lport) (BAddr_IPv4 rip rport) data) o
    (fun _ o' calls => dev_ok o' /\ (exists buf, o' = o <| device_write_buf := buf |>) /\
       exists pkt h u, calls = [Tap_Send pkt] /\
       parse_udp4 pkt = Some (Udp4 h u data) /\ ip_version_of pkt = 4 /\
       source_address h = rip /\ destination_address h = lip /\
       source_port u = rport /\ dest_port u = lport).
Proof.
  intros Hok Hgw Hm Hmax (? & ? & [= <- <-] & Hlip & Hlport) (? & ? & [= <- <-] & Hrip & Hrport).
  pose proof (d_buf _ Hok). pose proof (len_nonneg data).
  unfold udpgw_client_handler_received, sizeof_ipv4_header, sizeof_udp_header, UINT16_MAX.
  hstep. hstep. hstep. hstep; [done|].
  replace ((2 ^ 16 - 1 - (20 + 8) <? len data) || (tap_mtu o - (20 + 8) <? len data))
    with false by lia.
  rewrite !to_u16_small by lia.
  set (h0 := mk_ipv4_header _ _ _ _ _ _ _ _ _ _). set (u0 := mk_udp_header _ _ _ _).
  destruct (ipv4_checksum_total h0) as (ci & Hci & Hcir).
  destruct (udp_checksum_total u0 data rip lip) as (cu & Hcu & Hcur); [lia|].
  hstep. eapply wp_of_option; [exact Hci|]. hstep. eapply wp_of_option; [exact Hcu|].
  assert (Hh : wf_ipv4 (h0 <| ip_checksum := ci |>))
    by (constructor; try done; apply hton16_range).
  assert (Hu : wf_udp (u0 <| checksum := cu |>)) by (constructor; try done; apply hton16_range).
  apply wp_writes with (n := 28 + len data); rewrite ?len_ipv4_bytes, ?len_udp_bytes; try done;
    try lia. intros buf Hload Hlen.
  eapply wp_BTap_Send_buf; [exact Hload|rewrite !len_app, len_ipv4_bytes, len_udp_bytes; cbn; lia|].
  split; [by apply dev_ok_buf|]. split; [by eexists|].
  eexists _, (h0 <| ip_checksum := ci |>), (u0 <| checksum := cu |> <| checksum := 0 |>).
  split; [done|]. split; [|done].
  by apply parse_udp4_built.
Qed.

Lemma received6_spec o lip lport rip rport data :
  dev_ok o -> opt_udpgw_remote_server_addr o = true -> opt_netif_ip6addr o = true ->
  48 + len data <= tap_mtu o -> 8 + len data < 65536 -> len lip = 16 -> len rip = 16 ->
  0 <= lport < 2 ^ 16 -> 0 <= rport < 2 ^ 16 ->
  wp (udpgw_client_handler_received (BAddr_IPv6 lip lport) (BAddr_IPv6 rip rport) data) o
    (fun _ o' calls => dev_ok o' /\ (exists buf, o' = o <| device_write_buf := buf |>) /\
       exists pkt h u, calls = [Tap_Send pkt] /\
       parse_udp6 pkt = Some (Udp6 h u data) /\ ip_version_of pkt = 6 /\
       source_address6 h = rip /\ destination_address6 h = lip /\
       source_port u = rport /\ dest_port u = lport).
Proof.
  intros Hok Hgw H6 Hm Hmax Hlip Hrip Hlport Hrport.
  pose proof (d_buf _ Hok). pose proof (len_nonneg data).
  unfold udpgw_client_handler_received, sizeof_ipv6_header, sizeof_udp_header, UINT16_MAX.
  hstep. hstep. hstep. hstep; [done|]. rewrite H6. cbn [negb]. cbn iota.
  replace ((2 ^ 16 - 1 - 8 <? len data) || (tap_mtu o - (40 + 8) <? len data))
    with false by lia.
  rewrite !to_u16_small by lia.
  set (h0 := mk_ipv6_header _ _ _ _ _ _ _ _). set (u0 := mk_udp_header _ _ _ _).
  assert (Hcu : exists cu, udp_ip6_checksum u0 data (len data) rip lip = Some cu
    /\ 0 <= cu < 65536).
  { rewrite udp_ip6_checksum_value by lia. eexists. split; [done|]. apply hton16_range. }
  destruct Hcu as (cu & Hcu & Hcur). hstep. eapply wp_of_option; [exact Hcu|].
  assert (Hu : wf_udp (u0 <| checksum := cu |>)) by (constructor; try done; apply hton16_range).
  assert (Hl6 : len (ipv6_bytes h0) = 40) by by apply len_ipv6_bytes.
  apply wp_writes with (n := 48 + len data); rewrite ?Hl6, ?len_udp_bytes; try done; try lia.
  intros buf Hload Hlen.
  eapply wp_BTap_Send_buf; [exact Hload|rewrite !len_app, Hl6, len_udp_bytes; cbn; lia|].
  split; [by apply dev_ok_buf|]. split; [by eexists|].
  eexists _, h0, (u0 <| checksum := cu |> <| checksum := 0 |>).
  split; [done|]. split; [|done]. by apply parse_udp6_built.
Qed.

(** *** Totality *)

(** What [process_device_dns_packet] can do, whatever the packet. *)
Lemma dns_packet_total o data :
  dev_ok o -> len data <= tap_mtu o ->
  (forall port c, connections_tree o !! port = Some c -> count c + 1 < INT_MAX) ->
  wp (process_device_dns_packet true data) o (fun r o' calls =>
    dev_ok o' /\ quitting o' = quitting o /\
    if r : bool then exists pkt, calls = [Tap_Send pkt] else o' = o /\ calls = []).
Proof.
  intros Hok Hm Hcnt. unfold process_device_dns_packet. hstep. hstep.
  destruct (opt_dnsgw o); cbn; [|by hstep]. destruct (_ =? 4); [|by hstep].
  destruct (parse_udp4_spec data) as (r & Hr & Hspec). hstep.
  eapply wp_of_option; [exact Hr|]. destruct r as [|h u payload|]; [by hstep| |done].
  destruct Hspec as [off Hp]. cbn beta iota zeta.
  destruct (negb _ && negb _); [by hstep|].
  destruct (dest_port u =? hton16 53).
  - eapply wp_mono; [apply (dns_query_spec o data h u payload off Hok Hm Hp)|].
    + unfold query_conn. destruct (_ !! _) eqn:E; [by apply (Hcnt _ _ E)|done].
    + intros r o' calls (-> & pkt & buf & -> & _ & -> & Hok'). split; [done|]. split; [done|].
      by exists pkt.
  - destruct (dns_init o) eqn:Ei.
    + assert (Ha := dns_answer_spec o data h u payload off Hok Hm Hp Ei).
      destruct (connections_tree o !! dest_port u) as [con|].
      * destruct Ha as (lip & lport & rip & rport & _ & _ & Ha).
        eapply wp_mono; [exact Ha|].
        intros r o' calls (-> & pkt & buf & -> & _ & -> & Hok'). split; [done|].
        split; [done|]. by exists pkt.
      * unfold wp. by rewrite Ha.
    + unfold dns_answer. hstep. hstep. rewrite Ei. by hstep.
Qed.

Lemma udp_packet_total o data :
  wp (process_device_udp_packet data) o (fun r o' calls => o' = o /\
    if r : bool then exists l m dns p, calls = [SocksUdpGwClient_SubmitPacket l m dns p]
    else calls = []).
Proof.
  unfold process_device_udp_packet. hstep. hstep.
  destruct (opt_udpgw_remote_server_addr o); cbn; [|by hstep]. hstep.
  assert (Hr : exists r, (if ip_version_of data =? 4 then parse_udp4 data
     else if ip_version_of data =? 6
       then if opt_netif_ip6addr o then parse_udp6 data else Some Not_udp else Some Not_udp)
     = Some r).
  { destruct (parse_udp4_spec data) as (r4 & -> & _).
    destruct (parse_udp6_spec data) as (r6 & -> & _). repeat case_match; eauto. }
  destruct Hr as [r Hr]. eapply wp_of_option; [exact Hr|].
  destruct r; cbn beta iota; [by hstep| |]; (destruct (_ <? _); [by hstep|]); hsteps; eauto 7.
Qed.

Lemma copy_chain_spec p : forall n o,
  0 <= n -> len (device_write_buf o) = tap_mtu o -> n <= tap_mtu o ->
  wp (copy_chain n p) o (fun r o' calls => calls = [] /\
    exists buf, o' = o <| device_write_buf := buf |> /\ len buf = tap_mtu o /\
    zslice 0 n buf = zslice 0 n (device_write_buf o) /\
    if n + len (concat p) <=? tap_mtu o
    then r = Some (n + len (concat p)) /\ zslice n (len (concat p)) buf = concat p
    else r = None).
Proof.
  induction p as [|seg p IH]; intros n o Hn Hb Hm; cbn [copy_chain concat].
  - hstep. split; [done|]. exists (device_write_buf o). autorewrite with len.
    replace (n + 0 <=? tap_mtu o) with true by lia. rewrite Z.add_0_r, zslice_0.
    split_and!; try done. by destruct o.
  - hstep. hstep. rewrite len_app. pose proof (len_nonneg seg).
    pose proof (len_nonneg (concat p)). destruct (tap_mtu o - n <? len seg) eqn:E.
    + hstep. split; [done|]. exists (device_write_buf o).
      replace (_ <=? tap_mtu o) with false by lia. split_and!; try done. by destruct o.
    + hstep. apply wp_write_buf; [lia..|]. intros buf Hst.
      assert (Hlen := len_store _ _ _ _ Hst).
      eapply wp_mono; [apply (IH (n + len seg) (o <| device_write_buf := buf |>)); cbn; lia|].
      cbn. intros r o' calls (-> & buf' & -> & Hlen' & Hpre & Hrest). split; [done|].
      exists buf'. rewrite Z.add_assoc. split; [done|]. split; [done|].
      rewrite !(zslice_app 0 n (len seg)) in Hpre by lia.
      apply app_inj_1 in Hpre as [Hp1 Hp2]; [|rewrite !length_len, !len_zslice; lia].
      rewrite (zslice_store_before _ _ _ _ Hst) in Hp1 by lia. split; [done|].
      destruct (_ <=? tap_mtu o); [|done]. destruct Hrest as [-> Hr]. split; [done|].
      rewrite zslice_app, Hr by lia. f_equal. rewrite Z.add_0_l in Hp2. rewrite Hp2.
      by apply (zslice_store_same _ _ _ _ Hst).
Qed.
End DeviceProofs.

(** ** Properties *)

Section device_properties.
Import Checksum InetProofs InetLemmas DeviceProofs.

(** C6: the DNS relay.  A query to port 53 is sent on to the DNS gateway from the
    address of the TUN interface; when the gateway answers to the same port, the
    answer is sent on, with the same payload, to the address and from the server
    that the table has for this port: those of this query, when no earlier query
    from its port is unanswered, and those of the first unanswered one otherwise.
    The table of connections is then what it was before.  What is sent on parses
    back to the rewritten headers and the payload, with right checksums, if the
    packet received has no IP options and nothing after its UDP payload; it is
    otherwise malformed ([relayed]). *)
Theorem dns_relay_roundtrip o q hq uq pq offq a ha ua pa offa :
  dev_ok o -> opt_dnsgw o = true ->
  len q <= tap_mtu o -> udp4_packet q hq uq pq offq -> dest_port uq = hton16 53 ->
  count (query_conn o hq uq) < INT_MAX ->
  len a <= tap_mtu o -> udp4_packet a ha ua pa offa -> source_port ua = dnsgw_port o ->
  dest_port ua = source_port uq -> dest_port ua <> hton16 53 ->
  exists lip lport rip rport,
    local_addr (query_conn o hq uq) = BAddr_IPv4 lip lport /\
    remote_addr (query_conn o hq uq) = BAddr_IPv4 rip rport /\
    (connections_tree o !! source_port uq = None ->
       lip = source_address hq /\ lport = source_port uq /\ rip = destination_address hq /\ rport = dest_port uq) /\
    (forall c, connections_tree o !! source_port uq = Some c ->
       local_addr c = BAddr_IPv4 lip lport /\ remote_addr c = BAddr_IPv4 rip rport) /\
  wp (r1 ← process_device_dns_packet true q; r2 ← process_device_dns_packet true a;
      mret (r1, r2)) o (fun r o' calls =>
    r = (true, true) /\ dev_ok o' /\ connections_tree o' = connections_tree o /\
    exists sent_q sent_a, calls = [Tap_Send sent_q; Tap_Send sent_a] /\
    relayed q sent_q (hq <| source_address := netif_ipaddr o |>
                         <| destination_address := dnsgw_ip o |>)
                     (uq <| dest_port := dnsgw_port o |>) pq /\
    relayed a sent_a (ha <| source_address := rip |> <| destination_address := lip |>)
                     (ua <| source_port := rport |>) pa).
Proof.
  intros Hok Hdns Hmq Hq Hport Hcnt Hma Ha Hsrc Hdst Hne.
  set (con := query_conn o hq uq) in *.
  assert (Hspecq := dns_query_spec o q hq uq pq offq Hok Hmq Hq Hcnt). fold con in Hspecq.
  apply wp_spec in Hspecq as (r1 & o1 & c1 & Hrun1 & -> & sent_q & buf & -> & Hrelq & Ho1 & Hok1).
  assert (Hl : connections_tree o1 !! dest_port ua = Some con)
    by (rewrite Ho1, Hdst; apply lookup_insert_eq).
  assert (Hspeca := dns_answer_spec o1 a ha ua pa offa Hok1 ltac:(by rewrite Ho1) Ha
    ltac:(by rewrite Ho1)).
  rewrite Hl in Hspeca. destruct Hspeca as (lip & lport & rip & rport & Hla & Hra & Hspeca).
  exists lip, lport, rip, rport. split; [done|]. split; [done|].
  split; [intros E; unfold con, query_conn in Hla, Hra; rewrite E in Hla, Hra; cbn in Hla, Hra; by simplify_eq|].
  split; [intros c E; unfold con, query_conn in Hla, Hra; rewrite E in Hla, Hra; by cbn in Hla, Hra|].
  unfold process_device_dns_packet. hstep. hstep. hstep. rewrite Hdns.
  rewrite (packet_version _ _ _ _ _ Hq). cbn. hstep.
  eapply wp_of_option; [exact (parse_udp4_complete _ _ _ _ _ Hq)|].
  cbn beta iota zeta. rewrite Hport, Z.eqb_refl. cbn [negb andb]. cbn iota. apply wp_spec. do 3 eexists. split; [exact Hrun1|].
  hstep. hstep. hstep. rewrite Ho1 at 1. cbn. rewrite Hdns.
  rewrite (packet_version _ _ _ _ _ Ha). cbn. hstep.
  eapply wp_of_option; [exact (parse_udp4_complete _ _ _ _ _ Ha)|].
  cbn beta iota zeta. replace (dest_port ua =? hton16 53) with false by (symmetry; by apply Z.eqb_neq).
  replace (source_port ua =? dnsgw_port o1) with true by (rewrite Ho1; cbn; lia).
  cbn [negb andb]. cbn iota.
  eapply wp_mono; [exact Hspeca|].
  intros r o' calls (-> & sent_a & buf' & -> & Hrela & Ho' & Hok'). hstep.
  split; [done|]. split; [done|]. split; [|by exists sent_q, sent_a].
  rewrite Ho', Ho1. by apply remove_inserted.
Qed.

(** a DNS query is relayed as a packet the gateway can read exactly when
    its IPv4 header has no options and its IPv4 payload is just the UDP packet:
    the relay writes a header of 20 bytes and the UDP payload but keeps the
    header length and total length of the packet it received. *)
Theorem dns_relay_wellformed o q h u payload off :
  dev_ok o -> opt_dnsgw o = true -> len q <= tap_mtu o ->
  udp4_packet q h u payload off -> dest_port u = hton16 53 ->
  count (query_conn o h u) < INT_MAX ->
  wp (process_device_dns_packet true q) o (fun r _ calls =>
    r = true /\ exists pkt, calls = [Tap_Send pkt] /\
    (ipv4_check pkt (len pkt) = Some None <-> be16_at 2 q <> 28 + len payload)).
Proof.
  intros Hok Hdns Hm Hq Hport Hcnt. unfold process_device_dns_packet. hstep. hstep.
  rewrite Hdns, (packet_version _ _ _ _ _ Hq). cbn. hstep.
  eapply wp_of_option; [exact (parse_udp4_complete _ _ _ _ _ Hq)|].
  cbn beta iota zeta. rewrite Hport, Z.eqb_refl. cbn [negb andb]. cbn iota.
  eapply wp_mono; [exact (dns_query_spec o q h u payload off Hok Hm Hq Hcnt)|].
  intros r o' calls (-> & pkt & buf & -> & Hrel & _). split; [done|]. exists pkt. split; [done|].
  unfold relayed in Hrel. destruct (_ =? _) eqn:E; [|split; [lia|done]].
  split; [|lia]. intros Hno. destruct Hrel as [c Hp]. revert Hp. unfold parse_udp4.
  rewrite Hno. cbn [mbind option_bind].
  destruct (_ <? _); [done|]. destruct (byte_at 9 pkt); [|done]. cbn [mbind option_bind].
  by destruct (negb _).
Qed.

(** C7: whatever its bytes, a packet from the device goes to the udpgw client
    exactly when the program has one, the packet is an IPv4 or, with an IPv6
    address for the interface, an IPv6 packet with a well-formed UDP packet right
    after its header, the checksums are right and the payload is within the
    udpgw MTU.  It goes there once, with its addresses and its payload; as a DNS
    query exactly if transparent DNS was asked for and it is for port 53 of the
    interface's IPv4 address; otherwise nothing happens. *)
Theorem udp_packet_submitted o data :
  exists r calls, process_device_udp_packet data o = Some (r, o, calls) /\
  (r = false -> calls = []) /\
  (r = true <-> opt_udpgw_remote_server_addr o = true /\
   ((exists h u payload off,
       udp4_packet data h u payload off /\ len payload <= udp_mtu o /\
       calls = [SocksUdpGwClient_SubmitPacket
                  (BAddr_IPv4 (source_address h) (source_port u))
                  (BAddr_IPv4 (destination_address h) (dest_port u))
                  (opt_udpgw_transparent_dns o && (destination_address h =? netif_ipaddr o)
                   && (dest_port u =? hton16 53)) payload]) \/
    (exists h u payload,
       udp6_packet data h u payload /\ opt_netif_ip6addr o = true /\ len payload <= udp_mtu o /\
       calls = [SocksUdpGwClient_SubmitPacket
                  (BAddr_IPv6 (source_address6 h) (source_port u))
                  (BAddr_IPv6 (destination_address6 h) (dest_port u)) false payload]))).
Proof.
  unfold process_device_udp_packet, mbind, handler_bind, get, of_option.
  destruct (opt_udpgw_remote_server_addr o); cbn [negb]; [|exists false, []; by split_and!; [| |split; [|intros []]]].
  destruct (udp_packet_parsed o data) as (r & -> & H4 & H6).
  destruct r as [|h u payload|h u payload]; cbn beta iota zeta.
  - exists false, []. split_and!; [done..|]. split; [done|].
    intros (_ & [(h & u & pl & off & Hp & _)|(h & u & pl & Hp & Ho & _)]).
    + discriminate (proj2 (H4 h u pl) (ex_intro _ _ Hp)).
    + discriminate (proj2 (H6 h u pl) (conj Hp Ho)).
  - destruct (proj1 (H4 _ _ _) eq_refl) as [off Hp]. destruct (udp_mtu o <? len payload) eqn:E.
    + exists false, []. split_and!; [done..|]. split; [done|].
      intros (_ & [(h' & u' & pl & off' & Hp' & Hle & _)|(h' & u' & pl & Hp' & Ho & _)]).
      * assert (Hx := proj2 (H4 h' u' pl) (ex_intro _ _ Hp')). injection Hx as <- <- <-. lia.
      * discriminate (proj2 (H6 h' u' pl) (conj Hp' Ho)).
    + exists true. eexists. split_and!; [done..|]. split; [|done]. intros _. split; [done|]. left.
      exists h, u, payload, off. split_and!; [done|lia|done].
  - destruct (proj1 (H6 _ _ _) eq_refl) as [Hp Ho]. destruct (udp_mtu o <? len payload) eqn:E.
    + exists false, []. split_and!; [done..|]. split; [done|].
      intros (_ & [(h' & u' & pl & off' & Hp' & Hle & _)|(h' & u' & pl & Hp' & _ & Hle & _)]).
      * discriminate (proj2 (H4 h' u' pl) (ex_intro _ _ Hp')).
      * assert (Hx := proj2 (H6 h' u' pl) (conj Hp' Ho)). injection Hx as <- <- <-. lia.
    + exists true. eexists. split_and!; [done..|]. split; [|done]. intros _. split; [done|]. right.
      exists h, u, payload. split_and!; [done|done|lia|done].
Qed.

(** C8: a datagram from the udpgw client reaches the device as a packet that
    parses back to it: the process that reads the device would submit it with
    the two addresses exchanged and the same payload (IPv4 and IPv6). *)
Theorem udp_return_roundtrip o data lip lport rip rport lip6 rip6 :
  dev_ok o -> opt_udpgw_remote_server_addr o = true -> opt_netif_ip6addr o = true ->
  48 + len data <= tap_mtu o -> 28 + len data <= UINT16_MAX -> len data <= udp_mtu o ->
  opt_udpgw_transparent_dns o = false ->
  wf_ipv4_addr (BAddr_IPv4 lip lport) -> wf_ipv4_addr (BAddr_IPv4 rip rport) ->
  len lip6 = 16 -> len rip6 = 16 ->
  wp (udpgw_client_handler_received (BAddr_IPv4 lip lport) (BAddr_IPv4 rip rport) data;;
      udpgw_client_handler_received (BAddr_IPv6 lip6 lport) (BAddr_IPv6 rip6 rport) data) o
    (fun _ o' calls => dev_ok o' /\ exists pkt pkt6, calls = [Tap_Send pkt; Tap_Send pkt6] /\
       process_device_udp_packet pkt o' = Some (true, o', [SocksUdpGwClient_SubmitPacket
         (BAddr_IPv4 rip rport) (BAddr_IPv4 lip lport) false data]) /\
       process_device_udp_packet pkt6 o' = Some (true, o', [SocksUdpGwClient_SubmitPacket
         (BAddr_IPv6 rip6 rport) (BAddr_IPv6 lip6 lport) false data])).
Proof.
  unfold UINT16_MAX. intros Hok Hgw H6 Hm Hmax Hmtu Hdns Hl Hr Hl6 Hr6.
  assert (Hports : 0 <= lport < 2 ^ 16 /\ 0 <= rport < 2 ^ 16).
  { destruct Hl as (? & ? & [= <- <-] & _ & ?), Hr as (? & ? & [= <- <-] & _ & ?). done. }
  assert (H4s := received4_spec o lip lport rip rport data Hok Hgw ltac:(lia) ltac:(lia) Hl Hr).
  apply wp_spec in H4s as ([] & o1 & c1 & Hrun1 & Hok1 & [buf Ho1] & pkt & h & u & -> & Hp & Hv
    & Hs & Hd & Hsp & Hdp).
  assert (H6s := received6_spec o1 lip6 lport rip6 rport data Hok1 ltac:(by rewrite Ho1)
    ltac:(by rewrite Ho1) ltac:(rewrite Ho1; exact Hm) ltac:(lia) Hl6 Hr6 ltac:(lia) ltac:(lia)).
  apply wp_spec in H6s as ([] & o2 & c2 & Hrun2 & Hok2 & [buf2 Ho2] & pkt6 & h6 & u6 & -> & Hp6
    & Hv6 & Hs6 & Hd6 & Hsp6 & Hdp6).
  hstep. apply wp_spec. do 3 eexists. split; [exact Hrun1|]. apply wp_spec. do 3 eexists.
  split; [exact Hrun2|]. split; [done|]. exists pkt, pkt6. split; [done|].
  assert (Hle : (udp_mtu o <? len data) = false) by lia.
  split; unfold process_device_udp_packet, mbind, handler_bind, get, of_option;
    rewrite Ho2, Ho1; cbn -[Z.eqb]; rewrite Hgw.
  - rewrite Hv, Hp. cbn -[Z.eqb]. change (4 =? 4) with true. cbn -[Z.eqb].
    by rewrite Hle, Hs, Hd, Hsp, Hdp, Hdns.
  - rewrite Hv6, H6, Hp6. change (6 =? 4) with false. change (6 =? 6) with true. cbn -[Z.eqb].
    by rewrite Hle, Hs6, Hd6, Hsp6, Hdp6.
Qed.

(** The calls with which lwIP is given a pbuf, by the version in its first byte:
    the pbuf that it refuses, and the one it is not given, is freed. *)
Definition passed (o : device) (env : answers) (p : list bytes) : list out :=
  let version := ip_version_of (hd [] p) in
  if version =? 4 then ip_input p :: (if ip_result env then [] else [pbuf_free p])
  else if (version =? 6) && opt_netif_ip6addr o then ip6_input p :: (if ip6_result env then [] else [pbuf_free p])
  else [pbuf_free p].
(** What happens to a packet once it has left the device queue: the first that
    applies of relaying it, submitting it and passing it to lwIP, if it is not too
    long for a pbuf and there is memory for one. *)
Definition disposed (o : device) (env : answers) (data : bytes) (calls : list out) : Prop :=
  match process_device_dns_packet (malloc_ok env) data o, process_device_udp_packet data o with
  | Some (true, _, sent), _ => calls = sent /\ exists pkt, sent = [Tap_Send pkt]
  | _, Some (true, _, sent) =>
      calls = sent /\ exists local remote is_dns p, sent = [SocksUdpGwClient_SubmitPacket local remote is_dns p]
  | _, _ =>
      match (if UINT16_MAX <? len data then None else pbuf_alloc_take env data) with
      | None => calls = []
      | Some p => calls = passed o env p
      end
  end.
(** How often a call takes over the packet, or its pbuf, for good. *)
Definition takes (env : answers) (c : out) : nat :=
  match c with
  | PacketPassInterface_Done => 0
  | ip_input _ => if ip_result env then 1 else 0
  | ip6_input _ => if ip6_result env then 1 else 0
  | Tap_Send _ | SocksUdpGwClient_SubmitPacket _ _ _ _ | pbuf_free _ => 1
  end.

Lemma passed_once o env p : passed o env p <> [] /\ sum_list (takes env <$> passed o env p) = 1%nat.
Proof.
  unfold passed. destruct (_ =? 4); [|destruct (_ && _); [|done]]; (split; [done|]); cbn.
  - by destruct (ip_result env).
  - by destruct (ip6_result env).
Qed.

(** C9: every packet read from the device, whatever its bytes, is accepted
    first and then disposed of exactly once: relayed to the DNS gateway or to
    the client, submitted to the udpgw client, or passed to lwIP by its IP version,
    and then freed exactly if lwIP refuses it, or freed at once; nothing is done
    only with a packet that is too long for a pbuf or finds no memory.  No assertion
    fails, nothing outside the packet is read and nothing outside the write buffer is
    written, and the state invariant is kept. *)
Theorem device_read_safe o env data :
  dev_ok o -> quitting o = false -> len data <= tap_mtu o -> malloc_ok env = true ->
  (forall port c, connections_tree o !! port = Some c -> count c + 1 < INT_MAX) ->
  wp (device_read_handler_send env data) o (fun _ o' calls =>
    dev_ok o' /\ quitting o' = false /\
    exists rest, calls = PacketPassInterface_Done :: rest /\ disposed o env data rest /\
      sum_list (takes env <$> rest) = if bool_decide (rest = []) then 0%nat else 1%nat).
Proof.
  intros Hok Hq Hm Hmal Hcnt. unfold device_read_handler_send, disposed. hstep. hstep. hstep. hstep.
  { by rewrite Hq. }
  hstep. hstep. rewrite Hmal. hstep.
  assert (Hd := dns_packet_total o data Hok Hm Hcnt). apply wp_spec in Hd as (r & o1 & c1 & Ed & Hok1 & Hq1 & Hr).
  rewrite Ed. rewrite Hq in Hq1. apply wp_spec. exists r, o1, c1. split; [done|]. destruct r.
  { destruct Hr as [pkt ->]. hstep. do 2 (split; [done|]). eexists. split_and!; [done|done|by exists pkt|done]. }
  destruct Hr as [-> ->]. hstep.
  assert (Hu := udp_packet_total o data). apply wp_spec in Hu as (r & o2 & c2 & Eu & -> & Hr).
  rewrite Eu. apply wp_spec. exists r, o, c2. split; [done|]. destruct r.
  { destruct Hr as (l & m & dns & p & ->). hstep. do 2 (split; [done|]). eexists. split_and!; [done|done|by exists l, m, dns, p|done]. }
  subst c2. destruct (_ <? _); [hstep; do 2 (split; [done|]); by exists []|].
  destruct (pbuf_alloc_take env data) as [p|]; [|hstep; do 2 (split; [done|]); by exists []].
  assert (Hp : wp (ok ← netif_input_func (ip_result env) (ip6_result env) p; if ok : bool then mret tt else call (pbuf_free p)) o
    (fun _ o' calls => o' = o /\ calls = passed o env p)).
  { unfold netif_input_func, passed. destruct p as [|seg p]; cbn [hd]; hstep; hstep; hstep.
    1: change (ip_version_of []) with 0. all: destruct (_ =? 4); [|destruct (_ && _)]; hsteps; try done.
    all: try destruct (ip_result env); try destruct (ip6_result env); by hsteps. }
  eapply wp_mono; [exact Hp|]. intros [] o3 c3 [-> ->]. do 2 (split; [done|]). exists (passed o env p). split_and!; [done|done|].
  destruct (passed_once o env p) as [Hne ->]. by rewrite bool_decide_false.
Qed.

(** A packet lwIP outputs, in however many segments, is written to the
    device as their concatenation when it is not larger than the device MTU
    and dropped otherwise; nothing is written outside the buffer. *)
Theorem netif_output_concat o p :
  dev_ok o -> p <> [] ->
  wp (common_netif_output p) o (fun _ o' calls =>
    dev_ok o' /\
    calls = if quitting o then [] else
            if len (concat p) <=? tap_mtu o then [Tap_Send (concat p)] else []).
Proof.
  intros Hok Hne. unfold common_netif_output. hstep. hstep.
  destruct (quitting o); [by hstep|]. destruct p as [|seg [|seg2 p]]; [done| |].
  - cbn [concat]. rewrite app_nil_r. destruct (_ <? _) eqn:E.
    + hstep. by replace (_ <=? _) with false by lia.
    + replace (_ <=? _) with true by lia. unfold BTap_Send. hsteps; [lia|done].
  - pose proof (d_buf _ Hok). pose proof (len_nonneg (device_write_buf o)). hstep.
    eapply wp_mono; [apply (copy_chain_spec (seg :: seg2 :: p) 0 o); lia|].
    intros r o' calls (-> & buf & -> & Hlen & _ & Hr). rewrite Z.add_0_l in Hr.
    pose proof (len_nonneg (concat (seg :: seg2 :: p))).
    assert (Hok' : dev_ok (o <| device_write_buf := buf |>)) by (apply dev_ok_buf; lia || done).
    destruct (_ <=? _) eqn:E.
    + destruct Hr as [-> Hz]. eapply wp_BTap_Send_buf; [|exact (proj1 (Z.leb_le _ _) E)|done].
      cbn [device_write_buf update]. rewrite load_Some; [by rewrite <- Hz at 2|lia..|].
      change (device_write_buf (o <| device_write_buf := buf |>)) with buf. lia.
    + subst r. by hstep.
Qed.
End device_properties.

Module DeviceWitnesses.
Import Checksum InetProofs InetLemmas DeviceProofs.

(** An interface 10.0.0.1 with an MTU of 64 and a gateway 10.0.0.2, port 5353. *)
Definition demo_device : device :=
  mk_device true true true false 0x0100000a 0x0200000a (hton16 5353) 16 64 false true
    ∅ (repeat Byte.x00 64).
Definition demo_build (src sport dst dport : Z) (payload : bytes) : bytes :=
  match udpgw_client_handler_received (BAddr_IPv4 dst dport) (BAddr_IPv4 src sport) payload
          demo_device with
  | Some (_, _, [Tap_Send p]) => p
  | _ => []
  end.
(** A query of 10.0.0.9, port 4096, to 8.8.8.8, and the answer of the gateway. *)
Definition demo_query : bytes :=
  demo_build 0x0900000a (hton16 4096) 0x08080808 (hton16 53) [Byte.x71; Byte.x3f; Byte.x01].
Definition demo_answer : bytes :=
  demo_build 0x0200000a (hton16 5353) 0x0100000a (hton16 4096) [Byte.x61; Byte.x21].
Definition demo_h (p : bytes) : ipv4_header :=
  match parse_udp4 p with Some (Udp4 h _ _) => h | _ => ipv4_of_bytes [] end.
Definition demo_u (p : bytes) : udp_header :=
  match parse_udp4 p with Some (Udp4 _ u _) => u | _ => udp_of_bytes [] end.
Definition demo_p (p : bytes) : bytes :=
  match parse_udp4 p with Some (Udp4 _ _ d) => d | _ => [] end.

Lemma demo_ok : dev_ok demo_device.
Proof.
  constructor; [by vm_compute|by vm_compute|by vm_compute| |done].
  intros port c Hc. exact (False_ind _ (lookup_empty_Some port c Hc)).
Qed.
Lemma demo_packet p :
  parse_udp4 p = Some (Udp4 (demo_h p) (demo_u p) (demo_p p)) ->
  udp4_packet p (demo_h p) (demo_u p) (demo_p p) (4 * (field 0 1 p mod 16)).
Proof. apply parse_udp4_sound. Qed.

Lemma dns_relay_roundtrip_witness :
  exists lip lport rip rport,
    local_addr (query_conn demo_device (demo_h demo_query) (demo_u demo_query))
      = BAddr_IPv4 lip lport /\
    remote_addr (query_conn demo_device (demo_h demo_query) (demo_u demo_query))
      = BAddr_IPv4 rip rport /\
    (connections_tree demo_device !! source_port (demo_u demo_query) = None ->
       lip = source_address (demo_h demo_query) /\ lport = source_port (demo_u demo_query) /\
       rip = destination_address (demo_h demo_query) /\ rport = dest_port (demo_u demo_query)) /\
    (forall c, connections_tree demo_device !! source_port (demo_u demo_query) = Some c ->
       local_addr c = BAddr_IPv4 lip lport /\ remote_addr c = BAddr_IPv4 rip rport) /\
  wp (r1 ← process_device_dns_packet true demo_query;
      r2 ← process_device_dns_packet true demo_answer; mret (r1, r2)) demo_device
    (fun r o' calls =>
    r = (true, true) /\ dev_ok o' /\ connections_tree o' = connections_tree demo_device /\
    exists sent_q sent_a, calls = [Tap_Send sent_q; Tap_Send sent_a] /\
    relayed demo_query sent_q
      (demo_h demo_query <| source_address := netif_ipaddr demo_device |>
                         <| destination_address := dnsgw_ip demo_device |>)
      (demo_u demo_query <| dest_port := dnsgw_port demo_device |>) (demo_p demo_query) /\
    relayed demo_answer sent_a
      (demo_h demo_answer <| source_address := rip |> <| destination_address := lip |>)
      (demo_u demo_answer <| source_port := rport |>) (demo_p demo_answer)).
Proof.
  apply (dns_relay_roundtrip demo_device demo_query (demo_h demo_query) (demo_u demo_query)
    (demo_p demo_query) (4 * (field 0 1 demo_query mod 16)) demo_answer (demo_h demo_answer)
    (demo_u demo_answer) (demo_p demo_answer) (4 * (field 0 1 demo_answer mod 16))).
  - exact demo_ok.
  - reflexivity.
  - vm_compute; discriminate.
  - apply demo_packet; vm_compute; reflexivity.
  - vm_compute; reflexivity.
  - vm_compute; reflexivity.
  - vm_compute; discriminate.
  - apply demo_packet; vm_compute; reflexivity.
  - vm_compute; reflexivity.
  - vm_compute; reflexivity.
  - vm_compute; discriminate.
Defined.

Lemma dns_relay_wellformed_witness :
  wp (process_device_dns_packet true demo_query) demo_device (fun r _ calls =>
    r = true /\ exists pkt, calls = [Tap_Send pkt] /\
    (ipv4_check pkt (len pkt) = Some None
     <-> be16_at 2 demo_query <> 28 + len (demo_p demo_query))).
Proof.
  apply (dns_relay_wellformed demo_device demo_query (demo_h demo_query) (demo_u demo_query)
    (demo_p demo_query) (4 * (field 0 1 demo_query mod 16))).
  - exact demo_ok.
  - reflexivity.
  - vm_compute; discriminate.
  - apply demo_packet; vm_compute; reflexivity.
  - vm_compute; reflexivity.
  - vm_compute; reflexivity.
Defined.

(** An IPv6 packet is submitted, unless a byte of its payload is changed, or the
    interface has no IPv6 address. *)
Definition demo_packet6 : bytes :=
  match udpgw_client_handler_received (BAddr_IPv6 (repeat Byte.x01 16) 6) (BAddr_IPv6 (repeat Byte.x02 16) 8)
          [Byte.x41] demo_device with
  | Some (_, _, [Tap_Send p]) => p
  | _ => []
  end.
Definition submitted (o : device) (data : bytes) : option (bool * list out) :=
  (fun x => (x.1.1, x.2)) <$> process_device_udp_packet data o.
Example udp6_submitted : submitted demo_device demo_packet6 =
    Some (true, [SocksUdpGwClient_SubmitPacket (BAddr_IPv6 (repeat Byte.x02 16) 8) (BAddr_IPv6 (repeat Byte.x01 16) 6) false [Byte.x41]]) /\
  submitted demo_device (removelast demo_packet6 ++ [Byte.x42]) = Some (false, []) /\
  submitted (demo_device <| opt_netif_ip6addr := false |>) demo_packet6 = Some (false, []).
Proof. split_and!; vm_compute; reflexivity. Qed.

Lemma udp_return_roundtrip_witness :
  wp (udpgw_client_handler_received (BAddr_IPv4 5 6) (BAddr_IPv4 7 8) [Byte.x41];;
      udpgw_client_handler_received (BAddr_IPv6 (repeat Byte.x01 16) 6)
        (BAddr_IPv6 (repeat Byte.x02 16) 8) [Byte.x41]) demo_device
    (fun _ o' calls => dev_ok o' /\ exists pkt pkt6, calls = [Tap_Send pkt; Tap_Send pkt6] /\
       process_device_udp_packet pkt o' = Some (true, o', [SocksUdpGwClient_SubmitPacket
         (BAddr_IPv4 7 8) (BAddr_IPv4 5 6) false [Byte.x41]]) /\
       process_device_udp_packet pkt6 o' = Some (true, o', [SocksUdpGwClient_SubmitPacket
         (BAddr_IPv6 (repeat Byte.x02 16) 8) (BAddr_IPv6 (repeat Byte.x01 16) 6) false
         [Byte.x41]])).
Proof.
  apply (udp_return_roundtrip demo_device [Byte.x41] 5 6 7 8 (repeat Byte.x01 16)
    (repeat Byte.x02 16)).
  - exact demo_ok.
  - reflexivity.
  - reflexivity.
  - vm_compute; discriminate.
  - vm_compute; discriminate.
  - vm_compute; discriminate.
  - reflexivity.
  - exists 5, 6. split; [reflexivity|lia].
  - exists 7, 8. split; [reflexivity|lia].
  - vm_compute; reflexivity.
  - vm_compute; reflexivity.
Defined.

Definition demo_answers : answers := mk_answers true (fun p => Some [p]) true true.

(** A packet that is none of the others goes to lwIP, which refuses it; one of a
    version lwIP is not given is freed. *)
Example refused_freed :
  (fun x => x.2) <$> device_read_handler_send (mk_answers true (fun p => Some [p]) false true) [Byte.x45] demo_device =
    Some [PacketPassInterface_Done; ip_input [[Byte.x45]]; pbuf_free [[Byte.x45]]] /\
  (fun x => x.2) <$> device_read_handler_send demo_answers [Byte.x75] demo_device =
    Some [PacketPassInterface_Done; pbuf_free [[Byte.x75]]].
Proof. split; reflexivity. Qed.

Lemma device_read_safe_witness :
  wp (device_read_handler_send demo_answers demo_query) demo_device (fun _ o' calls =>
    dev_ok o' /\ quitting o' = false /\
    exists rest, calls = PacketPassInterface_Done :: rest /\ disposed demo_device demo_answers demo_query rest /\
      sum_list (takes demo_answers <$> rest) = if bool_decide (rest = []) then 0%nat else 1%nat).
Proof.
  apply (device_read_safe demo_device demo_answers demo_query demo_ok).
  - reflexivity.
  - vm_compute; discriminate.
  - reflexivity.
  - intros port c Hc. exact (False_ind _ (lookup_empty_Some port c Hc)).
Defined.

Lemma netif_output_concat_witness :
  wp (common_netif_output [[Byte.x01]; [Byte.x02; Byte.x03]]) demo_device (fun _ o' calls =>
    dev_ok o' /\
    calls = if quitting demo_device then [] else
            if len (concat [[Byte.x01]; [Byte.x02; Byte.x03]]) <=? tap_mtu demo_device
            then [Tap_Send (concat [[Byte.x01]; [Byte.x02; Byte.x03]])] else []).
Proof.
  apply (netif_output_concat demo_device [[Byte.x01]; [Byte.x02; Byte.x03]] demo_ok).
  discriminate.
Defined.
End DeviceWitnesses.
