(* ===== verification/TcpClient.v ===== *)
(** * TCP clients

    The proxying of one TCP connection in [tun2socks/tun2socks.c]: from
    [listener_accept_func] to [client_sent_func].  A client joins a connection
    of the lwIP stack (the "client" side) to a connection through the SOCKS
    server; either side can close first, and the other is kept until what was
    buffered for it is delivered.

    The state of the model is the client structure with the state of its two
    neighbours that its calls and callbacks depend on: which lwIP callbacks are
    registered, which SOCKS operations are in progress, what has been passed
    on.  What the neighbours answer is an argument of each handler, so a
    theorem about all handlers is about every answer.  Each access to the
    structure asserts that it was not freed.  [SYNC_FROMHERE ... SYNC_COMMIT]
    runs the jobs pending at that point, which are SOCKS events of this client:
    a handler with such a block takes them as an argument and runs them there. *)
From S2P Require Import Prelude BAddr.

Definition TCP_WND : Z := 4 * 1460.
Definition CLIENT_SOCKS_RECV_BUF_SIZE : Z := 8192.

(** ** State *)

(** [buf] and [socks_recv_buf] are the used parts of the two arrays. *)
Record tcp_client := mk_tcp_client {
  c_local_addr : BAddr;
  c_remote_addr : BAddr;
  client_closed : bool;
  buf : bytes;
  socks_up : bool;
  socks_closed : bool;
  socks_recv_buf : bytes;
  socks_recv_buf_used : Z;
  socks_recv_buf_sent : Z;
  socks_recv_waiting : bool;
  socks_recv_tcp_pending : Z;
}.
#[export] Instance tcp_client_eta : Eta tcp_client := fun r =>
  mk_tcp_client (c_local_addr r) (c_remote_addr r) (client_closed r) (buf r) (socks_up r)
    (socks_closed r) (socks_recv_buf r) (socks_recv_buf_used r) (socks_recv_buf_sent r)
    (socks_recv_waiting r) (socks_recv_tcp_pending r).

(** [live] is false once the structure is freed; [dead_client] is the flag of
    the innermost [DEAD_ENTER]; [num_clients] is the global counter.  The rest
    is the neighbours: the pcb and its callbacks, the bytes lwIP has not
    acknowledged and those it was not told were received; the operations in
    progress on the SOCKS connection; and the four streams. *)
Record sys := mk_sys {
  cl : tcp_client;
  live : bool;
  dead_client : bool;
  num_clients : Z;
  pcb : bool;
  cb_err : bool;
  cb_recv : bool;
  cb_sent : bool;
  unacked : Z;
  unconfirmed : Z;
  socks : bool;
  send_pending : option Z;
  recv_pending : bool;
  tcp_in : bytes;
  socks_out : bytes;
  socks_in : bytes;
  tcp_out : bytes;
}.
#[export] Instance sys_eta : Eta sys := fun r =>
  mk_sys (cl r) (live r) (dead_client r) (num_clients r) (pcb r) (cb_err r) (cb_recv r)
    (cb_sent r) (unacked r) (unconfirmed r) (socks r) (send_pending r) (recv_pending r)
    (tcp_in r) (socks_out r) (socks_in r) (tcp_out r).

Inductive err_t := ERR_OK | ERR_MEM | ERR_ABRT | ERR_OTHER.
#[export] Instance err_eq_dec : EqDecision err_t.
Proof. solve_decision. Defined.

(** Calls that only the trace records. *)
Inductive out := Tcp_close | Tcp_abort | Tcp_recved (n : Z) | Pbuf_free | Socks_free.

Definition hdl := handler sys out.

(** What lwIP answers during one handler: for each turn of the write loop, the
    room in the send buffer and the result of [tcp_write]; [tcp_output]; and
    [tcp_close]. *)
Record lwip := mk_lwip {
  writes : list (Z * err_t);
  output_ok : bool;
  close_ok : bool;
}.

(** Access to the client structure. *)
Definition getc : hdl tcp_client := s ← get; ASSERT (live s);; mret (cl s).
Definition setc (f : tcp_client -> tcp_client) : hdl unit :=
  s ← get; ASSERT (live s);; modify (fun s => s <| cl := f (cl s) |>).

(** ** Calls on the neighbours *)

Definition tcp_clear_callbacks : hdl unit :=
  s ← get; ASSERT (pcb s);;
  modify (fun s => s <| cb_err := false |> <| cb_recv := false |> <| cb_sent := false |>).
Definition tcp_gone : hdl unit := modify (fun s => s <| pcb := false |>).
Definition tcp_abort : hdl unit := s ← get; ASSERT (pcb s);; tcp_gone;; call Tcp_abort.
(** [tcp_close] leaves the pcb to the caller when it fails. *)
Definition tcp_close (close_ok : bool) : hdl bool :=
  s ← get; ASSERT (pcb s);; call Tcp_close;;
  if close_ok then tcp_gone;; mret true else mret false.
Definition tcp_recved (n : Z) : hdl unit :=
  s ← get; ASSERT (pcb s);; ASSERT (n <=? unconfirmed s);;
  modify (fun s => s <| unconfirmed := unconfirmed s - n |>);; call (Tcp_recved n).
Definition tcp_write (data : bytes) : hdl unit :=
  s ← get; ASSERT (pcb s);;
  modify (fun s => s <| unacked := unacked s + len data |>
                     <| tcp_out := tcp_out s ++ data |>).

Definition BSocksClient_Free : hdl unit :=
  s ← get; ASSERT (socks s);;
  modify (fun s => s <| socks := false |> <| send_pending := None |>
                     <| recv_pending := false |>);;
  call Socks_free.
(** The stream interfaces assert that no operation is in progress and that
    there is something to do. *)
Definition Sender_Send (n : Z) : hdl unit :=
  s ← get; ASSERT (socks s);; ASSERT (bool_decide (send_pending s = None));; ASSERT (0 <? n);;
  modify (fun s => s <| send_pending := Some n |>).
Definition Receiver_Recv : hdl unit :=
  s ← get; ASSERT (socks s);; ASSERT (negb (recv_pending s));;
  modify (fun s => s <| recv_pending := true |>).

(** ** Closing *)

Definition client_dealloc : hdl unit :=
  c ← getc;
  ASSERT (client_closed c);;
  ASSERT (socks_closed c);;
  s ← get;
  ASSERT (0 <? num_clients s);;
  modify (fun s => s <| num_clients := num_clients s - 1 |> <| live := false |>).

(** The three functions call each other; a call from one to another is always
    about the other side, so three levels are enough ([closing_safe]). *)
Fixpoint client_handle_freed_client_ (fuel : nat) (close_ok : bool) : hdl unit :=
  match fuel with O => ASSERT false | S fuel =>
  c ← getc;
  ASSERT (negb (client_closed c));;
  modify (fun s => s <| dead_client := true |>);;
  setc (fun c => c <| client_closed := true |>);;
  if (0 <? len (buf c)) && negb (socks_closed c) then mret tt
  else if negb (socks_closed c) then client_free_socks_ fuel close_ok
  else client_dealloc
  end
with client_free_client_ (fuel : nat) (close_ok : bool) : hdl unit :=
  match fuel with O => ASSERT false | S fuel =>
  c ← getc;
  ASSERT (negb (client_closed c));;
  tcp_clear_callbacks;;
  ok ← tcp_close close_ok;
  (if ok : bool then mret tt else tcp_abort);;
  client_handle_freed_client_ fuel close_ok
  end
with client_free_socks_ (fuel : nat) (close_ok : bool) : hdl unit :=
  match fuel with O => ASSERT false | S fuel =>
  c ← getc;
  ASSERT (negb (socks_closed c));;
  (if socks_up c && negb (client_closed c) then
     s ← get; ASSERT (pcb s);; modify (fun s => s <| cb_recv := false |>)
   else mret tt);;
  BSocksClient_Free;;
  setc (fun c => c <| socks_closed := true |>);;
  if socks_up c && ((0 <=? socks_recv_buf_used c) || (0 <? socks_recv_tcp_pending c))
     && negb (client_closed c) then mret tt
  else if negb (client_closed c) then client_free_client_ fuel close_ok
  else client_dealloc
  end.
Definition client_handle_freed_client (l : lwip) : hdl unit :=
  client_handle_freed_client_ 3 (close_ok l).
Definition client_free_client (l : lwip) : hdl unit := client_free_client_ 3 (close_ok l).
Definition client_free_socks (l : lwip) : hdl unit := client_free_socks_ 3 (close_ok l).

Definition client_abort_client (l : lwip) : hdl unit :=
  c ← getc;
  ASSERT (negb (client_closed c));;
  tcp_clear_callbacks;;
  tcp_abort;;
  client_handle_freed_client l.

Definition client_murder : hdl unit :=
  c ← getc;
  (if negb (client_closed c) then
     tcp_clear_callbacks;;
     tcp_abort;;
     modify (fun s => s <| dead_client := true |>);;
     setc (fun c => c <| client_closed := true |>)
   else mret tt);;
  c ← getc;
  (if negb (socks_closed c) then
     BSocksClient_Free;;
     setc (fun c => c <| socks_closed := true |>)
   else mret tt);;
  client_dealloc.

(** ** Client to SOCKS *)

Definition client_send_to_socks : hdl unit :=
  c ← getc;
  ASSERT (negb (socks_closed c));;
  ASSERT (socks_up c);;
  ASSERT (0 <? len (buf c));;
  Sender_Send (len (buf c)).

Definition client_socks_send_handler_done (l : lwip) (data_len : Z) : hdl unit :=
  c ← getc;
  ASSERT (negb (socks_closed c));;
  ASSERT (socks_up c);;
  ASSERT (0 <? len (buf c));;
  ASSERT (0 <? data_len);;
  ASSERT (data_len <=? len (buf c));;
  setc (fun c => c <| buf := drop (Z.to_nat data_len) (buf c) |>);;
  (if negb (client_closed c) then tcp_recved data_len else mret tt);;
  c ← getc;
  if 0 <? len (buf c) then Sender_Send (len (buf c))
  else if client_closed c then client_free_socks l
  else mret tt.

(** ** SOCKS to client *)

Definition client_socks_recv_initiate : hdl unit :=
  c ← getc;
  ASSERT (negb (client_closed c));;
  ASSERT (negb (socks_closed c));;
  ASSERT (socks_up c);;
  ASSERT (socks_recv_buf_used c =? -1);;
  Receiver_Recv.

(** The [do ... while] loop, one turn per answer; it stops with the answers,
    as it does when there is no room.  [false]: [tcp_write] failed. *)
Fixpoint write_loop (ws : list (Z * err_t)) : hdl bool :=
  match ws with
  | [] => mret true
  | (sndbuf, err) :: ws =>
      c ← getc;
      let to_write := Z.min (socks_recv_buf_used c - socks_recv_buf_sent c) sndbuf in
      if to_write =? 0 then mret true else
      data ← of_option (load (socks_recv_buf_sent c) to_write (socks_recv_buf c));
      match err with
      | ERR_OK =>
          tcp_write data;;
          setc (fun c => c
            <| socks_recv_buf_sent := socks_recv_buf_sent c + to_write |>
            <| socks_recv_tcp_pending := socks_recv_tcp_pending c + to_write |>);;
          c ← getc;
          if socks_recv_buf_sent c <? socks_recv_buf_used c then write_loop ws else mret true
      | ERR_MEM => mret true
      | _ => mret false
      end
  end.

(** [false] is the return value -1: the client was aborted. *)
Definition client_socks_recv_send_out (l : lwip) : hdl bool :=
  c ← getc;
  ASSERT (negb (client_closed c));;
  ASSERT (socks_up c);;
  ASSERT (0 <? socks_recv_buf_used c);;
  ASSERT (socks_recv_buf_sent c <? socks_recv_buf_used c);;
  ASSERT (negb (socks_recv_waiting c));;
  ok ← write_loop (writes l);
  if negb ok then client_abort_client l;; mret false else
  s ← get;
  ASSERT (pcb s);;
  if negb (output_ok l) then client_abort_client l;; mret false else
  c ← getc;
  if socks_recv_buf_sent c <? socks_recv_buf_used c then
    if socks_recv_tcp_pending c =? 0 then client_abort_client l;; mret false
    else setc (fun c => c <| socks_recv_waiting := true |>);; mret true
  else
    setc (fun c => c <| socks_recv_buf_used := -1 |>);; mret true.

Definition client_socks_recv_handler_done (l : lwip) (data : bytes) : hdl unit :=
  ASSERT (0 <? len data);;
  ASSERT (len data <=? CLIENT_SOCKS_RECV_BUF_SIZE);;
  c ← getc;
  ASSERT (negb (socks_closed c));;
  ASSERT (socks_up c);;
  ASSERT (socks_recv_buf_used c =? -1);;
  if client_closed c then mret tt else
  setc (fun c => c <| socks_recv_buf := data |> <| socks_recv_buf_used := len data |>
                   <| socks_recv_buf_sent := 0 |> <| socks_recv_waiting := false |>);;
  ok ← client_socks_recv_send_out l;
  if negb ok then mret tt else
  c ← getc;
  if socks_recv_buf_used c =? -1 then client_socks_recv_initiate else mret tt.

(** ** SOCKS events *)

Inductive socks_event :=
  | SOCKS_ERROR
  | SOCKS_UP
  | SOCKS_ERROR_CLOSED
  | SOCKS_sent (n : Z)
  | SOCKS_received (data : bytes).

Definition client_socks_up : hdl unit :=
  c ← getc;
  ASSERT (negb (socks_up c));;
  setc (fun c => c <| socks_recv_buf_used := -1 |> <| socks_recv_tcp_pending := 0 |>);;
  (if negb (client_closed c) then
     s ← get; ASSERT (pcb s);; modify (fun s => s <| cb_sent := true |>)
   else mret tt);;
  setc (fun c => c <| socks_up := true |>);;
  (if 0 <? len (buf c) then client_send_to_socks else mret tt);;
  if negb (client_closed c) then client_socks_recv_initiate else mret tt.

Definition client_socks_handler (l : lwip) (event : socks_event) : hdl unit :=
  c ← getc;
  ASSERT (negb (socks_closed c));;
  match event with
  | SOCKS_ERROR => client_free_socks l
  | SOCKS_UP => client_socks_up
  | SOCKS_ERROR_CLOSED => ASSERT (socks_up c);; client_free_socks l
  | _ => ASSERT false
  end.

(** The SOCKS side of the environment: the interface reports the completion of
    the operation in progress. *)
Definition socks_step (l : lwip) (e : socks_event) : hdl unit :=
  match e with
  | SOCKS_sent n =>
      modify (fun s => s <| send_pending := None |>
                         <| socks_out := socks_out s ++ take (Z.to_nat n) (buf (cl s)) |>);;
      client_socks_send_handler_done l n
  | SOCKS_received data =>
      modify (fun s => s <| recv_pending := false |> <| socks_in := socks_in s ++ data |>);;
      client_socks_recv_handler_done l data
  | e => client_socks_handler l e
  end.

(** What the SOCKS side may report: errors and going up while it exists, the
    completion of the operations in progress within their bounds. *)
Definition socks_ok (s : sys) (e : socks_event) : bool :=
  live s && socks s &&
  match e with
  | SOCKS_ERROR => true
  | SOCKS_UP => negb (socks_up (cl s))
  | SOCKS_ERROR_CLOSED => socks_up (cl s)
  | SOCKS_sent n => match send_pending s with Some m => (0 <? n) && (n <=? m) | None => false end
  | SOCKS_received data =>
      recv_pending s && (0 <? len data) && (len data <=? CLIENT_SOCKS_RECV_BUF_SIZE)
  end.
(** The send buffer of lwIP is an unsigned number. *)
Definition lwip_ok (l : lwip) : bool := forallb (fun w => 0 <=? fst w) (writes l).

(** [SYNC_COMMIT] between [DEAD_ENTER] and [DEAD_LEAVE2]: the SOCKS events that
    are pending, until one that cannot be.  The result is [DEAD_KILLED]. *)
Fixpoint run_socks (es : list (lwip * socks_event)) : hdl unit :=
  match es with
  | [] => mret tt
  | (l, e) :: es =>
      s ← get;
      if socks_ok s e && lwip_ok l then socks_step l e;; run_socks es else mret tt
  end.
Definition sync_commit (es : list (lwip * socks_event)) : hdl bool :=
  modify (fun s => s <| dead_client := false |>);;
  run_socks es;;
  s ← get;
  mret (dead_client s).

(** ** lwIP callbacks *)

(** [pbuf_copy_partial]: the data now belongs to the client, and lwIP expects
    to be told when it is processed. *)
Definition pbuf_copy_partial (p : bytes) : hdl unit :=
  modify (fun s => s <| tcp_in := tcp_in s ++ p |> <| unconfirmed := unconfirmed s + len p |>).

Definition client_err_func (l : lwip) : hdl unit :=
  c ← getc;
  ASSERT (negb (client_closed c));;
  client_handle_freed_client l.

Definition client_recv_func (l : lwip) (p : option bytes) (jobs : list (lwip * socks_event))
    : hdl err_t :=
  c ← getc;
  ASSERT (negb (client_closed c));;
  match p with
  | None => client_free_client l;; mret ERR_ABRT
  | Some p =>
      ASSERT (0 <? len p);;
      if TCP_WND - len (buf c) <? len p then mret ERR_MEM else
      pbuf_copy_partial p;;
      setc (fun c => c <| buf := buf c ++ p |>);;
      c ← getc;
      killed ← (if (len (buf c) =? len p) && socks_up c then
                  ASSERT (negb (socks_closed c));;
                  client_send_to_socks;;
                  sync_commit jobs
                else mret false);
      if killed : bool then mret ERR_ABRT else call Pbuf_free;; mret ERR_OK
  end.

Definition client_sent_func (l : lwip) (len_ : Z) (jobs : list (lwip * socks_event))
    : hdl err_t :=
  c ← getc;
  ASSERT (negb (client_closed c));;
  ASSERT (socks_up c);;
  ASSERT (0 <? len_);;
  ASSERT (len_ <=? socks_recv_tcp_pending c);;
  setc (fun c => c <| socks_recv_tcp_pending := socks_recv_tcp_pending c - len_ |>);;
  c ← getc;
  if 0 <? socks_recv_buf_used c then
    ASSERT (socks_recv_waiting c);;
    ASSERT (socks_recv_buf_sent c <? socks_recv_buf_used c);;
    setc (fun c => c <| socks_recv_waiting := false |>);;
    ok ← client_socks_recv_send_out l;
    if negb ok then mret ERR_ABRT else
    c ← getc;
    ASSERT (0 <? socks_recv_tcp_pending c);;
    if (socks_recv_buf_used c =? -1) && negb (socks_closed c) then
      client_socks_recv_initiate;;
      killed ← sync_commit jobs;
      if killed : bool then mret ERR_ABRT else mret ERR_OK
    else mret ERR_OK
  else if socks_closed c && (socks_recv_tcp_pending c =? 0) then
    client_free_client l;; mret ERR_ABRT
  else mret ERR_OK.

(** [raw] is the contents of the block [malloc] returns; [username] tells
    whether the source address is appended to the user name, and whether the
    allocation for it succeeds. *)
Definition listener_accept_func (malloc_ok : bool) (raw : tcp_client) (username : option bool)
    (socks_init_ok : bool) (local remote : BAddr) (jobs : list (lwip * socks_event))
    : hdl err_t :=
  if negb malloc_ok then mret ERR_MEM else
  modify (fun s => s <| live := true |> <| cl := raw |>);;
  setc (fun c => c <| c_local_addr := local |> <| c_remote_addr := remote |>);;
  if default true username && socks_init_ok then
    s ← get;
    ASSERT (0 <=? num_clients s);;
    modify (fun s => s <| socks := true |> <| num_clients := num_clients s + 1 |>);;
    setc (fun c => c <| client_closed := false |>);;
    modify (fun s => s <| cb_err := true |> <| cb_recv := true |>);;
    setc (fun c => c <| buf := [] |> <| socks_up := false |> <| socks_closed := false |>);;
    killed ← sync_commit jobs;
    if killed : bool then mret ERR_ABRT else mret ERR_OK
  else
    modify (fun s => s <| live := false |>);;
    mret ERR_MEM.

(** ** Executions *)

Inductive event :=
  | Ev_socks (l : lwip) (e : socks_event)
  | Ev_err (l : lwip)
  | Ev_recv (l : lwip) (p : option bytes) (jobs : list (lwip * socks_event))
  | Ev_sent (l : lwip) (n : Z) (jobs : list (lwip * socks_event))
  | Ev_murder.

(** lwIP calls the callbacks that are registered, with data within the window
    it announced and with acknowledgements of what was written. *)
Definition event_ok (s : sys) (e : event) : bool :=
  match e with
  | Ev_socks l e => socks_ok s e && lwip_ok l
  | Ev_err l => cb_err s && lwip_ok l
  | Ev_recv l p _ =>
      cb_recv s && lwip_ok l &&
      match p with
      | Some p => (0 <? len p) && (unconfirmed s + len p <=? TCP_WND)
      | None => true
      end
  | Ev_sent l n _ => cb_sent s && lwip_ok l && (0 <? n) && (n <=? unacked s)
  | Ev_murder => live s
  end.

Definition handle (e : event) : hdl err_t :=
  match e with
  | Ev_socks l e => socks_step l e;; mret ERR_OK
  | Ev_err l =>
      modify (fun s => s <| pcb := false |> <| cb_err := false |> <| cb_recv := false |>
                         <| cb_sent := false |>);;
      client_err_func l;; mret ERR_OK
  | Ev_recv l p jobs => client_recv_func l p jobs
  | Ev_sent l n jobs =>
      modify (fun s => s <| unacked := unacked s - n |>);; client_sent_func l n jobs
  | Ev_murder => client_murder;; mret ERR_OK
  end.

Definition step (s : sys) (e : event) : option sys :=
  match handle e s with Some (_, s', _) => Some s' | None => None end.
Fixpoint run (s : sys) (es : list event) : option sys :=
  match es with
  | [] => Some s
  | e :: es => if event_ok s e then s' ← step s e; run s' es else None
  end.

(** Before a connection is accepted: only the pcb exists. *)
Definition before (c : tcp_client) (n : Z) : sys :=
  mk_sys c false false n true false false false 0 0 false None false [] [] [] [].

(** ** Invariant *)

Module TcpClientProofs.

(** [full] is false inside a handler that is going to start receiving from
    SOCKS again, [idle] is false while the data received is being written. *)
Record live_inv (full idle : bool) (s : sys) (c : tcp_client) : Prop := {
  v_open : client_closed c && socks_closed c = false;
  v_pcb : pcb s = negb (client_closed c);
  v_cb_err : cb_err s = pcb s;
  v_cb_recv : cb_recv s = pcb s && negb (socks_closed c);
  v_cb_sent : cb_sent s = pcb s && socks_up c;
  v_socks : socks s = negb (socks_closed c);
  v_flush_tcp : socks_closed c = true -> socks_up c = true /\
    (0 <= socks_recv_buf_used c \/ 0 < socks_recv_tcp_pending c);
  v_flush_socks : idle = true -> client_closed c = true -> 0 < len (buf c);
  v_send : match send_pending s with
           | Some m => socks_up c = true /\ socks_closed c = false /\ 0 < m <= len (buf c)
           | None => socks_up c = true -> socks_closed c = false -> len (buf c) = 0
           end;
  v_recv : recv_pending s = true ->
    socks_up c = true /\ socks_closed c = false /\ socks_recv_buf_used c = -1;
  v_recv' : full = true -> client_closed c = false -> socks_up c = true -> socks_closed c = false ->
    socks_recv_buf_used c = -1 -> recv_pending s = true;
  v_unacked : client_closed c = false ->
    unacked s = if socks_up c then socks_recv_tcp_pending c else 0;
  v_pending : client_closed c = false -> socks_up c = true -> 0 <= socks_recv_tcp_pending c;
  v_waiting : client_closed c = false -> socks_up c = true ->
    (socks_recv_buf_used c = -1 /\ idle = true) \/
    (socks_recv_buf_used c = len (socks_recv_buf c) /\ socks_recv_waiting c = idle /\
     0 <= socks_recv_buf_sent c < socks_recv_buf_used c /\
     (idle = true -> 0 < socks_recv_tcp_pending c));
  v_window : client_closed c = false -> unconfirmed s = len (buf c) /\ len (buf c) <= TCP_WND;
  v_up : tcp_in s = socks_out s ++ buf c;
  v_down : client_closed c = false ->
    socks_in s = tcp_out s ++
      (if socks_up c && (0 <=? socks_recv_buf_used c)
       then drop (Z.to_nat (socks_recv_buf_sent c)) (socks_recv_buf c) else []);
}.

Record inv (s : sys) : Prop := {
  i_num : (if live s then 1 else 0) <= num_clients s;
  i_live : live s = true -> live_inv true true s (cl s);
  i_dead : live s = false -> pcb s = false /\ cb_err s = false /\ cb_recv s = false /\
    cb_sent s = false /\ socks s = false /\ send_pending s = None /\ recv_pending s = false;
  i_up : socks_out s `prefix_of` tcp_in s;
  i_down : tcp_out s `prefix_of` socks_in s;
}.

Lemma ok_getc s (Q : tcp_client -> sys -> Prop) : live s = true -> Q (cl s) s -> ok getc s Q.
Proof. intros Hl HQ. unfold ok, getc. hsteps; done. Qed.
Lemma ok_setc f s (Q : unit -> sys -> Prop) :
  live s = true -> Q tt (s <| cl := f (cl s) |>) -> ok (setc f) s Q.
Proof. intros Hl HQ. unfold ok, setc. hsteps; done. Qed.

Ltac ostep :=
  lazymatch goal with
  | |- ok getc _ _ => apply ok_getc
  | |- ok (setc _) _ _ => apply ok_setc
  | |- ok tcp_gone _ _ => unfold tcp_gone
  | |- ok tcp_clear_callbacks _ _ => unfold tcp_clear_callbacks
  | |- ok tcp_abort _ _ => unfold tcp_abort
  | |- ok (tcp_close _) _ _ => unfold tcp_close
  | |- ok (tcp_recved _) _ _ => unfold tcp_recved
  | |- ok (tcp_write _) _ _ => unfold tcp_write
  | |- ok BSocksClient_Free _ _ => unfold BSocksClient_Free
  | |- ok (Sender_Send _) _ _ => unfold Sender_Send
  | |- ok Receiver_Recv _ _ => unfold Receiver_Recv
  | |- ok client_dealloc _ _ => unfold client_dealloc
  | |- _ => ok_step
  end.
Ltac ocbn := cbn -[client_handle_freed_client client_free_client client_free_socks
  client_handle_freed_client_ client_free_client_ client_free_socks_].
Ltac osteps := repeat (ostep; ocbn; try done).
(** The same, through the closing functions. *)
Ltac osteps_closing := repeat (ostep; cbn; try done).

(** The SOCKS side, as needed once the client side is closed. *)
Record socks_inv (s : sys) (c : tcp_client) : Prop := {
  w_socks : socks s = negb (socks_closed c);
  w_send : match send_pending s with
           | Some m => socks_up c = true /\ socks_closed c = false /\ 0 < m <= len (buf c)
           | None => socks_up c = true -> socks_closed c = false -> len (buf c) = 0
           end;
  w_recv : recv_pending s = true ->
    socks_up c = true /\ socks_closed c = false /\ socks_recv_buf_used c = -1;
  w_up : tcp_in s = socks_out s ++ buf c;
  w_down : tcp_out s `prefix_of` socks_in s;
  w_num : 0 < num_clients s;
}.

Lemma socks_inv_closed s c :
  socks_inv s c -> socks_closed c = true -> send_pending s = None /\ recv_pending s = false.
Proof.
  intros [_ Ws Wr _ _ _] E. rewrite E in *. split.
  - destruct (send_pending s); [|done]. by destruct Ws as (_ & ? & _).
  - destruct (recv_pending s); [|done]. by destruct Wr as (_ & ? & _).
Qed.

(** Splits the invariant of a computed state into its parts. *)
Ltac inv_parts :=
  repeat match goal with
  | |- _ /\ _ => split
  | |- _ -> _ => intro
  | |- inv _ => constructor
  | |- live_inv _ _ _ _ => constructor
  end; cbn in *; try done; try lia; try congruence; try tauto;
  try (repeat match goal with
       | E : ?x = true |- context [?x] => rewrite E
       | E : ?x = false |- context [?x] => rewrite E
       end; cbn; done);
  try (match goal with E : ?x = _ |- ?x = _ => rewrite E end;
       repeat match goal with
       | E : ?x = true |- context [?x] => rewrite E
       | E : ?x = false |- context [?x] => rewrite E
       end; cbn; done);
  try match goal with
  | E : ?x = ?y ++ _ |- ?y `prefix_of` ?x => rewrite E; apply prefix_app_r; done
  end.

Lemma handle_freed_inv fuel co s :
  live s = true -> client_closed (cl s) = false -> pcb s = false -> cb_err s = false ->
  cb_recv s = false -> cb_sent s = false -> socks_inv s (cl s) ->
  ok (client_handle_freed_client_ (S (S fuel)) co) s (fun _ s' =>
    inv s' /\ dead_client s' = true /\ (live s' = true -> client_closed (cl s') = true) /\
    tcp_in s' = tcp_in s).
Proof.
  intros Hl Hc Hp Hce Hcr Hcs Hw. assert (Hcl := socks_inv_closed _ _ Hw).
  destruct Hw as [Ws Wse Wr Wu Wd Wn].
  destruct (socks_closed (cl s)) eqn:Esc; cbn in Ws; [destruct Hcl as [Hsp Hrp]; [done|]|].
  all: cbn [client_handle_freed_client_ client_free_socks_].
  all: osteps_closing; rewrite ?Hl, ?Hc, ?Esc in *; cbn in *; try done; try lia.
  all: inv_parts.
Qed.

(** Closing the client side from here: [tcp_close] or [tcp_abort] first. *)
Lemma closing_client_inv l s :
  live s = true -> client_closed (cl s) = false -> pcb s = true -> socks_inv s (cl s) ->
  ok (client_abort_client l) s (fun _ s' => inv s' /\ dead_client s' = true /\
    (live s' = true -> client_closed (cl s') = true) /\ tcp_in s' = tcp_in s) /\
  ok (client_free_client l) s (fun _ s' => inv s' /\ dead_client s' = true /\
    (live s' = true -> client_closed (cl s') = true) /\ tcp_in s' = tcp_in s).
Proof.
  intros Hl Hc Hp Hw. split.
  - unfold client_abort_client. osteps; [by rewrite Hc|].
    unfold client_handle_freed_client.
    refine (ok_mono _ _ _ _ (handle_freed_inv 1 _ _ _ _ _ _ _ _ _) _); try done.
    destruct Hw. by constructor.
  - unfold client_free_client. cbn [client_free_client_].
    destruct (close_ok l) eqn:E; osteps; rewrite ?Hc; try done.
    all: refine (ok_mono _ _ _ _ (handle_freed_inv 0 _ _ _ _ _ _ _ _ _) _); try done.
    all: destruct Hw; by constructor.
Qed.

Lemma live_socks_inv f i s :
  live_inv f i s (cl s) -> tcp_out s `prefix_of` socks_in s -> 0 < num_clients s ->
  socks_inv s (cl s).
Proof. intros []. by constructor. Qed.

(** Closing the SOCKS side between two events. *)
Lemma free_socks_inv l i s :
  live_inv true i s (cl s) -> (client_closed (cl s) = false -> i = true) ->
  1 <= num_clients s -> socks_out s `prefix_of` tcp_in s -> tcp_out s `prefix_of` socks_in s ->
  live s = true -> socks_closed (cl s) = false ->
  ok (client_free_socks l) s (fun _ s' => inv s' /\
    (live s' = true -> socks_closed (cl s') = true /\ client_closed (cl s) = false) /\
    tcp_in s' = tcp_in s /\ socks_out s' = socks_out s).
Proof.
  intros Hlive Hfi Hn Hup Hdown Hl Hsc.
  assert (Hw := live_socks_inv _ _ _ Hlive Hdown ltac:(lia)).
  destruct Hlive. unfold client_free_socks.
  cbn [client_free_socks_ client_free_client_ client_handle_freed_client_].
  destruct (client_closed (cl s)) eqn:Hc; cbn in *; [|rewrite (Hfi eq_refl) in *].
  - osteps_closing; rewrite ?Hl, ?Hc, ?Hsc in *; cbn in *; try done; try lia.
    all: inv_parts.
  - destruct (socks_up (cl s)) eqn:Hu, (close_ok l);
      osteps_closing; rewrite ?Hl, ?Hc, ?Hsc, ?Hu in *; cbn in *; try done; try lia.
    all: inv_parts.
Qed.

(** *** Writing to the client *)

(** The state after [k] more bytes were written. *)
Definition wrote (k : Z) (s : sys) : sys :=
  s <| cl := cl s <| socks_recv_buf_sent := socks_recv_buf_sent (cl s) + k |>
               <| socks_recv_tcp_pending := socks_recv_tcp_pending (cl s) + k |> |>
    <| unacked := unacked s + k |>
    <| tcp_out := tcp_out s ++ zslice (socks_recv_buf_sent (cl s)) k (socks_recv_buf (cl s)) |>.

Lemma write_loop_ok ws s :
  live s = true -> pcb s = true -> forallb (fun w => 0 <=? fst w) ws = true ->
  socks_recv_buf_used (cl s) = len (socks_recv_buf (cl s)) ->
  0 <= socks_recv_buf_sent (cl s) <= socks_recv_buf_used (cl s) ->
  ok (write_loop ws) s (fun _ s' => exists k,
    0 <= k /\ socks_recv_buf_sent (cl s) + k <= socks_recv_buf_used (cl s) /\ s' = wrote k s).
Proof.
  assert (H0 : forall s, s = wrote 0 s).
  { intros s0. unfold wrote. rewrite !Z.add_0_r, zslice_0, app_nil_r. by destruct s0 as [[]]. }
  revert s. induction ws as [|[sndbuf err] ws IH]; intros s Hl Hp Hws Hu Hs; cbn [write_loop].
  { ostep. exists 0. split_and!; [lia|lia|apply H0]. }
  cbn in Hws. apply andb_true_iff in Hws as [Hsb Hws].
  ostep. ostep; [done|]. set (c := cl s) in *.
  destruct (_ =? 0) eqn:E; [ostep; exists 0; split_and!; [lia|lia|apply H0]|].
  set (n := Z.min (socks_recv_buf_used c - socks_recv_buf_sent c) sndbuf) in *.
  ostep. eapply ok_of_option; [apply load_Some; lia|].
  destruct err; [|ostep; exists 0; split_and!; [lia|lia|apply H0]..].
  assert (Hlen : len (zslice (socks_recv_buf_sent c) n (socks_recv_buf c)) = n)
    by (apply len_zslice; lia).
  assert (Hw : s <| unacked := unacked s + len (zslice (socks_recv_buf_sent c) n (socks_recv_buf c)) |>
    <| tcp_out := tcp_out s ++ zslice (socks_recv_buf_sent c) n (socks_recv_buf c) |>
    <| cl := c <| socks_recv_buf_sent := socks_recv_buf_sent c + n |>
               <| socks_recv_tcp_pending := socks_recv_tcp_pending c + n |> |> = wrote n s)
    by (unfold wrote; by rewrite Hlen).
  ostep. unfold tcp_write. ostep. ostep. ostep. ostep; [done|]. ostep.
  ostep. ostep; [done|]. lazymatch goal with |- ok _ ?x _ => change x with
    (s <| unacked := unacked s + len (zslice (socks_recv_buf_sent c) n (socks_recv_buf c)) |>
    <| tcp_out := tcp_out s ++ zslice (socks_recv_buf_sent c) n (socks_recv_buf c) |>
    <| cl := c <| socks_recv_buf_sent := socks_recv_buf_sent c + n |>
               <| socks_recv_tcp_pending := socks_recv_tcp_pending c + n |> |>) end.
  rewrite Hw. ostep. ostep; [done|].
  change (socks_recv_buf_sent (cl (wrote n s))) with (socks_recv_buf_sent c + n).
  change (socks_recv_buf_used (cl (wrote n s))) with (socks_recv_buf_used c).
  destruct (_ <? _) eqn:E2; [|ostep; exists n; split_and!; [lia|lia|done]].
  eapply ok_mono; [apply IH; try done; cbn; fold c; lia|].
  intros ok_ s' (k & Hk & Hle & ->). cbn in Hle. fold c in Hle.
  exists (n + k). split_and!; [lia|lia|].
  unfold wrote. cbn. fold c. rewrite <- !Z.add_assoc, <- app_assoc.
  by rewrite <- zslice_app by lia.
Qed.

(** What holds while data from SOCKS is being written to the client. *)
Record draining (s : sys) : Prop := {
  dr_live : live s = true;
  dr_open : client_closed (cl s) = false;
  dr_up : socks_up (cl s) = true;
  dr_num : 0 < num_clients s;
  dr_down : tcp_out s `prefix_of` socks_in s;
  dr_out : socks_out s `prefix_of` tcp_in s;
}.

Lemma wrote_draining k s :
  draining s -> live_inv false false s (cl s) ->
  0 <= k -> socks_recv_buf_sent (cl s) + k <= socks_recv_buf_used (cl s) ->
  socks_recv_buf_used (cl s) = len (socks_recv_buf (cl s)) -> 0 <= socks_recv_buf_sent (cl s) ->
  0 <= socks_recv_buf_used (cl s) ->
  socks_in s = tcp_out (wrote k s)
    ++ drop (Z.to_nat (socks_recv_buf_sent (cl s) + k)) (socks_recv_buf (cl s)).
Proof.
  intros [] [] Hk Hle Hu Hs Hu0. rewrite v_down0, dr_up0 by done.
  replace (0 <=? socks_recv_buf_used (cl s)) with true by lia. cbn.
  rewrite <- app_assoc. f_equal. unfold zslice.
  rewrite Z2Nat.inj_add, <- drop_drop by lia. by rewrite take_drop.
Qed.

Lemma wrote_socks_inv k s :
  draining s -> live_inv false false s (cl s) ->
  tcp_out (wrote k s) `prefix_of` socks_in s -> socks_inv (wrote k s) (cl (wrote k s)).
Proof. intros [] [] Hp. by constructor. Qed.

Lemma send_out_ok l s :
  draining s -> live_inv false false s (cl s) -> lwip_ok l = true ->
  ok (client_socks_recv_send_out l) s (fun r s' => tcp_in s' = tcp_in s /\
    if r then draining s' /\ live_inv false true s' (cl s') /\ recv_pending s' = false /\
              socks_closed (cl s') = socks_closed (cl s) /\
              0 < socks_recv_tcp_pending (cl s')
    else inv s' /\ dead_client s' = true).
Proof.
  intros Hd Hi Hlw. assert (Hd' := Hd). assert (Hi' := Hi). destruct Hd', Hi'.
  destruct (v_waiting0 dr_open0 dr_up0) as [[_ ?]|(Hu & Hw & Hs & _)]; [done|].
  assert (Hrp : recv_pending s = false).
  { destruct (recv_pending s); [|done]. destruct v_recv0 as (_ & _ & ?); [done|lia]. }
  assert (Hpcb : pcb s = true) by by rewrite v_pcb0, dr_open0.
  unfold client_socks_recv_send_out.
  ostep. ostep; [done|]. ostep. ostep; [by rewrite dr_open0|]. ostep. ostep; [done|].
  ostep. ostep; [lia|]. ostep. ostep; [lia|]. ostep. ostep; [by rewrite Hw|]. ostep.
  eapply ok_mono; [apply write_loop_ok; try done; lia|].
  intros r s' (k & Hk & Hle & ->).
  assert (Hdown := wrote_draining k s Hd Hi Hk Hle Hu ltac:(lia) ltac:(lia)).
  assert (Hpre : tcp_out (wrote k s) `prefix_of` socks_in s)
    by (rewrite Hdown; by apply prefix_app_r).
  assert (Hab : ok (client_abort_client l;; mret false) (wrote k s) (fun r s' =>
    tcp_in s' = tcp_in s /\ if r : bool then
      draining s' /\ live_inv false true s' (cl s') /\ recv_pending s' = false /\
      socks_closed (cl s') = socks_closed (cl s) /\ 0 < socks_recv_tcp_pending (cl s')
    else inv s' /\ dead_client s' = true)).
  { ostep. eapply ok_mono; [apply closing_client_inv; try done; by apply wrote_socks_inv|].
    intros _ s' (? & ? & _ & ?). ostep. done. }
  destruct (negb r); [exact Hab|]. ostep. ostep. ostep. ostep; [done|].
  destruct (negb (output_ok l)); [exact Hab|]. ostep. ostep; [done|].
  change (socks_recv_buf_sent (cl (wrote k s))) with (socks_recv_buf_sent (cl s) + k).
  change (socks_recv_buf_used (cl (wrote k s))) with (socks_recv_buf_used (cl s)).
  change (socks_recv_tcp_pending (cl (wrote k s))) with (socks_recv_tcp_pending (cl s) + k).
  assert (Hpn := v_pending0 dr_open0 dr_up0).
  destruct (_ <? _) eqn:E; [destruct (_ =? 0) eqn:E0; [exact Hab|]|].
  - ostep. ostep; [done|]. ostep. split; [done|].
    split; [by constructor|]. split; [|split_and!; [done..|cbn; lia]].
    constructor; cbn; try done; intros; try congruence.
    + split; [done|]. left. lia.
    + rewrite dr_up0. rewrite v_unacked0, dr_up0 by done. lia.
    + lia.
    + right. split_and!; try done; lia.
    + rewrite dr_up0. replace (0 <=? socks_recv_buf_used (cl s)) with true by lia. exact Hdown.
  - ostep. ostep; [done|]. ostep. split; [done|].
    assert (Hke : socks_recv_buf_sent (cl s) + k = len (socks_recv_buf (cl s))) by lia.
    split; [by constructor|]. split; [|split_and!; [done..|cbn; lia]].
    constructor; cbn; try done; intros; try congruence.
    + destruct v_flush_tcp0; [done|]. split; [done|]. right. lia.
    + rewrite dr_up0. rewrite v_unacked0, dr_up0 by done. lia.
    + lia.
    + by left.
    + rewrite andb_false_r, app_nil_r. rewrite Hdown, Hke.
      rewrite drop_ge; [by rewrite app_nil_r|]. rewrite length_len. lia.
Qed.

(** Receiving again completes the invariant. *)
Lemma recv_initiate_ok s :
  draining s -> live_inv false true s (cl s) -> recv_pending s = false ->
  socks_closed (cl s) = false -> socks_recv_buf_used (cl s) = -1 ->
  ok client_socks_recv_initiate s (fun _ s' => inv s' /\ live s' = true /\
    client_closed (cl s') = false /\ tcp_in s' = tcp_in s).
Proof.
  intros [] [] Hrp Hsc Hu. unfold client_socks_recv_initiate. osteps.
  all: rewrite ?v_socks0, ?dr_live0, ?dr_open0, ?dr_up0, ?Hsc, ?Hrp, ?Hu; try done.
  split_and!; try done. constructor; cbn; try done; [lia|].
  intros _. constructor; cbn; try done. by rewrite Hsc.
Qed.

(** A state in which the client waits for lwIP is complete as it is. *)
Lemma draining_inv s :
  draining s -> live_inv false true s (cl s) ->
  socks_closed (cl s) = true \/ socks_recv_buf_used (cl s) <> -1 -> inv s.
Proof.
  intros [] [] Hw. constructor; try done; [rewrite dr_live0; lia| |by rewrite dr_live0].
  intros _. constructor; try done. intros _ _ _ ??. by destruct Hw as [Hw|Hw]; [congruence|].
Qed.

Lemma received_ok l data s :
  inv s -> socks_ok s (SOCKS_received data) = true -> lwip_ok l = true ->
  ok (socks_step l (SOCKS_received data)) s (fun _ s' => inv s' /\ tcp_in s' = tcp_in s).
Proof.
  intros Hi Hok Hlw. unfold socks_ok in Hok.
  split_andb. destruct Hi as [Hn Hlive _ Hup Hdown].
  assert (Hl : live s = true) by done. specialize (Hlive Hl). rewrite Hl in Hn.
  assert (Hlive' := Hlive). destruct Hlive'. destruct v_recv0 as (Hu & Hsc & Hused); [done|].
  unfold socks_step, client_socks_recv_handler_done. ostep. ostep. ostep. ostep; [done|].
  ostep. ostep; [done|]. ostep. ostep; [done|].
  cbn [cl update]. ostep. ostep; [cbn; by rewrite Hsc|]. ostep. ostep; [done|].
  ostep. ostep; [cbn; by rewrite Hused|]. cbn.
  destruct (client_closed (cl s)) eqn:Hc.
  - ostep. split; [|done]. constructor; cbn; rewrite ?Hl; try done.
    + intros _. constructor; cbn; rewrite ?Hc; try done.
    + by apply prefix_app_r.
  - ostep. ostep; [done|]. ostep.
    lazymatch goal with |- ok _ ?x _ => set (s1 := x) end.
    assert (Hd : draining s1) by (constructor; try done; [cbn; lia|by apply prefix_app_r]).
    assert (Hi1 : live_inv false false s1 (cl s1)).
    { constructor; cbn; rewrite ?Hc, ?Hsc, ?Hu in *; try done; intros.
      - right. split_and!; try done; lia.
      - replace (0 <=? len data) with true by lia. rewrite v_down0, Hused by done.
        cbn. by rewrite app_nil_r. }
    eapply ok_mono; [apply (send_out_ok l s1 Hd Hi1 Hlw)|].
    intros r s' [Htcp Hr]. destruct r; cbn [negb]; [|ostep; by destruct Hr].
    destruct Hr as (Hd' & Hi' & Hrp & Hsc' & _). ostep. ostep; [apply Hd'|].
    destruct (_ =? -1) eqn:E.
    + eapply ok_mono; [apply (recv_initiate_ok s'); try done; [by rewrite Hsc'|lia]|].
      intros _ s2 (? & _ & _ & E2). split; [done|]. rewrite E2. exact Htcp.
    + ostep. split; [|done]. apply draining_inv; try done. right. lia.
Qed.

Lemma sent_ok l n s :
  inv s -> socks_ok s (SOCKS_sent n) = true ->
  ok (socks_step l (SOCKS_sent n)) s (fun _ s' => inv s' /\ tcp_in s' = tcp_in s /\
    if live s' then socks_out s' = socks_out s ++ take (Z.to_nat n) (buf (cl s)) /\
      client_closed (cl s') = client_closed (cl s) /\
      buf (cl s') = drop (Z.to_nat n) (buf (cl s))
    else socks_out s' = tcp_in s').
Proof.
  intros Hi Hok. unfold socks_ok in Hok. apply andb_true_iff in Hok as [Hok Hn].
  apply andb_true_iff in Hok as [Hl Hsk]. destruct Hi as [Hnum Hlive _ Hup Hdown].
  specialize (Hlive Hl). rewrite Hl in Hnum. assert (Hlive' := Hlive). destruct Hlive'.
  destruct (send_pending s) as [m|] eqn:Hsp; [|done]. destruct v_send0 as (Hu & Hsc & Hm).
  assert (Hdl : len (drop (Z.to_nat n) (buf (cl s))) = len (buf (cl s)) - n)
    by (rewrite len_drop; lia).
  assert (Hup' : tcp_in s = (socks_out s ++ take (Z.to_nat n) (buf (cl s)))
    ++ drop (Z.to_nat n) (buf (cl s))) by (by rewrite <- app_assoc, take_drop).
  unfold socks_step, client_socks_send_handler_done.
  destruct (client_closed (cl s)) eqn:Hc; cbn in v_pcb0.
  - osteps; rewrite ?Hl, ?Hc, ?Hsc, ?Hu in *; try done; try lia.
    + split_and!; try done. constructor; cbn; try done; try lia.
      * intros _. constructor; cbn; rewrite ?Hc, ?Hu, ?Hsc in *; try done; lia.
      * rewrite Hup'. by apply prefix_app_r.
    + lazymatch goal with |- ok _ ?x _ => set (s1 := x) end.
      assert (Hd0 : drop (Z.to_nat n) (buf (cl s)) = []) by (apply len_zero_nil; zlia).
      eapply ok_mono; [apply (free_socks_inv l false s1); try done|].
      * constructor; cbn; rewrite ?Hc, ?Hu, ?Hsc in *; try done. by rewrite Hd0.
      * cbn. rewrite Hup'. by apply prefix_app_r.
      * cbn. intros _ s' (Hi' & Hcl & E1 & E2). split; [done|]. split; [done|].
        destruct (live s') eqn:El; [by destruct Hcl|].
        rewrite E1, E2. cbn. by rewrite Hup', Hd0, app_nil_r.
  - assert (Hwin := v_window0 eq_refl).
    osteps; rewrite ?Hl, ?Hc, ?Hsc, ?Hu in *; try done; try lia.
    all: split_and!; try done; constructor; cbn; try done; try lia.
    all: try (rewrite Hup'; by apply prefix_app_r).
    all: intros _; constructor; cbn; rewrite ?Hc, ?Hu, ?Hsc in *; try done; try lia.
Qed.

Lemma up_ok s :
  inv s -> live s = true -> socks_closed (cl s) = false -> socks_up (cl s) = false ->
  ok client_socks_up s (fun _ s' => inv s' /\ tcp_in s' = tcp_in s).
Proof.
  intros [Hnum Hlive _ Hup Hdown] Hl Hsc Hu. specialize (Hlive Hl). rewrite Hl in Hnum.
  destruct Hlive. destruct (send_pending s) as [m|] eqn:Hsp; [by destruct v_send0; congruence|].
  assert (Hrp : recv_pending s = false).
  { destruct (recv_pending s); [|done]. destruct v_recv0 as (? & _); [done|congruence]. }
  unfold client_socks_up, client_send_to_socks, client_socks_recv_initiate.
  destruct (client_closed (cl s)) eqn:Hc; cbn in v_pcb0.
  all: osteps; rewrite ?Hl, ?Hc, ?Hsc, ?Hu, ?Hsp, ?Hrp in *; try done; try lia.
  all: rewrite ?v_socks0, ?Hsc; try done.
  all: split; [|done]; constructor; cbn; try done; try lia.
  all: intros _; constructor; cbn; rewrite ?Hc, ?Hu, ?Hsc, ?Hrp in *; try done; try lia.
  all: intros; try (by left).
  all: rewrite ?v_cb_sent0, ?v_pcb0; try done; zlia.
Qed.

(** Every event the SOCKS side may report preserves the invariant. *)
Lemma socks_step_ok l e s :
  inv s -> socks_ok s e = true -> lwip_ok l = true ->
  ok (socks_step l e) s (fun _ s' => inv s' /\ tcp_in s' = tcp_in s).
Proof.
  intros Hi Hok Hlw. destruct e as [| | |n|data].
  4: { eapply ok_mono; [by apply sent_ok|]. intros a s' (? & ? & ?); naive_solver. }
  4: by apply received_ok.
  all: unfold socks_ok in Hok; split_andb; unfold socks_step, client_socks_handler.
  all: assert (Hl : live s = true) by done; assert (Hlive := i_live _ Hi Hl).
  all: assert (Hsc : socks_closed (cl s) = false)
    by (destruct (socks_closed (cl s)) eqn:E; [|done]; assert (F := v_socks _ _ _ _ Hlive);
        rewrite E in F; cbn in F; congruence).
  all: assert (Hfree : ok (client_free_socks l) s (fun _ s' => inv s' /\ tcp_in s' = tcp_in s))
    by (destruct Hi as [Hn _ _ Hup Hdown]; rewrite Hl in Hn;
        eapply ok_mono; [by apply (free_socks_inv l true s)|]; intros a s' (? & _ & ? & _); done).
  all: ostep; ostep; [done|]; ostep; ostep; [by rewrite Hsc|].
  - exact Hfree.
  - apply up_ok; try done. by apply negb_true_iff.
  - ostep. ostep; [done|]. exact Hfree.
Qed.

Lemma run_socks_ok es s :
  inv s -> ok (run_socks es) s (fun _ s' => inv s' /\ tcp_in s' = tcp_in s).
Proof.
  revert s. induction es as [|[l e] es IH]; intros s Hi; cbn [run_socks]; [by ostep|].
  ostep. ostep. destruct (socks_ok s e && lwip_ok l) eqn:E; [|by ostep].
  split_andb. ostep. eapply ok_mono; [by apply socks_step_ok|].
  intros _ s' [Hi' E']. eapply ok_mono; [by apply IH|]. intros _ s2 [? ?]. split; [done|congruence].
Qed.

Lemma inv_dead_client b s : inv s -> inv (s <| dead_client := b |>).
Proof.
  intros [? Hl ? ? ?]. constructor; try done. intros H. destruct (Hl H). by constructor.
Qed.

Lemma sync_commit_ok es s :
  inv s -> ok (sync_commit es) s (fun _ s' => inv s' /\ tcp_in s' = tcp_in s).
Proof.
  intros Hi. unfold sync_commit. ostep. ostep. ostep.
  eapply ok_mono; [apply run_socks_ok; by apply inv_dead_client|].
  intros _ s' [? E]. ostep. ostep. ostep. by split.
Qed.

Lemma mk_inv s :
  live s = true -> 1 <= num_clients s -> live_inv true true s (cl s) ->
  socks_out s `prefix_of` tcp_in s -> tcp_out s `prefix_of` socks_in s -> inv s.
Proof. intros Hl Hn Hi Hu Hd. constructor; try done; by rewrite Hl. Qed.

(** A registered callback means a client that is there. *)
Lemma callback_live s :
  inv s -> cb_err s = true \/ cb_recv s = true \/ cb_sent s = true ->
  live s = true /\ client_closed (cl s) = false /\ pcb s = true.
Proof.
  intros [_ Hlive Hdead _ _] Hcb. destruct (live s).
  2: { destruct (Hdead eq_refl) as (_ & E1 & E2 & E3 & _). rewrite E1, E2, E3 in Hcb.
       by destruct Hcb as [|[|]]. }
  destruct (Hlive eq_refl). split; [done|]. destruct (client_closed (cl s)); [|done].
  cbn in *. rewrite v_cb_recv0, v_cb_sent0, v_cb_err0, v_pcb0 in Hcb.
  by destruct Hcb as [|[|]].
Qed.

Lemma err_ok l s :
  inv s -> event_ok s (Ev_err l) = true -> ok (handle (Ev_err l)) s (fun _ s' => inv s').
Proof.
  intros Hi He. cbn in He. split_andb.
  destruct (callback_live s Hi) as (Hl & Hc & _); [by left|].
  assert (Hw := live_socks_inv _ _ _ (i_live _ Hi Hl) (i_down _ Hi)).
  assert (Hn := i_num _ Hi). rewrite Hl in Hn. specialize (Hw ltac:(lia)).
  unfold handle, client_err_func. ostep. ostep. ostep. ostep. ostep; [done|].
  ostep. ostep; [by cbn; rewrite Hc|].
  refine (ok_mono _ _ _ _ (handle_freed_inv 1 _ _ _ _ _ _ _ _ _) _); try done.
  - destruct Hw. by constructor.
  - cbn. intros _ s' (? & _). by ostep.
Qed.

Lemma recv_ok l p jobs s :
  inv s -> event_ok s (Ev_recv l p jobs) = true ->
  ok (handle (Ev_recv l p jobs)) s (fun r s' => inv s' /\
    match p with
    | None => r = ERR_ABRT
    | Some p => r <> ERR_MEM /\ tcp_in s' = tcp_in s ++ p
    end).
Proof.
  intros Hi He. cbn in He. split_andb.
  destruct (callback_live s Hi) as (Hl & Hc & Hp); [by auto|].
  assert (Hlive := i_live _ Hi Hl). assert (Hn := i_num _ Hi). rewrite Hl in Hn.
  unfold handle, client_recv_func. ostep. ostep; [done|]. ostep. ostep; [by rewrite Hc|].
  destruct p as [p|]; split_andb.
  2: { ostep. eapply ok_mono; [apply closing_client_inv; try done;
         by eapply live_socks_inv; [done|apply Hi|lia]|].
       intros _ s' (? & _). by ostep. }
  assert (Hsc : socks_closed (cl s) = false).
  { destruct Hlive. destruct (socks_closed (cl s)); [|done].
    rewrite Hp in *. cbn in *. congruence. }
  destruct (v_window _ _ _ _ Hlive Hc) as [Hwin _].
  ostep. ostep; [done|]. replace (TCP_WND - len (buf (cl s)) <? len p) with false by lia.
  ostep. unfold pbuf_copy_partial. ostep. ostep. ostep; [done|]. ostep. ostep; [done|].
  lazymatch goal with |- ok _ ?x _ => set (s1 := x) end. cbn [cl update].
  assert (Hlb : len (buf (cl s1)) = len (buf (cl s)) + len p) by apply len_app.
  change (buf (cl s) ++ p) with (buf (cl s1)).
  assert (Hinv1 : forall sp, match sp with
      | Some m => socks_up (cl s) = true /\ 0 < m <= len (buf (cl s1))
      | None => socks_up (cl s) = false end -> inv (s1 <| send_pending := sp |>)).
  { intros sp Hsp. destruct Hlive. apply mk_inv; [done|exact Hn| |
      apply prefix_app_r, (i_up _ Hi)|apply (i_down _ Hi)].
    constructor; cbn; rewrite ?Hc, ?Hsc in *; try done.
    - cbn in Hsp. destruct sp; [tauto|congruence].
    - intros _. cbn in Hlb. lia.
    - by rewrite v_up0, <- app_assoc. }
  assert (Hend : forall killed : bool, forall s', inv s' -> tcp_in s' = tcp_in s1 ->
    ok (if killed then mret ERR_ABRT else call Pbuf_free;; mret ERR_OK) s'
      (fun r s' => inv s' /\ r <> ERR_MEM /\ tcp_in s' = tcp_in s ++ p)).
  { intros killed s' Hi' Ht. destruct killed; repeat ostep; done. }
  ostep. assert (Hsend := v_send _ _ _ _ Hlive).
  destruct ((len (buf (cl s1)) =? len p) && socks_up (cl s1)) eqn:E.
  - split_andb. ostep. ostep; [cbn; by rewrite Hsc|]. ostep.
    unfold client_send_to_socks, Sender_Send.
    do 2 ostep; [done|]. do 2 ostep; [cbn; by rewrite Hsc|]. do 2 ostep; [done|].
    do 2 ostep; [lia|]. do 2 ostep.
    assert (Hsk : socks s = true) by (by rewrite (v_socks _ _ _ _ Hlive), Hsc).
    do 2 ostep; [done|]. do 2 ostep.
    { cbn. destruct (send_pending s); [lia|done]. }
    do 2 ostep; [lia|]. ostep.
    eapply ok_mono; [apply sync_commit_ok, Hinv1; cbn in *; split; [done|lia]|].
    intros killed s' [Hi' Ht]. exact (Hend killed s' Hi' Ht).
  - ostep. refine (Hend false s1 _ eq_refl).
    destruct (send_pending s) as [m|] eqn:Esp.
    + replace s1 with (s1 <| send_pending := Some m |>) by (unfold s1; cbn; by rewrite Esp).
      apply Hinv1. split; [tauto|lia].
    + replace s1 with (s1 <| send_pending := None |>) by (unfold s1; cbn; by rewrite Esp).
      apply Hinv1. destruct (socks_up (cl s)) eqn:Hu; [exfalso|done].
      change (socks_up (cl s1)) with (socks_up (cl s)) in E. rewrite Hu in E.
      specialize (Hsend eq_refl Hsc). lia.
Qed.

Lemma acked_ok l n jobs s :
  inv s -> event_ok s (Ev_sent l n jobs) = true ->
  ok (handle (Ev_sent l n jobs)) s (fun r s' => inv s' /\ tcp_in s' = tcp_in s).
Proof.
  intros Hi He. cbn in He. split_andb.
  destruct (callback_live s Hi) as (Hl & Hc & Hp); [by auto|].
  assert (Hlive := i_live _ Hi Hl). assert (Hn := i_num _ Hi). rewrite Hl in Hn.
  assert (Hu : socks_up (cl s) = true).
  { assert (E := v_cb_sent _ _ _ _ Hlive). rewrite Hp in E. cbn in E. congruence. }
  assert (Hpn := v_unacked _ _ _ _ Hlive Hc). rewrite Hu in Hpn.
  unfold handle, client_sent_func. ostep. ostep.
  do 2 ostep; [done|]. do 2 ostep; [cbn; by rewrite Hc|]. do 2 ostep; [done|].
  do 2 ostep; [done|]. do 2 ostep; [cbn; lia|]. do 2 ostep; [done|]. do 2 ostep; [done|].
  lazymatch goal with |- ok _ ?x _ => set (s1 := x) end.
  change (socks_recv_buf_used (cl s1)) with (socks_recv_buf_used (cl s)).
  change (socks_closed (cl s1)) with (socks_closed (cl s)).
  change (socks_recv_tcp_pending (cl s1)) with (socks_recv_tcp_pending (cl s) - n).
  destruct (v_waiting _ _ _ _ Hlive Hc Hu) as [[Hused _]|(Hused & Hw & Hs & _)].
  - replace (0 <? socks_recv_buf_used (cl s)) with false by lia.
    destruct (socks_closed (cl s) && _) eqn:E.
    + ostep. eapply ok_mono; [apply closing_client_inv; try done|].
      { assert (Hw := live_socks_inv _ _ _ Hlive (i_down _ Hi) ltac:(lia)). destruct Hw.
        by constructor. }
      intros _ s' (? & _ & _ & ?). by ostep.
    + ostep. split; [|done]. apply mk_inv; [done|done| |apply Hi|apply Hi].
      destruct Hlive. constructor; cbn; rewrite ?Hc, ?Hu in *; try done; intros; try lia.
      split; [done|]. right. rewrite H3 in E. cbn in E. lia.
  - replace (0 <? socks_recv_buf_used (cl s)) with true by lia.
    do 2 ostep; [done|]. do 2 ostep; [change (socks_recv_buf_sent (cl s1)) with
      (socks_recv_buf_sent (cl s)); lia|]. do 2 ostep; [done|]. ostep.
    lazymatch goal with |- ok _ ?x _ => set (s2 := x) end.
    assert (Hd : draining s2) by (constructor; try done; [cbn; lia|apply Hi..]).
    assert (Hi2 : live_inv false false s2 (cl s2)).
    { destruct Hlive. constructor; cbn; rewrite ?Hc, ?Hu in *; try done; intros; try lia. }
    eapply ok_mono; [by apply (send_out_ok l s2 Hd Hi2)|].
    intros r s' [Htcp Hr]. destruct r; cbn [negb]; [|ostep; split; [apply Hr|exact Htcp]].
    destruct Hr as (Hd' & Hi' & Hrp & Hsc & Hp'). do 2 ostep; [apply Hd'|].
    do 2 ostep; [lia|].
    destruct ((socks_recv_buf_used (cl s') =? -1) && negb (socks_closed (cl s'))) eqn:E.
    + split_andb. ostep. eapply ok_mono; [apply (recv_initiate_ok s'); try done;
        [by apply negb_true_iff|lia]|].
      intros _ s3 (Hi3 & _ & _ & E3). ostep. eapply ok_mono; [by apply sync_commit_ok|].
      intros killed s4 [Hi4 E4]. assert (tcp_in s4 = tcp_in s) by (by rewrite E4, E3, Htcp).
      destruct killed; by ostep.
    + ostep. split; [|exact Htcp]. apply draining_inv; try done.
      destruct (socks_closed (cl s')); [by left|right; lia].
Qed.

Lemma murder_ok s :
  inv s -> live s = true -> ok (handle Ev_murder) s (fun _ s' => inv s' /\ live s' = false).
Proof.
  intros [Hn Hlive _ Hup Hdown] Hl. specialize (Hlive Hl). rewrite Hl in Hn. destruct Hlive.
  unfold handle, client_murder.
  destruct (client_closed (cl s)) eqn:Hc, (socks_closed (cl s)) eqn:Hsc; cbn in *; try done.
  all: osteps; rewrite ?Hl, ?Hc, ?Hsc in *; cbn in *; try done; try lia.
  all: try congruence.
  all: split; [|done]; constructor; cbn; try done; try lia; intros _.
  all: rewrite ?v_cb_err0, ?v_cb_recv0, ?v_cb_sent0, ?v_pcb0; try done.
  all: destruct (send_pending s); [destruct v_send0 as (_ & ? & _); congruence|].
  all: destruct (recv_pending s); [destruct v_recv0 as (_ & ? & _); congruence|]; done.
Qed.

Lemma handle_ok e s : inv s -> event_ok s e = true -> ok (handle e) s (fun _ s' => inv s').
Proof.
  intros Hi He. destruct e as [l e|l|l p jobs|l n jobs|].
  - cbn in He. split_andb. unfold handle. ostep.
    eapply ok_mono; [by apply socks_step_ok|]. intros _ s' [? _]. by ostep.
  - by apply err_ok.
  - eapply ok_mono; [by apply recv_ok|]. by intros r s' [? _].
  - eapply ok_mono; [by apply acked_ok|]. by intros r s' [? _].
  - eapply ok_mono; [by apply murder_ok|]. by intros r s' [? _].
Qed.

Lemma step_ok e s : inv s -> event_ok s e = true -> exists s', step s e = Some s' /\ inv s'.
Proof.
  intros Hi He. pose proof (handle_ok e s Hi He) as H. unfold ok in H.
  apply wp_spec in H as (r & s' & o & H & Hi'). exists s'. unfold step. by rewrite H.
Qed.

Lemma run_ok es s s' : inv s -> run s es = Some s' -> inv s'.
Proof.
  revert s. induction es as [|e es IH]; intros s Hi; cbn [run]; [by intros [= <-]|].
  destruct (event_ok s e) eqn:He; [|done]. destruct (step_ok e s Hi He) as (s1 & -> & Hi1).
  by apply IH.
Qed.

Lemma accept_ok ok_ raw user init local remote jobs c n :
  0 <= n ->
  ok (listener_accept_func ok_ raw user init local remote jobs) (before c n) (fun r s' =>
    if ok_ && default true user && init then inv s'
    else r = ERR_MEM /\ live s' = false /\ num_clients s' = n).
Proof.
  intros Hn. unfold listener_accept_func. destruct ok_; cbn [negb andb]; [|by ostep].
  do 2 ostep. do 2 ostep; [done|]. destruct (default true user && init) eqn:E.
  - ostep. ostep. do 2 ostep; [cbn; lia|]. do 2 ostep. do 2 ostep; [done|].
    do 2 ostep. do 2 ostep; [done|]. ostep.
    eapply ok_mono; [apply sync_commit_ok|intros killed s' [Hi _]; destruct killed; by ostep].
    apply mk_inv; cbn; try done; try lia. all: by constructor.
  - do 2 ostep. by ostep.
Qed.
End TcpClientProofs.

(** ** Properties *)

Section client_properties.
Import TcpClientProofs.

(** A connection lwIP hands over and [listener_accept_func] keeps: whatever the
    contents of the block allocated and whatever SOCKS events follow at once. *)
Context (raw c0 : tcp_client) (n : Z) (username : option bool) (local remote : BAddr)
  (jobs : list (lwip * socks_event)) (r : err_t) (s0 : sys) (calls : list out).
Hypotheses (Hn : 0 <= n) (Huser : default true username = true)
  (Haccept : listener_accept_func true raw username true local remote jobs (before c0 n)
             = Some (r, s0, calls)).

Lemma reachable_inv es s : run s0 es = Some s -> inv s.
Proof using All.
  pose proof (accept_ok true raw username true local remote jobs c0 n Hn) as H.
  unfold ok, wp in H. rewrite Haccept, Huser in H. cbn in H. by apply run_ok.
Qed.

(** C10: whatever lwIP, the SOCKS server and the client do, and in whatever
    order, the handlers of a connection run to their end: no assertion fails,
    the client structure is not used after it is freed nor freed twice, no
    call is made on a pcb or a SOCKS client that is gone, no second operation
    is started on an interface that has one in progress, and the loop that
    writes to the client and the closing functions terminate. *)
Theorem tcp_client_safe es s e :
  run s0 es = Some s -> event_ok s e = true -> is_Some (step s e).
Proof using All.
  intros Hi%reachable_inv He. destruct (step_ok e s Hi He) as (s' & -> & _). eauto.
Qed.

(** C11: the two byte streams are carried in order and unaltered: what the
    SOCKS server takes is at any time a prefix of what the client sent, and
    what is written to the client a prefix of what the server sent. *)
Theorem tcp_client_streams es s :
  run s0 es = Some s ->
  socks_out s `prefix_of` tcp_in s /\ tcp_out s `prefix_of` socks_in s /\
  (live s = true -> tcp_in s = socks_out s ++ buf (cl s)).
Proof using All.
  intros [_ Hl _ Hu Hd]%reachable_inv. split; [done|]. split; [done|].
  intros E. exact (v_up _ _ _ _ (Hl E)).
Qed.

(** C12: a connection never waits for something that will not come.  While it
    is kept: a side is still open; if the SOCKS side is up and data from the
    client is buffered, it is being sent; if both sides are open, either more
    is being received from SOCKS or bytes are unacknowledged and their
    acknowledgement will be noticed; if the SOCKS side has closed, such bytes
    are left; if the client side has closed, data for SOCKS is left. *)
Theorem tcp_client_no_stall es s :
  run s0 es = Some s -> live s = true ->
  let c := cl s in
  (socks_up c = true -> socks_closed c = false -> 0 < len (buf c) ->
     is_Some (send_pending s)) /\
  (socks_up c = true -> socks_closed c = false -> client_closed c = false ->
     recv_pending s = true \/ (0 < unacked s /\ cb_sent s = true)) /\
  (socks_closed c = true -> client_closed c = false /\ 0 < unacked s /\ cb_sent s = true) /\
  (client_closed c = true -> socks_closed c = false /\ 0 < len (buf c)).
Proof using All.
  intros [_ Hlive _ _ _]%reachable_inv Hl c. specialize (Hlive Hl). fold c in Hlive.
  destruct Hlive. split_and!.
  - intros Hu Hsc Hb. destruct (send_pending s); [eauto|]. specialize (v_send0 Hu Hsc). lia.
  - intros Hu Hsc Hc. rewrite v_cb_sent0, v_pcb0, v_unacked0, Hc, Hu by done.
    destruct (v_waiting0 Hc Hu) as [[Hus _]|(_ & _ & _ & Hp)].
    + left. by apply v_recv'0.
    + right. split; [by apply Hp|done].
  - intros Hsc. rewrite Hsc, andb_true_r in v_open0. destruct (v_flush_tcp0 Hsc) as [Hu Hf].
    split; [done|]. rewrite v_cb_sent0, v_pcb0, v_unacked0, v_open0, Hu by done.
    split; [|done]. destruct (v_waiting0 v_open0 Hu) as [[Hus _]|(_ & _ & _ & Hp)]; [lia|].
    by apply Hp.
  - intros Hc. rewrite Hc in v_open0. split; [done|]. by apply v_flush_socks0.
Qed.

(** Data lwIP delivers within its window is always accepted, and is in the
    stream to the SOCKS server afterwards. *)
Theorem tcp_client_accepts es s l p jobs' :
  run s0 es = Some s -> event_ok s (Ev_recv l (Some p) jobs') = true ->
  exists r s' o, handle (Ev_recv l (Some p) jobs') s = Some (r, s', o) /\
    r <> ERR_MEM /\ tcp_in s' = tcp_in s ++ p.
Proof using All.
  intros Hi%reachable_inv He. assert (H := recv_ok l (Some p) jobs' s Hi He).
  apply wp_spec in H as (r' & s' & o & H & _ & Hr & Ht). by exists r', s', o.
Qed.

(** when the client closes with data still buffered, the connection is kept
    until SOCKS has taken all of it: each completed send brings the buffer
    nearer to empty, and the one that empties it frees the client with all the
    data delivered. *)
Theorem tcp_client_flushes es s l m :
  run s0 es = Some s -> client_closed (cl s) = true ->
  event_ok s (Ev_socks l (SOCKS_sent m)) = true ->
  exists s', step s (Ev_socks l (SOCKS_sent m)) = Some s' /\ tcp_in s' = tcp_in s /\
    if live s' then client_closed (cl s') = true /\
                    0 < len (buf (cl s')) < len (buf (cl s))
    else socks_out s' = tcp_in s'.
Proof using All.
  intros Hi%reachable_inv Hc He. cbn in He. split_andb.
  assert (Hst := sent_ok l m s Hi ltac:(done)).
  apply wp_spec in Hst as (u & s' & o & Hrun & Hi' & Ht & Hs).
  exists s'. unfold step. cbn -[socks_step]. unfold mbind, handler_bind. rewrite Hrun.
  split; [done|]. split; [done|]. destruct (live s') eqn:El; [|done].
  destruct Hs as (_ & Hc' & Hb). rewrite Hc'. split; [done|].
  assert (0 < len (buf (cl s'))) by (apply (i_live _ Hi' El); [done|congruence]).
  split; [done|]. rewrite Hb in *. unfold socks_ok in *. split_andb.
  destruct (send_pending s); [|done]. split_andb. rewrite len_drop in * by lia. lia.
Qed.
End client_properties.

Module TcpClientWitnesses.
Import TcpClientProofs.

Definition demo_lwip : lwip := mk_lwip [(2, ERR_OK); (100, ERR_OK)] true true.
Definition demo_raw : tcp_client :=
  mk_tcp_client BAddr_None BAddr_None true [Byte.xff] true true [Byte.xff] 77 78 true 79.
Definition demo_accept : option (err_t * sys * list out) :=
  listener_accept_func true demo_raw None true (BAddr_IPv4 1 2) (BAddr_IPv4 3 4)
    [(demo_lwip, SOCKS_UP)] (before demo_raw 0).
Definition demo_s0 : sys :=
  match demo_accept with Some (_, s, _) => s | None => before demo_raw 0 end.
(** Data in both directions, then the client closes with data buffered. *)
Definition demo_events : list event :=
  [Ev_recv demo_lwip (Some [Byte.x01; Byte.x02; Byte.x03]) [];
   Ev_socks demo_lwip (SOCKS_received [Byte.x0a; Byte.x0b; Byte.x0c]);
   Ev_socks demo_lwip (SOCKS_sent 1);
   Ev_sent demo_lwip 3 [];
   Ev_recv demo_lwip None []].
Definition demo_at (k : nat) : sys := default demo_s0 (run demo_s0 (take k demo_events)).

Lemma tcp_client_safe_witness :
  is_Some (step (demo_at 3) (Ev_sent demo_lwip 3 [(demo_lwip, SOCKS_ERROR)])).
Proof.
  apply (tcp_client_safe demo_raw demo_raw 0 None (BAddr_IPv4 1 2) (BAddr_IPv4 3 4)
    [(demo_lwip, SOCKS_UP)] ERR_OK demo_s0 [] ltac:(lia) eq_refl ltac:(vm_compute; reflexivity)
    (take 3 demo_events)); vm_compute; reflexivity.
Defined.

Lemma tcp_client_streams_witness :
  socks_out (demo_at 5) `prefix_of` tcp_in (demo_at 5) /\
  tcp_out (demo_at 5) `prefix_of` socks_in (demo_at 5) /\
  (live (demo_at 5) = true -> tcp_in (demo_at 5) = socks_out (demo_at 5) ++ buf (cl (demo_at 5))).
Proof.
  apply (tcp_client_streams demo_raw demo_raw 0 None (BAddr_IPv4 1 2) (BAddr_IPv4 3 4)
    [(demo_lwip, SOCKS_UP)] ERR_OK demo_s0 [] ltac:(lia) eq_refl ltac:(vm_compute; reflexivity)
    demo_events); vm_compute; reflexivity.
Defined.

Lemma tcp_client_no_stall_witness :
  let c := cl (demo_at 3) in
  (socks_up c = true -> socks_closed c = false -> 0 < len (buf c) ->
     is_Some (send_pending (demo_at 3))) /\
  (socks_up c = true -> socks_closed c = false -> client_closed c = false ->
     recv_pending (demo_at 3) = true \/ (0 < unacked (demo_at 3) /\ cb_sent (demo_at 3) = true))
  /\ (socks_closed c = true -> client_closed c = false /\ 0 < unacked (demo_at 3) /\
      cb_sent (demo_at 3) = true) /\
  (client_closed c = true -> socks_closed c = false /\ 0 < len (buf c)).
Proof.
  apply (tcp_client_no_stall demo_raw demo_raw 0 None (BAddr_IPv4 1 2) (BAddr_IPv4 3 4)
    [(demo_lwip, SOCKS_UP)] ERR_OK demo_s0 [] ltac:(lia) eq_refl ltac:(vm_compute; reflexivity)
    (take 3 demo_events)); vm_compute; reflexivity.
Defined.

Lemma tcp_client_accepts_witness :
  exists r s' o, handle (Ev_recv demo_lwip (Some [Byte.x2a]) []) (demo_at 4) = Some (r, s', o) /\
    r <> ERR_MEM /\ tcp_in s' = tcp_in (demo_at 4) ++ [Byte.x2a].
Proof.
  apply (tcp_client_accepts demo_raw demo_raw 0 None (BAddr_IPv4 1 2) (BAddr_IPv4 3 4)
    [(demo_lwip, SOCKS_UP)] ERR_OK demo_s0 [] ltac:(lia) eq_refl ltac:(vm_compute; reflexivity)
    (take 4 demo_events)); vm_compute; reflexivity.
Defined.

Lemma tcp_client_flushes_witness :
  exists s', step (demo_at 5) (Ev_socks demo_lwip (SOCKS_sent 2)) = Some s' /\
    tcp_in s' = tcp_in (demo_at 5) /\
    if live s' then client_closed (cl s') = true /\
                    0 < len (buf (cl s')) < len (buf (cl (demo_at 5)))
    else socks_out s' = tcp_in s'.
Proof.
  apply (tcp_client_flushes demo_raw demo_raw 0 None (BAddr_IPv4 1 2) (BAddr_IPv4 3 4)
    [(demo_lwip, SOCKS_UP)] ERR_OK demo_s0 [] ltac:(lia) eq_refl ltac:(vm_compute; reflexivity)
    demo_events); vm_compute; reflexivity.
Defined.

(** When the SOCKS connection fails while received data is being passed to it,
    [client_recv_func] returns without freeing the pbuf it was given. *)
Example recv_abort_keeps_pbuf :
  match client_recv_func demo_lwip (Some [Byte.x01]) [(demo_lwip, SOCKS_ERROR)] (demo_at 0) with
  | Some (ERR_ABRT, _, calls) => forallb (fun o => match o with Pbuf_free => false | _ => true end) calls
  | _ => false
  end = true.
Proof. vm_compute. reflexivity. Qed.
End TcpClientWitnesses.
