(* ===== verification/SocksClient.v ===== *)
(** * The SOCKS client

    [socksclient/BSocksClient.c] with the messages of [misc/socks_proto.h]: the
    handshake that turns a TCP connection to a SOCKS5 server into a connection
    to the destination.

    The state is the structure of the source with that of the objects it owns:
    the connector, the connection, which of the two sets of I/O objects exist,
    the packet being sent and the read in progress.  The buffer is a block of
    memory with an identity, and the pointers handed to the I/O objects name
    the block they point into: a send or a read that completes after its block
    was freed or reallocated is a fault. *)
From S2P Require Import Prelude BSize BAddr.

(** ** The protocol *)

Definition SOCKS_VERSION : Z := 0x05.
Definition SOCKS_METHOD_NO_AUTHENTICATION_REQUIRED : Z := 0x00.
Definition SOCKS_METHOD_USERNAME_PASSWORD : Z := 0x02.
Definition SOCKS_CMD_CONNECT : Z := 0x01.
Definition SOCKS_ATYP_IPV4 : Z := 0x01.
Definition SOCKS_ATYP_IPV6 : Z := 0x04.
Definition SOCKS_REP_SUCCEEDED : Z := 0x00.

Definition sizeof_socks_client_hello_header : Z := 2.
Definition sizeof_socks_client_hello_method : Z := 1.
Definition sizeof_socks_server_hello : Z := 2.
Definition sizeof_socks_request_header : Z := 4.
Definition sizeof_socks_reply_header : Z := 4.
Definition sizeof_socks_addr_ipv4 : Z := 6.
Definition sizeof_socks_addr_ipv6 : Z := 18.

(** ** State *)

Inductive STATE :=
  | STATE_CONNECTING
  | STATE_SENDING_HELLO
  | STATE_SENT_HELLO
  | STATE_SENDING_PASSWORD
  | STATE_SENT_PASSWORD
  | STATE_SENDING_REQUEST
  | STATE_SENT_REQUEST
  | STATE_RECEIVED_REPLY_HEADER
  | STATE_UP.
#[export] Instance STATE_eq_dec : EqDecision STATE.
Proof. solve_decision. Defined.

(** The strings are given by pointer and length: they are the bytes. *)
Record BSocksClient_auth_info := mk_auth_info {
  auth_type : Z;
  username : bytes;
  password : bytes;
}.

Record BSocksClient := mk_BSocksClient {
  auth_info : list BSocksClient_auth_info;
  dest_addr : BAddr;
  state : STATE;
  buffer : option (nat * bytes);
  recv_dest : nat * Z;
  recv_len : Z;
  recv_total : Z;
}.
#[export] Instance BSocksClient_eta : Eta BSocksClient := fun r =>
  mk_BSocksClient (auth_info r) (dest_addr r) (state r) (buffer r) (recv_dest r)
    (recv_len r) (recv_total r).

Inductive io := IO_none | IO_control | IO_up.
#[export] Instance io_eq_dec : EqDecision io.
Proof. solve_decision. Defined.

(** [next_block] numbers the blocks of memory; [sending] is the packet being
    sent, a block and a length, [receiving] the read in progress, a pointer and
    a length.  [wire_out] and [wire_in] are the bytes sent to and read from the
    server; [reports] the events reported by [handler]. *)
Inductive out :=
  | BSOCKSCLIENT_EVENT_ERROR
  | BSOCKSCLIENT_EVENT_UP
  | BSOCKSCLIENT_EVENT_ERROR_CLOSED.
#[export] Instance out_eq_dec : EqDecision out.
Proof. solve_decision. Defined.

Record sys := mk_sys {
  o : BSocksClient;
  live : bool;
  next_block : nat;
  connector : bool;
  con : bool;
  ios : io;
  sending : option (nat * Z);
  receiving : option (nat * Z * Z);
  wire_out : bytes;
  wire_in : bytes;
  reports : list out;
}.
#[export] Instance sys_eta : Eta sys := fun r =>
  mk_sys (o r) (live r) (next_block r) (connector r) (con r) (ios r) (sending r) (receiving r)
    (wire_out r) (wire_in r) (reports r).

(** An error was reported: the user has to free the object. *)
Definition failed (s : sys) : bool :=
  existsb (fun e => negb (bool_decide (e = BSOCKSCLIENT_EVENT_UP))) (reports s).

Definition hdl := handler sys out.
Definition geto : hdl BSocksClient := s ← get; ASSERT (live s);; mret (o s).
Definition seto (f : BSocksClient -> BSocksClient) : hdl unit :=
  modify (fun s => s <| o := f (o s) |>).

(** ** Operations *)

(** [o->handler(o->user, event)] *)
Definition report (event : out) : hdl unit :=
  modify (fun s => s <| reports := reports s ++ [event] |>);; call event.
Definition report_error (error : out) : hdl unit := report error.

Definition init_control_io : hdl unit :=
  s ← get; ASSERT (con s);; ASSERT (bool_decide (ios s = IO_none));;
  modify (fun s => s <| ios := IO_control |>).
Definition free_control_io : hdl unit :=
  s ← get; ASSERT (bool_decide (ios s = IO_control));;
  modify (fun s => s <| ios := IO_none |> <| sending := None |> <| receiving := None |>).
Definition init_up_io : hdl unit :=
  s ← get; ASSERT (con s);; ASSERT (bool_decide (ios s = IO_none));;
  modify (fun s => s <| ios := IO_up |>).
Definition free_up_io : hdl unit :=
  s ← get; ASSERT (bool_decide (ios s = IO_up));;
  modify (fun s => s <| ios := IO_none |>).
Definition BConnection_Free : hdl unit :=
  s ← get; ASSERT (con s);; ASSERT (bool_decide (ios s = IO_none));;
  modify (fun s => s <| con := false |>).

Section abi.
Context {abi : Abi}.

(** A successful reallocation gives a new block. *)
Definition reserve_buffer (mem : option bytes) (size : bsize_t) : hdl bool :=
  if is_overflow size then mret false else
  match BRealloc mem (value size) with
  | None => mret false
  | Some b =>
      s ← get;
      seto (fun o => o <| buffer := Some (next_block s, b) |>);;
      modify (fun s => s <| next_block := S (next_block s) |>);;
      mret true
  end.

(** [o->buffer + off] *)
Definition at_buffer (off : Z) : hdl (nat * Z) :=
  o ← geto;
  '(id, _) ← of_option (buffer o);
  mret (id, off).
(** [memcpy(o->buffer + off, data, ...)] *)
Definition write_buffer (off : Z) (data : bytes) : hdl unit :=
  o ← geto;
  '(id, b) ← of_option (buffer o);
  b' ← of_option (store off data b);
  seto (fun o => o <| buffer := Some (id, b') |>).
(** [n] bytes at the start of [o->buffer] *)
Definition read_buffer (n : Z) : hdl bytes :=
  o ← geto;
  '(_, b) ← of_option (buffer o);
  of_option (load 0 n b).

(** The interfaces assert that no operation is in progress. *)
Definition PacketPassInterface_Sender_Send (data_len : Z) : hdl unit :=
  s ← get;
  ASSERT (bool_decide (ios s = IO_control));;
  ASSERT (bool_decide (sending s = None));;
  ASSERT ((0 <=? data_len) && (data_len <=? INT_MAX));;
  '(id, _) ← at_buffer 0;
  modify (fun s => s <| sending := Some (id, data_len) |>).

Definition do_receive : hdl unit :=
  o ← geto;
  ASSERT (recv_len o <? recv_total o);;
  s ← get;
  ASSERT (bool_decide (ios s = IO_control));;
  ASSERT (bool_decide (receiving s = None));;
  let '(id, off) := recv_dest o in
  modify (fun s => s <| receiving := Some (id, off + recv_len o, recv_total o - recv_len o) |>).

Definition start_receive (dest : nat * Z) (total : Z) : hdl unit :=
  ASSERT (0 <? total);;
  seto (fun o => o <| recv_dest := dest |> <| recv_len := 0 |> <| recv_total := total |>);;
  do_receive.

(** The loop that writes the methods after the header. *)
Fixpoint write_methods (i : Z) (ais : list BSocksClient_auth_info) : hdl unit :=
  match ais with
  | [] => mret tt
  | ai :: ais =>
      write_buffer (sizeof_socks_client_hello_header + i * sizeof_socks_client_hello_method)
        [z2b (auth_type ai)];;
      write_methods (i + 1) ais
  end.

Definition connector_handler (is_error con_init_ok : bool) (mem : option bytes) : hdl unit :=
  o ← geto;
  ASSERT (bool_decide (state o = STATE_CONNECTING));;
  if is_error then report_error BSOCKSCLIENT_EVENT_ERROR else
  if negb con_init_ok then report_error BSOCKSCLIENT_EVENT_ERROR else
  modify (fun s => s <| con := true |>);;
  init_control_io;;
  let fail1 := free_control_io;; BConnection_Free;; report_error BSOCKSCLIENT_EVENT_ERROR in
  let num_auth_info := len (auth_info o) in
  if (num_auth_info =? 0) || (255 <? num_auth_info) then fail1 else
  let size := bsize_add (bsize_fromsize sizeof_socks_client_hello_header)
                (bsize_mul (bsize_fromsize num_auth_info)
                   (bsize_fromsize sizeof_socks_client_hello_method)) in
  ok ← reserve_buffer mem size;
  if negb ok then fail1 else
  write_buffer 0 [z2b SOCKS_VERSION; z2b num_auth_info];;
  write_methods 0 (auth_info o);;
  PacketPassInterface_Sender_Send (value size);;
  seto (fun o => o <| state := STATE_SENDING_HELLO |>).

Definition connection_handler (recvclosed : bool) : hdl unit :=
  o ← geto;
  ASSERT (negb (bool_decide (state o = STATE_CONNECTING)));;
  if bool_decide (state o = STATE_UP) && recvclosed
  then report_error BSOCKSCLIENT_EVENT_ERROR_CLOSED
  else report_error BSOCKSCLIENT_EVENT_ERROR.

Definition auth_finished (mem : option bytes) : hdl unit :=
  o ← geto;
  let size := bsize_fromsize sizeof_socks_request_header in
  let size := match dest_addr o with
              | BAddr_IPv4 _ _ => bsize_add size (bsize_fromsize sizeof_socks_addr_ipv4)
              | BAddr_IPv6 _ _ => bsize_add size (bsize_fromsize sizeof_socks_addr_ipv6)
              | BAddr_None => size
              end in
  ok ← reserve_buffer mem size;
  if negb ok then report_error BSOCKSCLIENT_EVENT_ERROR else
  atyp ← match dest_addr o with
         | BAddr_IPv4 ip port =>
             write_buffer sizeof_socks_request_header (le_split 4 ip ++ le_split 2 port);;
             mret SOCKS_ATYP_IPV4
         | BAddr_IPv6 ip port =>
             write_buffer sizeof_socks_request_header (ip ++ le_split 2 port);;
             mret SOCKS_ATYP_IPV6
         | BAddr_None => ASSERT false;; mret 0
         end;
  write_buffer 0 [z2b SOCKS_VERSION; z2b SOCKS_CMD_CONNECT; z2b 0; z2b atyp];;
  PacketPassInterface_Sender_Send (value size);;
  seto (fun o => o <| state := STATE_SENDING_REQUEST |>).

(** The password packet, written through a running pointer. *)
Definition write_password (ai : BSocksClient_auth_info) : hdl unit :=
  let username_len := len (username ai) in
  let password_len := len (password ai) in
  write_buffer 0 [z2b 1];;
  write_buffer 1 [z2b username_len];;
  write_buffer 2 (username ai);;
  write_buffer (2 + username_len) [z2b password_len];;
  write_buffer (3 + username_len) (password ai).

(** [case STATE_SENT_HELLO] *)
Definition received_hello (mem : option bytes) : hdl unit :=
  o ← geto;
  imsg ← read_buffer sizeof_socks_server_hello;
  ver ← of_option (imsg !! 0%nat);
  method ← of_option (imsg !! 1%nat);
  if negb (b2z ver =? SOCKS_VERSION) then report_error BSOCKSCLIENT_EVENT_ERROR else
  match find (fun ai => auth_type ai =? b2z method) (auth_info o) with
  | None => report_error BSOCKSCLIENT_EVENT_ERROR
  | Some ai =>
      if auth_type ai =? SOCKS_METHOD_NO_AUTHENTICATION_REQUIRED then auth_finished mem
      else if auth_type ai =? SOCKS_METHOD_USERNAME_PASSWORD then
        let username_len := len (username ai) in
        let password_len := len (password ai) in
        if (username_len =? 0) || (255 <? username_len)
           || (password_len =? 0) || (255 <? password_len)
        then report_error BSOCKSCLIENT_EVENT_ERROR else
        let size := bsize_fromsize (to_size (1 + 1 + username_len + 1 + password_len)) in
        ok ← reserve_buffer mem size;
        if negb ok then report_error BSOCKSCLIENT_EVENT_ERROR else
        write_password ai;;
        PacketPassInterface_Sender_Send (value size);;
        seto (fun o => o <| state := STATE_SENDING_PASSWORD |>)
      else ASSERT false
  end.

(** [case STATE_SENT_REQUEST] *)
Definition received_reply_header : hdl unit :=
  imsg ← read_buffer sizeof_socks_reply_header;
  ver ← of_option (imsg !! 0%nat);
  rep ← of_option (imsg !! 1%nat);
  atyp ← of_option (imsg !! 3%nat);
  if negb (b2z ver =? SOCKS_VERSION) then report_error BSOCKSCLIENT_EVENT_ERROR else
  if negb (b2z rep =? SOCKS_REP_SUCCEEDED) then report_error BSOCKSCLIENT_EVENT_ERROR else
  let addr_len := if b2z atyp =? SOCKS_ATYP_IPV4 then Some sizeof_socks_addr_ipv4
                  else if b2z atyp =? SOCKS_ATYP_IPV6 then Some sizeof_socks_addr_ipv6
                  else None in
  match addr_len with
  | None => report_error BSOCKSCLIENT_EVENT_ERROR
  | Some addr_len =>
      dest ← at_buffer sizeof_socks_reply_header;
      start_receive dest addr_len;;
      seto (fun o => o <| state := STATE_RECEIVED_REPLY_HEADER |>)
  end.

(** [case STATE_SENT_PASSWORD] *)
Definition received_password_reply (mem : option bytes) : hdl unit :=
  imsg ← read_buffer 2;
  b0 ← of_option (imsg !! 0%nat);
  if negb (b2z b0 =? 1) then report_error BSOCKSCLIENT_EVENT_ERROR else
  b1 ← of_option (imsg !! 1%nat);
  if negb (b2z b1 =? 0) then report_error BSOCKSCLIENT_EVENT_ERROR else
  auth_finished mem.

(** [case STATE_RECEIVED_REPLY_HEADER] *)
Definition received_reply_rest : hdl unit :=
  seto (fun o => o <| buffer := None |>);;
  free_control_io;;
  init_up_io;;
  seto (fun o => o <| state := STATE_UP |>);;
  report BSOCKSCLIENT_EVENT_UP.

(** The [switch] of [recv_handler_done]. *)
Definition received_part (mem : option bytes) (st : STATE) : hdl unit :=
  match st with
  | STATE_SENT_HELLO => received_hello mem
  | STATE_SENT_REQUEST => received_reply_header
  | STATE_SENT_PASSWORD => received_password_reply mem
  | STATE_RECEIVED_REPLY_HEADER => received_reply_rest
  | _ => ASSERT false
  end.

Definition recv_handler_done (mem : option bytes) (data_len : Z) : hdl unit :=
  ASSERT (0 <=? data_len);;
  o ← geto;
  ASSERT (data_len <=? recv_total o - recv_len o);;
  seto (fun o => o <| recv_len := recv_len o + data_len |>);;
  o ← geto;
  if recv_len o <? recv_total o then do_receive else received_part mem (state o).

(** The branches of [send_handler_done]: reserve [size] bytes, receive the first
    [total] of them. *)
Definition await_reply (mem : option bytes) (size : bsize_t) (total : Z) (st : STATE) : hdl unit :=
  ok ← reserve_buffer mem size;
  if negb ok then report_error BSOCKSCLIENT_EVENT_ERROR else
  dest ← at_buffer 0;
  start_receive dest total;;
  seto (fun o => o <| state := st |>).

Definition send_handler_done (mem : option bytes) : hdl unit :=
  o ← geto;
  ASSERT (bool_decide (is_Some (buffer o)));;
  match state o with
  | STATE_SENDING_HELLO =>
      let size := bsize_fromsize sizeof_socks_server_hello in
      await_reply mem size (value size) STATE_SENT_HELLO
  | STATE_SENDING_REQUEST =>
      let size := bsize_add (bsize_fromsize sizeof_socks_reply_header)
                    (bsize_max (bsize_fromsize sizeof_socks_addr_ipv4)
                       (bsize_fromsize sizeof_socks_addr_ipv6)) in
      await_reply mem size sizeof_socks_reply_header STATE_SENT_REQUEST
  | STATE_SENDING_PASSWORD =>
      let size := bsize_fromsize 2 in
      await_reply mem size (value size) STATE_SENT_PASSWORD
  | _ => ASSERT false
  end.

(** ** Construction and destruction *)

Definition BSocksClient_auth_none : BSocksClient_auth_info :=
  mk_auth_info SOCKS_METHOD_NO_AUTHENTICATION_REQUIRED [] [].
Definition BSocksClient_auth_password (username password : bytes) : BSocksClient_auth_info :=
  mk_auth_info SOCKS_METHOD_USERNAME_PASSWORD username password.

Definition no_client : BSocksClient :=
  mk_BSocksClient [] BAddr_None STATE_CONNECTING None (0%nat, 0) 0 0.
Definition nothing : sys :=
  mk_sys no_client false 0 false false IO_none None None [] [] [].

(** [recv] stands for what the structure holds before: the fields that are not
    initialised. *)
Definition BSocksClient_Init (server_addr : BAddr) (ais : list BSocksClient_auth_info)
    (dest : BAddr) (connector_init_ok : bool) (recv : nat * Z * Z * Z) : hdl bool :=
  ASSERT (negb (BAddr_IsInvalid server_addr));;
  ASSERT (match dest with BAddr_None => false | _ => true end);;
  ASSERT (forallb (fun ai => (auth_type ai =? SOCKS_METHOD_NO_AUTHENTICATION_REQUIRED)
                             || (auth_type ai =? SOCKS_METHOD_USERNAME_PASSWORD)) ais);;
  let '(rd, rd_off, rl, rt) := recv in
  modify (fun s => s <| o := mk_BSocksClient ais dest STATE_CONNECTING None (rd, rd_off) rl rt |>);;
  if negb connector_init_ok then mret false else
  modify (fun s => s <| live := true |> <| connector := true |>);;
  mret true.

Definition BSocksClient_Free : hdl unit :=
  o ← geto;
  (if negb (bool_decide (state o = STATE_CONNECTING)) then
     (if bool_decide (state o = STATE_UP) then free_up_io else free_control_io);;
     BConnection_Free
   else mret tt);;
  s ← get; ASSERT (connector s);;
  modify (fun s => s <| connector := false |> <| live := false |>);;
  seto (fun o => o <| buffer := None |>).

(** ** Executions *)

Inductive event :=
  | Ev_connected (is_error con_init_ok : bool) (mem : option bytes)
  | Ev_connection (recvclosed : bool)
  | Ev_sent (mem : option bytes)
  | Ev_received (mem : option bytes) (data : bytes)
  | Ev_free.

(** The connector reports once; the connection exists from then on, sends the
    packet given from the buffer and stores what it reads into it. *)
Definition event_ok (s : sys) (e : event) : bool :=
  live s &&
  match e with
  | Ev_connected _ _ _ =>
      negb (failed s) && bool_decide (state (o s) = STATE_CONNECTING)
  | Ev_connection _ => negb (failed s) && con s
  | Ev_sent _ => negb (failed s) && bool_decide (is_Some (sending s))
  | Ev_received _ data =>
      negb (failed s) &&
      match receiving s with
      | Some (_, n) => (0 <? len data) && (len data <=? n)
      | None => false
      end
  | Ev_free => true
  end.

(** The bytes behind a pointer: the block must be the buffer of now. *)
Definition wire_send : hdl unit :=
  s ← get;
  '(id, n) ← of_option (sending s);
  '(id', b) ← of_option (buffer (o s));
  ASSERT (bool_decide (id = id'));;
  data ← of_option (load 0 n b);
  modify (fun s => s <| sending := None |> <| wire_out := wire_out s ++ data |>).
Definition wire_recv (data : bytes) : hdl unit :=
  s ← get;
  '(id, off, _) ← of_option (receiving s);
  '(id', b) ← of_option (buffer (o s));
  ASSERT (bool_decide (id = id'));;
  write_buffer off data;;
  modify (fun s => s <| receiving := None |> <| wire_in := wire_in s ++ data |>).

Definition handle (e : event) : hdl unit :=
  match e with
  | Ev_connected is_error con_init_ok mem => connector_handler is_error con_init_ok mem
  | Ev_connection recvclosed => connection_handler recvclosed
  | Ev_sent mem => wire_send;; send_handler_done mem
  | Ev_received mem data => wire_recv data;; recv_handler_done mem (len data)
  | Ev_free => BSocksClient_Free
  end.

Definition step (s : sys) (e : event) : option sys :=
  match handle e s with Some (_, s', _) => Some s' | None => None end.
Fixpoint run (s : sys) (es : list event) : option sys :=
  match es with
  | [] => Some s
  | e :: es => if event_ok s e then s' ← step s e; run s' es else None
  end.

(** ** The protocol as a function of the bytes the server sent

    RFC 1928 and RFC 1929 from the client's side: after each part of the reply,
    what the client has to send next, until it is connected or gives up. *)

(** [Connected] is the end of the reply exactly; past it the bytes belong to the
    destination. *)
Inductive verdict := Waiting | Connected | Overread | Refused.
#[export] Instance verdict_eq_dec : EqDecision verdict.
Proof. solve_decision. Defined.

Definition hello_msg (ais : list BSocksClient_auth_info) : bytes :=
  z2b 5 :: z2b (len ais) :: map (fun ai => z2b (auth_type ai)) ais.
Definition password_msg (ai : BSocksClient_auth_info) : bytes :=
  z2b 1 :: z2b (len (username ai)) :: username ai ++ z2b (len (password ai)) :: password ai.
Definition request_msg (dest : BAddr) : bytes :=
  match dest with
  | BAddr_IPv4 ip port => [z2b 5; z2b 1; z2b 0; z2b 1] ++ le_split 4 ip ++ le_split 2 port
  | BAddr_IPv6 ip port => [z2b 5; z2b 1; z2b 0; z2b 4] ++ ip ++ le_split 2 port
  | BAddr_None => []
  end.
Definition password_ok (ai : BSocksClient_auth_info) : bool :=
  (0 <? len (username ai)) && (len (username ai) <=? 255)
  && (0 <? len (password ai)) && (len (password ai) <=? 255).

Definition request_phase (rx : bytes) : verdict :=
  match rx with
  | v :: r :: _ :: t :: addr =>
      if (b2z v =? 5) && (b2z r =? 0) && ((b2z t =? 1) || (b2z t =? 4)) then
        let n := if b2z t =? 1 then 6 else 18 in
        if len addr <? n then Waiting else if len addr =? n then Connected else Overread
      else Refused
  | _ => Waiting
  end.

(** After the server chose the password method. *)
Definition password_phase (ais : list BSocksClient_auth_info) (dest : BAddr)
    (ai : BSocksClient_auth_info) (rx : bytes) : bytes * verdict :=
  match rx with
  | a :: st :: rx =>
      if (b2z a =? 1) && (b2z st =? 0)
      then (hello_msg ais ++ password_msg ai ++ request_msg dest, request_phase rx)
      else (hello_msg ais ++ password_msg ai, Refused)
  | _ => (hello_msg ais ++ password_msg ai, Waiting)
  end.

Definition session (ais : list BSocksClient_auth_info) (dest : BAddr) (rx : bytes)
    : bytes * verdict :=
  match rx with
  | v :: m :: rx =>
      match find (fun ai => auth_type ai =? b2z m) ais with
      | Some ai =>
          if negb (b2z v =? 5) then (hello_msg ais, Refused)
          else if auth_type ai =? 0 then (hello_msg ais ++ request_msg dest, request_phase rx)
          else if password_ok ai then password_phase ais dest ai rx
          else (hello_msg ais, Refused)
      | None => (hello_msg ais, Refused)
      end
  | _ => (hello_msg ais, Waiting)
  end.
End abi.

(** ** Invariant *)

Module SocksClientProofs.
Section invariant.
Context {abi : Abi} (ais : list BSocksClient_auth_info) (dest : BAddr).
Implicit Types (s : sys) (e : event).

Abbreviation session := (session ais dest).
Abbreviation hello := (hello_msg ais).

(** [msgs] is sent but for the packet in progress, which is the buffer. *)
Record is_sending s (msgs : bytes) : Prop := {
  snd_con : con s = true;
  snd_ios : ios s = IO_control;
  snd_recv : receiving s = None;
  snd_buf : exists id b, buffer (o s) = Some (id, b) /\ sending s = Some (id, len b) /\
    wire_out s ++ b = msgs /\ 0 < len b;
}.

(** [msgs] is sent; of [total] bytes asked for at [off], [got] have arrived, and
    the bytes before them are [pre]. *)
Record is_receiving s (off total room : Z) (msgs pre got : bytes) : Prop := {
  rcv_con : con s = true;
  rcv_ios : ios s = IO_control;
  rcv_send : sending s = None;
  rcv_out : wire_out s = msgs;
  rcv_in : wire_in s = pre ++ got;
  rcv_off : 0 <= off /\ off + total <= room /\ len got < total;
  rcv_len : recv_len (o s) = len got;
  rcv_total : recv_total (o s) = total;
  rcv_buf : exists id b, buffer (o s) = Some (id, b) /\ room <= len b /\
    zslice off (len got) b = got /\ recv_dest (o s) = (id, off) /\
    receiving s = Some (id, off + len got, total - len got);
}.

(** What remains to be read decides the rest of the session. *)
Definition in_password (pre : bytes) (ai : BSocksClient_auth_info) : Prop :=
  len pre = 2 /\ forall x, session (pre ++ x) = password_phase ais dest ai x.
Definition in_request (pre msgs : bytes) : Prop :=
  len pre <= 4 /\ forall x, session (pre ++ x) = (msgs, request_phase x).

Definition addr_size (t : byte) : Z := if b2z t =? 1 then 6 else 18.
Definition is_reply_header (h : bytes) (t : byte) : Prop :=
  exists v p r, h = [v; p; r; t] /\ b2z v = 5 /\ b2z p = 0 /\ (b2z t = 1 \/ b2z t = 4).

(** Nothing failed so far. *)
Definition running s : Prop :=
  match state (o s) with
  | STATE_CONNECTING => wire_out s = [] /\ wire_in s = [] /\ buffer (o s) = None
  | STATE_SENDING_HELLO => wire_in s = [] /\ is_sending s hello
  | STATE_SENT_HELLO => exists got, is_receiving s 0 2 2 hello [] got
  | STATE_SENDING_PASSWORD =>
      exists ai, in_password (wire_in s) ai /\ is_sending s (hello ++ password_msg ai)
  | STATE_SENT_PASSWORD =>
      exists ai pre got, in_password pre ai /\
        is_receiving s 0 2 2 (hello ++ password_msg ai) pre got
  | STATE_SENDING_REQUEST =>
      exists msgs, in_request (wire_in s) msgs /\ is_sending s msgs
  | STATE_SENT_REQUEST =>
      exists msgs pre got, in_request pre msgs /\ is_receiving s 0 4 22 msgs pre got
  | STATE_RECEIVED_REPLY_HEADER =>
      exists msgs pre h t got, in_request pre msgs /\ is_reply_header h t /\
        is_receiving s 4 (addr_size t) 22 msgs (pre ++ h) got
  | STATE_UP =>
      exists msgs pre h t addr, in_request pre msgs /\ is_reply_header h t /\
        wire_in s = pre ++ h ++ addr /\ len addr = addr_size t /\ wire_out s = msgs /\
        buffer (o s) = None
  end.

(** What the object owns, which is what [BSocksClient_Free] expects, and what it
    has reported: that it is up when it is, then at most one error. *)
Definition ups (st : STATE) : list out :=
  if bool_decide (st = STATE_UP) then [BSOCKSCLIENT_EVENT_UP] else [].
Record held (err : option out) s : Prop := {
  h_live : live s = true;
  h_args : auth_info (o s) = ais /\ dest_addr (o s) = dest;
  h_connector : connector s = true;
  h_con : con s = negb (bool_decide (state (o s) = STATE_CONNECTING));
  h_ios : ios s = match state (o s) with
                  | STATE_CONNECTING => IO_none | STATE_UP => IO_up | _ => IO_control end;
  h_ops : ios s <> IO_control -> sending s = None /\ receiving s = None;
  h_reports : reports s = ups (state (o s)) ++ option_list err;
}.
Definition owns s : Prop := exists err, held err s /\ err <> Some BSOCKSCLIENT_EVENT_UP /\
  (err = Some BSOCKSCLIENT_EVENT_ERROR_CLOSED -> state (o s) = STATE_UP) /\
  (err = None -> running s).

Definition released s : Prop :=
  connector s = false /\ con s = false /\ ios s = IO_none /\ sending s = None /\
  receiving s = None /\ buffer (o s) = None.

Definition inv s : Prop := if live s then owns s else released s.

(** After a handler: in order, and if it failed there was no memory or the
    server refused. *)
Definition after (mem : option bytes) s : Prop :=
  owns s /\ (failed s = true -> mem = None \/ (session (wire_in s)).2 = Refused).

Context (Hais : forallb (fun ai => (auth_type ai =? 0) || (auth_type ai =? 2)) ais = true).
Context (Hdest : addr_wf dest) (Hdest' : dest <> BAddr_None).

(** *** Sessions *)

Lemma find_type m ai : find (fun ai => auth_type ai =? m) ais = Some ai ->
  auth_type ai = m /\ (auth_type ai = 0 \/ auth_type ai = 2).
Proof using Hais.
  intros [Hin E]%find_some. rewrite forallb_forall in Hais. specialize (Hais _ Hin). lia.
Qed.

Lemma session_wait_hello got : len got < 2 -> session got = (hello, Waiting).
Proof. destruct got as [|a [|b got]]; try done. intros; zlia. Qed.

Lemma password_wait ai got : len got < 2 ->
  password_phase ais dest ai got = (hello ++ password_msg ai, Waiting).
Proof. destruct got as [|a [|b got]]; try done. intros; zlia. Qed.

Lemma request_wait got : len got < 4 -> request_phase got = Waiting.
Proof. destruct got as [|a [|b [|c [|d got]]]]; try done. intros; zlia. Qed.

Lemma request_header h t x : is_reply_header h t ->
  request_phase (h ++ x) = if len x <? addr_size t then Waiting
    else if len x =? addr_size t then Connected else Overread.
Proof.
  intros (v & p & r & -> & Hv & Hp & Ht). cbn. unfold addr_size. rewrite Hv, Hp.
  by destruct Ht as [-> | ->].
Qed.

(** *** Reports *)

Lemma failed_held err s : held err s -> err <> Some BSOCKSCLIENT_EVENT_UP ->
  failed s = bool_decide (is_Some err).
Proof.
  intros [] Herr. unfold failed, ups in *. rewrite h_reports0, existsb_app.
  destruct (bool_decide (state (o s) = STATE_UP)); cbn.
  all: by destruct err as [[]|].
Qed.

Lemma owns_running s : owns s -> failed s = false -> held None s /\ running s.
Proof.
  intros (err & Hh & Hup & _ & Hr) Hf. rewrite (failed_held _ _ Hh Hup) in Hf.
  destruct err; [done|]. auto.
Qed.

Lemma running_owns s : held None s -> running s -> owns s /\ failed s = false.
Proof.
  intros Hh Hr. split; [exists None; by auto|]. by rewrite (failed_held None s Hh).
Qed.

Lemma running_after mem s : held None s -> running s -> after mem s.
Proof. intros Hh Hr. destruct (running_owns s Hh Hr) as [Ho Hf]. split; [done|congruence]. Qed.

Lemma report_error_ok ev s (Q : unit -> sys -> Prop) :
  held None s -> ev <> BSOCKSCLIENT_EVENT_UP ->
  (ev = BSOCKSCLIENT_EVENT_ERROR_CLOSED -> state (o s) = STATE_UP) ->
  (forall s', owns s' -> wire_in s' = wire_in s -> failed s' = true -> Q tt s') ->
  ok (report_error ev) s Q.
Proof.
  intros [] Hev Hcl HQ. unfold report_error, report. repeat ok_step.
  apply HQ; [|done|unfold failed; cbn; rewrite existsb_app; cbn; rewrite orb_true_iff; right;
    by destruct ev].
  exists (Some ev). split_and!; [|congruence|by intros [= ->]; auto|done].
  constructor; cbn; try done. rewrite h_reports0. cbn. by rewrite app_nil_r.
Qed.

Lemma refuse_ok mem s :
  held None s -> mem = None \/ (session (wire_in s)).2 = Refused ->
  ok (report_error BSOCKSCLIENT_EVENT_ERROR) s (fun _ s' => after mem s').
Proof.
  intros Hh Hm. apply report_error_ok; [done..|]. intros s' Ho Hw _. split; [done|].
  intros _. by rewrite Hw.
Qed.

(** *** The buffer *)

Lemma ok_geto s (Q : BSocksClient -> sys -> Prop) : live s = true -> Q (o s) s -> ok geto s Q.
Proof. intros Hl HQ. unfold geto. repeat (ok_step; cbn); done. Qed.
Lemma ok_seto f s (Q : unit -> sys -> Prop) : Q tt (s <| o := f (o s) |>) -> ok (seto f) s Q.
Proof. done. Qed.

Lemma store_at pre mid post data : len mid = len data ->
  store (len pre) data (pre ++ mid ++ post) = Some (pre ++ data ++ post).
Proof.
  intros H. unfold store. rewrite (proj2 (in_range_true _ _ _)) by zlia.
  rewrite <- length_len, take_app_length, (app_assoc pre mid), drop_app_length'; [done|].
  rewrite !length_len. zlia.
Qed.

Lemma ok_write_buffer off data s id b b' (Q : unit -> sys -> Prop) :
  live s = true -> buffer (o s) = Some (id, b) -> store off data b = Some b' ->
  Q tt (s <| o := o s <| buffer := Some (id, b') |> |>) -> ok (write_buffer off data) s Q.
Proof.
  intros Hl Hb Hst HQ. unfold write_buffer. ok_step. apply ok_geto; [done|]. ok_step.
  eapply ok_of_option; [exact Hb|]. cbn. ok_step. eapply ok_of_option; [exact Hst|].
  by apply ok_seto.
Qed.

Lemma ok_read_buffer n s id b (Q : bytes -> sys -> Prop) :
  live s = true -> buffer (o s) = Some (id, b) -> 0 <= n <= len b -> Q (zslice 0 n b) s ->
  ok (read_buffer n) s Q.
Proof.
  intros Hl Hb Hn HQ. unfold read_buffer. ok_step. apply ok_geto; [done|]. ok_step.
  eapply ok_of_option; [exact Hb|]. cbn. eapply ok_of_option; [apply load_Some; lia|done].
Qed.

(** A new block, or no memory. *)
Lemma reserve_buffer_ok mem size s (Q : bool -> sys -> Prop) n :
  denotes size n -> 0 < n < 2 ^ 31 ->
  (mem = None -> Q false s) ->
  (forall b, len b = n -> Q true (s <| o := o s <| buffer := Some (next_block s, b) |> |>
                                    <| next_block := S (next_block s) |>)) ->
  ok (reserve_buffer mem size) s Q.
Proof.
  intros Hd Hn Hf HQ. assert (Hm := size_max_ge).
  destruct (denotes_value _ _ Hd ltac:(lia)) as [Ho Hv].
  unfold reserve_buffer. rewrite Ho, Hv. destruct (BRealloc mem n) as [b|] eqn:E.
  - apply HQ. apply (BRealloc_len mem); [lia|done].
  - apply Hf. unfold BRealloc in E. by destruct mem.
Qed.

(** *** Sending *)

Lemma ok_send n s id b (Q : unit -> sys -> Prop) :
  live s = true -> ios s = IO_control -> sending s = None -> buffer (o s) = Some (id, b) ->
  0 <= n <= INT_MAX -> Q tt (s <| sending := Some (id, n) |>) ->
  ok (PacketPassInterface_Sender_Send n) s Q.
Proof.
  intros Hl Hio Hs Hb Hn HQ. unfold PacketPassInterface_Sender_Send, at_buffer.
  ok_step. ok_step. ok_step. ok_step; [by apply bool_decide_eq_true_2|]. ok_step.
  ok_step; [by apply bool_decide_eq_true_2|]. ok_step. ok_step; [lia|]. ok_step. ok_step.
  apply ok_geto; [done|]. ok_step. eapply ok_of_option; [exact Hb|]. cbn. ok_step. cbn. by apply ok_modify.
Qed.

(** Between the states of the handshake: no operation in progress. *)
Record ready s : Prop := {
  r_live : live s = true;
  r_args : auth_info (o s) = ais /\ dest_addr (o s) = dest;
  r_connector : connector s = true;
  r_con : con s = true;
  r_ios : ios s = IO_control;
  r_send : sending s = None;
  r_recv : receiving s = None;
  r_reports : reports s = [];
}.

Definition handshake (st : STATE) : Prop := st <> STATE_CONNECTING /\ st <> STATE_UP.

Lemma held_ready s : held None s -> handshake (state (o s)) ->
  sending s = None -> receiving s = None -> ready s.
Proof.
  intros [] [Hc Hu] Hs Hr. constructor; try done.
  - rewrite h_con0. by rewrite bool_decide_eq_false_2.
  - rewrite h_ios0. by destruct (state (o s)).
  - rewrite h_reports0. unfold ups. by rewrite bool_decide_eq_false_2.
Qed.

Lemma handshake_held s : handshake (state (o s)) ->
  live s = true -> auth_info (o s) = ais /\ dest_addr (o s) = dest -> connector s = true ->
  con s = true -> ios s = IO_control -> reports s = [] -> held None s.
Proof.
  intros [Hc Hu] ?????E. constructor; try done.
  - by rewrite bool_decide_eq_false_2.
  - by destruct (state (o s)).
  - unfold ups. by rewrite bool_decide_eq_false_2.
Qed.

(** The packet is the buffer: send it. *)
Lemma send_state_ok b st n s (Q : sys -> Prop) :
  ready s -> handshake st -> n = len b -> 0 < len b <= INT_MAX ->
  (exists id, buffer (o s) = Some (id, b)) ->
  (forall s', held None s' -> state (o s') = st -> is_sending s' (wire_out s ++ b) ->
     wire_in s' = wire_in s -> Q s') ->
  ok (PacketPassInterface_Sender_Send n;; seto (fun o => o <| state := st |>)) s (fun _ => Q).
Proof.
  intros Hr Hst -> Hn (id & Hb) HQ. ok_step.
  destruct Hr. eapply ok_send; try done; [lia|]. apply ok_seto. apply HQ; try done.
  - by apply handshake_held.
  - constructor; cbn; try done. exists id, b. rewrite Hb. split_and!; done || lia.
Qed.

(** A part of the reply is asked for. *)
Lemma start_receive_ok off total room st id s b (Q : sys -> Prop) :
  ready s -> handshake st -> buffer (o s) = Some (id, b) ->
  0 <= off /\ 0 < total /\ off + total <= room /\ room <= len b ->
  (forall s', held None s' -> state (o s') = st ->
     is_receiving s' off total room (wire_out s) (wire_in s) [] -> Q s') ->
  ok (start_receive (id, off) total;; seto (fun o => o <| state := st |>)) s (fun _ => Q).
Proof.
  intros Hr Hst Hb Hn HQ. destruct Hr. unfold start_receive, do_receive.
  repeat lazymatch goal with
  | |- ok geto _ _ => apply ok_geto; [done|]
  | |- ok (seto _) _ _ => apply ok_seto; cbn
  | |- ok _ _ _ => ok_step; cbn
  end; try lia; try by apply bool_decide_eq_true_2.
  apply HQ; cbn; try done.
  - by apply handshake_held.
  - constructor; cbn; try done; rewrite ?app_nil_r; try done; [rewrite (@len_nil byte); lia|].
    exists id, b. rewrite (@len_nil byte), zslice_0, Z.add_0_r, Z.sub_0_r. split_and!; try done; lia.
Qed.

(** Writing a message piece by piece. *)
Lemma write_methods_ok ais' i s id pre post (Q : unit -> sys -> Prop) :
  live s = true -> 0 <= i -> len pre = 2 + i -> len post = len ais' ->
  buffer (o s) = Some (id, pre ++ post) ->
  Q tt (s <| o := o s <| buffer :=
            Some (id, pre ++ map (fun ai => z2b (auth_type ai)) ais') |> |>) ->
  ok (write_methods i ais') s Q.
Proof.
  revert i s pre post. induction ais' as [|ai ais' IH]; intros i s pre post Hl Hi Hpre Hpost Hb HQ.
  - cbn. ok_step. apply len_zero_nil in Hpost as ->. cbn in HQ.
    destruct s as [[]]. cbn in *. by rewrite Hb.
  - destruct post as [|x post]; [zlia|]. cbn [write_methods]. ok_step.
    eapply ok_write_buffer; [done|exact Hb| |].
    + unfold sizeof_socks_client_hello_header, sizeof_socks_client_hello_method.
      replace (2 + i * 1) with (len pre) by lia. by apply (store_at pre [x]).
    + apply (IH (i + 1) _ (pre ++ [z2b (auth_type ai)]) post); cbn; try done; try zlia.
      * by rewrite <- app_assoc.
      * cbn in HQ. by rewrite <- app_assoc.
Qed.

Lemma write_password_ok ai s id b (Q : unit -> sys -> Prop) :
  live s = true -> buffer (o s) = Some (id, b) ->
  len b = 3 + len (username ai) + len (password ai) ->
  Q tt (s <| o := o s <| buffer := Some (id, password_msg ai) |> |>) ->
  ok (write_password ai) s Q.
Proof.
  intros Hl Hb Hn HQ. destruct b as [|b0 [|b1 b]]; [zlia..|]. rewrite !len_cons in Hn.
  set (nu := len (username ai)) in *. pose proof (len_nonneg (username ai)). fold nu in H.
  pose proof (len_nonneg (password ai)).
  rewrite <- (take_drop (Z.to_nat nu) b) in Hb.
  assert (Hu : len (take (Z.to_nat nu) b) = nu) by (rewrite len_take; lia).
  assert (Hd : len (drop (Z.to_nat nu) b) = 1 + len (password ai)) by (rewrite len_drop; lia).
  destruct (drop (Z.to_nat nu) b) as [|b2 pw]; [zlia|]. rewrite len_cons in Hd.
  set (un := take (Z.to_nat nu) b) in *.
  unfold write_password. cbv zeta. fold nu.
  ok_step. eapply ok_write_buffer; [done|exact Hb|exact (store_at [] [b0] _ [z2b 1] eq_refl)|].
  ok_step. eapply ok_write_buffer;
    [done|done|exact (store_at [z2b 1] [b1] _ [z2b nu] eq_refl)|].
  ok_step. eapply ok_write_buffer; [done|done| |].
  { exact (store_at [z2b 1; z2b nu] un (b2 :: pw) (username ai) Hu). }
  ok_step. eapply ok_write_buffer; [done|done| |].
  { cbn [app]. replace (2 + nu) with (len (z2b 1 :: z2b nu :: username ai)) by (rewrite !len_cons; lia).
    exact (store_at (z2b 1 :: z2b nu :: username ai) [b2] pw [z2b (len (password ai))] eq_refl). }
  eapply ok_write_buffer; [done|done| |].
  { cbn [app].
    replace (3 + nu) with (len (z2b 1 :: z2b nu :: username ai ++ [z2b (len (password ai))]))
      by (rewrite !len_cons, len_app; unfold nu; zlia).
    rewrite <- (app_nil_r pw).
    assert (E := store_at (z2b 1 :: z2b nu :: username ai ++ [z2b (len (password ai))]) pw []
                   (password ai) ltac:(lia)).
    cbn [app] in E. rewrite <- app_assoc in E. exact E. }
  cbn. rewrite app_nil_r, <- app_assoc. cbn in HQ. exact HQ.
Qed.

(** *** The handlers *)

Lemma connector_handler_ok is_error con_init_ok mem s :
  held None s -> running s -> state (o s) = STATE_CONNECTING ->
  ok (connector_handler is_error con_init_ok mem) s (fun _ s' =>
    owns s' /\ (failed s' = true /\ state (o s') = STATE_CONNECTING \/
                failed s' = false /\ state (o s') = STATE_SENDING_HELLO)).
Proof.
  intros Hh Hr Hst. unfold running in Hr. rewrite Hst in Hr. destruct Hr as (Hwo & Hwi & Hbuf).
  assert (Hfail : forall s1, held None s1 -> state (o s1) = STATE_CONNECTING ->
    ok (report_error BSOCKSCLIENT_EVENT_ERROR) s1 (fun _ s' =>
    owns s' /\ (failed s' = true /\ state (o s') = STATE_CONNECTING \/
                failed s' = false /\ state (o s') = STATE_SENDING_HELLO))).
  { intros s1 H1 Hs1. unfold report_error, report. repeat ok_step. cbn. split.
    2:{ left. split; [|done]. unfold failed. cbn. by rewrite existsb_app, orb_true_r. }
    exists (Some BSOCKSCLIENT_EVENT_ERROR). destruct H1. split_and!; try done.
    constructor; cbn; try done. rewrite h_reports0. by rewrite app_nil_r. }
  pose proof Hh as [Hl [Ha Hd] Hc Hco Hio Hops Hrep]. rewrite Hst in *. cbn in Hco, Hio, Hrep.
  destruct (Hops ltac:(by rewrite Hio)) as [Hsend Hrecv].
  unfold connector_handler. ok_step. apply ok_geto; [done|]. cbv zeta. rewrite Ha.
  set (size := bsize_add _ _).
  assert (Hn : len ais < 2 ^ 30 -> 0 < len ais -> denotes size (2 + len ais * 1)).
  { intros. pose proof size_max_ge. unfold size.
    unfold sizeof_socks_client_hello_header, sizeof_socks_client_hello_method.
    apply denotes_add, denotes_mul; try apply denotes_fromsize; lia. }
  ok_step. ok_step; [by rewrite Hst|]. ok_step; [by apply Hfail|]. ok_step; [by apply Hfail|].
  ok_step. ok_step. ok_step. unfold init_control_io. do 3 ok_step.
  ok_step; [done|]. ok_step. ok_step; [cbn; by rewrite Hio|]. ok_step.
  assert (Hfail1 : forall s1, auth_info (o s1) = ais -> dest_addr (o s1) = dest ->
    state (o s1) = STATE_CONNECTING -> live s1 = true -> connector s1 = true -> con s1 = true ->
    ios s1 = IO_control -> buffer (o s1) = None -> reports s1 = [] ->
    ok (free_control_io;; BConnection_Free;; report_error BSOCKSCLIENT_EVENT_ERROR) s1
      (fun _ s' => owns s' /\ (failed s' = true /\ state (o s') = STATE_CONNECTING \/
                failed s' = false /\ state (o s') = STATE_SENDING_HELLO))).
  { intros s1 Ha1 Hd1 Hs1 Hl1 Hcn1 Hc1 Hio1 Hb1 Hr1. unfold free_control_io, BConnection_Free.
    repeat lazymatch goal with
    | |- ok (report_error _) _ _ => apply Hfail; [|by cbn]
    | |- ok _ _ _ => ok_step; cbn
    end; try done; [by rewrite Hio1|].
    constructor; cbn; rewrite ?Hs1, ?Hr1; done. }
  ok_step. { apply Hfail1; cbn; try done; by rewrite ?Hrep. }
  ok_step. pose proof (len_nonneg ais). specialize (Hn ltac:(lia) ltac:(lia)).
  clearbody size. cbn.
  eapply reserve_buffer_ok; [exact Hn|lia|..]; cbn.
  { intros _. apply Hfail1; cbn; try done; by rewrite ?Hrep. }
  intros b Hb. pose proof size_max_ge. destruct (denotes_value _ _ Hn ltac:(lia)) as [_ ->].
  destruct b as [|b0 [|b1 b]]; [rewrite ?len_nil in Hb; lia|rewrite ?len_cons, len_nil in Hb; lia|].
  rewrite !len_cons in Hb.
  ok_step. eapply ok_write_buffer; [done|done| |].
  { exact (store_at [] [b0; b1] b [z2b SOCKS_VERSION; z2b (len ais)] eq_refl). }
  ok_step. eapply (write_methods_ok ais 0 _ _ [z2b SOCKS_VERSION; z2b (len ais)] b);
    [done|lia|done|lia|done|].
  apply (send_state_ok hello).
  - constructor; cbn; try done; by rewrite Hrep.
  - done.
  - unfold hello_msg. rewrite !len_cons, len_map. lia.
  - unfold hello_msg, INT_MAX. rewrite !len_cons, len_map. lia.
  - eexists. done.
  - intros s' Hh' Hs' Hsn Hw. cbn in Hw, Hsn. rewrite Hwo in Hsn. rewrite Hwi in Hw.
    destruct (running_owns s' Hh') as [Ho Hf]; [|by split; [|right]].
    unfold running. by rewrite Hs', Hw.
Qed.

Lemma reply_sizes :
  denotes (bsize_fromsize sizeof_socks_server_hello) 2 /\
  denotes (bsize_fromsize 2) 2 /\
  denotes (bsize_add (bsize_fromsize sizeof_socks_reply_header)
             (bsize_max (bsize_fromsize sizeof_socks_addr_ipv4)
                (bsize_fromsize sizeof_socks_addr_ipv6))) 22 /\
  denotes (bsize_add (bsize_fromsize sizeof_socks_request_header)
             (bsize_fromsize sizeof_socks_addr_ipv4)) 10 /\
  denotes (bsize_add (bsize_fromsize sizeof_socks_request_header)
             (bsize_fromsize sizeof_socks_addr_ipv6)) 22.
Proof.
  pose proof size_max_ge.
  unfold sizeof_socks_server_hello, sizeof_socks_reply_header, sizeof_socks_addr_ipv4,
    sizeof_socks_addr_ipv6, sizeof_socks_request_header.
  split_and!; try (apply denotes_fromsize; lia).
  - apply (denotes_add _ _ 4 18), (denotes_max _ _ 6 18); apply denotes_fromsize; lia.
  - apply (denotes_add _ _ 4 6); apply denotes_fromsize; lia.
  - apply (denotes_add _ _ 4 18); apply denotes_fromsize; lia.
Qed.

Lemma await_reply_ok mem size n total st s :
  denotes size n -> 0 < total <= n -> n < 2 ^ 31 -> ready s -> held None s -> handshake st ->
  (forall s', held None s' -> state (o s') = st ->
     is_receiving s' 0 total n (wire_out s) (wire_in s) [] -> running s') ->
  ok (await_reply mem size total st) s (fun _ => after mem).
Proof.
  intros Hd Ht Hn Hr Hh Hst HQ. unfold await_reply. ok_step.
  eapply reserve_buffer_ok; [exact Hd|lia|..]; cbn [negb].
  - intros Hm. apply refuse_ok; auto.
  - intros b Hb. destruct Hr. unfold at_buffer.
    ok_step. ok_step. apply ok_geto; [done|]. ok_step. eapply ok_of_option; [done|].
    cbn. ok_step. cbn. eapply (start_receive_ok 0 total n); [by constructor|done|done|lia|].
    intros s' Hh' Hs' Hrc. apply running_after; [done|]. by apply HQ.
Qed.

(** The fields after the header first, then the header. *)
Lemma store_header hdr data b : len b = 4 + len data -> len hdr = 4 ->
  exists b1, store 4 data b = Some b1 /\ store 0 hdr b1 = Some (hdr ++ data).
Proof.
  intros Hb Hh. pose proof (len_nonneg data).
  assert (Ht : len (take (Z.to_nat 4) b) = 4) by (rewrite len_take; lia).
  exists (take (Z.to_nat 4) b ++ data). split.
  - assert (E := store_at (take (Z.to_nat 4) b) (drop (Z.to_nat 4) b) [] data
                   ltac:(rewrite len_drop; lia)).
    rewrite Ht, !app_nil_r, take_drop in E. exact E.
  - exact (store_at [] (take (Z.to_nat 4) b) data hdr ltac:(lia)).
Qed.

(** The request, once authenticated. *)
Lemma auth_finished_ok mem pre s :
  ready s -> held None s -> wire_in s = pre ->
  in_request pre (wire_out s ++ request_msg dest) ->
  ok (auth_finished mem) s (fun _ => after mem).
Proof.
  intros Hr Hh Hw Hin. destruct reply_sizes as (_ & _ & _ & D4 & D6).
  pose proof Hr as [Hl [_ Hd] _ _ _ _ _ _]. unfold auth_finished.
  ok_step. apply ok_geto; [done|]. cbv zeta. rewrite Hd.
  assert (Hmem : mem = None -> ok (report_error BSOCKSCLIENT_EVENT_ERROR) s (fun _ => after mem))
    by (intros; apply refuse_ok; auto).
  assert (Hend : forall s1, ready s1 -> wire_in s1 = pre -> wire_out s1 = wire_out s ->
    forall n id, buffer (o s1) = Some (id, request_msg dest) -> n = len (request_msg dest) ->
    0 < len (request_msg dest) <= INT_MAX ->
    ok (PacketPassInterface_Sender_Send n;; seto (fun o => o <| state := STATE_SENDING_REQUEST |>))
       s1 (fun _ => after mem)).
  { intros s1 Hr1 Hw1 Hwo1 n id Hb -> Hle. apply (send_state_ok (request_msg dest)); try done; [eauto|].
    intros s' Hh' Hs' Hsn Hwi. apply running_after; [done|]. unfold running. rewrite Hs'.
    exists (wire_out s ++ request_msg dest). by rewrite Hwi, Hw1, <- Hwo1 in *. }
  assert (Hrm : forall hdr data n size atyp, len hdr = 4 -> n = 4 + len data -> n < 100 ->
    denotes size n -> hdr = [z2b SOCKS_VERSION; z2b SOCKS_CMD_CONNECT; z2b 0; z2b atyp] ->
    request_msg dest = hdr ++ data ->
    ok (ok ← reserve_buffer mem size;
        if negb ok then report_error BSOCKSCLIENT_EVENT_ERROR else
        atyp ← (write_buffer sizeof_socks_request_header data;; mret atyp);
        write_buffer 0 [z2b SOCKS_VERSION; z2b SOCKS_CMD_CONNECT; z2b 0; z2b atyp];;
        PacketPassInterface_Sender_Send (value size);;
        seto (fun o => o <| state := STATE_SENDING_REQUEST |>)) s (fun _ => after mem)).
  { intros hdr data n size atyp Hhl Hn Hn' Hsz Hhdr Hmsg. pose proof (len_nonneg data).
    pose proof size_max_ge. destruct (denotes_value _ _ Hsz ltac:(lia)) as [_ Hv].
    ok_step. eapply reserve_buffer_ok; [exact Hsz|lia|exact Hmem|]. intros b Hb. cbn [negb].
    destruct (store_header hdr data b ltac:(lia) Hhl) as (b1 & Hs1 & Hs2).
    ok_step. ok_step. eapply ok_write_buffer; [done|done|exact Hs1|]. ok_step.
    ok_step. rewrite <- Hhdr. eapply ok_write_buffer; [done|done|exact Hs2|].
    rewrite Hv, Hn. eapply Hend; cbn; try done; [destruct Hr; by constructor| | |].
    - by rewrite Hmsg.
    - rewrite Hmsg, len_app. lia.
    - rewrite Hmsg, len_app. unfold INT_MAX. lia. }
  destruct dest as [|ip port|ip port]; [done|..].
  - refine (Hrm [z2b 5; z2b 1; z2b 0; z2b 1] (le_split 4 ip ++ le_split 2 port) 10 _ 1 _ _ _ _ _ _);
      try done; by rewrite ?len_app, ?len_split.
  - cbn in Hdest.
    refine (Hrm [z2b 5; z2b 1; z2b 0; z2b 4] (ip ++ le_split 2 port) 22 _ 4 _ _ _ _ _ _);
      try done; rewrite ?len_app, ?len_split; try done. destruct Hdest as [Hip _].
    rewrite length_len in Hip. zlia.
Qed.

(** All of a part of the reply has arrived: [imsg] is at the start of the buffer. *)
Record arrived s (imsg : bytes) : Prop := {
  a_ready : ready s;
  a_held : held None s;
  a_state : handshake (state (o s));
  a_buf : exists id b, buffer (o s) = Some (id, b) /\ zslice 0 (len imsg) b = imsg /\
    len imsg <= len b;
}.

Lemma ok_read_arrived s imsg n (Q : bytes -> sys -> Prop) :
  arrived s imsg -> n = len imsg -> Q imsg s -> ok (read_buffer n) s Q.
Proof.
  intros [[] _ _ (id & b & Hb & Hz & Hn)] -> HQ. pose proof (len_nonneg imsg).
  eapply ok_read_buffer; [done|exact Hb|lia|by rewrite Hz].
Qed.

Lemma received_hello_ok mem s v m :
  arrived s [v; m] -> wire_in s = [v; m] -> wire_out s = hello ->
  ok (received_hello mem) s (fun _ => after mem).
Proof.
  intros Ha Hwi Hwo. pose proof Ha as [Hr Hh _ _]. pose proof Hr as [Hl [Hai _] _ _ _ _ _ _].
  unfold received_hello. ok_step. apply ok_geto; [done|].
  ok_step. eapply ok_read_arrived; [exact Ha|done|].
  ok_step. apply (ok_of_option _ v); [done|]. ok_step. apply (ok_of_option _ m); [done|].
  rewrite Hai.
  destruct (negb (b2z v =? SOCKS_VERSION)) eqn:Ev.
  { apply refuse_ok; [done|]. right. rewrite Hwi. apply negb_true_iff in Ev.
    unfold SocksClient.session. change SOCKS_VERSION with 5 in Ev. rewrite Ev.
    by destruct (find _ ais). }
  apply negb_false_iff in Ev. change SOCKS_VERSION with 5 in Ev.
  destruct (find _ ais) as [ai|] eqn:Ef.
  2:{ apply refuse_ok; [done|]. right. rewrite Hwi. unfold SocksClient.session. by rewrite Ef. }
  destruct (find_type _ _ Ef) as [_ Ht].
  change SOCKS_METHOD_NO_AUTHENTICATION_REQUIRED with 0.
  change SOCKS_METHOD_USERNAME_PASSWORD with 2.
  destruct (auth_type ai =? 0) eqn:E0.
  - apply (auth_finished_ok mem [v; m]); [done..|]. split; [done|]. intros x. cbn.
    by rewrite Ef, Ev, E0, Hwo.
  - rewrite (proj2 (Z.eqb_eq _ 2)) by lia. cbv zeta.
    pose proof (len_nonneg (username ai)). pose proof (len_nonneg (password ai)).
    destruct (_ || _) eqn:Eb.
    { apply refuse_ok; [done|]. right. rewrite Hwi. unfold SocksClient.session. rewrite Ef, Ev, E0.
      cbn. replace (password_ok ai) with false by (unfold password_ok; lia). done. }
    assert (Hpw : password_ok ai = true) by (unfold password_ok; lia).
    pose proof size_max_ge.
    set (n := 1 + 1 + len (username ai) + 1 + len (password ai)) in *.
    ok_step. eapply (reserve_buffer_ok mem _ s _ n); [|lia|..].
    { rewrite to_size_fits by lia. apply denotes_fromsize. lia. }
    { intros Hm. apply refuse_ok; auto. }
    intros b Hb. cbn [negb]. ok_step. eapply write_password_ok; [done|done|lia|].
    apply (send_state_ok (password_msg ai)).
    + destruct Hr. by constructor.
    + done.
    + cbn [value bsize_fromsize]. rewrite to_size_fits by lia. unfold password_msg. zlia.
    + unfold password_msg, INT_MAX. zlia.
    + cbn. eauto.
    + intros s' Hh' Hs' Hsn Hw. apply running_after; [done|]. unfold running. rewrite Hs'.
      exists ai. cbn in Hw, Hsn. rewrite Hw, Hwi. split; [|by rewrite <- Hwo].
      split; [done|]. intros x. cbn. by rewrite Ef, Ev, E0, Hpw.
Qed.

Lemma received_password_reply_ok mem s a st ai pre :
  arrived s [a; st] -> in_password pre ai -> wire_in s = pre ++ [a; st] ->
  wire_out s = hello ++ password_msg ai ->
  ok (received_password_reply mem) s (fun _ => after mem).
Proof.
  intros Ha Hin Hwi Hwo. pose proof Ha as [Hr Hh _ _]. pose proof Hr as [Hl _ _ _ _ _ _ _].
  assert (Hses : forall x, session ((pre ++ [a; st]) ++ x) = password_phase ais dest ai (a :: st :: x)).
  { intros x. rewrite <- app_assoc. by apply (proj2 Hin). }
  assert (Hwi' := Hses []). rewrite app_nil_r in Hwi'.
  unfold received_password_reply. ok_step. eapply ok_read_arrived; [exact Ha|done|].
  ok_step. apply (ok_of_option _ a); [done|].
  ok_step.
  { apply refuse_ok; [done|]. right. rewrite Hwi, Hwi'. cbn. apply negb_true_iff in Heqb.
    by rewrite Heqb. }
  ok_step. apply (ok_of_option _ st); [done|]. ok_step.
  { apply refuse_ok; [done|]. right. rewrite Hwi, Hwi'. cbn. apply negb_true_iff in Heqb0.
    by rewrite Heqb0, andb_false_r. }
  apply negb_false_iff in Heqb, Heqb0.
  apply (auth_finished_ok mem (pre ++ [a; st])); [done..|].
  split; [destruct Hin; zlia|]. intros x. rewrite Hses.
  cbn [password_phase]. by rewrite Heqb, Heqb0, Hwo, <- app_assoc.
Qed.

Lemma received_reply_header_ok mem s v p r t msgs pre :
  arrived s [v; p; r; t] -> in_request pre msgs -> wire_in s = pre ++ [v; p; r; t] ->
  wire_out s = msgs -> (forall id b, buffer (o s) = Some (id, b) -> 22 <= len b) ->
  ok received_reply_header s (fun _ => after mem).
Proof.
  intros Ha Hin Hwi Hwo Hroom. pose proof Ha as [Hr Hh _ _]. pose proof Hr as [Hl _ _ _ _ _ _ _].
  assert (Hses := proj2 Hin [v; p; r; t]). rewrite <- Hwi in Hses.
  unfold received_reply_header. ok_step. eapply ok_read_arrived; [exact Ha|done|].
  ok_step. apply (ok_of_option _ v); [done|]. ok_step. apply (ok_of_option _ p); [done|].
  ok_step. apply (ok_of_option _ t); [done|]. ok_step.
  { apply refuse_ok; [done|]. right. rewrite Hses. cbn. apply negb_true_iff in Heqb.
    change SOCKS_VERSION with 5 in Heqb. by rewrite Heqb. }
  ok_step.
  { apply refuse_ok; [done|]. right. rewrite Hses. cbn. apply negb_true_iff in Heqb0.
    change SOCKS_REP_SUCCEEDED with 0 in Heqb0. by rewrite Heqb0, andb_false_r. }
  cbv zeta. unfold SOCKS_VERSION, SOCKS_REP_SUCCEEDED, SOCKS_ATYP_IPV4, SOCKS_ATYP_IPV6 in *.
  destruct ((b2z t =? 1) || (b2z t =? 4)) eqn:Et.
  2:{ replace (b2z t =? 1) with false by lia. replace (b2z t =? 4) with false by lia.
      apply refuse_ok; [done|]. right. rewrite Hses. cbn. rewrite Et. by rewrite andb_false_r. }
  replace (if b2z t =? 1 then Some sizeof_socks_addr_ipv4 else _) with (Some (addr_size t)).
  2:{ unfold addr_size. destruct (b2z t =? 1); [done|]. by destruct (b2z t =? 4). }
  pose proof Ha as [_ _ _ (id & b & Hb & _)]. unfold at_buffer.
  ok_step. ok_step. apply ok_geto; [done|]. ok_step. eapply ok_of_option; [exact Hb|]. cbn.
  ok_step. cbn. assert (Hn : 0 < addr_size t <= 18) by (unfold addr_size; by destruct (_ =? 1)).
  eapply (start_receive_ok 4 (addr_size t) 22); [done|done|done|split_and!; try lia; by eapply Hroom|].
  intros s' Hh' Hs' Hrc. apply running_after; [done|]. unfold running. rewrite Hs'.
  exists msgs, pre, [v; p; r; t], t, []. rewrite Hwo, Hwi in Hrc. split_and!; try done.
  exists v, p, r. split_and!; [done|lia..].
Qed.

Lemma received_reply_rest_ok mem s msgs pre h t addr :
  arrived s [] -> in_request pre msgs -> is_reply_header h t -> wire_in s = (pre ++ h) ++ addr ->
  len addr = addr_size t -> wire_out s = msgs ->
  ok received_reply_rest s (fun _ => after mem).
Proof.
  intros [Hr Hh _ _] Hin Hrh Hwi Hn Hwo. destruct Hr.
  unfold received_reply_rest, free_control_io, init_up_io, report.
  repeat lazymatch goal with
  | |- ok (seto _) _ _ => apply ok_seto; cbn
  | |- ok _ _ _ => ok_step; cbn
  end; try done; [by rewrite r_ios0|].
  apply running_after.
  - constructor; cbn; try done; by rewrite ?r_con0, ?r_reports0.
  - unfold running. cbn. exists msgs, pre, h, t, addr. by rewrite Hwi, <- app_assoc.
Qed.

Lemma wire_recv_ok s off total room msgs pre got data (Q : unit -> sys -> Prop) :
  live s = true -> is_receiving s off total room msgs pre got -> len data <= total - len got ->
  (forall id b, room <= len b -> zslice off (len got + len data) b = got ++ data ->
     recv_dest (o s) = (id, off) ->
     Q tt (s <| o := o s <| buffer := Some (id, b) |> |>
             <| receiving := None |> <| wire_in := wire_in s ++ data |>)) ->
  ok (wire_recv data) s Q.
Proof.
  intros Hl [_ _ _ _ _ (Ho & Hroom & Hg) _ _ (id & b & Hb & Hlb & Hz & Hd & Hr)] Hn HQ.
  pose proof (len_nonneg got). pose proof (len_nonneg data).
  destruct (store_Some (off + len got) data b ltac:(lia) ltac:(lia)) as [b' Hst].
  unfold wire_recv. ok_step. ok_step. ok_step. eapply ok_of_option; [exact Hr|]. cbn.
  ok_step. eapply ok_of_option; [exact Hb|]. cbn.
  ok_step. ok_step; [by apply bool_decide_eq_true_2|].
  ok_step. eapply ok_write_buffer; [done|exact Hb|exact Hst|]. ok_step.
  apply HQ; [by rewrite (len_store _ _ _ _ Hst)| |done].
  rewrite zslice_app by lia. f_equal.
  - by rewrite (zslice_store_before _ _ _ _ Hst) by lia.
  - by apply (zslice_store_same _ _ _ _ Hst).
Qed.

(** Some bytes of a part of the reply arrive. *)
Lemma receive_ok mem s off total room msgs pre got data (Q : sys -> Prop) :
  held None s -> handshake (state (o s)) -> is_receiving s off total room msgs pre got ->
  0 < len data <= total - len got ->
  (forall s', held None s' -> state (o s') = state (o s) ->
     is_receiving s' off total room msgs pre (got ++ data) -> Q s') ->
  (forall s' id b, len (got ++ data) = total -> held None s' -> ready s' ->
     state (o s') = state (o s) -> wire_in s' = pre ++ got ++ data -> wire_out s' = msgs ->
     buffer (o s') = Some (id, b) -> room <= len b -> zslice off total b = got ++ data ->
     ok (received_part mem (state (o s'))) s' (fun _ => Q)) ->
  ok (wire_recv data;; recv_handler_done mem (len data)) s (fun _ => Q).
Proof.
  intros Hh Hst Hrc Hn Hmore Hdone. pose proof (h_live _ _ Hh) as Hl. pose proof (len_nonneg got).
  pose proof Hrc as [Hc Hio Hsn Hwo Hwi (Ho & Hroom & Hg) Hrl Hrt _].
  ok_step. eapply wire_recv_ok; [done|exact Hrc|lia|]. intros id b Hb Hz Hd.
  set (s1 := s <| o := _ |> <| receiving := _ |> <| wire_in := _ |>).
  assert (H1 : forall l, let s2 := s1 <| o := o s1 <| recv_len := l |> |> in
    held None s2 /\ ready s2).
  { intros l s2. assert (Hr2 : ready s2).
    { destruct Hh. constructor; cbn; try done. rewrite h_reports0. unfold ups.
      by rewrite bool_decide_eq_false_2 by apply Hst. }
    split; [|done]. destruct Hr2. by apply handshake_held. }
  unfold recv_handler_done. ok_step. ok_step; [lia|]. ok_step. apply ok_geto; [done|].
  ok_step. ok_step; [cbn; rewrite Hrt, Hrl; lia|]. ok_step. apply ok_seto. ok_step.
  apply ok_geto; [done|]. destruct (H1 (recv_len (o s1) + len data)) as [Hh2 Hr2].
  set (s2 := s1 <| o := _ |>) in *.
  assert (Hl2 : recv_len (o s2) = len (got ++ data)) by (cbn; rewrite Hrl, len_app; lia).
  ok_step.
  - unfold do_receive. ok_step. apply ok_geto; [done|]. ok_step. ok_step; [done|].
    do 3 ok_step. ok_step; [cbn; by rewrite Hio|]. ok_step. ok_step; [done|].
    replace (recv_dest (o s2)) with (id, off) by done. cbn -[s2]. ok_step.
    apply Hmore; cbn -[s2]; [by destruct Hh2; constructor|done|].
    assert (recv_total (o s2) = total) by done.
    constructor; cbn -[s2]; try done; try lia.
    + cbn. by rewrite Hwi, <- app_assoc.
    + exists id, b. rewrite Hl2, len_app. split_and!; try done. congruence.
  - assert (recv_total (o s2) = total) by done. rewrite len_app in Hl2.
    eapply (Hdone s2 id b); try done; cbn; [rewrite len_app; lia|by rewrite Hwi, <- app_assoc|].
    rewrite <- Hz. f_equal. lia.
Qed.

Lemma arrived_intro s id b imsg n : held None s -> ready s -> handshake (state (o s)) ->
  buffer (o s) = Some (id, b) -> n <= len b -> zslice 0 n b = imsg -> len imsg = n ->
  arrived s imsg.
Proof. intros ????? Hz Hn. constructor; try done. exists id, b. rewrite Hn. split_and!; done || lia. Qed.

Ltac two_bytes l := destruct l as [|? [|? [|? ?]]]; try (autorewrite with len in *; zlia).

Lemma handle_received_ok mem data s :
  owns s -> event_ok s (Ev_received mem data) = true ->
  ok (handle (Ev_received mem data)) s (fun _ => after mem).
Proof.
  intros Ho [_ [Hf%negb_true_iff He]%andb_true_iff]%andb_true_iff.
  destruct (owns_running s Ho Hf) as [Hh Hr]. destruct (receiving s) as [[[i k] n]|] eqn:Erc; [|done].
  apply andb_true_iff in He as [Hd1 Hd2]. assert (Hn : forall off total room msgs pre got,
    is_receiving s off total room msgs pre got -> 0 < len data <= total - len got).
  { intros off total room msgs pre got [_ _ _ _ _ _ _ _ (id & b & _ & _ & _ & _ & Er)].
    rewrite Erc in Er. injection Er as _ _ ->. lia. }
  assert (Hno : state (o s) = STATE_CONNECTING \/ state (o s) = STATE_UP -> False).
  { intros Hst. destruct Hh. destruct h_ops0; [|congruence]. rewrite h_ios0.
    by destruct Hst as [-> | ->]. }
  assert (Hhs : handshake (state (o s))) by (split; intros E; apply Hno; auto).
  cbn [handle]. unfold running in Hr. destruct (state (o s)) eqn:Est; try (by destruct Hno; auto).
  all: try (exfalso; first [destruct Hr as (_ & [_ _ Er _])|destruct Hr as (? & _ & [_ _ Er _])]; congruence).
  - destruct Hr as (got & Hrc). eapply receive_ok; [done|by rewrite Est|exact Hrc|by eapply Hn|..].
    + intros s' Hh' Hs' Hrc'. apply running_after; [done|]. unfold running. rewrite Hs', Est. eauto.
    + intros s' id b Hl Hh' Hr' Hs' Hwi Hwo Hb Hlb Hz. rewrite Hs', Est. cbn [received_part].
      two_bytes (got ++ data). eapply received_hello_ok; [|done|done].
      eapply arrived_intro; try done; by rewrite Hs', Est.
  - destruct Hr as (ai & pre & got & Hin & Hrc).
    eapply receive_ok; [done|by rewrite Est|exact Hrc|by eapply Hn|..].
    + intros s' Hh' Hs' Hrc'. apply running_after; [done|]. unfold running. rewrite Hs', Est.
      exists ai, pre. eauto.
    + intros s' id b Hl Hh' Hr' Hs' Hwi Hwo Hb Hlb Hz. rewrite Hs', Est. cbn [received_part].
      two_bytes (got ++ data). eapply received_password_reply_ok; [|done|done|done].
      eapply arrived_intro; try done; by rewrite Hs', Est.
  - destruct Hr as (msgs & pre & got & Hin & Hrc).
    eapply receive_ok; [done|by rewrite Est|exact Hrc|by eapply Hn|..].
    + intros s' Hh' Hs' Hrc'. apply running_after; [done|]. unfold running. rewrite Hs', Est.
      exists msgs, pre. eauto.
    + intros s' id b Hl Hh' Hr' Hs' Hwi Hwo Hb Hlb Hz. rewrite Hs', Est. cbn [received_part].
      destruct (got ++ data) as [|v [|p [|r [|t [|? ?]]]]] eqn:Eg; try zlia.
      eapply received_reply_header_ok; [|done|done|done|].
      { eapply (arrived_intro _ id b _ 4); try done; [by rewrite Hs', Est|lia]. }
      intros id' b' Hb'. rewrite Hb in Hb'. by injection Hb' as _ <-.
  - destruct Hr as (msgs & pre & h & t & got & Hin & Hrh & Hrc).
    eapply receive_ok; [done|by rewrite Est|exact Hrc|by eapply Hn|..].
    + intros s' Hh' Hs' Hrc'. apply running_after; [done|]. unfold running. rewrite Hs', Est.
      exists msgs, pre, h, t. eauto.
    + intros s' id b Hl Hh' Hr' Hs' Hwi Hwo Hb Hlb Hz. rewrite Hs', Est. cbn [received_part].
      eapply received_reply_rest_ok; try done.
      eapply (arrived_intro _ id b [] 0); try done; [by rewrite Hs', Est|pose proof (len_nonneg b); lia].
Qed.

Lemma wire_send_ok s msgs (Q : unit -> sys -> Prop) :
  live s = true -> is_sending s msgs ->
  Q tt (s <| sending := None |> <| wire_out := msgs |>) -> ok wire_send s Q.
Proof.
  intros Hl [_ _ _ (id & b & Hb & Hs & <- & _)] HQ. unfold wire_send.
  ok_step. ok_step. ok_step. eapply ok_of_option; [exact Hs|]. cbn.
  ok_step. eapply ok_of_option; [exact Hb|]. cbn.
  ok_step. ok_step; [by apply bool_decide_eq_true_2|]. pose proof (len_nonneg b).
  ok_step. eapply ok_of_option; [apply load_Some; lia|]. rewrite zslice_all by done. by ok_step.
Qed.

Lemma handle_sent_ok mem s :
  owns s -> event_ok s (Ev_sent mem) = true ->
  ok (handle (Ev_sent mem)) s (fun _ => after mem).
Proof.
  intros Ho [_ [Hf%negb_true_iff He]%andb_true_iff]%andb_true_iff.
  destruct (owns_running s Ho Hf) as [Hh Hr]. apply bool_decide_eq_true in He as [[id n] Hsn].
  pose proof (h_live _ _ Hh) as Hl. destruct reply_sizes as (D2 & D2' & D22 & _ & _).
  assert (Hno : state (o s) = STATE_CONNECTING \/ state (o s) = STATE_UP -> False).
  { intros Hst. destruct Hh. destruct h_ops0; [|congruence]. rewrite h_ios0.
    by destruct Hst as [-> | ->]. }
  assert (Hhs : handshake (state (o s))) by (split; intros E; apply Hno; auto).
  assert (Hafter : forall msgs st size n total, is_sending s msgs -> denotes size n ->
    0 < total <= n -> n < 100 -> handshake st ->
    (forall s', held None s' -> state (o s') = st ->
       is_receiving s' 0 total n msgs (wire_in s) [] -> running s') ->
    ok (await_reply mem size total st) (s <| sending := None |> <| wire_out := msgs |>)
      (fun _ => after mem)).
  { intros msgs st size k total Hs Hd Ht Hk Hst HQ. pose proof Hs as [_ _ Hrcv _].
    assert (Hh' : held None (s <| sending := None |> <| wire_out := msgs |>)).
    { destruct Hh. constructor; cbn; try done. }
    eapply await_reply_ok; try done; try lia; try by apply held_ready. }
  cbn [handle]. unfold running in Hr. destruct (state (o s)) eqn:Est; try (by destruct Hno; auto).
  all: try (exfalso; first
    [ destruct Hr as (? & [_ _ Er _]) | destruct Hr as (? & ? & ? & _ & [_ _ Er _])
    | destruct Hr as (? & ? & ? & ? & ? & _ & _ & [_ _ Er _]) ]; congruence).
  - destruct Hr as (Hwi & Hs). ok_step. eapply wire_send_ok; [done|exact Hs|].
    unfold send_handler_done. ok_step. apply ok_geto; [done|].
    ok_step. ok_step; [cbn; destruct Hs as [_ _ _ (? & ? & -> & _)]; by apply bool_decide_eq_true_2|].
    change (state _) with (state (o s)). rewrite Est. cbv iota zeta. eapply (Hafter _ _ _ 2 2); try done. intros s' Hh' Hs' Hrc.
    unfold running. rewrite Hs'. exists []. by rewrite Hwi in Hrc.
  - destruct Hr as (ai & Hin & Hs). ok_step. eapply wire_send_ok; [done|exact Hs|].
    unfold send_handler_done. ok_step. apply ok_geto; [done|].
    ok_step. ok_step; [cbn; destruct Hs as [_ _ _ (? & ? & -> & _)]; by apply bool_decide_eq_true_2|].
    change (state _) with (state (o s)). rewrite Est. cbv iota zeta. eapply (Hafter _ _ _ 2 2); try done. intros s' Hh' Hs' Hrc.
    unfold running. rewrite Hs'. exists ai, (wire_in s), []. done.
  - destruct Hr as (msgs & Hin & Hs). ok_step. eapply wire_send_ok; [done|exact Hs|].
    unfold send_handler_done. ok_step. apply ok_geto; [done|].
    ok_step. ok_step; [cbn; destruct Hs as [_ _ _ (? & ? & -> & _)]; by apply bool_decide_eq_true_2|].
    change (state _) with (state (o s)). rewrite Est. cbv iota zeta. eapply (Hafter _ _ _ 22 4); try done. intros s' Hh' Hs' Hrc.
    unfold running. rewrite Hs'. exists msgs, (wire_in s), []. done.
Qed.

Lemma handle_free_ok s : owns s -> ok (handle Ev_free) s (fun _ s' => live s' = false /\ released s').
Proof.
  intros (err & [Hl _ Hc Hco Hio Hops _] & _). cbn [handle]. unfold BSocksClient_Free.
  ok_step. apply ok_geto; [done|]. ok_step.
  destruct (state (o s)) eqn:E; cbn in Hco, Hio |- *.
  all: unfold free_up_io, free_control_io, BConnection_Free.
  all: repeat lazymatch goal with
       | |- ok (seto _) _ _ => apply ok_seto; cbn
       | |- ok _ _ _ => ok_step; cbn
       end; try done; try by rewrite Hio.
  all: split; [done|]; destruct (Hops ltac:(by rewrite Hio)) as [Hs Hr]; by split_and!.
Qed.

Lemma handle_connection_ok b s :
  owns s -> event_ok s (Ev_connection b) = true -> 
  ok (handle (Ev_connection b)) s (fun _ s' => owns s' /\ failed s' = true).
Proof.
  intros Ho [_ [Hf%negb_true_iff He]%andb_true_iff]%andb_true_iff.
  destruct (owns_running s Ho Hf) as [Hh Hr]. pose proof (h_con _ _ Hh) as Hc.
  cbn [handle]. unfold connection_handler. ok_step. apply ok_geto; [by destruct Hh|].
  ok_step. ok_step; [by rewrite <- Hc|]. ok_step.
  - apply report_error_ok; try done. intros _. apply andb_true_iff in Heqb0 as [E _].
    by apply bool_decide_eq_true in E.
  - by apply report_error_ok.
Qed.

(** *** Executions *)

Definition fair (e : event) : bool :=
  match e with
  | Ev_connected _ _ _ | Ev_free => true
  | Ev_connection _ => false
  | Ev_sent mem | Ev_received mem _ => bool_decide (is_Some mem)
  end.

(** A client that failed without lack of memory or connection was refused. *)
Definition refused s : Prop :=
  live s = true -> failed s = true -> state (o s) = STATE_CONNECTING \/ (session (wire_in s)).2 = Refused.

Lemma socks_handle_ok e s : inv s -> event_ok s e = true ->
  ok (handle e) s (fun _ s' => inv s' /\ (fair e = true -> refused s')).
Proof.
  intros Hi He. assert (Hl : live s = true) by (unfold event_ok in He; by split_andb).
  unfold inv in Hi. rewrite Hl in Hi.
  assert (Hafter : forall mem s', after mem s' ->
    inv s' /\ (bool_decide (is_Some mem) = true -> refused s')).
  { intros mem s' [Ho Hf]. split.
    - unfold inv. pose proof Ho as (? & [-> ? ? ? ? ? ?] & _). done.
    - intros Hm%bool_decide_eq_true _ Hfl. right. destruct (Hf Hfl) as [-> |]; [|done].
      by destruct Hm. }
  assert (Hinv : forall s', owns s' -> inv s').
  { intros s' Ho. unfold inv. pose proof Ho as (? & [-> ? ? ? ? ? ?] & _). done. }
  destruct e as [b1 b2 mem|b|mem|mem data|].
  - apply andb_true_iff in He as [_ [Hf%negb_true_iff Hst%bool_decide_eq_true]%andb_true_iff].
    destruct (owns_running s Hi Hf) as [Hh Hr].
    refine (ok_mono _ _ _ _ (connector_handler_ok b1 b2 mem s Hh Hr Hst) _).
    intros _ s' [Ho Hs]. split; [by apply Hinv|]. intros _ _ Hfl. left.
    destruct Hs as [[_ ?]|[? _]]; [done|congruence].
  - refine (ok_mono _ _ _ _ (handle_connection_ok b s Hi He) _).
    intros _ s' [Ho _]. split; [by apply Hinv|done].
  - refine (ok_mono _ _ _ _ (handle_sent_ok mem s Hi He) _). intros _ s' Ha. by apply Hafter.
  - refine (ok_mono _ _ _ _ (handle_received_ok mem data s Hi He) _).
    intros _ s' Ha. by apply Hafter.
  - refine (ok_mono _ _ _ _ (handle_free_ok s Hi) _). intros _ s' [Hl' Hr].
    split; [unfold inv; by rewrite Hl'|]. intros _ Hl''. congruence.
Qed.

Lemma socks_step_inv e s : inv s -> event_ok s e = true ->
  exists s', step s e = Some s' /\ inv s' /\ (fair e = true -> refused s').
Proof.
  intros Hi He. pose proof (socks_handle_ok e s Hi He) as H. apply ok_spec in H as (u & s' & l & E & Hi' & Hr).
  exists s'. unfold step. rewrite E. auto.
Qed.

Lemma socks_run_inv es s s' : inv s -> refused s -> run s es = Some s' ->
  inv s' /\ (forallb fair es = true -> refused s').
Proof.
  revert s. induction es as [|e es IH]; intros s Hi Hf; cbn; [by intros [= <-]|].
  destruct (event_ok s e) eqn:E; [|done].
  destruct (socks_step_inv e s Hi E) as (s1 & -> & Hi1 & Hr1). cbn.
  destruct (fair e) eqn:Ef; cbn.
  - apply IH; auto.
  - clear IH Hr1 Hf. revert s1 Hi1. induction es as [|e' es IH]; intros s1 Hi1; cbn.
    + by intros [= <-].
    + destruct (event_ok s1 e') eqn:E'; [|done].
      destruct (socks_step_inv e' s1 Hi1 E') as (s2 & -> & Hi2 & _). apply IH. done.
Qed.
End invariant.

(** Only the wire itself changes what was sent and read. *)
Definition wires s : bytes * bytes := (wire_out s, wire_in s).

Section keeps.
Context {abi : Abi}.
Lemma keeps_geto : keeps wires geto.
Proof. unfold geto. solve_keeps. Qed.
Lemma keeps_seto f : keeps wires (seto f).
Proof. unfold seto. solve_keeps. Qed.
#[local] Hint Resolve keeps_geto keeps_seto : keeps.
Lemma keeps_report ev : keeps wires (report ev).
Proof. unfold report. solve_keeps. Qed.
Lemma keeps_reserve mem size : keeps wires (reserve_buffer mem size).
Proof. unfold reserve_buffer. solve_keeps. Qed.
Lemma keeps_at off : keeps wires (at_buffer off).
Proof. unfold at_buffer. solve_keeps. Qed.
Lemma keeps_write off data : keeps wires (write_buffer off data).
Proof. unfold write_buffer. solve_keeps. Qed.
Lemma keeps_read n : keeps wires (read_buffer n).
Proof. unfold read_buffer. solve_keeps. Qed.
#[local] Hint Resolve keeps_report keeps_reserve keeps_at keeps_write keeps_read : keeps.
Lemma keeps_send n : keeps wires (PacketPassInterface_Sender_Send n).
Proof. unfold PacketPassInterface_Sender_Send. solve_keeps. Qed.
Lemma keeps_receive : keeps wires do_receive.
Proof. unfold do_receive. solve_keeps. Qed.
#[local] Hint Resolve keeps_send keeps_receive : keeps.
Lemma keeps_start dest total : keeps wires (start_receive dest total).
Proof. unfold start_receive. solve_keeps. Qed.
Lemma keeps_methods i l : keeps wires (write_methods i l).
Proof. revert i. induction l; intros i; cbn [write_methods]; solve_keeps. Qed.
#[local] Hint Resolve keeps_start keeps_methods : keeps.
Lemma keeps_connector b1 b2 mem : keeps wires (connector_handler b1 b2 mem).
Proof.
  unfold connector_handler, init_control_io, free_control_io, BConnection_Free, report_error.
  cbv zeta. solve_keeps.
Qed.
Lemma keeps_auth mem : keeps wires (auth_finished mem).
Proof. unfold auth_finished, report_error. cbv zeta. solve_keeps. Qed.
#[local] Hint Resolve keeps_auth : keeps.
Lemma keeps_recv_done mem n : keeps wires (recv_handler_done mem n).
Proof.
  unfold recv_handler_done, received_part, received_hello, received_reply_header, write_password,
    received_password_reply, received_reply_rest, free_control_io, init_up_io, report_error.
  cbv zeta. solve_keeps.
Qed.
Lemma keeps_send_done mem : keeps wires (send_handler_done mem).
Proof. unfold send_handler_done, await_reply, report_error. cbv zeta. solve_keeps. Qed.
End keeps.

Lemma socks_init_inv {abi : Abi} server ais dest init_ok recv s :
  BSocksClient_Init server ais dest init_ok recv nothing = Some (true, s, []) ->
  forallb (fun ai => (auth_type ai =? 0) || (auth_type ai =? 2)) ais = true /\
  dest <> BAddr_None /\ inv ais dest s /\ refused ais dest s /\
  live s = true /\ failed s = false /\ wire_in s = [] /\ wire_out s = [].
Proof.
  unfold BSocksClient_Init. destruct recv as [[[rd rd_off] rl] rt].
  intros (? & s1 & ? & ? & (_ & -> & _)%assert_Some & H & _)%bind_Some.
  apply bind_Some in H as (? & s1 & ? & ? & (Hd & -> & _)%assert_Some & H & _).
  apply bind_Some in H as (? & s1 & ? & ? & (Ha & -> & _)%assert_Some & H & _).
  cbn in H. destruct init_ok; cbn in H; [|done]. injection H as <-.
  split; [exact Ha|]. split; [by destruct dest|]. split_and!; try done.
  unfold inv. cbn. exists None. split_and!; try done.
Qed.

(** *** Progress *)

Section progress.
Context {abi : Abi} (ais : list BSocksClient_auth_info) (dest : BAddr).
Implicit Types (s : sys) (e : event).
Hypothesis Hdest : addr_wf dest.

(** What is read and sent in a handshake is bounded. *)
Definition max_wires : Z := 26 + (2 + len ais + 513 + 22).

Lemma request_msg_bound : len (request_msg dest) <= 22.
Proof using Hdest.
  destruct dest as [|ip port|ip port]; cbn [request_msg]; [by cbn|..].
  - rewrite !len_app, !len_split. rewrite !len_cons, (@len_nil byte). lia.
  - destruct Hdest as [Hip _]. rewrite length_len in Hip.
    rewrite !len_app, len_split, !len_cons, (@len_nil byte). zlia.
Qed.

Lemma session_sent_bound rx : len (session ais dest rx).1 <= 2 + len ais + 513 + 22.
Proof using Hdest.
  pose proof request_msg_bound.
  assert (Hh : len (hello_msg ais) = 2 + len ais) by (unfold hello_msg; rewrite !len_cons, len_map; lia).
  assert (Hp : forall ai, password_ok ai = true -> len (password_msg ai) <= 513).
  { intros ai Hok. unfold password_ok in Hok. unfold password_msg. zlia. }
  unfold session, password_phase. destruct rx as [|v [|m rx]]; cbn [fst]; [lia..|].
  destruct (find _ ais) as [ai|]; cbn [fst]; [|lia].
  destruct (negb _); cbn [fst]; [lia|]. destruct (_ =? 0); cbn [fst]; [rewrite len_app; lia|].
  destruct (password_ok ai) eqn:Eok; cbn [fst]; [|lia]. specialize (Hp ai Eok).
  destruct rx as [|a [|st rx]]; cbn [fst]; rewrite ?len_app; try lia.
  destruct (_ && _); cbn [fst]; rewrite ?len_app; zlia.
Qed.

Lemma running_bound s : running ais dest s -> len (wire_in s) + len (wire_out s) <= max_wires.
Proof using Hdest.
  assert (Hin : forall pre msgs, in_request ais dest pre msgs ->
    len msgs <= 2 + len ais + 513 + 22 /\ len pre <= 4).
  { intros pre msgs [Hl Hs]. specialize (Hs []). pose proof (session_sent_bound (pre ++ [])) as H.
    rewrite Hs in H. done. }
  assert (Hpw : forall pre ai, in_password ais dest pre ai ->
    len (hello_msg ais ++ password_msg ai) <= 2 + len ais + 513 + 22 /\ len pre = 2).
  { intros pre ai [Hl Hs]. specialize (Hs []). pose proof (session_sent_bound (pre ++ [])) as H.
    rewrite Hs in H. done. }
  assert (Hhl := session_sent_bound []). cbn [session fst] in Hhl.
  assert (Hsnd : forall msgs, is_sending s msgs -> len (wire_out s) <= len msgs).
  { intros msgs [_ _ _ (id & b & _ & _ & <- & _)]. zlia. }
  unfold running, max_wires, addr_size. pose proof (len_nonneg ais).
  destruct (state (o s)).
  - intros (-> & -> & _). rewrite (@len_nil byte). lia.
  - intros (-> & Hs%Hsnd). rewrite (@len_nil byte). lia.
  - intros (got & [_ _ _ -> -> (_ & _ & ?) _ _ _]). rewrite len_app, (@len_nil byte). lia.
  - intros (ai & [? ?]%Hpw & Hs%Hsnd). lia.
  - intros (ai & pre & got & [? ?]%Hpw & [_ _ _ -> -> (_ & _ & ?) _ _ _]). rewrite (len_app pre). lia.
  - intros (msgs & [? ?]%Hin & Hs%Hsnd). lia.
  - intros (msgs & pre & got & [? ?]%Hin & [_ _ _ -> -> (_ & _ & ?) _ _ _]). rewrite len_app. lia.
  - intros (msgs & pre & h & t & got & [? ?]%Hin & (v & p & r & -> & _) & [_ _ _ -> -> (_ & _ & Hg) _ _ _]).
    rewrite !len_app, !len_cons, (@len_nil byte). unfold addr_size in Hg. destruct (_ =? 1); lia.
  - intros (msgs & pre & h & t & got & [? ?]%Hin & (v & p & r & -> & _) & -> & Hg & -> & _).
    rewrite !len_app, !len_cons, (@len_nil byte). unfold addr_size in Hg. destruct (_ =? 1); lia.
Qed.

(** How many more events there can be. *)
Definition potential s : Z :=
  (if live s then 1 else 0) +
  (if failed s then 0
   else 1 + (if bool_decide (state (o s) = STATE_CONNECTING) then 1 else 0) +
        (max_wires - len (wire_in s) - len (wire_out s))).

Lemma potential_nonneg s : inv ais dest s -> live s = true -> 1 <= potential s.
Proof using Hdest.
  unfold inv, potential. intros Hi Hl. rewrite Hl in *. destruct (failed s) eqn:Ef; [lia|].
  destruct (owns_running ais dest s Hi Ef) as [_ Hr]. pose proof (running_bound s Hr).
  destruct (bool_decide _); lia.
Qed.

Hypothesis Hais : forallb (fun ai => (auth_type ai =? 0) || (auth_type ai =? 2)) ais = true.
Hypothesis Hdest' : dest <> BAddr_None.

(** While it runs, exactly one operation is in progress. *)
Lemma running_op s : held ais dest None s -> running ais dest s ->
  match state (o s) with
  | STATE_CONNECTING | STATE_UP => sending s = None /\ receiving s = None
  | _ => (exists msgs, is_sending s msgs) \/
         (exists off total room msgs pre got, is_receiving s off total room msgs pre got)
  end.
Proof using.
  intros [_ _ _ _ Hio Hops _] Hr. unfold running in Hr.
  destruct (state (o s)); try (apply Hops; by rewrite Hio).
  - left. destruct Hr. eauto.
  - right. destruct Hr as (got & ?). eauto 8.
  - left. destruct Hr as (ai & _ & ?). eauto.
  - right. destruct Hr as (ai & pre & got & _ & ?). eauto 8.
  - left. destruct Hr as (msgs & _ & ?). eauto.
  - right. destruct Hr as (msgs & pre & got & _ & ?). eauto 8.
  - right. destruct Hr as (msgs & pre & h & t & got & _ & _ & ?). eauto 8.
Qed.

Lemma running_verdict s : held ais dest None s -> running ais dest s ->
  state (o s) <> STATE_CONNECTING ->
  wire_out s ++ (match sending s, buffer (o s) with Some _, Some (_, b) => b | _, _ => [] end)
    = (session ais dest (wire_in s)).1 /\
  (session ais dest (wire_in s)).2 =
    if bool_decide (state (o s) = STATE_UP) then Connected else Waiting.
Proof using.
  intros [_ _ _ _ Hio Hops _] Hr Hc. unfold running in Hr.
  assert (Hsn : forall msgs, is_sending s msgs -> wire_out s ++
    (match sending s, buffer (o s) with Some _, Some (_, b) => b | _, _ => [] end) = msgs).
  { intros msgs [_ _ _ (id & b & -> & -> & <- & _)]. done. }
  assert (Hrq : forall pre msgs got, in_request ais dest pre msgs ->
    session ais dest (pre ++ got) = (msgs, request_phase got)) by (by intros pre msgs got [_ H]).
  assert (Hpw : forall pre ai got, in_password ais dest pre ai ->
    session ais dest (pre ++ got) = password_phase ais dest ai got) by (by intros pre ai got [_ H]).
  destruct (state (o s)) eqn:Est; try done; cbn [bool_decide].
  - destruct Hr as [-> Hs%Hsn]. by rewrite Hs.
  - destruct Hr as (got & [_ _ -> -> -> (_ & _ & Hg) _ _ _]). cbn [app].
    by rewrite session_wait_hello, app_nil_r by done.
  - destruct Hr as (ai & Hin & Hs%Hsn). rewrite <- (app_nil_r (wire_in s)), (Hpw _ ai) by done.
    rewrite password_wait by done. by rewrite Hs.
  - destruct Hr as (ai & pre & got & Hin & [_ _ -> -> -> (_ & _ & Hg) _ _ _]).
    by rewrite (Hpw _ ai), password_wait, app_nil_r by done.
  - destruct Hr as (msgs & Hin & Hs%Hsn). rewrite <- (app_nil_r (wire_in s)), (Hrq _ msgs) by done.
    by rewrite Hs.
  - destruct Hr as (msgs & pre & got & Hin & [_ _ -> -> -> (_ & _ & Hg) _ _ _]).
    by rewrite (Hrq _ msgs), request_wait, app_nil_r by done.
  - destruct Hr as (msgs & pre & h & t & got & Hin & Hrh & [_ _ -> -> -> (_ & _ & Hg) _ _ _]).
    rewrite <- app_assoc, (Hrq _ msgs), (request_header h t), app_nil_r by done.
    by rewrite (proj2 (Z.ltb_lt _ _)).
  - destruct Hr as (msgs & pre & h & t & addr & Hin & Hrh & -> & Hn & -> & Hb).
    rewrite (Hrq _ msgs), (request_header h t) by done. rewrite Hn, Z.ltb_irrefl, Z.eqb_refl.
    destruct Hops as [-> _]; [by rewrite Hio|]. by rewrite app_nil_r.
Qed.

Lemma sent_grows mem s s' l : held ais dest None s -> running ais dest s ->
  is_Some (sending s) -> handle (Ev_sent mem) s = Some (tt, s', l) ->
  wire_in s' = wire_in s /\ len (wire_out s) < len (wire_out s').
Proof using.
  intros Hh Hr [x Hs] (u & s1 & l1 & l2 & H1 & H2 & _)%bind_Some.
  assert (Hw := keeps_send_done mem s1 tt s' l2 H2). injection Hw as -> ->.
  assert (Hsnd : exists msgs, is_sending s msgs).
  { pose proof (running_op s Hh Hr) as Hop. destruct (state (o s)); [destruct Hop; congruence| | | | | | | |destruct Hop; congruence].
    all: destruct Hop as [?|(? & ? & ? & ? & ? & ? & [_ _ E _ _ _ _ _ _])]; [done|congruence]. }
  destruct Hsnd as [msgs Hsnd].
  assert (Hok := wire_send_ok s msgs (fun _ s1 => wire_in s1 = wire_in s /\ wire_out s1 = msgs)
                   (h_live _ _ _ _ Hh) Hsnd ltac:(done)).
  apply ok_spec in Hok as (u' & s1' & l' & E & Hwi & Hwo). rewrite H1 in E. injection E as -> -> ->.
  destruct Hsnd as [_ _ _ (id & b & _ & _ & <- & Hb)]. rewrite Hwi, Hwo. split; [done|zlia].
Qed.

Lemma received_grows mem data s s' l : held ais dest None s -> running ais dest s ->
  event_ok s (Ev_received mem data) = true ->
  handle (Ev_received mem data) s = Some (tt, s', l) ->
  wire_out s' = wire_out s /\ wire_in s' = wire_in s ++ data.
Proof using.
  intros Hh Hr He (u & s1 & l1 & l2 & H1 & H2 & _)%bind_Some.
  assert (Hw := keeps_recv_done mem _ s1 tt s' l2 H2). injection Hw as -> ->.
  apply andb_true_iff in He as [_ [_ He]%andb_true_iff].
  destruct (receiving s) as [[[i k] n]|] eqn:Er; [|done].
  assert (Hrcv : exists off total room msgs pre got, is_receiving s off total room msgs pre got).
  { pose proof (running_op s Hh Hr) as Hop. destruct (state (o s)); [destruct Hop; congruence| | | | | | | |destruct Hop; congruence].
    all: destruct Hop as [(msgs & [_ _ E _])|?]; [congruence|done]. }
  destruct Hrcv as (off & total & room & msgs & pre & got & Hrc).
  assert (Hn : len data <= total - len got).
  { destruct Hrc as [_ _ _ _ _ _ _ _ (id & b & _ & _ & _ & _ & E)]. rewrite Er in E.
    injection E as _ _ ->. lia. }
  assert (Hok := wire_recv_ok s off total room msgs pre got data
     (fun _ s1 => wire_out s1 = wire_out s /\ wire_in s1 = wire_in s ++ data)
     (h_live _ _ _ _ Hh) Hrc Hn ltac:(done)).
  apply ok_spec in Hok as (u' & s1' & l' & E & Hwo & Hwi). rewrite H1 in E. by injection E as -> -> ->.
Qed.

Lemma step_potential s e s' : inv ais dest s -> event_ok s e = true -> step s e = Some s' ->
  potential s' < potential s.
Proof using All.
  intros Hi He Hst. assert (Hl : live s = true) by (unfold event_ok in He; by split_andb).
  unfold inv in Hi. rewrite Hl in Hi. unfold step in Hst.
  destruct (handle e s) as [[[[] s1] l]|] eqn:E; [|done]. injection Hst as ->.
  assert (Hlive : forall s', owns ais dest s' -> live s' = true) by (by intros s0 (? & [] & _)).
  assert (Hrun : failed s = false -> held ais dest None s /\ running ais dest s /\
            len (wire_in s) + len (wire_out s) <= max_wires).
  { intros Hf. destruct (owns_running ais dest s Hi Hf) as [Hh Hr]. auto using running_bound. }
  assert (Hgrow : forall mem, after ais dest mem s' -> failed s = false ->
    0 < len (wire_in s') + len (wire_out s') ->
    len (wire_in s) + len (wire_out s) < len (wire_in s') + len (wire_out s') ->
    potential s' < potential s).
  { intros mem [Ho' _] Hf Hpos Hw. destruct (Hrun Hf) as (_ & _ & Hb). unfold potential.
    rewrite Hl, (Hlive s' Ho'), Hf. destruct (failed s') eqn:Ef'; cbv iota;
      [destruct (bool_decide (state (o s) = _)); lia|].
    destruct (owns_running ais dest s' Ho' Ef') as [_ Hr']. unfold running in Hr'.
    rewrite (bool_decide_eq_false_2 (state (o s') = _)); [destruct (bool_decide _); lia|].
    intros Es'. rewrite Es' in Hr'. destruct Hr' as (Ewo & Ewi & _).
    rewrite Ewo, Ewi, (@len_nil byte) in Hpos. lia. }
  destruct e as [b1 b2 mem|b|mem|mem data|].
  - pose proof (keeps_connector b1 b2 mem s tt s' l E) as Hw. injection Hw as Hwo Hwi.
    apply andb_true_iff in He as [_ [Hf%negb_true_iff Hs%bool_decide_eq_true]%andb_true_iff].
    destruct (Hrun Hf) as (Hh & Hr & Hb).
    pose proof (connector_handler_ok ais dest b1 b2 mem s Hh Hr Hs) as Hok.
    apply ok_spec in Hok as (u & s2 & l2 & E2 & Ho & Hcase). cbn [handle] in E. rewrite E in E2.
    injection E2 as <- <- <-. unfold potential. rewrite Hl, Hf, Hs, (Hlive s' Ho), Hwi, Hwo.
    rewrite (bool_decide_eq_true_2 (STATE_CONNECTING = _)) by done.
    destruct Hcase as [[-> _]|[-> ->]]; cbv iota; [lia|].
    rewrite (bool_decide_eq_false_2 (_ = _)) by done. lia.
  - pose proof (handle_connection_ok ais dest b s Hi He) as Hok.
    apply ok_spec in Hok as (u & s2 & l2 & E2 & Ho & Hf'). rewrite E in E2. injection E2 as <- <- <-.
    apply andb_true_iff in He as [_ [Hf%negb_true_iff _]%andb_true_iff].
    destruct (Hrun Hf) as (_ & _ & Hb). unfold potential. rewrite Hl, Hf, Hf', (Hlive s' Ho).
    destruct (bool_decide _); lia.
  - pose proof (handle_sent_ok ais dest mem s Hi He) as Hok.
    apply ok_spec in Hok as (u & s2 & l2 & E2 & Ha). rewrite E in E2. injection E2 as <- <- <-.
    apply andb_true_iff in He as [_ [Hf%negb_true_iff Hs%bool_decide_eq_true]%andb_true_iff].
    destruct (Hrun Hf) as (Hh & Hr & _). destruct (sent_grows mem s s' l Hh Hr Hs E) as [Hwi Hwo].
    pose proof (len_nonneg (wire_in s)). pose proof (len_nonneg (wire_out s)).
    eapply Hgrow; [exact Ha|done|rewrite Hwi; lia|rewrite Hwi; lia].
  - pose proof (handle_received_ok ais dest Hais Hdest Hdest' mem data s Hi He) as Hok.
    apply ok_spec in Hok as (u & s2 & l2 & E2 & Ha). rewrite E in E2. injection E2 as <- <- <-.
    pose proof He as [_ [Hf%negb_true_iff Hd]%andb_true_iff]%andb_true_iff.
    destruct (Hrun Hf) as (Hh & Hr & _).
    destruct (received_grows mem data s s' l Hh Hr He E) as [Hwo Hwi].
    assert (0 < len data) by (destruct (receiving s) as [[[? ?] ?]|]; [lia|done]).
    pose proof (len_nonneg (wire_in s)). pose proof (len_nonneg (wire_out s)).
    eapply Hgrow; [exact Ha|done|..]; rewrite Hwi, Hwo, len_app; lia.
  - pose proof (handle_free_ok ais dest s Hi) as Hok.
    apply ok_spec in Hok as (u & s2 & l2 & E2 & Hl' & _). rewrite E in E2. injection E2 as <- <- <-.
    assert (K : keeps (fun s => (wires s, failed s, state (o s))) (handle Ev_free)).
    { cbn [handle]. unfold BSocksClient_Free, geto, seto, free_up_io, free_control_io,
        BConnection_Free. solve_keeps. }
    specialize (K s tt s' l E). injection K as K1 K2 K3 K4. unfold potential.
    rewrite Hl, Hl', K1, K2, K3, K4. lia.
Qed.

Lemma run_potential es s s' : inv ais dest s -> live s = true -> run s es = Some s' ->
  Z.of_nat (length es) <= potential s.
Proof using All.
  revert s. induction es as [|e es IH]; intros s Hi Hl; cbn [run length].
  { intros _. pose proof (potential_nonneg s Hi Hl). lia. }
  destruct (event_ok s e) eqn:He; [|done]. intros Hrun.
  destruct (socks_step_inv ais dest Hais Hdest Hdest' e s Hi He) as (s1 & E & Hi1 & _).
  rewrite E in Hrun. pose proof (step_potential s e s1 Hi He E). 
  destruct (live s1) eqn:El; [specialize (IH s1 Hi1 El Hrun); lia|].
  destruct es as [|e' es]; [pose proof (potential_nonneg s Hi Hl); cbn; lia|].
  cbn in Hrun. unfold event_ok in Hrun. by rewrite El in Hrun.
Qed.
End progress.
End SocksClientProofs.

(** ** Properties *)

Section socks_client_properties.
Import SocksClientProofs.
Context {abi : Abi} (server : BAddr) (ais : list BSocksClient_auth_info) (dest : BAddr).
Context (init_ok : bool) (recv : nat * Z * Z * Z) (s0 : sys).
Hypothesis Hinit : BSocksClient_Init server ais dest init_ok recv nothing = Some (true, s0, []).
Hypothesis Hdest : addr_wf dest.

Lemma socks_reachable es s : run s0 es = Some s ->
  inv ais dest s /\ (forallb fair es = true -> refused ais dest s).
Proof using All.
  destruct (socks_init_inv _ _ _ _ _ _ Hinit) as (Ha & Hd & Hi & Hr & _).
  by apply socks_run_inv.
Qed.

(** C14: whatever the server, the connection and the allocator do, the handlers
    of a client run to their end: no assertion fails, nothing is sent from or
    read into memory that was freed, and freeing the client, which is possible
    at any time, frees everything it owns once. *)
Theorem socks_client_safe es s e :
  run s0 es = Some s -> event_ok s e = true ->
  exists s', step s e = Some s' /\
    (live s' = false -> connector s' = false /\ con s' = false /\ ios s' = IO_none /\
       sending s' = None /\ receiving s' = None /\ buffer (o s') = None).
Proof using All.
  intros Hrun He. destruct (socks_init_inv _ _ _ _ _ _ Hinit) as (Ha & Hd & _).
  destruct (socks_reachable es s Hrun) as [Hi _].
  destruct (socks_step_inv ais dest Ha Hdest Hd e s Hi He) as (s' & E & Hi' & _).
  exists s'. split; [done|]. intros Hl. unfold inv in Hi'. by rewrite Hl in Hi'.
Qed.

(** C13: the handshake is the one of RFC 1928 and RFC 1929, however the server's
    reply is cut: what is sent, with the packet in progress, is what the bytes
    read so far call for; the client is up exactly when they are a complete
    favourable reply, no byte past it having been read; and when nothing but
    the server fails, it reports an error exactly when the reply refuses. *)
Theorem socks_client_session es s :
  run s0 es = Some s -> live s = true -> state (o s) <> STATE_CONNECTING ->
  let '(msgs, v) := session ais dest (wire_in s) in
  (failed s = false ->
     wire_out s ++ (match sending s, buffer (o s) with Some _, Some (_, b) => b | _, _ => [] end)
       = msgs /\
     v = if bool_decide (state (o s) = STATE_UP) then Connected else Waiting) /\
  (forallb fair es = true -> failed s = true -> v = Refused).
Proof using All.
  intros Hrun Hl Hst. destruct (socks_reachable es s Hrun) as [Hi Hrf].
  destruct (session ais dest (wire_in s)) as [msgs v] eqn:E. split.
  - intros Hf. unfold inv in Hi. rewrite Hl in Hi.
    destruct (owns_running ais dest s Hi Hf) as [Hh Hr]. pose proof (running_verdict ais dest s Hh Hr) as H.
    rewrite E in H. auto.
  - intros Hfair Hf. destruct (Hrf Hfair Hl Hf) as [?|H]; [done|]. by rewrite E in H.
Qed.

(** What the user is told: that the client is up when it is, once; then or
    instead at most one error, and that the server closed the connection only
    when it was up. *)
Theorem socks_client_reports es s :
  run s0 es = Some s -> live s = true ->
  exists errors, reports s =
    (if bool_decide (state (o s) = STATE_UP) then [BSOCKSCLIENT_EVENT_UP] else []) ++ errors /\
    (errors = [] \/ errors = [BSOCKSCLIENT_EVENT_ERROR] \/
     errors = [BSOCKSCLIENT_EVENT_ERROR_CLOSED] /\ state (o s) = STATE_UP).
Proof using All.
  intros Hrun Hl. destruct (socks_reachable es s Hrun) as [Hi _]. unfold inv in Hi. rewrite Hl in Hi.
  destruct Hi as (err & Hh & Hup & Hcl & _). exists (option_list err).
  split; [apply (h_reports _ _ _ _ Hh)|]. destruct err as [[]|]; cbn; auto. by destruct Hup.
Qed.

(** C15: the handshake ends: a client that is not up and has not failed always
    has an operation in progress, and no execution has more events than the
    messages have bytes. *)
Theorem socks_client_terminates es s :
  run s0 es = Some s ->
  Z.of_nat (length es) <= len ais + 566 /\
  (live s = true -> failed s = false -> state (o s) <> STATE_CONNECTING ->
   state (o s) <> STATE_UP -> is_Some (sending s) \/ is_Some (receiving s)).
Proof using All.
  intros Hrun. destruct (socks_init_inv _ _ _ _ _ _ Hinit) as (Ha & Hd & Hi0 & _ & Hl0 & Hf0 & Hwi & Hwo).
  split.
  - pose proof (run_potential ais dest Hdest Ha Hd es s0 s Hi0 Hl0 Hrun) as H.
    unfold potential, max_wires in H. rewrite Hl0, Hf0, Hwi, Hwo, (@len_nil byte) in H.
    destruct (bool_decide _); lia.
  - intros Hl Hf Hc Hu. destruct (socks_reachable es s Hrun) as [Hi _]. unfold inv in Hi. rewrite Hl in Hi.
    destruct (owns_running ais dest s Hi Hf) as [Hh Hr].
    pose proof (running_op ais dest s Hh Hr) as Hop.
    destruct (state (o s)); try done.
    all: destruct Hop as [(msgs & [_ _ _ (id & b & _ & -> & _)])
                         |(off & total & room & msgs & pre & got & [_ _ _ _ _ _ _ _ (id & b & _ & _ & _ & _ & ->)])];
      eauto.
Qed.
End socks_client_properties.

Module SocksClientWitnesses.
Import SocksClientProofs.
#[local] Existing Instance abi64.

Definition demo_ais : list BSocksClient_auth_info :=
  [BSocksClient_auth_none; BSocksClient_auth_password [Byte.x75] [Byte.x70; Byte.x77]].
Definition demo_dest : BAddr := BAddr_IPv4 0x04030201 0x5000.
Definition demo_server : BAddr := BAddr_IPv4 0x0100007f 0x3804.
Definition demo_init : option (bool * sys * list out) :=
  BSocksClient_Init demo_server demo_ais demo_dest true (7%nat, 1, 2, 3) nothing.
Definition demo_s0 : sys := match demo_init with Some (_, s, _) => s | None => nothing end.
Definition mem : option bytes := Some [Byte.xaa].
(** The server asks for the password, in two pieces, and accepts. *)
Definition demo_events : list event :=
  [Ev_connected false true mem; Ev_sent mem;
   Ev_received mem [Byte.x05]; Ev_received mem [Byte.x02]; Ev_sent mem;
   Ev_received mem [Byte.x01; Byte.x00]; Ev_sent mem;
   Ev_received mem [Byte.x05; Byte.x00; Byte.x00; Byte.x01];
   Ev_received mem [Byte.x7f; Byte.x00; Byte.x00; Byte.x01];
   Ev_received mem [Byte.x12; Byte.x34]].
Definition demo_at (k : nat) : sys := default demo_s0 (run demo_s0 (take k demo_events)).
(** The server refuses the request. *)
Definition refused_events : list event :=
  take 7 demo_events ++ [Ev_received mem [Byte.x05; Byte.x01; Byte.x00; Byte.x01]].
Definition demo_refused : sys := default demo_s0 (run demo_s0 refused_events).

Lemma demo_dest_wf : addr_wf demo_dest.
Proof. cbn. lia. Qed.

Lemma socks_client_safe_witness :
  exists s', step (demo_at 8) Ev_free = Some s' /\
    (live s' = false -> connector s' = false /\ con s' = false /\ ios s' = IO_none /\
       sending s' = None /\ receiving s' = None /\ buffer (o s') = None).
Proof.
  apply (socks_client_safe demo_server demo_ais demo_dest true (7%nat, 1, 2, 3) demo_s0
    eq_refl demo_dest_wf (take 8 demo_events)); vm_compute; reflexivity.
Defined.

Lemma socks_client_session_witness :
  let s := demo_at 10 in
  let '(msgs, v) := session demo_ais demo_dest (wire_in s) in
  (failed s = false ->
     wire_out s ++ (match sending s, buffer (o s) with Some _, Some (_, b) => b | _, _ => [] end)
       = msgs /\
     v = if bool_decide (state (o s) = STATE_UP) then Connected else Waiting) /\
  (forallb fair demo_events = true -> failed s = true -> v = Refused).
Proof.
  apply (socks_client_session demo_server demo_ais demo_dest true (7%nat, 1, 2, 3) demo_s0
    eq_refl demo_dest_wf demo_events (demo_at 10)); [vm_compute; reflexivity..|].
  vm_compute. discriminate.
Defined.

Lemma socks_client_reports_witness :
  let s := demo_refused in
  exists errors, reports s =
    (if bool_decide (state (o s) = STATE_UP) then [BSOCKSCLIENT_EVENT_UP] else []) ++ errors /\
    (errors = [] \/ errors = [BSOCKSCLIENT_EVENT_ERROR] \/
     errors = [BSOCKSCLIENT_EVENT_ERROR_CLOSED] /\ state (o s) = STATE_UP).
Proof.
  apply (socks_client_reports demo_server demo_ais demo_dest true (7%nat, 1, 2, 3) demo_s0
    eq_refl demo_dest_wf refused_events demo_refused); vm_compute; reflexivity.
Defined.

Lemma socks_client_terminates_witness :
  let s := demo_at 6 in
  Z.of_nat (length (take 6 demo_events)) <= len demo_ais + 566 /\
  (live s = true -> failed s = false -> state (o s) <> STATE_CONNECTING ->
   state (o s) <> STATE_UP -> is_Some (sending s) \/ is_Some (receiving s)).
Proof.
  apply (socks_client_terminates demo_server demo_ais demo_dest true (7%nat, 1, 2, 3) demo_s0
    eq_refl demo_dest_wf (take 6 demo_events) (demo_at 6)); vm_compute; reflexivity.
Defined.

(** The demonstration goes up, with the reply read to its end. *)
Example demo_up :
  state (o (demo_at 10)) = STATE_UP /\ reports (demo_at 10) = [BSOCKSCLIENT_EVENT_UP] /\
  reports demo_refused = [BSOCKSCLIENT_EVENT_ERROR].
Proof. by vm_compute. Qed.
End SocksClientWitnesses.
