(* ===== verification/UdpGw.v ===== *)
(** * The udpgw client

    [udpgw_client/UdpGwClient.c] with [protocol/udpgw_proto.h]: UDP flows over
    one stream to a udpgw server.  A flow is a pair of addresses, and has a
    connection with a small number, the conid, by which the server names it;
    there are at most [max_connections], and the least recently used one is
    given to a new flow when there are no more.

    Connections are objects in a heap; the two search trees and the list of the
    source hold pointers to them, and are finite maps and a list of pointers
    here (the trees are maps by [BAddr.baddr_compare_order]).  What the code
    asks of the flow components of a connection is an argument: [room] is
    [None] when the send buffer is full, otherwise what the memory given for a
    packet holds. *)
From S2P Require Import Prelude BSize BAddr.

#[export] Instance byte_countable : Countable byte.
Proof.
  apply (inj_countable b2z (fun z => Some (z2b z))). intros b. f_equal.
  apply byte.of_Z_unsigned.
Defined.
#[export] Instance BAddr_countable : Countable BAddr.
Proof.
  apply (inj_countable'
    (fun a => match a with
              | BAddr_None => None
              | BAddr_IPv4 ip port => Some (inl (ip, port))
              | BAddr_IPv6 ip port => Some (inr (ip, port))
              end)
    (fun x : option (Z * Z + bytes * Z) =>
              match x with
              | None => BAddr_None
              | Some (inl (ip, port)) => BAddr_IPv4 ip port
              | Some (inr (ip, port)) => BAddr_IPv6 ip port
              end)).
  by intros [].
Defined.

(** ** Protocol *)

Definition UDPGW_CLIENT_FLAG_KEEPALIVE : Z := Z.shiftl 1 0.
Definition UDPGW_CLIENT_FLAG_REBIND : Z := Z.shiftl 1 1.
Definition UDPGW_CLIENT_FLAG_DNS : Z := Z.shiftl 1 2.
Definition UDPGW_CLIENT_FLAG_IPV6 : Z := Z.shiftl 1 3.

Definition sizeof_socks_udp_header : Z := 4.
Definition sizeof_udpgw_header : Z := 3.
Definition sizeof_udpgw_addr_ipv4 : Z := 6.
Definition sizeof_udpgw_addr_ipv6 : Z := 18.
Definition sizeof_packetproto_header : Z := 2.
Definition PACKETPROTO_MAXPAYLOAD : Z := UINT16_MAX.

(** The build defines [ANDROID]. *)
Definition udpgw_compute_mtu {abi : Abi} (dgram_mtu : Z) : Z :=
  let bs := bsize_add (bsize_fromsize sizeof_socks_udp_header)
              (bsize_add (bsize_max (bsize_fromsize sizeof_udpgw_addr_ipv4)
                            (bsize_fromsize sizeof_udpgw_addr_ipv6))
                 (bsize_fromint dgram_mtu)) in
  default (-1) (bsize_toint bs).

(** ** State *)

Abbreviation ptr := nat.

Record conaddr_t := mk_conaddr { ca_local : BAddr; ca_remote : BAddr }.
#[export] Instance conaddr_eq_dec : EqDecision conaddr_t.
Proof. solve_decision. Defined.
#[export] Instance conaddr_countable : Countable conaddr_t.
Proof.
  apply (inj_countable' (fun c => (ca_local c, ca_remote c)) (fun x => mk_conaddr x.1 x.2)).
  by intros [].
Defined.

Definition conaddr_comparator (v1 v2 : conaddr_t) : Z :=
  let r := BAddr_CompareOrder (ca_remote v1) (ca_remote v2) in
  if negb (r =? 0) then r else BAddr_CompareOrder (ca_local v1) (ca_local v2).

(** [first_job] tells whether the job that sends the first packet is pending. *)
Record UdpGwClient_connection := mk_connection {
  conaddr : conaddr_t;
  first_flags : Z;
  first_data : bytes;
  conid : Z;
  first_job : bool;
}.
#[export] Instance connection_eta : Eta UdpGwClient_connection := fun r =>
  mk_connection (conaddr r) (first_flags r) (first_data r) (conid r) (first_job r).

Record UdpGwClient := mk_UdpGwClient {
  udp_mtu : Z;
  max_connections : Z;
  udpgw_mtu : Z;
  pp_mtu : Z;
  tree_by_conaddr : gmap conaddr_t ptr;
  tree_by_conid : gmap Z ptr;
  connections_list : list ptr;
  num_connections : Z;
  next_conid : Z;
  keepalive_sending : bool;
  have_server : bool;
  freeing : bool;
  heap : gmap ptr UdpGwClient_connection;
  next_ptr : ptr;
}.
#[export] Instance client_eta : Eta UdpGwClient := fun r =>
  mk_UdpGwClient (udp_mtu r) (max_connections r) (udpgw_mtu r) (pp_mtu r) (tree_by_conaddr r)
    (tree_by_conid r) (connections_list r) (num_connections r) (next_conid r)
    (keepalive_sending r) (have_server r) (freeing r) (heap r) (next_ptr r).

Inductive out :=
  | Con_EndPacket (con : ptr) (data : bytes)
  | Handler_received (local_addr remote_addr : BAddr) (data : bytes)
  | Handler_servererror
  | Recv_Done
  | Keepalive_Send (data : bytes)
  | Server_Connect
  | Server_Free.

Definition hdl := handler UdpGwClient out.

(** Access through a pointer. *)
Definition deref (p : ptr) : hdl UdpGwClient_connection :=
  o ← get; of_option (heap o !! p).
Definition update_con (p : ptr) (f : UdpGwClient_connection -> UdpGwClient_connection) : hdl unit :=
  con ← deref p; modify (fun o => o <| heap := <[p := f con]> (heap o) |>).

Definition LinkedList1_Remove (p : ptr) (l : list ptr) : list ptr := filter (fun q => q <> p) l.
Definition LinkedList1_Append (p : ptr) (l : list ptr) : list ptr := l ++ [p].

Definition find_connection_by_conaddr (o : UdpGwClient) (ca : conaddr_t) : option ptr :=
  tree_by_conaddr o !! ca.
Definition find_connection_by_conid (o : UdpGwClient) (id : Z) : option ptr :=
  tree_by_conid o !! id.

(** ** Operations *)

(** The loop; [None] when the fuel runs out, which it does not
    ([find_conid_total]). *)
Fixpoint find_unused_conid_ (fuel : nat) (o : UdpGwClient) : option (Z * UdpGwClient) :=
  match fuel with
  | O => None
  | S fuel =>
      match find_connection_by_conid o (next_conid o) with
      | None => Some (next_conid o, o)
      | Some _ =>
          if next_conid o =? max_connections o - 1
          then find_unused_conid_ fuel (o <| next_conid := 0 |>)
          else find_unused_conid_ fuel (o <| next_conid := next_conid o + 1 |>)
      end
  end.
Definition find_unused_conid : hdl Z :=
  o ← get;
  ASSERT (num_connections o <? max_connections o);;
  '(id, o') ← of_option (find_unused_conid_ (S (Z.to_nat (max_connections o))) o);
  modify (fun _ => o');;
  mret id.

(** The memory [BufferWriter_StartPacket] gives: [n] bytes. *)
Definition StartPacket (room : option bytes) (n : Z) : option bytes :=
  match room with
  | Some raw => Some (take (Z.to_nat n) (raw ++ replicate (Z.to_nat n) Byte.x00))
  | None => None
  end.

Definition connection_send (room : option bytes) (con : ptr) (flags : Z) (data : bytes) : hdl unit :=
  o ← get;
  ASSERT (len data <=? udp_mtu o);;
  c ← deref con;
  match StartPacket room (udpgw_mtu o) with
  | None => mret tt
  | Some buf =>
      let flags := match ca_remote (conaddr c) with
                   | BAddr_IPv6 _ _ => Z.lor flags UDPGW_CLIENT_FLAG_IPV6
                   | _ => flags
                   end in
      buf ← of_option (store 0 (z2b flags :: le_split 2 (conid c)) buf);
      let out_pos := sizeof_udpgw_header in
      '(buf, out_pos) ←
        match ca_remote (conaddr c) with
        | BAddr_IPv4 ip port =>
            buf ← of_option (store out_pos (le_split 4 ip ++ le_split 2 port) buf);
            mret (buf, out_pos + sizeof_udpgw_addr_ipv4)
        | BAddr_IPv6 ip port =>
            buf ← of_option (store out_pos (ip ++ le_split 2 port) buf);
            mret (buf, out_pos + sizeof_udpgw_addr_ipv6)
        | BAddr_None => mret (buf, out_pos)
        end;
      buf ← of_option (store out_pos data buf);
      packet ← of_option (load 0 (out_pos + len data) buf);
      call (Con_EndPacket con packet)
  end.

Definition connection_first_job_handler (room : option bytes) (con : ptr) : hdl unit :=
  update_con con (fun c => c <| first_job := false |>);;
  c ← deref con;
  connection_send room con (Z.lor UDPGW_CLIENT_FLAG_REBIND (first_flags c)) (first_data c).

(** [BAVL_Insert] fails when the key is there already. *)
Definition BAVL_Insert_conaddr (ca : conaddr_t) (p : ptr) : hdl unit :=
  o ← get;
  ASSERT (bool_decide (tree_by_conaddr o !! ca = None));;
  modify (fun o => o <| tree_by_conaddr := <[ca := p]> (tree_by_conaddr o) |>).
Definition BAVL_Insert_conid (id : Z) (p : ptr) : hdl unit :=
  o ← get;
  ASSERT (bool_decide (tree_by_conid o !! id = None));;
  modify (fun o => o <| tree_by_conid := <[id := p]> (tree_by_conid o) |>).

Definition connection_init (malloc_ok ppflow_ok : bool) (ca : conaddr_t) (flags : Z) (data : bytes)
    : hdl unit :=
  o ← get;
  ASSERT (num_connections o <? max_connections o);;
  ASSERT (bool_decide (find_connection_by_conaddr o ca = None));;
  ASSERT (len data <=? udp_mtu o);;
  if negb malloc_ok then mret tt else
  id ← find_unused_conid;
  o ← get;
  let con := next_ptr o in
  modify (fun o => o <| next_ptr := S con |>);;
  if negb ppflow_ok then mret tt else
  modify (fun o => o <| heap := <[con := mk_connection ca flags data id true]> (heap o) |>);;
  BAVL_Insert_conaddr ca con;;
  BAVL_Insert_conid id con;;
  modify (fun o => o <| connections_list := LinkedList1_Append con (connections_list o) |>
                     <| num_connections := num_connections o + 1 |>).

Definition connection_free (con : ptr) : hdl unit :=
  c ← deref con;
  o ← get;
  ASSERT (freeing o);;
  modify (fun o => o <| num_connections := num_connections o - 1 |>
    <| connections_list := LinkedList1_Remove con (connections_list o) |>
    <| tree_by_conid := delete (conid c) (tree_by_conid o) |>
    <| tree_by_conaddr := delete (conaddr c) (tree_by_conaddr o) |>
    <| heap := delete con (heap o) |>).

Definition reuse_connection (ca : conaddr_t) : hdl ptr :=
  o ← get;
  ASSERT (bool_decide (find_connection_by_conaddr o ca = None));;
  ASSERT (0 <? num_connections o);;
  con ← of_option (head (connections_list o));
  c ← deref con;
  modify (fun o => o <| tree_by_conaddr := delete (conaddr c) (tree_by_conaddr o) |>);;
  update_con con (fun c => c <| conaddr := ca |>);;
  BAVL_Insert_conaddr ca con;;
  mret con.

Definition move_to_front (con : ptr) : hdl unit :=
  modify (fun o => o <| connections_list :=
    LinkedList1_Append con (LinkedList1_Remove con (connections_list o)) |>).

Definition UdpGwClient_SubmitPacket (malloc_ok ppflow_ok : bool) (room : option bytes)
    (local_addr remote_addr : BAddr) (is_dns : bool) (data : bytes) : hdl unit :=
  o ← get;
  ASSERT (negb (BAddr_IsInvalid local_addr));;
  ASSERT (negb (BAddr_IsInvalid remote_addr));;
  ASSERT (len data <=? udp_mtu o);;
  let ca := mk_conaddr local_addr remote_addr in
  let flags := if is_dns then UDPGW_CLIENT_FLAG_DNS else 0 in
  '(con, flags) ←
    match find_connection_by_conaddr o ca with
    | Some con => mret (Some con, flags)
    | None =>
        if num_connections o =? max_connections o then
          con ← reuse_connection ca;
          mret (Some con, Z.lor flags UDPGW_CLIENT_FLAG_REBIND)
        else mret (None, flags)
    end;
  match con with
  | None => connection_init malloc_ok ppflow_ok ca flags data
  | Some con => move_to_front con;; connection_send room con flags data
  end.

Definition decoder_handler_error : hdl unit :=
  o ← get; ASSERT (have_server o);; call Handler_servererror.

(** The address after the header: [None] when it is missing. *)
Definition parse_addr (flags : Z) (data : bytes) : option (option (BAddr * bytes)) :=
  if negb (Z.land flags UDPGW_CLIENT_FLAG_IPV6 =? 0) then
    if len data <? sizeof_udpgw_addr_ipv6 then Some None else
    ip ← load 0 16 data;
    port ← load 16 2 data;
    Some (Some (BAddr_IPv6 ip (le_combine port),
                drop (Z.to_nat sizeof_udpgw_addr_ipv6) data))
  else
    if len data <? sizeof_udpgw_addr_ipv4 then Some None else
    ip ← load 0 4 data;
    port ← load 4 2 data;
    Some (Some (BAddr_IPv4 (le_combine ip) (le_combine port),
                drop (Z.to_nat sizeof_udpgw_addr_ipv4) data)).

Definition recv_interface_handler_send (data : bytes) : hdl unit :=
  o ← get;
  ASSERT (have_server o);;
  ASSERT (len data <=? udpgw_mtu o);;
  call Recv_Done;;
  if len data <? sizeof_udpgw_header then mret tt else
  header ← of_option (load 0 sizeof_udpgw_header data);
  let data := drop (Z.to_nat sizeof_udpgw_header) data in
  flags ← of_option (b2z <$> header !! 0%nat);
  let conid := le_combine (zslice 1 2 header) in
  addr ← of_option (parse_addr flags data);
  match addr with
  | None => mret tt
  | Some (remote_addr, data) =>
      if udp_mtu o <? len data then mret tt else
      match find_connection_by_conid o conid with
      | None => mret tt
      | Some con =>
          c ← deref con;
          if negb (BAddr_CompareOrder (ca_remote (conaddr c)) remote_addr =? 0) then mret tt else
          move_to_front con;;
          call (Handler_received (ca_local (conaddr c)) (ca_remote (conaddr c)) data)
      end
  end.

(** The packet built by [UdpGwClient_Init]: its length, the flags, no conid. *)
Definition keepalive_packet : bytes :=
  le_split 2 sizeof_udpgw_header ++ [z2b UDPGW_CLIENT_FLAG_KEEPALIVE] ++ le_split 2 0.
Definition send_monitor_handler : hdl unit :=
  o ← get;
  if keepalive_sending o then mret tt else
  call (Keepalive_Send keepalive_packet);;
  modify (fun o => o <| keepalive_sending := true |>).
Definition keepalive_if_handler_done : hdl unit :=
  o ← get;
  ASSERT (keepalive_sending o);;
  modify (fun o => o <| keepalive_sending := false |>).

Definition free_server : hdl unit := call Server_Free.
Definition UdpGwClient_ConnectServer (decoder_ok : bool) : hdl bool :=
  o ← get;
  ASSERT (negb (have_server o));;
  if negb decoder_ok then mret false else
  call Server_Connect;;
  modify (fun o => o <| have_server := true |>);;
  mret true.
Definition UdpGwClient_DisconnectServer : hdl unit :=
  o ← get;
  ASSERT (have_server o);;
  free_server;;
  modify (fun o => o <| have_server := false |>).

Section init.
Context {abi : Abi}.
Definition UdpGwClient_Init (mtu max send_buffer_size : Z) (queue_ok : bool)
    : option (option UdpGwClient) :=
  if negb ((0 <=? mtu) && (0 <=? udpgw_compute_mtu mtu)
           && (udpgw_compute_mtu mtu <=? PACKETPROTO_MAXPAYLOAD)
           && (0 <? max) && (0 <? send_buffer_size)) then None else
  let max := if UINT16_MAX + 1 <? max then UINT16_MAX + 1 else max in
  let udpgw_mtu := udpgw_compute_mtu mtu in
  if negb queue_ok then Some None else
  Some (Some (mk_UdpGwClient mtu max udpgw_mtu (udpgw_mtu + sizeof_packetproto_header)
                ∅ ∅ [] 0 0 false false false ∅ 0)).
End init.

(** Fuel: one turn for each connection of the list. *)
Fixpoint free_connections (fuel : nat) : hdl unit :=
  o ← get;
  match connections_list o, fuel with
  | [], _ => mret tt
  | con :: _, S fuel => connection_free con;; free_connections fuel
  | _ :: _, O => ASSERT false
  end.
Definition UdpGwClient_Free : hdl unit :=
  modify (fun o => o <| freeing := true |>);;
  o ← get;
  free_connections (length (connections_list o));;
  if have_server o then free_server else mret tt.

(** ** Executions *)

Inductive event :=
  | Ev_submit (malloc_ok ppflow_ok : bool) (room : option bytes) (local_addr remote_addr : BAddr)
      (is_dns : bool) (data : bytes)
  | Ev_first_job (room : option bytes) (con : ptr)
  | Ev_received (data : bytes)
  | Ev_decoder_error
  | Ev_monitor
  | Ev_keepalive_done
  | Ev_connect (decoder_ok : bool)
  | Ev_disconnect
  | Ev_free.

Definition handle (e : event) : hdl unit :=
  match e with
  | Ev_submit malloc_ok ppflow_ok room local_addr remote_addr is_dns data =>
      UdpGwClient_SubmitPacket malloc_ok ppflow_ok room local_addr remote_addr is_dns data
  | Ev_first_job room con => connection_first_job_handler room con
  | Ev_received data => recv_interface_handler_send data
  | Ev_decoder_error => decoder_handler_error
  | Ev_monitor => send_monitor_handler
  | Ev_keepalive_done => keepalive_if_handler_done
  | Ev_connect decoder_ok => UdpGwClient_ConnectServer decoder_ok;; mret tt
  | Ev_disconnect => UdpGwClient_DisconnectServer
  | Ev_free => UdpGwClient_Free
  end.

Definition valid_addr (a : BAddr) : bool :=
  match a with
  | BAddr_None => false
  | BAddr_IPv4 ip port => (0 <=? ip) && (ip <? 2 ^ 32) && (0 <=? port) && (port <? 2 ^ 16)
  | BAddr_IPv6 ip port => (len ip =? 16) && (0 <=? port) && (port <? 2 ^ 16)
  end.

(** The user submits datagrams within the MTU between valid addresses; the
    server's stream and the keepalive flow report what was asked for; a job
    that was set runs once. *)
Definition event_ok (o : UdpGwClient) (e : event) : bool :=
  negb (freeing o) &&
  match e with
  | Ev_submit _ _ _ local_addr remote_addr _ data =>
      valid_addr local_addr && valid_addr remote_addr && (len data <=? udp_mtu o)
  | Ev_first_job _ con => match heap o !! con with Some c => first_job c | None => false end
  | Ev_received data => have_server o && (len data <=? udpgw_mtu o)
  | Ev_decoder_error => have_server o
  | Ev_monitor => true
  | Ev_keepalive_done => keepalive_sending o
  | Ev_connect _ => negb (have_server o)
  | Ev_disconnect => have_server o
  | Ev_free => true
  end.

Fixpoint run (o : UdpGwClient) (es : list event) : option (UdpGwClient * list out) :=
  match es with
  | [] => Some (o, [])
  | e :: es =>
      if event_ok o e then
        '(_, o1, l1) ← handle e o; '(o2, l2) ← run o1 es; Some (o2, l1 ++ l2)
      else None
  end.

(** ** What it implements

    A table of flows with their conids, least recently used first. *)

Abbreviation table := (list (conaddr_t * Z)).

(** The wire format of a datagram, from the client and from the server. *)
Definition udpgw_packet (flags : Z) (conid : Z) (remote : BAddr) (data : bytes) : bytes :=
  match remote with
  | BAddr_IPv4 ip port =>
      z2b flags :: le_split 2 conid ++ le_split 4 ip ++ le_split 2 port ++ data
  | BAddr_IPv6 ip port =>
      z2b (Z.lor flags UDPGW_CLIENT_FLAG_IPV6) :: le_split 2 conid ++ ip ++ le_split 2 port ++ data
  | BAddr_None => z2b flags :: le_split 2 conid ++ data
  end.

Definition addr_bytes (a : BAddr) : bytes :=
  match a with
  | BAddr_IPv4 ip port => le_split 4 ip ++ le_split 2 port
  | BAddr_IPv6 ip port => ip ++ le_split 2 port
  | BAddr_None => []
  end.

Definition conid_of (ca : conaddr_t) (t : table) : option Z :=
  snd <$> find (fun x => bool_decide (x.1 = ca)) t.
Definition flow_of (id : Z) (t : table) : option conaddr_t :=
  fst <$> find (fun x => x.2 =? id) t.
Definition touch (ca : conaddr_t) (id : Z) (t : table) : table :=
  filter (fun x => x.2 <> id) t ++ [(ca, id)].

(** The table and the packet sent for a datagram of a flow: the flow keeps its
    conid; a new one gets a free conid, or that of the flow unused for longest. *)
Inductive submitted (max : Z) (ca : conaddr_t) : table -> Z -> Z -> table -> Prop :=
  | submitted_known t id :
      conid_of ca t = Some id -> submitted max ca t 0 id (touch ca id t)
  | submitted_new t id :
      conid_of ca t = None -> len t < max -> flow_of id t = None -> 0 <= id < max ->
      submitted max ca t UDPGW_CLIENT_FLAG_REBIND id (t ++ [(ca, id)])
  | submitted_reused t old id :
      conid_of ca ((old, id) :: t) = None -> len ((old, id) :: t) = max ->
      submitted max ca ((old, id) :: t) UDPGW_CLIENT_FLAG_REBIND id (t ++ [(ca, id)]).

Definition entry (o : UdpGwClient) (p : ptr) : option (conaddr_t * Z) :=
  (fun c => (conaddr c, conid c)) <$> heap o !! p.
Definition abs (o : UdpGwClient) : table := omap (entry o) (connections_list o).

(** The packet given to the flow of a connection, unless its buffer is full. *)
Definition sent (room : option bytes) (con : ptr) (packet : bytes) : list out :=
  match room with Some _ => [Con_EndPacket con packet] | None => [] end.

(** ** Invariant *)

Module UdpGwProofs.

Record con_ok (o : UdpGwClient) (c : UdpGwClient_connection) : Prop := {
  c_conid : 0 <= conid c < max_connections o;
  c_local : valid_addr (ca_local (conaddr c)) = true;
  c_remote : valid_addr (ca_remote (conaddr c)) = true;
  c_first : len (first_data c) <= udp_mtu o;
}.

Record inv (o : UdpGwClient) : Prop := {
  i_mtu : 0 <= udp_mtu o /\ udpgw_mtu o = udp_mtu o + 22;
  i_max : 0 < max_connections o <= 65536;
  i_nodup : NoDup (connections_list o);
  i_list p : p ∈ connections_list o <-> is_Some (heap o !! p);
  i_num : num_connections o = len (connections_list o) /\ num_connections o <= max_connections o;
  i_conaddr ca p : tree_by_conaddr o !! ca = Some p <->
    exists c, heap o !! p = Some c /\ conaddr c = ca;
  i_conid id p : tree_by_conid o !! id = Some p <->
    exists c, heap o !! p = Some c /\ conid c = id;
  i_con p c : heap o !! p = Some c -> con_ok o c;
  i_fresh p : (next_ptr o <= p)%nat -> heap o !! p = None;
  i_next : 0 <= next_conid o < max_connections o;
  i_live : freeing o = false;
}.

(** *** Free conids *)

Lemma conid_step o n : 0 <= next_conid o < max_connections o ->
  0 <= n -> tree_by_conid o !! next_conid o <> None ->
  tree_by_conid o !! ((next_conid o + n) mod max_connections o) = None ->
  let o' := if next_conid o =? max_connections o - 1 then o <| next_conid := 0 |>
            else o <| next_conid := next_conid o + 1 |> in
  0 <= n - 1 /\ 0 <= next_conid o' < max_connections o /\
  (next_conid o' + (n - 1)) mod max_connections o = (next_conid o + n) mod max_connections o.
Proof.
  intros Hr Hn Hne Hf o'.
  assert (n <> 0). { intros ->. rewrite Z.add_0_r, Z.mod_small in Hf by lia. done. }
  split; [lia|]. subst o'. destruct (next_conid o =? max_connections o - 1) eqn:E; cbn; split; try lia.
  - replace (next_conid o + n) with (n - 1 + 1 * max_connections o) by lia.
    by rewrite Z_mod_plus_full.
  - f_equal. lia.
Qed.

Lemma find_conid_loop fuel o n :
  0 <= next_conid o < max_connections o -> 0 <= n -> n < Z.of_nat fuel ->
  tree_by_conid o !! ((next_conid o + n) mod max_connections o) = None ->
  exists id, find_unused_conid_ fuel o = Some (id, o <| next_conid := id |>) /\
    0 <= id < max_connections o /\ tree_by_conid o !! id = None.
Proof.
  revert o n. induction fuel as [|fuel IH]; intros o n Hr Hn Hf Hfree; [lia|].
  cbn [find_unused_conid_]. unfold find_connection_by_conid.
  destruct (tree_by_conid o !! next_conid o) as [p|] eqn:E.
  - destruct (conid_step o n Hr Hn ltac:(congruence) Hfree) as (Hn' & Hr' & Heq).
    destruct (next_conid o =? max_connections o - 1);
      match goal with |- context [find_unused_conid_ fuel ?o'] =>
        destruct (IH o' (n - 1)) as (id & -> & ? & ?);
          [exact Hr'|lia|lia|cbn in Heq |- *; by rewrite Heq|] end;
      exists id; done.
  - exists (next_conid o). split; [by destruct o|]. split; [done|done].
Qed.

(** With fewer connections than conids one is free. *)
Lemma free_conid_exists o : inv o -> len (connections_list o) < max_connections o ->
  exists id, 0 <= id < max_connections o /\ tree_by_conid o !! id = None.
Proof.
  intros Hi Hlt.
  destruct (decide (Exists (fun id => tree_by_conid o !! id = None) (seqZ 0 (max_connections o))))
    as [He|He].
  { apply Exists_exists in He as (id & Hin%elem_of_seqZ & E). exists id. split; [lia|done]. }
  apply not_Exists_Forall in He; [|apply _]. exfalso.
  set (ps := omap (fun id => tree_by_conid o !! id) (seqZ 0 (max_connections o))).
  assert (Hnd : forall l, NoDup l -> NoDup (omap (fun id => tree_by_conid o !! id) l)).
  { induction l as [|id l IH]; cbn; intros Hn; [constructor|].
    apply NoDup_cons in Hn as [Hid Hn]. destruct (tree_by_conid o !! id) as [p|] eqn:E; [|by apply IH].
    apply NoDup_cons. split; [|by apply IH]. intros (id' & Hin & E')%list_elem_of_omap.
    apply (i_conid _ Hi) in E as (c & Hc & <-). apply (i_conid _ Hi) in E' as (c' & Hc' & <-).
    rewrite Hc in Hc'. by injection Hc' as <-. }
  assert (Hle : (length ps <= length (connections_list o))%nat).
  { apply NoDup_incl_length; [apply NoDup_ListNoDup, Hnd, NoDup_seqZ|].
    intros p Hp%list_elem_of_In. apply list_elem_of_In. apply (i_list _ Hi).
    apply list_elem_of_omap in Hp as (id & _ & E). apply (i_conid _ Hi) in E as (c & -> & _). eauto. }
  assert (Hlen : length ps = length (seqZ 0 (max_connections o))).
  { unfold ps. clear Hle ps. induction (seqZ 0 (max_connections o)) as [|id l IH]; cbn; [done|].
    apply Forall_cons in He as [Hid He]. cbn in Hid. destruct (tree_by_conid o !! id); [|by destruct Hid].
    cbn. f_equal. by apply IH. }
  rewrite Hlen, length_seqZ, length_len in Hle. pose proof (i_max _ Hi). zlia.
Qed.

(** The loop ends with a free conid within the fuel. *)
Lemma find_conid_total o : inv o -> len (connections_list o) < max_connections o ->
  exists id, find_unused_conid_ (S (Z.to_nat (max_connections o))) o = Some (id, o <| next_conid := id |>) /\
    0 <= id < max_connections o /\ tree_by_conid o !! id = None.
Proof.
  intros Hi Hlt. destruct (free_conid_exists o Hi Hlt) as (id & Hr & Hf).
  pose proof (i_next _ Hi) as Hn.
  apply (find_conid_loop _ o ((id - next_conid o) mod max_connections o)); [done| | |].
  - apply Z.mod_pos_bound. lia.
  - pose proof (Z.mod_pos_bound (id - next_conid o) (max_connections o)). lia.
  - rewrite Zplus_mod_idemp_r. replace (next_conid o + (id - next_conid o)) with id by lia.
    by rewrite Z.mod_small.
Qed.

(** *** The table of a state *)

Lemma find_entry o l P p c :
  (forall q c', q ∈ l -> heap o !! q = Some c' -> P (conaddr c', conid c') = true -> q = p) ->
  p ∈ l -> heap o !! p = Some c -> P (conaddr c, conid c) = true ->
  find P (omap (entry o) l) = Some (conaddr c, conid c).
Proof.
  intros Hu Hp Hc HP. induction l as [|q l IH]; [by apply elem_of_nil in Hp|].
  cbn. destruct (entry o q) as [x|] eqn:E; unfold entry in E.
  - destruct (heap o !! q) as [c'|] eqn:Eq; cbn in E; [|done]. injection E as <-. cbn.
    destruct (P (conaddr c', conid c')) eqn:EP.
    + rewrite (Hu q c') in Eq by (done || left). rewrite Hc in Eq. by injection Eq as ->.
    + apply IH; [intros; eapply Hu; eauto; by right|]. apply elem_of_cons in Hp as [->|]; [|done].
      congruence.
  - destruct (heap o !! q) eqn:Eq; [done|].
    apply IH; [intros; eapply Hu; eauto; by right|]. apply elem_of_cons in Hp as [->|]; congruence.
Qed.

Lemma find_entry_none o l P :
  (forall q c, q ∈ l -> heap o !! q = Some c -> P (conaddr c, conid c) = false) ->
  find P (omap (entry o) l) = None.
Proof.
  intros H. induction l as [|q l IH]; [done|]. cbn. unfold entry at 1.
  destruct (heap o !! q) as [c|] eqn:E; cbn.
  - rewrite (H q c) by (done || left). apply IH. intros; eapply H; eauto; by right.
  - apply IH. intros; eapply H; eauto; by right.
Qed.

Section inv.
Context (o : UdpGwClient) (Hi : inv o).

Lemma in_list p c : heap o !! p = Some c -> p ∈ connections_list o.
Proof using Hi. intros E. apply (i_list _ Hi). eauto. Qed.

Lemma conaddr_of p c ca : tree_by_conaddr o !! ca = Some p -> heap o !! p = Some c -> conaddr c = ca.
Proof using Hi. intros (c' & E & <-)%(i_conaddr _ Hi) Hc. congruence. Qed.

Lemma conaddr_inj p q c c' : heap o !! p = Some c -> heap o !! q = Some c' ->
  conaddr c = conaddr c' -> p = q.
Proof using Hi.
  intros Hc Hc' E. assert (Hp : tree_by_conaddr o !! conaddr c = Some p) by (apply (i_conaddr _ Hi); eauto).
  assert (Hq : tree_by_conaddr o !! conaddr c = Some q) by (apply (i_conaddr _ Hi); eauto). congruence.
Qed.

Lemma conid_inj p q c c' : heap o !! p = Some c -> heap o !! q = Some c' ->
  conid c = conid c' -> p = q.
Proof using Hi.
  intros Hc Hc' E. assert (Hp : tree_by_conid o !! conid c = Some p) by (apply (i_conid _ Hi); eauto).
  assert (Hq : tree_by_conid o !! conid c = Some q) by (apply (i_conid _ Hi); eauto). congruence.
Qed.

Lemma abs_known p c : heap o !! p = Some c -> conid_of (conaddr c) (abs o) = Some (conid c).
Proof using Hi.
  intros Hc. unfold conid_of, abs. rewrite (find_entry o _ _ p c); try done.
  - intros q c' _ Hc' E%bool_decide_eq_true. cbn in E. by eapply conaddr_inj.
  - by eapply in_list.
  - by apply bool_decide_eq_true_2.
Qed.

Lemma abs_flow p c : heap o !! p = Some c -> flow_of (conid c) (abs o) = Some (conaddr c).
Proof using Hi.
  intros Hc. unfold flow_of, abs. rewrite (find_entry o _ _ p c); try done.
  - intros q c' _ Hc' E. cbn in E. eapply conid_inj; [exact Hc'|exact Hc|lia].
  - by eapply in_list.
  - cbn. lia.
Qed.

Lemma abs_unknown ca : tree_by_conaddr o !! ca = None -> conid_of ca (abs o) = None.
Proof using Hi.
  intros E. unfold conid_of, abs. rewrite find_entry_none; [done|]. intros q c _ Hc.
  apply bool_decide_eq_false_2. cbn. intros <-.
  assert (tree_by_conaddr o !! conaddr c = Some q) by (apply (i_conaddr _ Hi); eauto). congruence.
Qed.

Lemma abs_no_flow id : tree_by_conid o !! id = None -> flow_of id (abs o) = None.
Proof using Hi.
  intros E. unfold flow_of, abs. rewrite find_entry_none; [done|]. intros q c _ Hc. cbn.
  destruct (conid c =? id) eqn:Eq; [|done].
  assert (tree_by_conid o !! conid c = Some q) by (apply (i_conid _ Hi); eauto).
  replace (conid c) with id in * by lia. congruence.
Qed.

Lemma len_abs_list l : (forall p, p ∈ l -> is_Some (heap o !! p)) -> len (omap (entry o) l) = len l.
Proof using.
  induction l as [|p l IH]; intros H; [done|]. cbn. unfold entry at 1.
  destruct (H p ltac:(left)) as [c ->]. cbn. rewrite !len_cons, IH; [done|]. intros; apply H; by right.
Qed.
Lemma len_abs : len (abs o) = len (connections_list o).
Proof using Hi. apply len_abs_list. intros p. apply (i_list _ Hi). Qed.

(** The entries without one connection are those with other conids. *)
Lemma abs_remove p c l : heap o !! p = Some c ->
  omap (entry o) (LinkedList1_Remove p l) = filter (fun x => x.2 <> conid c) (omap (entry o) l).
Proof using Hi.
  intros Hc. unfold LinkedList1_Remove in *. induction l as [|q l IH]; [done|].
  assert (Ho : forall q l, omap (entry o) (q :: l) =
    match entry o q with Some x => x :: omap (entry o) l | None => omap (entry o) l end) by done.
  rewrite filter_cons. rewrite !Ho. destruct (entry o q) as [x|] eqn:Ex.
  - rewrite filter_cons. unfold entry in Ex. destruct (heap o !! q) as [c'|] eqn:Hc'; [|done].
    injection Ex as <-. cbn [snd]. destruct (decide (q <> p)) as [Hne|Heq].
    + rewrite Ho. unfold entry at 1. rewrite Hc'. cbn [fmap option_fmap option_map].
      rewrite decide_True; [by rewrite IH|]. intros E. apply Hne. by eapply conid_inj.
    + apply dec_stable in Heq as ->. rewrite Hc in Hc'. injection Hc' as <-.
      by rewrite decide_False by (intros Hn; by apply Hn).
  - destruct (decide (q <> p)) as [Hne|Heq]; [by rewrite Ho, Ex|done].
Qed.
End inv.

(** *** Operations *)

Lemma wp_deref p o c (Q : UdpGwClient_connection -> UdpGwClient -> list out -> Prop) :
  heap o !! p = Some c -> Q c o [] -> wp (deref p) o Q.
Proof. intros Hc HQ. unfold deref. hstep. hstep. eapply wp_of_option; [exact Hc|done]. Qed.

Lemma StartPacket_len room n buf : 0 <= n -> StartPacket room n = Some buf -> len buf = n.
Proof.
  intros Hn. destruct room as [raw|]; [|done]. intros [= <-]. rewrite len_take, len_app, len_replicate by lia.
  pose proof (len_nonneg raw). lia.
Qed.

(** The packet is written front to back into the [udpgw_mtu] bytes given. *)
Lemma connection_send_ok room con flags data o c :
  inv o -> heap o !! con = Some c -> len data <= udp_mtu o ->
  wp (connection_send room con flags data) o (fun _ o' l =>
    o' = o /\ l = sent room con (udpgw_packet flags (conid c) (ca_remote (conaddr c)) data)).
Proof.
  intros Hi Hc Hd. destruct (i_mtu _ Hi) as [Hm Hu]. destruct (i_con _ Hi _ _ Hc) as [_ _ Hr _].
  unfold connection_send. hstep. hstep. hstep. hstep; [lia|]. hstep. eapply wp_deref; [exact Hc|].
  destruct (StartPacket room (udpgw_mtu o)) as [buf|] eqn:Eb.
  2:{ hstep. split; [done|]. by destruct room. }
  replace (sent room con) with (sent (Some []) con) by by destruct room.
  apply StartPacket_len in Eb; [|lia].
  pose proof (len_nonneg data).
  set (fl := match ca_remote (conaddr c) with BAddr_IPv6 _ _ => _ | _ => _ end).
  hstep. eapply wp_of_option.
  { apply (store_next [] buf (z2b fl :: le_split 2 (conid c))). rewrite len_cons, len_split. lia. }
  set (h := [] ++ z2b fl :: le_split 2 (conid c)).
  assert (Hh : len h = 3) by (unfold h; cbn [app]; by rewrite len_cons, len_split).
  set (r := drop _ buf). assert (Hrl : len r = udp_mtu o + 19).
  { unfold r. rewrite len_drop, Eb, len_cons, len_split by (apply len_nonneg). lia. }
  clearbody r. cbv zeta.
  assert (Haddr : forall a n (Q : bytes * Z -> UdpGwClient -> list out -> Prop), len a = n -> n <= 18 ->
    (forall r', len r' = udp_mtu o + 19 - n -> Q ((h ++ a) ++ r', 3 + n) o []) ->
    wp (buf ← of_option (store sizeof_udpgw_header a (h ++ r)); mret (buf, sizeof_udpgw_header + n)) o Q).
  { intros a n Q Ha Hn HQ. hstep. pose proof (len_nonneg a).
    change sizeof_udpgw_header with 3. rewrite <- Hh at 1.
    eapply wp_of_option; [apply store_next; lia|]. hstep. cbn [app].
    apply HQ. rewrite len_drop; lia. }
  assert (Hend : forall a n r', len a = n -> 0 <= n <= 18 -> len r' = udp_mtu o + 19 - n ->
    wp (buf ← of_option (store (3 + n) data ((h ++ a) ++ r'));
        packet ← of_option (load 0 (3 + n + len data) buf);
        call (Con_EndPacket con packet)) o
      (fun _ o' l => o' = o /\ l = [Con_EndPacket con (h ++ a ++ data)])).
  { intros a n r' Ha Hn Hr'. hstep. replace (3 + n) with (len (h ++ a)) by (rewrite len_app; lia).
    eapply wp_of_option; [apply store_next; lia|]. hstep.
    assert (Hl : len (h ++ a) + len data = len ((h ++ a) ++ data)) by (by rewrite (len_app (h ++ a))).
    eapply wp_of_option.
    { apply load_Some; [lia|rewrite Hl; apply len_nonneg|rewrite (len_app _ (drop _ _)), <- Hl; pose_len; lia]. }
    hstep. rewrite Hl, zslice_app_l by done. by rewrite <- app_assoc. }
  unfold udpgw_packet. unfold h, fl in *. clear h fl. hstep.
  destruct (ca_remote (conaddr c)) as [|ip port|ip port]; [done|..]; cbn [app] in *.
  - apply Haddr; [by rewrite len_app, !len_split|done|]. intros r' Hr'.
    eapply wp_mono; [apply Hend; [by rewrite len_app, !len_split|done|done]|].
    intros [] o' l [-> ->]. split; [done|]. cbn [app sent]. by rewrite <- !app_assoc.
  - cbn in Hr. assert (Hip : len ip = 16) by lia.
    apply Haddr; [by rewrite len_app, len_split, Hip|done|]. intros r' Hr'.
    eapply wp_mono; [apply Hend; [by rewrite len_app, len_split, Hip|done|done]|].
    intros [] o' l [-> ->]. split; [done|]. cbn [app sent]. by rewrite <- !app_assoc.
Qed.

(** Changes that leave connections and trees alone. *)
Lemma inv_frame o o' : inv o ->
  udp_mtu o' = udp_mtu o -> udpgw_mtu o' = udpgw_mtu o -> max_connections o' = max_connections o ->
  tree_by_conaddr o' = tree_by_conaddr o -> tree_by_conid o' = tree_by_conid o ->
  heap o' = heap o -> (next_ptr o <= next_ptr o')%nat -> num_connections o' = num_connections o ->
  0 <= next_conid o' < max_connections o -> freeing o' = false ->
  NoDup (connections_list o') -> (forall p, p ∈ connections_list o' <-> p ∈ connections_list o) ->
  len (connections_list o') = len (connections_list o) -> inv o'.
Proof.
  intros [] E1 E2 E3 E4 E5 E6 E7 E8 E9 E10 E11 E12 E13.
  constructor; rewrite ?E1, ?E2, ?E3, ?E4, ?E5, ?E6, ?E8, ?E13; try done.
  - intros p. by rewrite E12.
  - intros p c Hc. destruct (i_con0 p c Hc). constructor; rewrite ?E1, ?E3; done.
  - intros p Hp. apply i_fresh0. lia.
Qed.

Lemma elem_of_remove p q l : q ∈ LinkedList1_Remove p l <-> q ∈ l /\ q <> p.
Proof. unfold LinkedList1_Remove. rewrite list_elem_of_filter. tauto. Qed.

Lemma NoDup_remove_list p l : NoDup l -> NoDup (LinkedList1_Remove p l).
Proof. apply NoDup_filter. Qed.

Lemma remove_absent p l : p ∉ l -> LinkedList1_Remove p l = l.
Proof.
  unfold LinkedList1_Remove. induction l as [|q l IH]; intros Hp; [done|].
  apply not_elem_of_cons in Hp as [Hne Hp]. rewrite filter_cons_True by done. by rewrite IH.
Qed.

Lemma len_remove p l : NoDup l -> p ∈ l -> len (LinkedList1_Remove p l) = len l - 1.
Proof.
  unfold LinkedList1_Remove. induction l as [|q l IH]; intros Hn Hp; [by apply elem_of_nil in Hp|].
  apply NoDup_cons in Hn as [Hq Hn]. rewrite filter_cons. destruct (decide (q <> p)) as [Hne|Heq].
  - rewrite !len_cons, IH; [lia|done|]. by apply elem_of_cons in Hp as [->|].
  - apply dec_stable in Heq as ->. rewrite len_cons. fold (LinkedList1_Remove p l).
    rewrite remove_absent by done. lia.
Qed.

Lemma remove_head p l : NoDup (p :: l) -> LinkedList1_Remove p (p :: l) = l.
Proof.
  intros [Hp Hn]%NoDup_cons. unfold LinkedList1_Remove. rewrite filter_cons.
  rewrite decide_False by (intros H; by apply H). by apply remove_absent.
Qed.

Lemma move_to_front_ok p o c : inv o -> heap o !! p = Some c ->
  wp (move_to_front p) o (fun _ o' l => inv o' /\ l = [] /\ heap o' = heap o /\ udp_mtu o' = udp_mtu o /\
    abs o' = touch (conaddr c) (conid c) (abs o)).
Proof.
  intros Hi Hc. pose proof (in_list o Hi p c Hc) as Hin. pose proof (i_nodup _ Hi) as Hnd.
  apply wp_modify. split_and!; try done.
  - apply (inv_frame o); try done; cbn; unfold LinkedList1_Append; try apply Hi.
    + apply NoDup_app. split_and!; [by apply NoDup_remove_list| |apply NoDup_singleton].
      intros q [_ Hq]%elem_of_remove ->%list_elem_of_singleton. done.
    + intros q. rewrite elem_of_app, elem_of_remove, list_elem_of_singleton.
      split; [by intros [[]| ->]|]. intros Hq. destruct (decide (q = p)); auto.
    + rewrite len_app, len_remove, len_cons, len_nil by done. lia.
  - unfold abs, touch. cbn. unfold LinkedList1_Append. rewrite omap_app.
    change (entry _) with (entry o). rewrite (abs_remove o Hi p c) by done. f_equal.
    cbn. unfold entry. by rewrite Hc.
Qed.

Lemma entries_frame o o' (l : list ptr) :
  (forall q, q ∈ l -> heap o' !! q = heap o !! q) -> omap (entry o') l = omap (entry o) l.
Proof.
  induction l as [|q l IH]; intros H; [done|]. cbn.
  replace (entry o' q) with (entry o q) by (unfold entry; by rewrite H by left).
  rewrite IH; [done|]. intros q' Hq'. apply H. by right.
Qed.

(** The heap and the trees after a connection got another flow. *)
Lemma renamed_inv o p c ca : inv o -> heap o !! p = Some c -> tree_by_conaddr o !! ca = None ->
  valid_addr (ca_local ca) = true -> valid_addr (ca_remote ca) = true ->
  inv (o <| tree_by_conaddr := <[ca := p]> (delete (conaddr c) (tree_by_conaddr o)) |>
         <| heap := <[p := c <| conaddr := ca |>]> (heap o) |>).
Proof.
  intros Hi Hc Hca Hvl Hvr. pose proof Hi as [].
  assert (Hdom : forall q, is_Some (<[p := c <| conaddr := ca |>]> (heap o) !! q) <-> is_Some (heap o !! q)).
  { intros q. destruct (decide (q = p)) as [->|Hne].
    - rewrite lookup_insert_eq, Hc. split; eauto.
    - by rewrite lookup_insert_ne by done. }
  constructor; cbn; try done.
  - intros q. by rewrite i_list0, Hdom.
  - intros ca' q. destruct (decide (q = p)) as [->|Hq]; destruct (decide (ca' = ca)) as [->|Hca'].
    + rewrite !lookup_insert_eq. split; [eauto|done].
    + rewrite lookup_insert_ne, lookup_delete_Some, lookup_insert_eq by done. split.
      * intros [Hne (c' & Hc' & <-)%i_conaddr0]. congruence.
      * by intros (c' & [= <-] & <-).
    + rewrite lookup_insert_eq, lookup_insert_ne by done. split; [congruence|].
      intros H%i_conaddr0. congruence.
    + rewrite lookup_insert_ne, lookup_delete_Some, lookup_insert_ne, i_conaddr0 by done.
      split; [tauto|]. intros (c' & Hc' & <-). split; [|eauto].
      intros E. by destruct Hq; eapply conaddr_inj.
  - intros id q. rewrite i_conid0. destruct (decide (q = p)) as [->|Hq].
    + rewrite lookup_insert_eq, Hc. split; intros (c' & [= <-] & <-); eauto.
    + by rewrite lookup_insert_ne.
  - intros q c' Hq. destruct (decide (q = p)) as [->|Hne].
    + rewrite lookup_insert_eq in Hq. injection Hq as <-. by destruct (i_con0 p c Hc).
    + rewrite lookup_insert_ne in Hq by done. by destruct (i_con0 q c' Hq).
  - intros q Hq. rewrite lookup_insert_ne; [by apply i_fresh0|]. intros ->.
    rewrite (i_fresh0 q Hq) in Hc. done.
Qed.

Lemma reuse_connection_ok ca o p rest c :
  inv o -> connections_list o = p :: rest -> heap o !! p = Some c ->
  tree_by_conaddr o !! ca = None ->
  valid_addr (ca_local ca) = true -> valid_addr (ca_remote ca) = true ->
  wp (reuse_connection ca) o (fun q o' l => q = p /\ l = [] /\ inv o' /\ udp_mtu o' = udp_mtu o /\
    heap o' !! p = Some (c <| conaddr := ca |>) /\
    abs o' = (ca, conid c) :: omap (entry o) rest /\
    filter (fun x => x.2 <> conid c) (abs o') = omap (entry o) rest).
Proof.
  intros Hi Hl Hc Hca Hvl Hvr. unfold reuse_connection.
  hstep. hstep. hstep. hstep; [by apply bool_decide_eq_true_2|]. hstep.
  hstep. { destruct (i_num _ Hi) as [-> _]. rewrite Hl, len_cons. pose_len. lia. }
  hstep. rewrite Hl. eapply wp_of_option; [done|]. hstep. eapply wp_deref; [exact Hc|].
  hstep. hstep. unfold update_con. hstep. hstep. eapply wp_deref; [exact Hc|]. hstep.
  unfold BAVL_Insert_conaddr. do 5 hstep.
  { apply bool_decide_eq_true_2. cbn. rewrite lookup_delete_ne; [done|]. intros <-.
    assert (tree_by_conaddr o !! conaddr c = Some p) by (apply (i_conaddr _ Hi); eauto). congruence. }
  hstep. hstep. cbn [app].
  pose proof (renamed_inv o p c ca Hi Hc Hca Hvl Hvr) as Hi'.
  set (o' := o <| tree_by_conaddr := _ |> <| heap := _ |>) in Hi'.
  match goal with |- _ /\ _ /\ inv ?x /\ _ => change x with o' end.
  assert (Hc' : heap o' !! p = Some (c <| conaddr := ca |>)) by (cbn; apply lookup_insert_eq).
  pose proof (i_nodup _ Hi) as Hnd. rewrite Hl in Hnd.
  assert (Hrest : omap (entry o') rest = omap (entry o) rest).
  { apply entries_frame. intros q Hq. apply NoDup_cons in Hnd as [Hp _]. cbn.
    apply lookup_insert_ne. by intros <-. }
  assert (Habs : abs o' = (ca, conid c) :: omap (entry o) rest).
  { unfold abs. change (connections_list o') with (connections_list o). rewrite Hl, <- Hrest.
    cbn -[o']. unfold entry at 1. by rewrite Hc'. }
  split_and!; try done.
  change (conid c) with (conid (c <| conaddr := ca |>)).
  assert (E := abs_remove o' Hi' p _ (p :: rest) Hc'). rewrite remove_head in E by done.
  rewrite <- Hrest, E. unfold abs. by change (connections_list o') with (connections_list o); rewrite Hl.
Qed.

(** A new connection in the heap, the trees and the list. *)
Lemma inserted_inv o p con : inv o -> heap o !! p = None -> (p < next_ptr o)%nat -> con_ok o con ->
  tree_by_conaddr o !! conaddr con = None -> tree_by_conid o !! conid con = None ->
  num_connections o < max_connections o ->
  inv (o <| heap := <[p := con]> (heap o) |>
         <| tree_by_conaddr := <[conaddr con := p]> (tree_by_conaddr o) |>
         <| tree_by_conid := <[conid con := p]> (tree_by_conid o) |>
         <| connections_list := LinkedList1_Append p (connections_list o) |>
         <| num_connections := num_connections o + 1 |>).
Proof.
  intros Hi Hp Hn Hok Hca Hid Hnum. pose proof Hi as [].
  assert (Hpl : p ∉ connections_list o).
  { intros Hin%i_list0. rewrite Hp in Hin. by destruct Hin. }
  constructor; cbn; unfold LinkedList1_Append; try done.
  - apply NoDup_app. split_and!; [done| |apply NoDup_singleton].
    intros q Hq ->%list_elem_of_singleton. done.
  - intros q. rewrite elem_of_app, list_elem_of_singleton, i_list0.
    destruct (decide (q = p)) as [->|Hne].
    + rewrite lookup_insert_eq. split; [eauto|auto].
    + rewrite lookup_insert_ne by done. split; [by intros [|]|auto].
  - destruct i_num0 as [E ?]. rewrite len_app, len_cons, (@len_nil ptr). lia.
  - intros ca q. destruct (decide (q = p)) as [->|Hq]; destruct (decide (ca = conaddr con)) as [->|Hc].
    + rewrite !lookup_insert_eq. split; [eauto|done].
    + rewrite lookup_insert_ne, lookup_insert_eq by done. split.
      * intros (c & Hc' & _)%i_conaddr0. congruence.
      * by intros (c & [= <-] & <-).
    + rewrite lookup_insert_eq, lookup_insert_ne by done. split; [congruence|].
      intros H%i_conaddr0. congruence.
    + by rewrite !lookup_insert_ne, i_conaddr0 by done.
  - intros id q. destruct (decide (q = p)) as [->|Hq]; destruct (decide (id = conid con)) as [->|Hc].
    + rewrite !lookup_insert_eq. split; [eauto|done].
    + rewrite lookup_insert_ne, lookup_insert_eq by done. split.
      * intros (c & Hc' & _)%i_conid0. congruence.
      * by intros (c & [= <-] & <-).
    + rewrite lookup_insert_eq, lookup_insert_ne by done. split; [congruence|].
      intros H%i_conid0. congruence.
    + by rewrite !lookup_insert_ne, i_conid0 by done.
  - intros q c Hq. destruct (decide (q = p)) as [->|Hne].
    + rewrite lookup_insert_eq in Hq. injection Hq as <-. by destruct Hok.
    + rewrite lookup_insert_ne in Hq by done. by destruct (i_con0 q c Hq).
  - intros q Hq. rewrite lookup_insert_ne by lia. by apply i_fresh0.
Qed.

Lemma connection_init_ok malloc_ok ppflow_ok ca flags data o :
  inv o -> num_connections o < max_connections o -> tree_by_conaddr o !! ca = None ->
  valid_addr (ca_local ca) = true -> valid_addr (ca_remote ca) = true -> len data <= udp_mtu o ->
  wp (connection_init malloc_ok ppflow_ok ca flags data) o (fun _ o' l => l = [] /\ inv o' /\
    if malloc_ok && ppflow_ok then
      exists id, flow_of id (abs o) = None /\ 0 <= id < max_connections o /\
        abs o' = abs o ++ [(ca, id)] /\
        heap o' = <[next_ptr o := mk_connection ca flags data id true]> (heap o)
    else abs o' = abs o /\ heap o' = heap o).
Proof.
  intros Hi Hnum Hca Hvl Hvr Hd. unfold connection_init.
  hstep. hstep. hstep. hstep; [lia|]. hstep. hstep; [by apply bool_decide_eq_true_2|].
  hstep. hstep; [lia|]. destruct malloc_ok; cbn [negb andb].
  2:{ hstep. done. }
  pose proof (i_num _ Hi) as [Hlen _].
  destruct (find_conid_total o Hi ltac:(lia)) as (id & Hfind & Hid & Hfree).
  hstep. unfold find_unused_conid. hstep. hstep. hstep. hstep; [lia|]. hstep.
  eapply wp_of_option; [exact Hfind|]. cbn beta iota. hstep. hstep. hstep.
  hstep. hstep. hstep. hstep. cbn [app].
  set (o1 := o <| next_conid := id |> <| next_ptr := _ |>).
  assert (Hi1 : inv o1).
  { apply (inv_frame o); try done; cbn; try apply Hi; try lia; try done. }
  destruct ppflow_ok; cbn [negb].
  2:{ hstep. done. }
  set (con := mk_connection ca flags data id true).
  assert (Hok : con_ok o1 con) by by constructor.
  assert (Hheap : heap o1 !! next_ptr o = None) by (apply (i_fresh _ Hi); lia).
  assert (Hi' := inserted_inv o1 (next_ptr o) con Hi1 Hheap ltac:(cbn; lia) Hok Hca Hfree Hnum).
  hstep. hstep. hstep. unfold BAVL_Insert_conaddr. do 3 hstep. hstep; [by apply bool_decide_eq_true_2|].
  hstep. hstep. unfold BAVL_Insert_conid. do 3 hstep. hstep; [by apply bool_decide_eq_true_2|].
  hstep. hstep. cbn [app].
  split; [done|]. split; [exact Hi'|]. exists id. split_and!; [by apply abs_no_flow|lia|lia| |done].
  unfold abs. cbn. unfold LinkedList1_Append. rewrite omap_app. f_equal.
  - apply entries_frame. intros q Hq. cbn. apply lookup_insert_ne. intros <-.
    apply (i_list _ Hi) in Hq. change (heap o1) with (heap o) in Hheap. rewrite Hheap in Hq. by destruct Hq.
  - cbn. unfold entry. cbn. by rewrite lookup_insert_eq.
Qed.

Definition dns_flag (is_dns : bool) : Z := if is_dns then UDPGW_CLIENT_FLAG_DNS else 0.

Lemma first_job_ok room con o c :
  inv o -> heap o !! con = Some c ->
  wp (handle (Ev_first_job room con)) o (fun _ o' l => inv o' /\ abs o' = abs o /\
    l = sent room con (udpgw_packet (Z.lor UDPGW_CLIENT_FLAG_REBIND (first_flags c)) (conid c)
                         (ca_remote (conaddr c)) (first_data c))).
Proof.
  intros Hi Hc. cbn [handle]. unfold connection_first_job_handler, update_con.
  hstep. hstep. eapply wp_deref; [exact Hc|]. hstep.
  set (c' := c <| first_job := false |>). set (o1 := o <| heap := _ |>).
  assert (Hc1 : heap o1 !! con = Some c') by apply lookup_insert_eq.
  assert (Hup : forall q x, heap o1 !! q = Some x -> exists y, heap o !! q = Some y /\
    conaddr x = conaddr y /\ conid x = conid y /\ first_data x = first_data y).
  { intros q x Hq. cbn in Hq. destruct (decide (q = con)) as [->|Hne].
    - rewrite lookup_insert_eq in Hq. injection Hq as <-. by exists c.
    - rewrite lookup_insert_ne in Hq by done. by exists x. }
  assert (Hdown : forall q y, heap o !! q = Some y -> exists x, heap o1 !! q = Some x /\
    conaddr x = conaddr y /\ conid x = conid y).
  { intros q y Hq. cbn. destruct (decide (q = con)) as [->|Hne].
    - rewrite lookup_insert_eq. rewrite Hc in Hq. injection Hq as <-. by exists c'.
    - rewrite lookup_insert_ne by done. by exists y. }
  assert (Hi1 : inv o1).
  { destruct Hi. constructor;
      change (connections_list o1) with (connections_list o);
      change (tree_by_conaddr o1) with (tree_by_conaddr o);
      change (tree_by_conid o1) with (tree_by_conid o); try done.
    - intros q. split.
      + intros Hq. apply i_list0 in Hq as [y Hy]. destruct (Hdown q y Hy) as (x & Hx & _). by exists x.
      + intros [x Hx]. apply i_list0. destruct (Hup q x Hx) as (y & Hy & _). by exists y.
    - intros ca q. rewrite i_conaddr0. split.
      + intros (y & Hy & <-). destruct (Hdown q y Hy) as (x & Hx & E & _). by exists x.
      + intros (x & Hx & <-). destruct (Hup q x Hx) as (y & Hy & E & _). by exists y.
    - intros id q. rewrite i_conid0. split.
      + intros (y & Hy & <-). destruct (Hdown q y Hy) as (x & Hx & _ & E). by exists x.
      + intros (x & Hx & <-). destruct (Hup q x Hx) as (y & Hy & _ & E & _). by exists y.
    - intros q x Hx. destruct (Hup q x Hx) as (y & Hy & E1 & E2 & E3).
      destruct (i_con0 q y Hy). constructor; by rewrite ?E1, ?E2, ?E3.
    - intros q Hq. cbn. rewrite lookup_insert_ne; [by apply i_fresh0|]. intros ->.
      rewrite (i_fresh0 q Hq) in Hc. done. }
  hstep. eapply wp_deref; [exact Hc1|]. destruct (i_con _ Hi _ _ Hc).
  eapply wp_mono; [eapply (connection_send_ok room con _ _ o1 c' Hi1 Hc1); done|].
  intros [] o' l [-> ->]. split; [done|]. split; [|done].
  unfold abs. change (connections_list o1) with (connections_list o).
  induction (connections_list o) as [|q l IH]; [done|]. cbn -[o1].
  replace (entry o1 q) with (entry o q); [by rewrite IH|]. unfold entry. cbn.
  destruct (decide (q = con)) as [->|Hne]; [by rewrite lookup_insert_eq, Hc|].
  by rewrite lookup_insert_ne.
Qed.

(** The two ways a datagram is sent at once: the flow has a connection, or it
    takes that of another one. *)
Lemma send_on_ok room p fl data o1 c ca o :
  inv o1 -> heap o1 !! p = Some c -> conaddr c = ca -> udp_mtu o1 = udp_mtu o -> len data <= udp_mtu o ->
  wp (move_to_front p;; connection_send room p fl data) o1 (fun _ o' l => inv o' /\
    abs o' = touch ca (conid c) (abs o1) /\
    l = sent room p (udpgw_packet fl (conid c) (ca_remote ca) data)).
Proof.
  intros Hi Hc <- Hm Hd. hstep. eapply wp_mono; [by apply (move_to_front_ok p o1 c)|].
  intros [] o2 l2 (Hi2 & -> & Hh2 & Hm2 & Ha2).
  eapply wp_mono; [apply (connection_send_ok room p fl data o2 c Hi2); [by rewrite Hh2|lia]|].
  by intros [] o3 l3 [-> ->].
Qed.

Lemma submit_ok malloc_ok ppflow_ok room la ra is_dns data o :
  inv o -> valid_addr la = true -> valid_addr ra = true -> len data <= udp_mtu o ->
  let ca := mk_conaddr la ra in
  wp (handle (Ev_submit malloc_ok ppflow_ok room la ra is_dns data)) o (fun _ o' l => inv o' /\
    if bool_decide (conid_of ca (abs o) = None) && (len (abs o) <? max_connections o) then
      l = [] /\
      if malloc_ok && ppflow_ok then exists id con,
        submitted (max_connections o) ca (abs o) UDPGW_CLIENT_FLAG_REBIND id (abs o') /\
        heap o' !! con = Some (mk_connection ca (dns_flag is_dns) data id true)
      else abs o' = abs o
    else exists fl id con, submitted (max_connections o) ca (abs o) fl id (abs o') /\
      l = sent room con (udpgw_packet (Z.lor (dns_flag is_dns) fl) id ra data)).
Proof.
  intros Hi Hla Hra Hd ca. cbn [handle]. unfold UdpGwClient_SubmitPacket.
  hstep. hstep. hstep. hstep; [by destruct la|]. hstep. hstep; [by destruct ra|].
  hstep. hstep; [lia|]. cbv zeta. fold (dns_flag is_dns). fold ca.
  pose proof (i_num _ Hi) as [Hnum Hmax]. pose proof (len_abs o Hi) as Hlen.
  unfold find_connection_by_conaddr.
  destruct (tree_by_conaddr o !! ca) as [p|] eqn:Et.
  - hstep. hstep. cbn [app]. pose proof (i_conaddr _ Hi) as Hic. apply Hic in Et as (c & Hc & Hca).
    assert (Hk : conid_of ca (abs o) = Some (conid c)) by (rewrite <- Hca; by eapply abs_known).
    rewrite Hk. cbn [bool_decide andb].
    eapply wp_mono; [by apply (send_on_ok room p _ data o c ca o)|].
    intros [] o' l (Hi' & Ha & ->). split; [done|]. exists 0, (conid c), p.
    rewrite Z.lor_0_r, Ha. split; [by constructor|done].
  - assert (Hu := abs_unknown o Hi ca Et). rewrite Hu. rewrite bool_decide_eq_true_2 by done.
    cbn [andb]. destruct (num_connections o =? max_connections o) eqn:Efull.
    + rewrite (proj2 (Z.ltb_ge _ _)) by lia.
      destruct (connections_list o) as [|p rest] eqn:El.
      { pose proof (i_max _ Hi). rewrite (@len_nil ptr) in Hnum. lia. }
      destruct (proj1 (i_list _ Hi p)) as [c Hc]; [rewrite El; by left|].
      hstep. hstep. eapply wp_mono; [by apply (reuse_connection_ok ca o p rest c)|].
      intros q o1 l (-> & -> & Hi1 & Hm1 & Hc1 & Ha1 & Hf1). hstep. cbn [app].
      eapply wp_mono; [by apply (send_on_ok room p _ data o1 (c <| conaddr := ca |>) ca o)|].
      intros [] o' l (Hi' & Ha & ->). split; [done|].
      exists UDPGW_CLIENT_FLAG_REBIND, (conid c), p. split; [|done].
      rewrite Ha. unfold touch. cbn. rewrite Hf1.
      assert (Habs : abs o = (conaddr c, conid c) :: omap (entry o) rest).
      { unfold abs. rewrite El. cbn. unfold entry at 1. by rewrite Hc. }
      rewrite Habs in *. constructor; [done|lia].
    + rewrite (proj2 (Z.ltb_lt _ _)) by lia. hstep. hstep. cbn [app].
      eapply wp_mono; [apply (connection_init_ok malloc_ok ppflow_ok ca); done || lia|].
      intros [] o' l (-> & Hi' & Hcase). split; [done|]. split; [done|].
      destruct (malloc_ok && ppflow_ok); [|tauto].
      destruct Hcase as (id & Hf & Hid & Ha & Hh). exists id, (next_ptr o). split.
      * rewrite Ha. constructor; try done. lia.
      * rewrite Hh. apply lookup_insert_eq.
Qed.

(** *** Datagrams from the server *)

Lemma valid_wf a : valid_addr a = true -> addr_wf a /\ a <> BAddr_None.
Proof. destruct a as [|ip port|ip port]; cbn; [done| |]; intros; rewrite ?length_len; split; done || lia. Qed.

Definition has_ipv6 (flags : Z) : bool := negb (Z.land flags UDPGW_CLIENT_FLAG_IPV6 =? 0).
Definition is_ipv6 (a : BAddr) : bool := match a with BAddr_IPv6 _ _ => true | _ => false end.

Lemma parse_addr_bytes flags a data :
  valid_addr a = true -> has_ipv6 flags = is_ipv6 a ->
  parse_addr flags (addr_bytes a ++ data) = Some (Some (a, data)).
Proof.
  intros Hv Hf. unfold parse_addr. fold (has_ipv6 flags). rewrite Hf. pose proof (len_nonneg data).
  assert (Hp : forall port, 0 <= port < 2 ^ 16 -> le_combine (le_split 2 port) = port).
  { intros port Hp. rewrite le_combine_split. by apply Z.mod_small. }
  destruct a as [|ip port|ip port]; cbn [is_ipv6 addr_bytes valid_addr] in *; [done|..].
  - assert (Hl : len (le_split 4 ip ++ le_split 2 port) = 6) by (rewrite len_app, !len_split; lia).
    assert (Hla : len ((le_split 4 ip ++ le_split 2 port) ++ data) = 6 + len data)
      by (by rewrite len_app, Hl).
    rewrite Hla. change sizeof_udpgw_addr_ipv4 with 6. rewrite (proj2 (Z.ltb_ge _ _)) by lia.
    rewrite !load_Some by lia. cbn [mbind option_bind].
    rewrite <- !app_assoc, zslice_app_l by (by rewrite len_split).
    rewrite (zslice_app_r 4) by (by rewrite len_split). rewrite zslice_app_l by (by rewrite len_split).
    rewrite Hp, le_combine_split, Z.mod_small by lia. rewrite app_assoc.
    rewrite (drop_app_length' _ data); [done|]. rewrite length_len, Hl. done.
  - assert (Hi : len ip = 16) by lia.
    assert (Hl : len (ip ++ le_split 2 port) = 18) by (rewrite len_app, len_split; lia).
    assert (Hla : len ((ip ++ le_split 2 port) ++ data) = 18 + len data)
      by (by rewrite len_app, Hl).
    rewrite Hla. change sizeof_udpgw_addr_ipv6 with 18. rewrite (proj2 (Z.ltb_ge _ _)) by lia.
    rewrite !load_Some by lia. cbn [mbind option_bind].
    rewrite <- !app_assoc, zslice_app_l by done.
    rewrite (zslice_app_r 16) by done. rewrite zslice_app_l by (by rewrite len_split).
    rewrite Hp by lia. rewrite app_assoc.
    rewrite (drop_app_length' _ data); [done|]. rewrite length_len, Hl. done.
Qed.

Lemma le_combine_bounds n l : len l = Z.of_nat n ->
  0 <= le_combine l < 2 ^ (8 * Z.of_nat n) /\ le_split n (le_combine l) = l.
Proof.
  intros Hl. assert (Hn : length l = n) by (rewrite length_len; lia).
  split; [rewrite <- Hn; apply le_combine_bound|by apply split_le_combine'].
Qed.

(** A parsed address is what the bytes say. *)
Lemma parse_addr_total flags data : exists r, parse_addr flags data = Some r /\
  match r with
  | Some (a, rest) => data = addr_bytes a ++ rest /\ valid_addr a = true /\ has_ipv6 flags = is_ipv6 a
  | None => True
  end.
Proof.
  unfold parse_addr. fold (has_ipv6 flags). destruct (has_ipv6 flags).
  - change sizeof_udpgw_addr_ipv6 with 18. destruct (len data <? 18) eqn:E; [by eexists|].
    rewrite !load_Some by lia. cbn [mbind option_bind]. eexists. split; [done|].
    destruct (le_combine_bounds 2 (zslice 16 2 data)) as [Hb Hs]; [by rewrite len_zslice by lia|].
    cbn [addr_bytes valid_addr is_ipv6]. rewrite Hs. split_and!; [|rewrite len_zslice by lia; lia|done].
    rewrite <- (zslice_app 0 16 2) by lia. unfold zslice. by rewrite drop_0, take_drop.
  - change sizeof_udpgw_addr_ipv4 with 6. destruct (len data <? 6) eqn:E; [by eexists|].
    rewrite !load_Some by lia. cbn [mbind option_bind]. eexists. split; [done|].
    destruct (le_combine_bounds 2 (zslice 4 2 data)) as [Hb Hs]; [by rewrite len_zslice by lia|].
    destruct (le_combine_bounds 4 (zslice 0 4 data)) as [Hb' Hs']; [by rewrite len_zslice by lia|].
    cbn [addr_bytes valid_addr is_ipv6]. rewrite Hs, Hs'. split_and!; [|lia|done].
    rewrite <- (zslice_app 0 4 2) by lia. unfold zslice. by rewrite drop_0, take_drop.
Qed.

(** What the handler does with a packet whose parts are known. *)
Definition delivered o (flags id : Z) (data : bytes) (o' : UdpGwClient) (l : list out) : Prop :=
  (o' = o /\ l = [Recv_Done] /\
   forall ca d, flow_of id (abs o) = Some ca -> data = addr_bytes (ca_remote ca) ++ d ->
     valid_addr (ca_remote ca) = true -> has_ipv6 flags = is_ipv6 (ca_remote ca) -> udp_mtu o < len d) \/
  exists ca d, flow_of id (abs o) = Some ca /\ data = addr_bytes (ca_remote ca) ++ d /\
    valid_addr (ca_remote ca) = true /\ has_ipv6 flags = is_ipv6 (ca_remote ca) /\
    len d <= udp_mtu o /\ l = [Recv_Done; Handler_received (ca_local ca) (ca_remote ca) d] /\
    abs o' = touch ca id (abs o).

Lemma received_short_ok o pkt : have_server o = true -> len pkt <= udpgw_mtu o -> len pkt < 3 ->
  handle (Ev_received pkt) o = Some (tt, o, [Recv_Done]).
Proof.
  intros Hs Hm Hl. cbn [handle]. unfold recv_interface_handler_send.
  cbv beta delta [mbind handler_bind get ASSERT call mret handler_ret]. cbn.
  rewrite Hs, (proj2 (Z.leb_le _ _)) by done. cbn. change sizeof_udpgw_header with 3.
  by rewrite (proj2 (Z.ltb_lt _ _)).
Qed.

Lemma udpgw_received_ok o f i0 i1 data : inv o ->
  event_ok o (Ev_received (f :: i0 :: i1 :: data)) = true ->
  wp (handle (Ev_received (f :: i0 :: i1 :: data))) o (fun _ o' l =>
    inv o' /\ delivered o (b2z f) (le_combine [i0; i1]) data o' l).
Proof.
  intros Hi He. apply andb_true_iff in He as [_ [Hs Hm]%andb_true_iff].
  cbn [handle]. unfold recv_interface_handler_send.
  hstep. hstep. hstep. hstep; [done|]. hstep. hstep; [done|]. hstep. hstep.
  rewrite !len_cons in *. pose proof (len_nonneg data). change sizeof_udpgw_header with 3.
  rewrite (proj2 (Z.ltb_ge _ _)) by lia. hstep.
  eapply wp_of_option; [apply load_Some; rewrite ?len_cons; lia|].
  change (zslice 0 3 (f :: i0 :: i1 :: data)) with [f; i0; i1].
  change (zslice 1 2 [f; i0; i1]) with [i0; i1].
  change (drop (Z.to_nat 3) (f :: i0 :: i1 :: data)) with data. cbv zeta.
  hstep. apply (wp_of_option _ (b2z f)); [done|].
  destruct (parse_addr_total (b2z f) data) as (r & Hr & Hspec).
  hstep. eapply wp_of_option; [exact Hr|]. set (id := le_combine [i0; i1]).
  assert (Hdrop : (forall ca d, r = Some (ca_remote ca, d) -> flow_of id (abs o) = Some ca -> udp_mtu o < len d) ->
    delivered o (b2z f) id data o [Recv_Done]).
  { intros H0. left. split_and!; try done. intros ca d Hf Hd Hv H6. eapply H0; [|exact Hf].
    rewrite Hd, parse_addr_bytes in Hr by done. by injection Hr. }
  destruct r as [[ra d]|]; [|hstep; split; [done|by apply Hdrop]].
  destruct Hspec as (Hd & Hv & H6).
  destruct (udp_mtu o <? len d) eqn:El.
  { hstep. split; [done|]. apply Hdrop. intros ca d' [= _ <-] _. lia. }
  unfold find_connection_by_conid. destruct (tree_by_conid o !! id) as [p|] eqn:Et.
  2:{ hstep. split; [done|]. apply Hdrop. intros ca d' _ Hf. by rewrite (abs_no_flow o Hi id) in Hf. }
  pose proof (i_conid _ Hi) as Hic. apply Hic in Et as (c & Hc & Hid).
  pose proof (abs_flow o Hi p c Hc) as Hfl. rewrite Hid in Hfl.
  hstep. eapply wp_deref; [exact Hc|].
  destruct (i_con _ Hi _ _ Hc) as [_ _ Hvr _].
  destruct (valid_wf _ Hv) as [Hwf _]. destruct (valid_wf _ Hvr) as [Hwfr _].
  pose proof (BAddrProofs.compare_order_0 _ _ Hwfr Hwf) as Hcmp.
  destruct (_ =? 0) eqn:Ec; cbn [negb].
  2:{ hstep. split; [done|]. apply Hdrop. intros ca d' [= -> _] Hf. rewrite Hfl in Hf.
      injection Hf as <-. destruct Hcmp as [_ Hcmp]. specialize (Hcmp eq_refl). lia. }
  destruct Hcmp as [Hcmp _]. specialize (Hcmp ltac:(lia)). rewrite <- Hcmp in *.
  hstep. eapply wp_mono; [by apply (move_to_front_ok p o c)|].
  intros [] o1 l1 (Hi1 & -> & _ & _ & Ha). hstep. split; [done|]. right.
  exists (conaddr c), d. rewrite <- Hid, Ha. split_and!; try done; [by rewrite Hid|lia].
Qed.

(** *** All events *)

Lemma free_connections_ok fuel o :
  length (connections_list o) = fuel -> NoDup (connections_list o) ->
  (forall p, p ∈ connections_list o -> is_Some (heap o !! p)) -> freeing o = true ->
  wp (free_connections fuel) o (fun _ o' l => l = [] /\ connections_list o' = [] /\ freeing o' = true /\
    have_server o' = have_server o /\
    (forall p, heap o' !! p = if decide (p ∈ connections_list o) then None else heap o !! p)).
Proof.
  revert o. induction fuel as [|fuel IH]; intros o Hlen Hnd Hin Hfr; cbn [free_connections]; hstep; hstep.
  - destruct (connections_list o) as [|p l] eqn:El; [|done]. hstep. split_and!; try done.
  - destruct (connections_list o) as [|p rest] eqn:El; [done|].
    destruct (Hin p) as [c Hc]; [by left|].
    hstep. unfold connection_free. hstep. eapply wp_deref; [exact Hc|]. hstep. hstep. hstep.
    hstep; [done|]. hstep. set (o1 := o <| num_connections := _ |> <| connections_list := _ |>
      <| tree_by_conid := _ |> <| tree_by_conaddr := _ |> <| heap := _ |>).
    assert (Hl1 : connections_list o1 = rest) by (cbn; rewrite El; by apply remove_head).
    pose proof Hnd as [Hp Hnd1]%NoDup_cons.
    assert (Hh1 : forall q, heap o1 !! q = if decide (q = p) then None else heap o !! q).
    { intros q. cbn. destruct (decide (q = p)) as [->|Hne]; [apply lookup_delete_eq|].
      by apply lookup_delete_ne. }
    eapply wp_mono; [apply (IH o1); rewrite ?Hl1; try done|].
    + cbn in Hlen. lia.
    + intros q Hq. rewrite Hh1. rewrite decide_False by (by intros ->). apply Hin. by right.
    + intros [] o' l (-> & Hl' & Hf' & Hs' & Hh'). split_and!; try done.
      intros q. rewrite Hh', Hl1, Hh1. destruct (decide (q = p)) as [->|Hne].
      * rewrite (decide_True (P := p ∈ p :: rest)) by left. by destruct (decide (p ∈ rest)).
      * destruct (decide (q ∈ rest)) as [Hq|Hq].
        -- rewrite decide_True by (by right). done.
        -- rewrite decide_False; [done|]. rewrite elem_of_cons. tauto.
Qed.

Lemma free_ok o : inv o -> wp (handle Ev_free) o (fun _ o' _ =>
  freeing o' = true /\ connections_list o' = [] /\ heap o' = ∅).
Proof.
  intros Hi. cbn [handle]. unfold UdpGwClient_Free. hstep. hstep. hstep. hstep. hstep.
  eapply wp_mono; [apply free_connections_ok; cbn; try done; [apply Hi|intros p; apply (i_list _ Hi)]|].
  intros [] o' l (-> & Hl & Hf & Hs & Hh). cbn in Hs, Hh.
  assert (Hheap : heap o' = ∅).
  { apply map_empty. intros p. rewrite Hh. destruct (decide _) as [Hp|Hp]; [done|].
    rewrite (i_list _ Hi) in Hp. destruct (heap o !! p); [|done]. destruct Hp. eauto. }
  destruct (have_server o'); unfold free_server; hstep; done.
Qed.

Definition inv_or_freed o : Prop := freeing o = true /\ connections_list o = [] /\ heap o = ∅ \/ inv o.

Lemma udpgw_handle_ok e o : inv o -> event_ok o e = true ->
  wp (handle e) o (fun _ o' _ => inv_or_freed o').
Proof.
  intros Hi He. assert (Hr : forall s, inv o -> s = o \/
    (exists b, s = o <| keepalive_sending := b |>) \/ (exists b, s = o <| have_server := b |>) -> inv_or_freed s).
  { intros s _ [->|[[b ->]|[b ->]]]; right; [done|..]; by apply (inv_frame o); try apply Hi. }
  apply andb_true_iff in He as [Hfr He].
  destruct e as [m p room la ra dns data|room con|data| | | |ok_| |].
  - apply andb_true_iff in He as [[Hla Hra]%andb_true_iff Hd].
    eapply wp_mono; [apply (submit_ok m p room la ra dns data o Hi Hla Hra); lia|].
    intros [] o' l [Hi' _]. by right.
  - destruct (heap o !! con) as [c|] eqn:Hc; [|done].
    eapply wp_mono; [by apply (first_job_ok room con o c)|]. intros [] o' l [Hi' _]. by right.
  - destruct (decide (len data < 3)) as [Hl|Hl].
    + apply andb_true_iff in He as [Hs Hm]. unfold wp. rewrite received_short_ok by (done || lia). auto.
    + destruct data as [|f [|i0 [|i1 data]]]; try (rewrite ?len_cons, ?(@len_nil byte) in Hl; lia).
      eapply wp_mono; [apply udpgw_received_ok; [done|]; unfold event_ok; by rewrite Hfr, He|].
      intros [] o' l [Hi' _]. by right.
  - cbn [handle]. unfold decoder_handler_error. hstep. hstep. hstep. hstep; [done|]. hstep. auto.
  - cbn [handle]. unfold send_monitor_handler. hstep. hstep. hstep; [hstep; auto|].
    hstep. hstep. hstep. eauto.
  - cbn [handle]. unfold keepalive_if_handler_done. hstep. hstep. hstep. hstep; [done|]. hstep. eauto.
  - cbn [handle]. unfold UdpGwClient_ConnectServer. hstep. hstep. hstep. hstep. hstep; [done|].
    hstep; [repeat hstep; auto|]. repeat hstep. eauto.
  - cbn [handle]. unfold UdpGwClient_DisconnectServer, free_server. hstep. hstep. hstep. hstep; [done|].
    repeat hstep. eauto.
  - eapply wp_mono; [by apply free_ok|]. intros [] o' l H. by left.
Qed.

Lemma udpgw_run_inv es o o' l : inv_or_freed o -> run o es = Some (o', l) -> inv_or_freed o'.
Proof.
  revert o l. induction es as [|e es IH]; intros o l Hi; cbn [run]; [by intros [= <- _]|].
  destruct (event_ok o e) eqn:He; [|done].
  destruct Hi as [(Hf & _)|Hi]; [unfold event_ok in He; by rewrite Hf in He|].
  pose proof (udpgw_handle_ok e o Hi He) as Hok. apply wp_spec in Hok as (u & o1 & l1 & E & Hi1).
  rewrite E. cbn. destruct (run o1 es) as [[o2 l2]|] eqn:E2; [|done]. cbn. intros [= <- _].
  by apply (IH o1 l2).
Qed.

Lemma compute_mtu_spec {abi : Abi} mtu : 0 <= mtu <= INT_MAX ->
  udpgw_compute_mtu mtu = if mtu + 22 <=? INT_MAX then mtu + 22 else -1.
Proof.
  intros H. pose proof size_max_ge. unfold udpgw_compute_mtu.
  rewrite (denotes_toint _ (mtu + 22)).
  - by destruct (_ <=? _).
  - unfold sizeof_socks_udp_header, sizeof_udpgw_addr_ipv4, sizeof_udpgw_addr_ipv6.
    replace (mtu + 22) with (4 + (Z.max 6 18 + mtu)) by lia.
    apply denotes_add; [apply denotes_fromsize; lia|].
    apply denotes_add; [|by apply denotes_fromint].
    apply denotes_max; apply denotes_fromsize; lia.
Qed.

Lemma udpgw_init_inv {abi : Abi} mtu max bufsize ok_ o :
  mtu <= INT_MAX -> UdpGwClient_Init mtu max bufsize ok_ = Some (Some o) ->
  inv o /\ udpgw_mtu o <= PACKETPROTO_MAXPAYLOAD /\ udp_mtu o = mtu.
Proof.
  intros Hm. unfold UdpGwClient_Init. destruct (negb _) eqn:E; [done|]. apply negb_false_iff in E.
  split_andb. destruct ok_; cbn [negb]; [|done]. intros [= <-]. cbn.
  assert (Hc : udpgw_compute_mtu mtu = mtu + 22).
  { rewrite compute_mtu_spec in * by lia. destruct (mtu + 22 <=? INT_MAX); lia. }
  assert (Hmax : 0 < (if UINT16_MAX + 1 <? max then UINT16_MAX + 1 else max) <= 65536).
  { unfold UINT16_MAX. destruct (2 ^ 16 - 1 + 1 <? max) eqn:E; lia. }
  split; [|split; [lia|done]]. constructor; cbn; try done; try lia.
  - constructor.
  - intros p. rewrite lookup_empty, elem_of_nil. split; [done|by intros []].
  - rewrite (@len_nil ptr). lia.
  - intros ca p. rewrite lookup_empty. split; [done|]. by intros (c & Hc' & _).
  - intros id p. rewrite lookup_empty. split; [done|]. by intros (c & Hc' & _).
Qed.
End UdpGwProofs.

(** ** Properties *)

Section udpgw_properties.
Import UdpGwProofs.
Context {abi : Abi} (mtu max send_buffer_size : Z) (o0 : UdpGwClient).
Hypothesis Hmtu : mtu <= INT_MAX.
Hypothesis Hinit : UdpGwClient_Init mtu max send_buffer_size true = Some (Some o0).

Lemma udpgw_reachable es o l : run o0 es = Some (o, l) -> freeing o = false -> inv o.
Proof using All.
  destruct (udpgw_init_inv _ _ _ _ _ Hmtu Hinit) as (Hi & _). intros Hrun Hf.
  destruct (udpgw_run_inv es o0 o l (or_intror Hi) Hrun) as [[Hf' _]|]; [congruence|done].
Qed.

(** C19: every operation and callback runs to its end in every reachable state:
    no assertion fails, no pointer dangles, no packet overruns its buffer, the
    search for a free conid ends; and freeing frees every connection. *)
Theorem udpgw_safe es o l e :
  run o0 es = Some (o, l) -> event_ok o e = true ->
  exists o' l', handle e o = Some (tt, o', l') /\
    (freeing o' = true -> connections_list o' = [] /\ heap o' = ∅).
Proof using All.
  intros Hrun He. assert (Hf : freeing o = false).
  { unfold event_ok in He. by destruct (freeing o). }
  pose proof (udpgw_reachable es o l Hrun Hf) as Hi.
  pose proof (udpgw_handle_ok e o Hi He) as H. apply wp_spec in H as ([] & o' & l' & E & Hi').
  exists o', l'. split; [done|]. intros Hf'. destruct Hi' as [[_ ?]|Hi']; [done|].
  destruct Hi'. congruence.
Qed.

(** C16: the client implements the table of flows: a datagram leaves under the
    conid of its flow, a new flow gets a free conid, or that of the least
    recently used flow once all are taken, and the server is then told to
    rebind it.  The packet of a new flow is sent by the job set for it.  Only
    without memory for a new connection is the datagram dropped, the table
    unchanged. *)
Theorem udpgw_submits es o l malloc_ok ppflow_ok room la ra is_dns data :
  run o0 es = Some (o, l) ->
  event_ok o (Ev_submit malloc_ok ppflow_ok room la ra is_dns data) = true ->
  let ca := mk_conaddr la ra in
  let packet fl id := udpgw_packet (Z.lor (if is_dns then UDPGW_CLIENT_FLAG_DNS else 0) fl) id ra data in
  exists o' l', handle (Ev_submit malloc_ok ppflow_ok room la ra is_dns data) o = Some (tt, o', l') /\
    if bool_decide (conid_of ca (abs o) = None) && (len (abs o) <? max_connections o) then
      l' = [] /\
      if malloc_ok && ppflow_ok then exists id con,
        submitted (max_connections o) ca (abs o) UDPGW_CLIENT_FLAG_REBIND id (abs o') /\
        forall room', exists o'', abs o'' = abs o' /\
          handle (Ev_first_job room' con) o'
            = Some (tt, o'', sent room' con (packet UDPGW_CLIENT_FLAG_REBIND id))
      else abs o' = abs o
    else exists fl id con, submitted (max_connections o) ca (abs o) fl id (abs o') /\
      l' = sent room con (packet fl id).
Proof using All.
  intros Hrun He ca packet.
  apply andb_true_iff in He as [Hf%negb_true_iff [[Hla Hra]%andb_true_iff Hd]%andb_true_iff].
  pose proof (udpgw_reachable es o l Hrun Hf) as Hi.
  pose proof (submit_ok malloc_ok ppflow_ok room la ra is_dns data o Hi Hla Hra ltac:(lia)) as H.
  cbv zeta in H. apply wp_spec in H as ([] & o' & l' & E & Hi' & H).
  exists o', l'. split; [exact E|]. destruct (_ && _); [|exact H]. destruct H as [-> H].
  split; [done|]. destruct (malloc_ok && ppflow_ok); [|exact H].
  destruct H as (id & con & Hsub & Hc). exists id, con. split; [exact Hsub|]. intros room'.
  pose proof (first_job_ok room' con o' _ Hi' Hc) as Hj.
  apply wp_spec in Hj as ([] & o'' & l'' & Ej & _ & Ha & ->). exists o''. split; [done|].
  rewrite Ej. cbn. unfold packet. fold (dns_flag is_dns). by rewrite (Z.lor_comm UDPGW_CLIENT_FLAG_REBIND).
Qed.

(** C17: a datagram the server sends for a conid reaches the user as one from
    the remote address to the local address of the flow that has this conid
    now, when it names the flow's remote address and is within the MTU; this
    counts as a use of the flow.  Anything else is accepted and dropped. *)
Theorem udpgw_answers es o l packet :
  run o0 es = Some (o, l) -> event_ok o (Ev_received packet) = true ->
  exists o' l', handle (Ev_received packet) o = Some (tt, o', l') /\
    ((exists flags id ca data,
        0 <= flags < 256 /\ packet = z2b flags :: le_split 2 id ++ addr_bytes (ca_remote ca) ++ data /\
        negb (Z.land flags UDPGW_CLIENT_FLAG_IPV6 =? 0)
          = (match ca_remote ca with BAddr_IPv6 _ _ => true | _ => false end) /\
        flow_of id (abs o) = Some ca /\ len data <= udp_mtu o /\
        l' = [Recv_Done; Handler_received (ca_local ca) (ca_remote ca) data] /\
        abs o' = touch ca id (abs o)) \/
     (l' = [Recv_Done] /\ o' = o /\
      forall flags id ca data, 0 <= flags < 256 -> 0 <= id < 65536 ->
        packet = z2b flags :: le_split 2 id ++ addr_bytes (ca_remote ca) ++ data ->
        valid_addr (ca_remote ca) = true ->
        negb (Z.land flags UDPGW_CLIENT_FLAG_IPV6 =? 0)
          = (match ca_remote ca with BAddr_IPv6 _ _ => true | _ => false end) ->
        flow_of id (abs o) = Some ca -> udp_mtu o < len data)).
Proof using All.
  intros Hrun He. pose proof He as [Hf%negb_true_iff [Hs Hm]%andb_true_iff]%andb_true_iff.
  pose proof (udpgw_reachable es o l Hrun Hf) as Hi.
  assert (Hflag : forall flags, 0 <= flags < 256 -> b2z (z2b flags) = flags).
  { intros flags Hfl. unfold b2z, z2b. rewrite byte.unsigned_of_Z. by apply Z.mod_small. }
  destruct packet as [|f [|i0 [|i1 data]]].
  1-3: exists o, [Recv_Done]; split; [apply received_short_ok; [done|lia|by cbn]|].
  1-3: right; split_and!; try done; intros flags id ca data _ _ E; exfalso;
    apply (f_equal len) in E; rewrite !len_cons, ?len_app, ?len_split, ?(@len_nil byte) in E; zlia.
  pose proof (udpgw_received_ok o f i0 i1 data Hi He) as H. apply wp_spec in H as ([] & o' & l' & E & _ & H).
  exists o', l'. split; [exact E|]. destruct H as [(-> & -> & Hno)|(ca & d & Hfl & -> & Hv & H6 & Hl & -> & Ha)].
  - right. split_and!; try done. intros flags id ca d Hfl Hid Heq Hv H6 Hca.
    change (f :: i0 :: i1 :: data) with ([f] ++ [i0; i1] ++ data) in Heq.
    change (z2b flags :: ?x) with ([z2b flags] ++ x) in Heq.
    apply app_inj_1 in Heq as [[= ->] Heq]; [|done].
    apply app_inj_1 in Heq as [Hb ->]; [|by rewrite length_le_split]. eapply Hno; try done.
    + rewrite Hb, le_combine_split. by rewrite Z.mod_small.
    + unfold has_ipv6. by rewrite Hflag.
  - left. exists (b2z f), (le_combine [i0; i1]), ca, d. split_and!; try done.
    + apply byte.unsigned_range.
    + apply byte.unsigned_range.
    + destruct (le_combine_bounds 2 [i0; i1] eq_refl) as [_ ->]. unfold z2b, b2z.
      by rewrite byte.of_Z_unsigned.
Qed.

(** C18: the table is always a partial bijection between at most 65536 flows and
    conids that fit the field of the packet. *)
Theorem udpgw_conids es o l :
  run o0 es = Some (o, l) -> freeing o = false ->
  NoDup (abs o).*1 /\ NoDup (abs o).*2 /\
  Forall (fun x => 0 <= x.2 < max_connections o) (abs o) /\
  len (abs o) <= max_connections o <= 65536.
Proof using All.
  intros Hrun Hf. pose proof (udpgw_reachable es o l Hrun Hf) as Hi.
  pose proof (i_num _ Hi) as [Hn Hm]. pose proof (i_max _ Hi). rewrite (len_abs o Hi).
  pose proof (i_nodup _ Hi) as Hnd.
  assert (Hin : forall p, p ∈ connections_list o -> is_Some (heap o !! p)) by (intros p; apply (i_list _ Hi)).
  assert (Hkeys : forall ps, NoDup ps -> (forall p, p ∈ ps -> is_Some (heap o !! p)) ->
    NoDup (omap (entry o) ps).*1 /\ NoDup (omap (entry o) ps).*2 /\
    Forall (fun x => 0 <= x.2 < max_connections o) (omap (entry o) ps)).
  { induction ps as [|p ps IH]; intros Hps Hall; [split_and!; constructor|].
    apply NoDup_cons in Hps as [Hp Hps]. destruct (IH Hps) as (H1 & H2 & H3); [intros; apply Hall; by right|].
    destruct (Hall p ltac:(left)) as [c Hc]. 
    assert (Ee : entry o p = Some (conaddr c, conid c)) by (unfold entry; by rewrite Hc).
    cbn. rewrite Ee. cbn.
    split_and!; [apply NoDup_cons; split; [|done]..|constructor; [|done]].
    - intros (x & Ex & Hx)%list_elem_of_fmap. apply list_elem_of_omap in Hx as (q & Hq & E).
      unfold entry in E. destruct (heap o !! q) as [c'|] eqn:Hc'; [|done]. injection E as <-. cbn in Ex.
      rewrite (conaddr_inj o Hi p q c c') in Hp by done. done.
    - intros (x & Ex & Hx)%list_elem_of_fmap. apply list_elem_of_omap in Hx as (q & Hq & E).
      unfold entry in E. destruct (heap o !! q) as [c'|] eqn:Hc'; [|done]. injection E as <-. cbn in Ex.
      rewrite (conid_inj o Hi p q c c') in Hp by done. done.
    - apply (i_con _ Hi _ _ Hc). }
  destruct (Hkeys _ Hnd Hin) as (H1 & H2 & H3). split_and!; try done; lia.
Qed.
End udpgw_properties.

Module UdpGwWitnesses.
#[local] Existing Instance abi32.

Definition demo_o0 : UdpGwClient :=
  match UdpGwClient_Init 100 2 8 true with
  | Some (Some o) => o
  | _ => mk_UdpGwClient 0 0 0 0 ∅ ∅ [] 0 0 false false false ∅ 0
  end.
Definition local (n : Z) : BAddr := BAddr_IPv4 n 0x1234.
Definition dns_server : BAddr := BAddr_IPv4 0x08080808 0x3500.
Definition submit (n : Z) : event :=
  Ev_submit true true (Some []) (local n) dns_server true [Byte.x2a].
(** Three flows for two conids: the third takes that of the first. *)
Definition demo_events : list event :=
  [Ev_connect true; submit 1; Ev_first_job (Some []) 0%nat; submit 2; Ev_first_job (Some []) 1%nat;
   submit 3].
Definition demo_at (k : nat) : UdpGwClient :=
  match run demo_o0 (take k demo_events) with Some (o, _) => o | None => demo_o0 end.
Definition demo_calls (k : nat) : list out :=
  match run demo_o0 (take k demo_events) with Some (_, l) => l | None => [] end.
(** An answer for conid 0, which is now the third flow's. *)
Definition answer : bytes :=
  udpgw_packet 0 0 dns_server [Byte.x01; Byte.x02].

Lemma demo_init : UdpGwClient_Init 100 2 8 true = Some (Some demo_o0).
Proof. vm_compute. reflexivity. Qed.
Lemma demo_mtu : 100 <= INT_MAX.
Proof. by vm_compute. Qed.
Lemma demo_run k : bool_decide (is_Some (run demo_o0 (take k demo_events))) = true ->
  run demo_o0 (take k demo_events) = Some (demo_at k, demo_calls k).
Proof.
  unfold demo_at, demo_calls. destruct (run _ _) as [[o l]|]; [done|].
  intros [x Hx]%bool_decide_eq_true. done.
Qed.

Lemma udpgw_safe_witness :
  exists o' l', handle Ev_free (demo_at 6) = Some (tt, o', l') /\
    (freeing o' = true -> connections_list o' = [] /\ heap o' = ∅).
Proof.
  apply (udpgw_safe 100 2 8 demo_o0 demo_mtu demo_init (take 6 demo_events) (demo_at 6)
    (demo_calls 6) Ev_free); [apply demo_run|]; vm_compute; reflexivity.
Defined.

Lemma udpgw_submits_witness :
  let o := demo_at 5 in
  let ca := mk_conaddr (local 3) dns_server in
  let packet fl id := udpgw_packet (Z.lor UDPGW_CLIENT_FLAG_DNS fl) id dns_server [Byte.x2a] in
  exists o' l', handle (submit 3) o = Some (tt, o', l') /\
    if bool_decide (conid_of ca (abs o) = None) && (len (abs o) <? max_connections o) then
      l' = [] /\ exists id con,
        submitted (max_connections o) ca (abs o) UDPGW_CLIENT_FLAG_REBIND id (abs o') /\
        forall room', exists o'', abs o'' = abs o' /\
          handle (Ev_first_job room' con) o'
            = Some (tt, o'', sent room' con (packet UDPGW_CLIENT_FLAG_REBIND id))
    else exists fl id con, submitted (max_connections o) ca (abs o) fl id (abs o') /\
      l' = sent (Some []) con (packet fl id).
Proof.
  apply (udpgw_submits 100 2 8 demo_o0 demo_mtu demo_init (take 5 demo_events) (demo_at 5)
    (demo_calls 5) true true); [apply demo_run|]; vm_compute; reflexivity.
Defined.

Lemma udpgw_answers_witness :
  exists o' l', handle (Ev_received answer) (demo_at 6) = Some (tt, o', l') /\
    ((exists flags id ca data,
        0 <= flags < 256 /\ answer = z2b flags :: le_split 2 id ++ addr_bytes (ca_remote ca) ++ data /\
        negb (Z.land flags UDPGW_CLIENT_FLAG_IPV6 =? 0)
          = (match ca_remote ca with BAddr_IPv6 _ _ => true | _ => false end) /\
        flow_of id (abs (demo_at 6)) = Some ca /\ len data <= udp_mtu (demo_at 6) /\
        l' = [Recv_Done; Handler_received (ca_local ca) (ca_remote ca) data] /\
        abs o' = touch ca id (abs (demo_at 6))) \/
     (l' = [Recv_Done] /\ o' = demo_at 6 /\
      forall flags id ca data, 0 <= flags < 256 -> 0 <= id < 65536 ->
        answer = z2b flags :: le_split 2 id ++ addr_bytes (ca_remote ca) ++ data ->
        valid_addr (ca_remote ca) = true ->
        negb (Z.land flags UDPGW_CLIENT_FLAG_IPV6 =? 0)
          = (match ca_remote ca with BAddr_IPv6 _ _ => true | _ => false end) ->
        flow_of id (abs (demo_at 6)) = Some ca -> udp_mtu (demo_at 6) < len data)).
Proof.
  apply (udpgw_answers 100 2 8 demo_o0 demo_mtu demo_init (take 6 demo_events) (demo_at 6)
    (demo_calls 6)); [apply demo_run|]; vm_compute; reflexivity.
Defined.

Lemma udpgw_conids_witness :
  let o := demo_at 6 in
  NoDup (abs o).*1 /\ NoDup (abs o).*2 /\
  Forall (fun x => 0 <= x.2 < max_connections o) (abs o) /\
  len (abs o) <= max_connections o <= 65536.
Proof.
  apply (udpgw_conids 100 2 8 demo_o0 demo_mtu demo_init (take 6 demo_events) (demo_at 6)
    (demo_calls 6)); [apply demo_run|]; vm_compute; reflexivity.
Defined.

(** The answer for the reused conid goes to the third flow. *)
Example demo_answered :
  match handle (Ev_received answer) (demo_at 6) with
  | Some (_, _, l) => l = [Recv_Done; Handler_received (local 3) dns_server [Byte.x01; Byte.x02]]
  | None => False
  end.
Proof. by vm_compute. Qed.
End UdpGwWitnesses.
