(* ===== verification/ConnTrees.v ===== *)
(** * The trees of connections

    The udpgw client keeps its connections in two trees of [structure/BAVL.h],
    by addresses and by conid, and the DNS relay keeps its own in one, by port.
    The models [UdpGw] and [DevicePackets] have finite maps in their place.  The
    comparison functions of the three trees are orders that tell all keys apart,
    so the trees of [BAVL] are such maps. *)
From S2P Require Import Prelude InetProto BAddr AvlHeap AvlTree BAVL.
From S2P Require UdpGw DevicePackets.

(** ** The comparison functions *)

Definition conaddr_wf (ca : UdpGw.conaddr_t) : Prop :=
  addr_wf (UdpGw.ca_local ca) /\ addr_wf (UdpGw.ca_remote ca).
Definition uint16_comparator (v1 v2 : Z) : Z := B_COMPARE v1 v2.

Module ConnTreesProofs.
Lemma conaddr_comparator_0 v w : conaddr_wf v -> conaddr_wf w -> UdpGw.conaddr_comparator v w = 0 -> v = w.
Proof.
  destruct v as [vl vr], w as [wl wr]. unfold UdpGw.conaddr_comparator. cbn. intros [Hvl Hvr] [Hwl Hwr] H.
  cbn in *. destruct (_ =? 0) eqn:E; cbn in H; [|lia].
  apply Z.eqb_eq, BAddrProofs.compare_order_0 in E; [|done..].
  apply BAddrProofs.compare_order_0 in H; [|done..]. by subst.
Qed.

(** Remote addresses first. *)
#[export] Instance conaddr_comparator_order : Comparator UdpGw.conaddr_comparator conaddr_wf.
Proof.
  assert (Hk : forall v w, conaddr_wf v -> conaddr_wf w -> UdpGw.conaddr_comparator v w =
    if BAddrProofs.addr_key (UdpGw.ca_remote v) =? BAddrProofs.addr_key (UdpGw.ca_remote w)
    then Z.sgn (BAddrProofs.addr_key (UdpGw.ca_local v) - BAddrProofs.addr_key (UdpGw.ca_local w))
    else Z.sgn (BAddrProofs.addr_key (UdpGw.ca_remote v) - BAddrProofs.addr_key (UdpGw.ca_remote w))).
  { intros v w [Hvl Hvr] [Hwl Hwr]. unfold UdpGw.conaddr_comparator.
    rewrite !BAddrProofs.compare_order_key by done.
    repeat case_match; lia. }
  split; intros *; intros; rewrite !Hk in * by done; clear Hk; repeat case_match; lia.
Qed.

#[export] Instance uint16_comparator_order : Comparator uint16_comparator (fun _ => True).
Proof. apply B_COMPARE_comparator. Qed.
Lemma uint16_comparator_0 v w : True -> True -> uint16_comparator v w = 0 -> v = w.
Proof. unfold uint16_comparator. rewrite B_COMPARE_sgn. lia. Qed.

#[export] Instance port_comparator_order : Comparator DevicePackets.conaddr_comparator (fun _ => True).
Proof.
  apply (comparator_of_key _ _ (fun v => v)). intros v w _ _. unfold DevicePackets.conaddr_comparator.
  destruct (v =? w) eqn:E; [lia|]. destruct (w <? v) eqn:E1; lia.
Qed.
Lemma port_comparator_0 v w : True -> True -> DevicePackets.conaddr_comparator v w = 0 -> v = w.
Proof. unfold DevicePackets.conaddr_comparator. destruct (v =? w) eqn:E, (w <? v) eqn:E1; lia. Qed.
End ConnTreesProofs.

Section conntrees.
Import ConnTreesProofs.
#[local] Existing Instances UdpGw.conaddr_eq_dec UdpGw.conaddr_countable.

(** C29: The three trees of connections are finite maps from their keys to
    connections: whatever balanced tree the operations have made of the
    connections, [BAVL_LookupExact] is lookup, [BAVL_Insert] is insertion of a
    connection under its key, or returns 0 and changes nothing when there is a
    connection with that key, and [BAVL_Remove] is deletion, each with no fault
    and leaving such a tree; this holds of the udpgw client's tree by local and
    remote address, its tree by conid, and the DNS relay's tree by port. *)
Theorem connection_trees_are_maps :
  (forall (conaddr : ptr -> UdpGw.conaddr_t) s l R, (forall p, conaddr_wf (conaddr p)) ->
    makes conaddr UdpGw.conaddr_comparator s l R -> map_tree conaddr UdpGw.conaddr_comparator conaddr_wf s l) /\
  (forall (conid : ptr -> Z) s l R, makes conid uint16_comparator s l R ->
    map_tree conid uint16_comparator (fun _ => True) s l) /\
  (forall (port : ptr -> Z) s l R, makes port DevicePackets.conaddr_comparator s l R ->
    map_tree port DevicePackets.conaddr_comparator (fun _ => True) s l).
Proof.
  split_and!; intros; eapply finite_map_ok; try done; try apply _.
  - apply conaddr_comparator_0.
  - apply uint16_comparator_0.
  - apply port_comparator_0.
Qed.
End conntrees.

Module ConnTreesWitnesses.
#[local] Existing Instances UdpGw.conaddr_eq_dec UdpGw.conaddr_countable.
(** Two connections to one server, in a tree, and a third one in the heap. *)
Definition client_addr (port : Z) : UdpGw.conaddr_t :=
  UdpGw.mk_conaddr (BAddr_IPv4 0x0200000a (ntoh16 port)) (BAddr_IPv4 0x01020304 (ntoh16 53)).
Definition demo_conaddr (p : ptr) : UdpGw.conaddr_t :=
  match p with 0%nat => client_addr 1000 | 1%nat => client_addr 2000 | _ => client_addr 3000 end.
Definition free_node : node_t := mk_node None None None 0.
Definition demo_conns : heap_t :=
  mk_heap (Some 0%nat) {[ 0%nat := mk_node None None (Some 1%nat) 1; 1%nat := mk_node (Some 0%nat) None None 0;
    2%nat := free_node ]}.
Lemma demo_conns_makes : makes demo_conaddr UdpGw.conaddr_comparator demo_conns [0; 1]%nat [(2%nat, free_node)].
Proof.
  exists (Node Leaf 0%nat 1 (Node Leaf 1%nat 0 Leaf)). split_and!.
  - split; [done|]. split; [apply (bool_decide_unpack _); by vm_compute|]. by vm_compute.
  - cbn. lia.
  - done.
  - repeat constructor; by vm_compute.
Qed.
Lemma demo_conaddr_wf p : conaddr_wf (demo_conaddr p).
Proof. destruct p as [|[|p]]; split; cbn; vm_compute; intuition discriminate. Qed.

Lemma connection_trees_are_maps_witness :
  BAVL_LookupExact demo_conaddr UdpGw.conaddr_comparator (client_addr 2000) demo_conns = Some (Some 1%nat, demo_conns, []) /\
  BAVL_LookupExact demo_conaddr UdpGw.conaddr_comparator (client_addr 9) demo_conns = Some (None, demo_conns, []) /\
  exists ref s' l' R', BAVL_Insert demo_conaddr UdpGw.conaddr_comparator 2%nat demo_conns = Some ((true, ref), s', []) /\
    makes demo_conaddr UdpGw.conaddr_comparator s' l' R' /\
    tree_map demo_conaddr l' = <[client_addr 3000 := 2%nat]> (tree_map demo_conaddr [0; 1]%nat).
Proof.
  destruct (proj1 connection_trees_are_maps demo_conaddr demo_conns [0; 1]%nat [(2%nat, free_node)]
    demo_conaddr_wf demo_conns_makes) as (H1 & H2 & _).
  split; [exact (H1 (client_addr 2000) (demo_conaddr_wf 1%nat))|].
  split; [exact (H1 (client_addr 9) ltac:(split; cbn; vm_compute; intuition discriminate))|].
  apply (H2 2%nat).
  - apply elem_of_dom. by eexists.
  - apply (bool_decide_unpack _). by vm_compute.
Defined.
End ConnTreesWitnesses.
