(* ===== verification/FairQueue.v ===== *)
(** * The fair packet queue

    [flow/PacketPassFairQueue.c]: packets of many flows over one output.  Each
    flow has a time, which grows by the size of each packet it has sent; the
    queued flow with the smallest time sends next.

    Flows are objects in a heap.  The tree of queued flows is its sequence in
    tree order, into which a flow is inserted by comparing it with those that
    are there: that the sequence stays sorted although the times of its members
    change is part of what is proved.  [uint64_t] arithmetic is written out. *)
From stdpp Require Import sorting.
From S2P Require Import Prelude OrderedTree.

Definition FAIRQUEUE_MAX_TIME : Z := UINT64_MAX.

(** ** State *)

Record PacketPassFairQueueFlow := mk_flow {
  handler_busy : bool;
  time : Z;
  is_queued : bool;
  queued_data : bytes;
}.
#[export] Instance flow_eta : Eta PacketPassFairQueueFlow := fun r =>
  mk_flow (handler_busy r) (time r) (is_queued r) (queued_data r).

(** [live] tells whether the queue has been freed. *)
Record PacketPassFairQueue := mk_queue {
  output_mtu : Z;
  use_cancel : bool;
  packet_weight : Z;
  sending_flow : option ptr;
  sending_len : Z;
  previous_flow : option ptr;
  queued_tree : list ptr;
  flows_list : list ptr;
  freeing : bool;
  schedule_job : bool;
  flows : gmap ptr PacketPassFairQueueFlow;
  live : bool;
}.
#[export] Instance queue_eta : Eta PacketPassFairQueue := fun r =>
  mk_queue (output_mtu r) (use_cancel r) (packet_weight r) (sending_flow r) (sending_len r)
    (previous_flow r) (queued_tree r) (flows_list r) (freeing r) (schedule_job r) (flows r) (live r).

Inductive out :=
  | Output_Send (data : bytes)
  | Output_RequestCancel
  | Input_Done (flow : ptr)
  | Busy (flow : ptr).
#[export] Instance out_eq_dec : EqDecision out.
Proof. solve_decision. Defined.

Definition hdl := handler PacketPassFairQueue out.

(** Access through a pointer. *)
Definition deref (p : ptr) : hdl PacketPassFairQueueFlow :=
  m ← get; of_option (flows m !! p).
Definition set_flow (p : ptr) (f : PacketPassFairQueueFlow -> PacketPassFairQueueFlow) : hdl unit :=
  fl ← deref p; modify (fun m => m <| flows := <[p := f fl]> (flows m) |>).

(** ** The tree *)

(** The comparison of the tree: addresses decide between equal times. *)
Definition compare_flows (f1 f2 : ptr) : hdl Z :=
  fl1 ← deref f1;
  fl2 ← deref f2;
  let cmp := B_COMPARE (time fl1) (time fl2) in
  if negb (cmp =? 0) then mret cmp else mret (B_COMPARE (Z.of_nat f1) (Z.of_nat f2)).

Definition Tree_Insert (p : ptr) : hdl unit :=
  m ← get;
  r ← tree_insert compare_flows p (queued_tree m);
  t ← of_option r;
  modify (fun m => m <| queued_tree := t |>).
Definition Tree_Remove (p : ptr) : hdl unit :=
  m ← get;
  ASSERT (bool_decide (p ∈ queued_tree m));;
  modify (fun m => m <| queued_tree := without p (queued_tree m) |>).
Definition Tree_GetFirst : hdl (option ptr) := m ← get; mret (head (queued_tree m)).

(** ** Operations *)

Definition get_current_time : hdl Z :=
  m ← get;
  match sending_flow m with
  | Some p => fl ← deref p; mret (time fl)
  | None =>
      first_flow ← Tree_GetFirst;
      '(t, have) ←
        match first_flow with
        | Some p => fl ← deref p; ASSERT (is_queued fl);; mret (time fl, true)
        | None => mret (0, false)
        end;
      '(t, have) ←
        match previous_flow m with
        | Some p =>
            fl ← deref p;
            if negb have || (time fl <? t) then mret (time fl, true) else mret (t, have)
        | None => mret (t, have)
        end;
      mret (if have : bool then t else 0)
  end.

(** The loop over all flows. *)
Fixpoint subtract_loop (flow : ptr) (subtract : Z) (l : list ptr) : hdl unit :=
  match l with
  | [] => mret tt
  | someflow :: l =>
      fl ← deref someflow;
      (if (time fl <? subtract) && negb (bool_decide (someflow = flow)) then
         ASSERT (negb (is_queued fl));;
         set_flow someflow (fun fl => fl <| time := 0 |>)
       else
         set_flow someflow (fun fl => fl <| time := to_u64 (time fl - subtract) |>));;
      subtract_loop flow subtract l
  end.

Definition increment_sent_flow (flow : ptr) (amount : Z) : hdl unit :=
  m ← get;
  fl ← deref flow;
  ASSERT (amount <=? FAIRQUEUE_MAX_TIME);;
  ASSERT (negb (is_queued fl));;
  ASSERT (bool_decide (sending_flow m = None));;
  (if FAIRQUEUE_MAX_TIME - time fl <? amount then
     first_flow ← Tree_GetFirst;
     subtract ← match first_flow with
                | None => mret (time fl)
                | Some p => ffl ← deref p; ASSERT (is_queued ffl);; mret (time ffl)
                end;
     subtract_loop flow subtract (flows_list m)
   else mret tt);;
  set_flow flow (fun fl => fl <| time := to_u64 (time fl + amount) |>).

Definition schedule : hdl unit :=
  m ← get;
  ASSERT (bool_decide (sending_flow m = None));;
  ASSERT (bool_decide (previous_flow m = None));;
  ASSERT (negb (freeing m));;
  ASSERT (negb (bool_decide (queued_tree m = [])));;
  first ← Tree_GetFirst;
  qflow ← of_option first;
  fl ← deref qflow;
  ASSERT (is_queued fl);;
  Tree_Remove qflow;;
  set_flow qflow (fun fl => fl <| is_queued := false |>);;
  call (Output_Send (queued_data fl));;
  modify (fun m => m <| sending_flow := Some qflow |> <| sending_len := len (queued_data fl) |>).

Definition schedule_job_handler : hdl unit :=
  m ← get;
  ASSERT (bool_decide (sending_flow m = None));;
  ASSERT (negb (freeing m));;
  modify (fun m => m <| previous_flow := None |>);;
  m ← get;
  if negb (bool_decide (queued_tree m = [])) then schedule else mret tt.

Definition input_handler_send (flow : ptr) (data : bytes) : hdl unit :=
  m ← get;
  fl ← deref flow;
  ASSERT (negb (bool_decide (sending_flow m = Some flow)));;
  ASSERT (negb (is_queued fl));;
  ASSERT (negb (freeing m));;
  (if bool_decide (previous_flow m = Some flow) then
     modify (fun m => m <| previous_flow := None |>)
   else
     t ← get_current_time;
     set_flow flow (fun fl => fl <| time := Z.max (time fl) t |>));;
  set_flow flow (fun fl => fl <| queued_data := data |>);;
  Tree_Insert flow;;
  set_flow flow (fun fl => fl <| is_queued := true |>);;
  m ← get;
  if bool_decide (sending_flow m = None) && negb (schedule_job m) then schedule else mret tt.

Definition output_handler_done : hdl unit :=
  m ← get;
  flow ← of_option (sending_flow m);
  fl ← deref flow;
  ASSERT (bool_decide (previous_flow m = None));;
  ASSERT (negb (schedule_job m));;
  ASSERT (negb (freeing m));;
  ASSERT (negb (is_queued fl));;
  modify (fun m => m <| sending_flow := None |>);;
  modify (fun m => m <| previous_flow := Some flow |>);;
  increment_sent_flow flow (to_u64 (packet_weight m + sending_len m));;
  modify (fun m => m <| schedule_job := true |>);;
  call (Input_Done flow);;
  fl ← deref flow;
  if handler_busy fl then
    set_flow flow (fun fl => fl <| handler_busy := false |>);;
    call (Busy flow)
  else mret tt.

(** The outer [None]: an assertion fails; the inner one: the result is 0. *)
Definition PacketPassFairQueue_Init (mtu : Z) (has_cancel use_cancel : bool) (packet_weight : Z)
    : option (option PacketPassFairQueue) :=
  if negb (0 <? packet_weight) then None else
  if negb (negb use_cancel || has_cancel) then None else
  if negb ((mtu <=? FAIRQUEUE_MAX_TIME) && (packet_weight <=? FAIRQUEUE_MAX_TIME - mtu))
  then Some None else
  Some (Some (mk_queue mtu use_cancel packet_weight None 0 None [] [] false false ∅ true)).

Definition PacketPassFairQueue_Free : hdl unit :=
  m ← get;
  ASSERT (bool_decide (flows_list m = []));;
  ASSERT (bool_decide (queued_tree m = []));;
  ASSERT (bool_decide (previous_flow m = None));;
  ASSERT (bool_decide (sending_flow m = None));;
  modify (fun m => m <| schedule_job := false |> <| live := false |>).

Definition PacketPassFairQueue_PrepareFree : hdl unit :=
  modify (fun m => m <| freeing := true |>).

Definition PacketPassFairQueueFlow_Init (flow : ptr) : hdl unit :=
  m ← get;
  ASSERT (negb (freeing m));;
  modify (fun m => m <| flows := <[flow := mk_flow false 0 false []]> (flows m) |>
                     <| flows_list := flows_list m ++ [flow] |>).

Definition PacketPassFairQueueFlow_Free (flow : ptr) : hdl unit :=
  m ← get;
  fl ← deref flow;
  ASSERT (freeing m || negb (bool_decide (sending_flow m = Some flow)));;
  (if bool_decide (sending_flow m = Some flow) then
     modify (fun m => m <| sending_flow := None |>) else mret tt);;
  (if bool_decide (previous_flow m = Some flow) then
     modify (fun m => m <| previous_flow := None |>) else mret tt);;
  (if is_queued fl then Tree_Remove flow else mret tt);;
  modify (fun m => m <| flows_list := filter (fun q => q <> flow) (flows_list m) |>
                     <| flows := delete flow (flows m) |>).

Definition PacketPassFairQueueFlow_IsBusy (flow : ptr) : hdl bool :=
  m ← get;
  ASSERT (negb (freeing m));;
  mret (bool_decide (sending_flow m = Some flow)).

Definition PacketPassFairQueueFlow_RequestCancel (flow : ptr) : hdl unit :=
  m ← get;
  ASSERT (bool_decide (sending_flow m = Some flow));;
  ASSERT (use_cancel m);;
  ASSERT (negb (freeing m));;
  ASSERT (negb (schedule_job m));;
  call Output_RequestCancel.

Definition PacketPassFairQueueFlow_SetBusyHandler (flow : ptr) : hdl unit :=
  m ← get;
  ASSERT (bool_decide (sending_flow m = Some flow));;
  ASSERT (negb (freeing m));;
  set_flow flow (fun fl => fl <| handler_busy := true |>).

(** ** Executions *)

Inductive event :=
  | Ev_flow_init (flow : ptr)
  | Ev_flow_free (flow : ptr)
  | Ev_send (flow : ptr) (data : bytes)
  | Ev_done
  | Ev_job
  | Ev_is_busy (flow : ptr)
  | Ev_cancel (flow : ptr)
  | Ev_set_busy (flow : ptr)
  | Ev_prepare_free
  | Ev_free.

#[export] Instance event_eq_dec : EqDecision event.
Proof. solve_decision. Defined.

Definition handle (e : event) : hdl unit :=
  match e with
  | Ev_flow_init flow => PacketPassFairQueueFlow_Init flow
  | Ev_flow_free flow => PacketPassFairQueueFlow_Free flow
  | Ev_send flow data => input_handler_send flow data
  | Ev_done => output_handler_done
  | Ev_job => modify (fun m => m <| schedule_job := false |>);; schedule_job_handler
  | Ev_is_busy flow => _ ← PacketPassFairQueueFlow_IsBusy flow; mret tt
  | Ev_cancel flow => PacketPassFairQueueFlow_RequestCancel flow
  | Ev_set_busy flow => PacketPassFairQueueFlow_SetBusyHandler flow
  | Ev_prepare_free => PacketPassFairQueue_PrepareFree
  | Ev_free => PacketPassFairQueue_Free
  end.

(** A flow has one packet at a time in the queue; the output reports the end of
    the send in progress; the job runs when it is set; between
    [PacketPassFairQueue_PrepareFree] and the end nothing but freeing is done. *)
Definition event_ok (m : PacketPassFairQueue) (e : event) : bool :=
  live m &&
  match e with
  | Ev_flow_init flow => negb (freeing m) && bool_decide (flows m !! flow = None)
  | Ev_flow_free flow =>
      bool_decide (is_Some (flows m !! flow))
      && (freeing m || negb (bool_decide (sending_flow m = Some flow)))
  | Ev_send flow data =>
      negb (freeing m) && (len data <=? output_mtu m)
      && match flows m !! flow with
         | Some fl => negb (is_queued fl) && negb (bool_decide (sending_flow m = Some flow))
         | None => false
         end
  | Ev_done => negb (freeing m) && bool_decide (is_Some (sending_flow m))
  | Ev_job => negb (freeing m) && schedule_job m
  | Ev_is_busy flow => negb (freeing m)
  | Ev_cancel flow => negb (freeing m) && use_cancel m && bool_decide (sending_flow m = Some flow)
  | Ev_set_busy flow => negb (freeing m) && bool_decide (sending_flow m = Some flow)
  | Ev_prepare_free => true
  | Ev_free => bool_decide (flows_list m = [])
  end.

Fixpoint run (m : PacketPassFairQueue) (es : list event) : option (PacketPassFairQueue * list out) :=
  match es with
  | [] => Some (m, [])
  | e :: es =>
      if event_ok m e then
        '(_, m1, l1) ← handle e m; '(m2, l2) ← run m1 es; Some (m2, l1 ++ l2)
      else None
  end.

(** ** What it promises *)

(** The time of a flow; the cost of what it sends when the send in progress
    ends; whether it has a packet in the queue or has just sent one. *)
Definition time_of (m : PacketPassFairQueue) (p : ptr) : Z := default 0 (time <$> flows m !! p).
Definition served (e : event) (m : PacketPassFairQueue) (p : ptr) : Z :=
  match e with
  | Ev_done => if bool_decide (sending_flow m = Some p) then packet_weight m + sending_len m else 0
  | _ => 0
  end.
Definition queued (m : PacketPassFairQueue) (p : ptr) : bool :=
  match flows m !! p with Some fl => is_queued fl | None => false end.
Definition backlogged (m : PacketPassFairQueue) (p : ptr) : bool :=
  queued m p || bool_decide (sending_flow m = Some p) || bool_decide (previous_flow m = Some p).
#[global] Arguments time_of : simpl never.
#[global] Arguments served : simpl never.
#[global] Arguments queued : simpl never.
#[global] Arguments backlogged : simpl never.

(** The service given to a flow by an execution, and whether a state predicate
    holds throughout it. *)
Fixpoint service (p : ptr) (m : PacketPassFairQueue) (es : list event) : Z :=
  match es with
  | [] => 0
  | e :: es =>
      served e m p + match handle e m with Some (_, m', _) => service p m' es | None => 0 end
  end.
Fixpoint throughout (P : PacketPassFairQueue -> bool) (m : PacketPassFairQueue) (es : list event) : bool :=
  P m && match es with
         | [] => true
         | e :: es => match handle e m with Some (_, m', _) => throughout P m' es | None => false end
         end.

(** The packets that wait, those sent, and those submitted. *)
Definition data_of (m : PacketPassFairQueue) (p : ptr) : bytes := default [] (queued_data <$> flows m !! p).
Definition pending (m : PacketPassFairQueue) : list bytes := map (data_of m) (queued_tree m).
Definition sends (l : list out) : list bytes :=
  omap (fun o => match o with Output_Send data => Some data | _ => None end) l.
Definition submitted (es : list event) : list bytes :=
  omap (fun e => match e with Ev_send _ data => Some data | _ => None end) es.
Definition completions (es : list event) : Z :=
  len (filter (fun e => e = Ev_done) es).
#[global] Arguments data_of : simpl never.
#[global] Arguments pending : simpl never.

(** How many more sends may end before a flow is first: each one moves a flow
    that is not after it by at least one. *)
Definition ahead (m : PacketPassFairQueue) (p q : ptr) : Z :=
  if bool_decide (q = p) then 0 else Z.max 0 (time_of m p - time_of m q + 1).
Definition wait_bound (m : PacketPassFairQueue) (p : ptr) : Z :=
  foldr Z.add 0 (map (ahead m p) (flows_list m)).

(** ** Invariant *)

Module FairQueueProofs.

Abbreviation sorted m := (StronglySorted (before (time_of m))).

Record core (m : PacketPassFairQueue) : Prop := {
  q_weight : 0 < packet_weight m;
  q_mtu : 0 <= output_mtu m;
  q_max : output_mtu m + packet_weight m <= FAIRQUEUE_MAX_TIME;
  q_nodup : NoDup (flows_list m);
  q_list p : p ∈ flows_list m <-> is_Some (flows m !! p);
  q_tree p : p ∈ queued_tree m <-> queued m p = true;
  q_sorted : sorted m (queued_tree m);
  q_flow p fl : flows m !! p = Some fl ->
    0 <= time fl <= FAIRQUEUE_MAX_TIME /\ len (queued_data fl) <= output_mtu m;
  q_sending p : sending_flow m = Some p ->
    is_Some (flows m !! p) /\ queued m p = false /\ 0 <= sending_len m <= output_mtu m /\
    previous_flow m = None /\ schedule_job m = false /\
    forall q, queued m q = true -> time_of m p <= time_of m q;
  q_previous p : previous_flow m = Some p ->
    is_Some (flows m !! p) /\ queued m p = false;
}.
(** Unless it is being freed, the queue is idle only when it is empty. *)
Record inv (m : PacketPassFairQueue) : Prop := {
  q_core : core m;
  q_work : sending_flow m = None -> freeing m = false -> queued_tree m <> [] -> schedule_job m = true;
  q_job p : previous_flow m = Some p -> schedule_job m = true;
}.

(** The effect of a step on the times. *)
Record effect (sub : Z) (gain : ptr -> Z) (m m' : PacketPassFairQueue) : Prop := {
  e_sub : 0 <= sub;
  e_const : output_mtu m' = output_mtu m /\ packet_weight m' = packet_weight m;
  e_backlog p : backlogged m p = true -> backlogged m' p = true ->
    time_of m' p = time_of m p - sub + gain p;
  e_flow p : is_Some (flows m !! p) -> is_Some (flows m' !! p) ->
    time_of m p - sub + gain p <= time_of m' p;
}.

(** *** Times *)

Lemma time_of_lookup m p fl : flows m !! p = Some fl -> time_of m p = time fl.
Proof. intros E. unfold time_of. by rewrite E. Qed.
Lemma queued_lookup m p fl : flows m !! p = Some fl -> queued m p = is_queued fl.
Proof. intros E. unfold queued. by rewrite E. Qed.
Lemma queued_some m p : queued m p = true -> exists fl, flows m !! p = Some fl /\ is_queued fl = true.
Proof. unfold queued. destruct (flows m !! p); [eauto|done]. Qed.

Section update.
Context (m m' : PacketPassFairQueue) (p : ptr) (fl : PacketPassFairQueueFlow).
Hypothesis Hupd : flows m' = <[p := fl]> (flows m).
Lemma time_of_insert q : time_of m' q = if decide (q = p) then time fl else time_of m q.
Proof using Hupd.
  unfold time_of. rewrite Hupd. case_decide as E; [subst; by rewrite lookup_insert_eq|].
  by rewrite lookup_insert_ne by congruence.
Qed.
Lemma queued_insert q : queued m' q = if decide (q = p) then is_queued fl else queued m q.
Proof using Hupd.
  unfold queued. rewrite Hupd. case_decide as E; [subst; by rewrite lookup_insert_eq|].
  by rewrite lookup_insert_ne by congruence.
Qed.
End update.

Lemma data_of_lookup m p fl : flows m !! p = Some fl -> data_of m p = queued_data fl.
Proof. intros E. unfold data_of. by rewrite E. Qed.
Lemma data_of_insert_ne m m' p fl t : flows m' = <[p := fl]> (flows m) -> p ∉ t ->
  map (data_of m') t = map (data_of m) t.
Proof.
  intros Hupd Hp. apply map_ext_in. intros q Hin%list_elem_of_In. unfold data_of.
  rewrite Hupd, lookup_insert_ne by (intros ->; done). done.
Qed.

Lemma fq_wp_deref p m fl (Q : PacketPassFairQueueFlow -> PacketPassFairQueue -> list out -> Prop) :
  flows m !! p = Some fl -> Q fl m [] -> wp (deref p) m Q.
Proof. intros E HQ. unfold deref. hstep. hstep. by eapply wp_of_option. Qed.
Lemma wp_set_flow p f m fl (Q : unit -> PacketPassFairQueue -> list out -> Prop) :
  flows m !! p = Some fl -> Q tt (m <| flows := <[p := f fl]> (flows m) |>) [] ->
  wp (set_flow p f) m Q.
Proof. intros E HQ. unfold set_flow. hstep. eapply fq_wp_deref; [exact E|]. by hstep. Qed.

(** *** The tree *)

Lemma compare_flows_ok p q m :
  is_Some (flows m !! p) -> is_Some (flows m !! q) -> p <> q -> decides compare_flows (time_of m) m p q.
Proof.
  intros [flp Hp] [flq Hq] Hne. unfold decides, compare_flows.
  hstep. eapply fq_wp_deref; [exact Hp|]. hstep. eapply fq_wp_deref; [exact Hq|]. cbv zeta.
  unfold before. rewrite (time_of_lookup _ _ _ Hp), (time_of_lookup _ _ _ Hq).
  rewrite !B_COMPARE_sgn. destruct (Z.sgn (time flp - time flq) =? 0) eqn:E; cbn [negb];
    hstep; split_and!; try done; lia.
Qed.

Lemma tree_head m p t : core m -> queued_tree m = p :: t ->
  exists fl, flows m !! p = Some fl /\ is_queued fl = true /\
    forall q, queued m q = true -> time fl <= time_of m q.
Proof.
  intros Hi E. assert (Hp : queued m p = true) by (apply (q_tree _ Hi); rewrite E; left).
  apply queued_some in Hp as (fl & Hfl & Hq). exists fl. split_and!; try done. intros q Hin.
  rewrite <- (time_of_lookup _ _ _ Hfl). eapply sorted_head.
  - rewrite <- E. apply (q_sorted _ Hi).
  - rewrite <- E. by apply (q_tree _ Hi).
Qed.

(** *** The current time *)

Lemma get_current_time_ok m : core m ->
  wp get_current_time m (fun t m' l => m' = m /\ l = [] /\ 0 <= t <= FAIRQUEUE_MAX_TIME /\
    forall p, sending_flow m = Some p -> time_of m p <= t).
Proof.
  intros Hi. unfold get_current_time. hstep. hstep. destruct (sending_flow m) as [p|] eqn:Es.
  { destruct (q_sending _ Hi p Es) as ([fl Hp] & _). hstep. eapply fq_wp_deref; [exact Hp|]. hstep.
    split_and!; try done; try apply (q_flow _ Hi _ _ Hp). intros ? [= <-].
    rewrite (time_of_lookup _ _ _ Hp). lia. }
  unfold Tree_GetFirst. hstep. hstep. hstep. hstep. 
  assert (Hfirst : forall (Q : Z * bool -> PacketPassFairQueue -> list out -> Prop),
    (forall t have, 0 <= t <= FAIRQUEUE_MAX_TIME -> Q (t, have) m []) ->
    wp (match head (queued_tree m) with
        | Some p => fl ← deref p; ASSERT (is_queued fl);; mret (time fl, true)
        | None => mret (0, false)
        end) m Q).
  { intros Q HQ. destruct (queued_tree m) as [|p t] eqn:Et; cbn [head].
    - hstep. by apply HQ.
    - destruct (tree_head m p t Hi Et) as (fl & Hp & Hq & _).
      hstep. eapply fq_wp_deref; [exact Hp|]. hstep. hstep; [done|]. hstep.
      apply HQ. apply (q_flow _ Hi _ _ Hp). }
  hstep. apply Hfirst. intros t have Ht. hstep.
  destruct (previous_flow m) as [p|] eqn:Ep.
  - destruct (q_previous _ Hi p Ep) as ([fl Hp] & _). hstep. eapply fq_wp_deref; [exact Hp|].
    pose proof (proj1 (q_flow _ Hi _ _ Hp)).
    destruct (negb have || _); hstep; hstep; split_and!; try done; destruct have; lia || done.
  - hstep. hstep. split_and!; try done; destruct have; lia || done.
Qed.

(** *** The renormalisation of times *)

Definition subtracted (flow : ptr) (s : Z) (p : ptr) (fl : PacketPassFairQueueFlow)
    : PacketPassFairQueueFlow :=
  if (time fl <? s) && negb (bool_decide (p = flow)) then fl <| time := 0 |>
  else fl <| time := to_u64 (time fl - s) |>.

Lemma subtract_loop_ok flow s l m :
  NoDup l -> (forall p, p ∈ l -> is_Some (flows m !! p)) ->
  (forall p, p ∈ l -> queued m p = true -> s <= time_of m p) ->
  wp (subtract_loop flow s l) m (fun _ m' o => o = [] /\
    exists fs, m' = m <| flows := fs |> /\
      forall p, fs !! p = if decide (p ∈ l) then subtracted flow s p <$> flows m !! p else flows m !! p).
Proof.
  revert m. induction l as [|p l IH]; intros m Hn Hin Hq; cbn [subtract_loop].
  { hstep. split; [done|]. exists (flows m). split; [by destruct m|done]. }
  apply NoDup_cons in Hn as [Hp Hn]. destruct (Hin p ltac:(left)) as [fl Hfl].
  hstep. eapply fq_wp_deref; [exact Hfl|]. hstep.
  assert (Hset : forall (Q : unit -> PacketPassFairQueue -> list out -> Prop),
    Q tt (m <| flows := <[p := subtracted flow s p fl]> (flows m) |>) [] ->
    wp (if (time fl <? s) && negb (bool_decide (p = flow)) then
          ASSERT (negb (is_queued fl));; set_flow p (fun fl => fl <| time := 0 |>)
        else set_flow p (fun fl => fl <| time := to_u64 (time fl - s) |>)) m Q).
  { intros Q HQ. unfold subtracted in HQ. destruct (_ && _) eqn:E.
    - hstep. hstep.
      + destruct (is_queued fl) eqn:Eq; [|done]. pose proof (Hq p ltac:(left)) as H.
        rewrite (queued_lookup _ _ _ Hfl), (time_of_lookup _ _ _ Hfl) in H. specialize (H Eq). lia.
      + by eapply wp_set_flow.
    - by eapply wp_set_flow. }
  apply Hset. clear Hset. set (m1 := m <| flows := _ |>).
  assert (Hl : forall q, flows m1 !! q = if decide (q = p) then Some (subtracted flow s p fl) else flows m !! q).
  { intros q. cbn. case_decide; [subst; by rewrite lookup_insert_eq|by rewrite lookup_insert_ne by congruence]. }
  eapply wp_mono; [apply (IH m1)|].
  - done.
  - intros q Hq'. rewrite Hl. case_decide; [done|]. apply Hin. by right.
  - intros q Hq'. assert (q <> p) by congruence.
    rewrite (queued_insert m m1 p _ eq_refl), (time_of_insert m m1 p _ eq_refl), !decide_False by done.
    apply Hq. by right.
  - intros [] m' o (-> & fs & -> & Hfs). split; [done|]. exists fs. split; [done|]. intros q.
    rewrite Hfs, Hl. destruct (decide (q = p)) as [->|Hne].
    + rewrite decide_False, decide_True by (done || left). by rewrite Hfl.
    + destruct (decide (q ∈ l)) as [Hql|Hql]; [by rewrite decide_True by by right|].
      rewrite decide_False; [done|]. rewrite elem_of_cons. tauto.
Qed.

Lemma subtracted_spec flow s p fl :
  0 <= time fl <= FAIRQUEUE_MAX_TIME -> 0 <= s -> p <> flow ->
  time (subtracted flow s p fl) = Z.max 0 (time fl - s) /\
  is_queued (subtracted flow s p fl) = is_queued fl /\
  queued_data (subtracted flow s p fl) = queued_data fl.
Proof.
  intros Ht Hs Hne. unfold subtracted, FAIRQUEUE_MAX_TIME, UINT64_MAX in *.
  rewrite bool_decide_eq_false_2 by done. rewrite andb_true_r.
  destruct (time fl <? s) eqn:E; cbn; split_and!; try done; [lia|].
  rewrite to_u64_small; lia.
Qed.

(** The amount subtracted is between the time of the flow and those of all
    queued flows. *)
Lemma subtract_amount_ok m fl (k : Z -> hdl unit) (Q : unit -> PacketPassFairQueue -> list out -> Prop) :
  core m -> 0 <= time fl <= FAIRQUEUE_MAX_TIME ->
  (forall q, queued m q = true -> time fl <= time_of m q) ->
  (forall s, time fl <= s <= FAIRQUEUE_MAX_TIME -> (forall q, queued m q = true -> s <= time_of m q) ->
    wp (k s) m Q) ->
  wp (first_flow ← Tree_GetFirst;
      s ← match first_flow with
          | None => mret (time fl)
          | Some p => ffl ← deref p; ASSERT (is_queued ffl);; mret (time ffl)
          end;
      k s) m Q.
Proof.
  intros Hi Ht Hmin HQ. unfold Tree_GetFirst. hstep. hstep. hstep. hstep. hstep.
  destruct (queued_tree m) as [|p t] eqn:Et; cbn [head].
  - hstep. apply HQ; [lia|done].
  - destruct (tree_head m p t Hi Et) as (ffl & Hp & Hq & Hle).
    hstep. eapply fq_wp_deref; [exact Hp|]. hstep. hstep; [done|]. hstep.
    apply HQ; [|done]. pose proof (q_flow _ Hi _ _ Hp). split; [|lia].
    rewrite <- (time_of_lookup _ _ _ Hp). apply Hmin. by rewrite (queued_lookup _ _ _ Hp).
Qed.

(** The time of the flow that has just sent grows by [amount]; the times are
    first moved down by [s], no more than the queued ones have. *)
Record incremented (flow : ptr) (amount s : Z) (m m' : PacketPassFairQueue) : Prop := {
  n_state : m' = m <| flows := flows m' |>;
  n_sub : 0 <= s;
  n_queued q : queued m' q = queued m q;
  n_data q : data_of m' q = data_of m q;
  n_dom q : is_Some (flows m' !! q) <-> is_Some (flows m !! q);
  n_flow q fl : flows m' !! q = Some fl ->
    0 <= time fl <= FAIRQUEUE_MAX_TIME /\ len (queued_data fl) <= output_mtu m;
  n_time q : queued m q = true -> time_of m' q = time_of m q - s;
  n_other q : is_Some (flows m !! q) -> q <> flow -> time_of m q - s <= time_of m' q;
  n_self : time_of m' flow = time_of m flow - s + amount;
}.

Lemma incremented_intro flow fl amount s m fs fl' :
  core m -> flows m !! flow = Some fl -> is_queued fl = false -> 0 <= s ->
  (forall q, queued m q = true -> s <= time_of m q) ->
  time fl' = time fl - s + amount -> 0 <= time fl' <= FAIRQUEUE_MAX_TIME ->
  is_queued fl' = false -> queued_data fl' = queued_data fl ->
  (forall q, q <> flow -> fs !! q = subtracted flow s q <$> flows m !! q) ->
  incremented flow amount s m (m <| flows := <[flow := fl']> fs |>).
Proof.
  intros Hi Hfl Hnq Hs Hle Ht Hr Hnq' Hd Hfs. set (m' := m <| flows := _ |>).
  assert (Hfs' : forall q, flows m' !! q =
    if decide (q = flow) then Some fl' else subtracted flow s q <$> flows m !! q).
  { intros q. cbn. case_decide; [subst; apply lookup_insert_eq|].
    rewrite lookup_insert_ne by congruence. by apply Hfs. }
  assert (Hqf : queued m flow = false) by by rewrite (queued_lookup _ _ _ Hfl).
  assert (Hother : forall q f, q <> flow -> flows m !! q = Some f ->
    time_of m' q = Z.max 0 (time_of m q - s) /\ queued m' q = queued m q).
  { intros q f Hne Hq. unfold time_of, queued. rewrite Hfs', decide_False, Hq by done. cbn.
    pose proof (subtracted_spec flow s q f (proj1 (q_flow _ Hi _ _ Hq)) Hs Hne) as (-> & -> & _). done. }
  constructor.
  - by destruct m.
  - done.
  - intros q. destruct (decide (q = flow)) as [->|Hne].
    + rewrite Hqf. unfold queued. by rewrite Hfs', decide_True by done.
    + destruct (flows m !! q) as [f|] eqn:E; [by apply (Hother q f)|].
      unfold queued. by rewrite Hfs', decide_False, E by done.
  - intros q. unfold data_of. rewrite Hfs'. case_decide as E; [subst; by rewrite Hfl; cbn; rewrite Hd|].
    destruct (flows m !! q) as [f|] eqn:Eq; [|done]. cbn.
    pose proof (subtracted_spec flow s q f (proj1 (q_flow _ Hi _ _ Eq)) Hs E) as (_ & _ & ->). done.
  - intros q. rewrite Hfs'. case_decide; [subst; rewrite Hfl; split; eauto|by rewrite fmap_is_Some].
  - intros q f. rewrite Hfs'. case_decide as E.
    + intros [= <-]. rewrite Hd. pose proof (q_flow _ Hi _ _ Hfl) as [_ ?]. done.
    + destruct (flows m !! q) as [f0|] eqn:Eq; [|done]. intros [= <-].
      pose proof (q_flow _ Hi _ _ Eq) as [Hf0 ?].
      pose proof (subtracted_spec flow s q f0 Hf0 Hs E) as (-> & _ & ->). split; [|done].
      unfold FAIRQUEUE_MAX_TIME, UINT64_MAX in *. lia.
  - intros q Hq. pose proof (queued_some _ _ Hq) as (f & Hf & _).
    destruct (Hother q f) as [-> _]; [congruence|done|]. specialize (Hle q Hq). lia.
  - intros q [f Hf] Hne. destruct (Hother q f) as [-> _]; [done|done|]. lia.
  - rewrite (time_of_lookup m flow fl Hfl). unfold time_of. by rewrite Hfs', decide_True by done.
Qed.

Lemma increment_sent_flow_ok flow amount m :
  core m -> is_Some (flows m !! flow) -> queued m flow = false -> sending_flow m = None ->
  0 <= amount <= FAIRQUEUE_MAX_TIME ->
  (forall q, queued m q = true -> time_of m flow <= time_of m q) ->
  wp (increment_sent_flow flow amount) m (fun _ m' l => l = [] /\
    exists s, incremented flow amount s m m').
Proof.
  intros Hi [fl Hfl] Hnq Hs Ha Hmin. rewrite (time_of_lookup _ _ _ Hfl) in Hmin.
  rewrite (queued_lookup _ _ _ Hfl) in Hnq. unfold increment_sent_flow.
  hstep. hstep. hstep. eapply fq_wp_deref; [exact Hfl|].
  hstep. hstep; [lia|]. hstep. hstep; [by rewrite Hnq|]. hstep. hstep; [by apply bool_decide_eq_true_2|].
  pose proof (proj1 (q_flow _ Hi _ _ Hfl)) as Ht.
  hstep. destruct (_ <? amount) eqn:Eo; cycle 1.
  { hstep. eapply wp_set_flow; [exact Hfl|]. split; [done|]. exists 0.
    unfold FAIRQUEUE_MAX_TIME, UINT64_MAX in *.
    eapply incremented_intro; try done; cbn; rewrite ?to_u64_small;
      unfold FAIRQUEUE_MAX_TIME, UINT64_MAX; try lia.
    - intros q Hq. specialize (Hmin q Hq). lia.
    - intros q Hne. destruct (flows m !! q) as [f|] eqn:E; [|done]. cbn. f_equal.
      pose proof (q_flow _ Hi _ _ E) as [Hf _]. unfold FAIRQUEUE_MAX_TIME, UINT64_MAX in Hf.
      unfold subtracted. destruct (_ && _) eqn:E'; [lia|]. rewrite Z.sub_0_r, to_u64_small by lia.
      by destruct f. }
  apply subtract_amount_ok; [done|done|done|]. intros s Hs1 Hs2.
  eapply wp_mono.
  { apply (subtract_loop_ok flow s); [apply (q_nodup _ Hi)|intros p; apply (q_list _ Hi)|auto]. }
  intros [] m1 l (-> & fs & -> & Hfs). set (m1 := m <| flows := fs |>).
  assert (Hfs' : forall q, fs !! q = subtracted flow s q <$> flows m !! q).
  { intros q. rewrite Hfs. case_decide as Hq; [done|]. destruct (flows m !! q) eqn:E; [|done].
    destruct Hq. apply (q_list _ Hi). eauto. }
  assert (Hf1 : fs !! flow = Some (fl <| time := to_u64 (time fl - s) |>)).
  { rewrite Hfs', Hfl. cbn. unfold subtracted. by rewrite bool_decide_eq_true_2, andb_false_r. }
  eapply wp_set_flow; [exact Hf1|]. split; [done|]. exists s.
  assert (Hwrap : to_u64 (to_u64 (time fl - s) + amount) = time fl - s + amount).
  { unfold to_u64. rewrite Zplus_mod_idemp_l. apply Z.mod_small.
    unfold FAIRQUEUE_MAX_TIME, UINT64_MAX in *. lia. }
  match goal with |- context [<[flow := ?f]> _] =>
    change (incremented flow amount s m (m <| flows := <[flow := f]> fs |>)) end.
  apply (incremented_intro flow fl); try done; cbn; rewrite ?Hwrap;
    unfold FAIRQUEUE_MAX_TIME, UINT64_MAX in *; lia || done.
Qed.

(** *** Scheduling *)

(** A step that leaves the times alone. *)
Record same (m m' : PacketPassFairQueue) : Prop := {
  s_const : output_mtu m' = output_mtu m /\ packet_weight m' = packet_weight m;
  s_time p : time_of m' p = time_of m p;
  s_dom p : is_Some (flows m' !! p) <-> is_Some (flows m !! p);
  s_backlog p : backlogged m' p = true -> backlogged m p = true;
}.
Lemma same_refl m : same m m.
Proof. by constructor. Qed.
#[local] Hint Resolve same_refl : core.
Lemma effect_same s g m m1 m2 : effect s g m m1 -> same m1 m2 -> effect s g m m2.
Proof.
  intros [H1 [H2 H2'] H3 H4] [[S1 S1'] S2 S3 S4]. constructor; [done|by rewrite S1, S1'|..].
  - intros p Hp Hp'. rewrite S2. auto.
  - intros p Hp Hp'%S3. rewrite S2. auto.
Qed.
Lemma same_effect m m' : same m m' -> effect 0 (fun _ => 0) m m'.
Proof. intros [? H _ _]. constructor; [done|done|..]; intros p _ _; rewrite H; lia. Qed.

Lemma backlogged_spec m p :
  backlogged m p = true <->
  queued m p = true \/ sending_flow m = Some p \/ previous_flow m = Some p.
Proof. unfold backlogged. rewrite !orb_true_iff, !bool_decide_eq_true. tauto. Qed.

Lemma schedule_ok m :
  core m -> sending_flow m = None -> previous_flow m = None -> freeing m = false ->
  schedule_job m = false -> queued_tree m <> [] ->
  wp schedule m (fun _ m' l => inv m' /\ same m m' /\ pending m ≡ₚ sends l ++ pending m').
Proof.
  intros Hi Hs Hp Hf Hj Hne. unfold schedule. hstep. hstep.
  do 4 (hstep; hstep; [first [by apply bool_decide_eq_true_2|by rewrite Hf|by rewrite bool_decide_eq_false_2]|]).
  destruct (queued_tree m) as [|p t] eqn:Et; [done|].
  destruct (tree_head m p t Hi Et) as (fl & Hfl & Hq & Hle).
  unfold Tree_GetFirst. hstep. hstep. hstep. hstep. rewrite Et. cbn [head].
  hstep. eapply wp_of_option; [done|]. hstep. eapply fq_wp_deref; [exact Hfl|]. hstep. hstep; [done|].
  unfold Tree_Remove, without. hstep. hstep. hstep. hstep. hstep; [apply bool_decide_eq_true_2; rewrite Et; left|].
  hstep. hstep. eapply wp_set_flow; [exact Hfl|]. hstep. hstep. hstep.
  set (fl' := fl <| is_queued := false |>). set (m' := _ <| sending_len := _ |>).
  pose proof (queued_insert m m' p fl' eq_refl) as Hqi.
  pose proof (time_of_insert m m' p fl' eq_refl) as Hti. cbn [fl' is_queued] in Hqi.
  pose proof (time_of_lookup _ _ _ Hfl) as Htp.
  assert (Htime : forall q, time_of m' q = time_of m q).
  { intros q. rewrite Hti. case_decide; [subst; by rewrite Htp|done]. }
  assert (Hdom : forall q, is_Some (flows m' !! q) <-> is_Some (flows m !! q)).
  { intros q. change (flows m') with (<[p := fl']> (flows m)). rewrite lookup_insert_is_Some.
    destruct (decide (q = p)) as [->|]; [|naive_solver]. split; eauto. }
  split_and!; [constructor; [constructor| |]|constructor|].
  - apply (q_weight _ Hi).
  - apply (q_mtu _ Hi).
  - apply (q_max _ Hi).
  - apply (q_nodup _ Hi).
  - intros q. rewrite Hdom. apply (q_list _ Hi).
  - intros q. change (queued_tree m') with (filter (fun q => q <> p) (queued_tree m)).
    rewrite list_elem_of_filter, Hqi, (q_tree _ Hi). case_decide; naive_solver.
  - eapply sorted_ext; [intros q _; apply Htime|]. apply sorted_filter, (q_sorted _ Hi).
  - intros q f. change (flows m') with (<[p := fl']> (flows m)).
    destruct (decide (q = p)) as [->|].
    + rewrite lookup_insert_eq. intros [= <-]. apply (q_flow _ Hi _ _ Hfl).
    + rewrite lookup_insert_ne by congruence. apply (q_flow _ Hi).
  - intros q [= <-]. split_and!; try done.
    + apply Hdom. eauto.
    + by rewrite Hqi, decide_True by done.
    + apply len_nonneg.
    + apply (q_flow _ Hi _ _ Hfl).
    + intros q. rewrite Hqi, !Htime, Htp. case_decide; [done|]. apply Hle.
  - intros q. change (previous_flow m') with (previous_flow m). by rewrite Hp.
  - done.
  - intros q. change (previous_flow m') with (previous_flow m). by rewrite Hp.
  - done.
  - exact Htime.
  - exact Hdom.
  - intros q. rewrite !backlogged_spec, Hqi. change (previous_flow m') with (previous_flow m).
    change (sending_flow m') with (Some p). intros [H|[[= <-]|H]].
    + case_decide; [done|]. by left.
    + left. by rewrite (queued_lookup _ _ _ Hfl).
    + by right; right.
  - pose proof (sorted_nodup _ _ (q_sorted _ Hi)) as Hnd. rewrite Et in Hnd.
    apply NoDup_cons in Hnd as [Hpt _].
    assert (Hm' : queued_tree m' = t).
    { change (queued_tree m') with (filter (fun q => q <> p) (queued_tree m)). rewrite Et.
      rewrite filter_cons_False by tauto. by apply without_not_in. }
    unfold pending. rewrite Et, Hm'. cbn. rewrite (data_of_insert_ne m m' p fl' t eq_refl Hpt).
    by rewrite (data_of_lookup _ _ _ Hfl).
Qed.

(** *** Queueing *)

Lemma enqueue_ok p data m fl :
  core m -> flows m !! p = Some fl -> is_queued fl = false ->
  sending_flow m <> Some p -> previous_flow m <> Some p -> freeing m = false ->
  len data <= output_mtu m ->
  (forall s, sending_flow m = Some s -> time_of m s <= time_of m p) ->
  (forall q, previous_flow m = Some q -> schedule_job m = true) ->
  wp (set_flow p (fun fl => fl <| queued_data := data |>);;
      Tree_Insert p;;
      set_flow p (fun fl => fl <| is_queued := true |>);;
      m ← get;
      if bool_decide (sending_flow m = None) && negb (schedule_job m) then schedule else mret tt) m
    (fun _ m' l => inv m' /\ data :: pending m ≡ₚ sends l ++ pending m' /\ output_mtu m' = output_mtu m /\ packet_weight m' = packet_weight m /\
      (forall q, time_of m' q = time_of m q) /\
      (forall q, is_Some (flows m' !! q) <-> is_Some (flows m !! q)) /\
      (forall q, backlogged m' q = true -> q = p \/ backlogged m q = true)).
Proof.
  intros Hi Hfl Hnq Hns Hnp Hf Hd Hs Hj. assert (Hqp : queued m p = false) by by rewrite (queued_lookup _ _ _ Hfl).
  hstep. eapply wp_set_flow; [exact Hfl|]. set (fl1 := fl <| queued_data := data |>). set (m1 := m <| flows := _ |>).
  assert (Ht1 : forall q, time_of m1 q = time_of m q).
  { intros q. rewrite (time_of_insert m m1 p fl1 eq_refl). case_decide; [subst|done].
    by rewrite (time_of_lookup _ _ _ Hfl). }
  assert (Hd1 : forall q, is_Some (flows m1 !! q) <-> is_Some (flows m !! q)).
  { intros q. change (flows m1) with (<[p := fl1]> (flows m)). rewrite lookup_insert_is_Some.
    destruct (decide (q = p)) as [->|]; [|naive_solver]. split; eauto. }
  hstep. unfold Tree_Insert. hstep. hstep. hstep. eapply wp_mono.
  { apply (tree_insert_ok compare_flows (time_of m1) m1 p (queued_tree m)).
    - intros q Hq. apply (q_tree _ Hi) in Hq.
      apply compare_flows_ok; [apply Hd1; eauto| |congruence].
      apply Hd1. apply queued_some in Hq as (f & -> & _). eauto.
    - apply (sorted_ext (time_of m)); [auto|apply (q_sorted _ Hi)]. }
  intros r m1' l (-> & -> & t' & -> & Ht' & Hst). hstep. eapply wp_of_option; [done|]. hstep.
  hstep. eapply wp_set_flow; [apply lookup_insert_eq|]. hstep. hstep.
  set (fl2 := fl1 <| is_queued := true |>). set (m2 := _ <| flows := _ |>).
  assert (Hm2 : flows m2 = <[p := fl2]> (flows m)) by apply insert_insert_eq.
  pose proof (queued_insert m m2 p fl2 Hm2) as Hq2. cbn [fl2 is_queued] in Hq2.
  assert (Ht2 : forall q, time_of m2 q = time_of m q).
  { intros q. rewrite (time_of_insert m m2 p fl2 Hm2). case_decide; [subst|done].
    by rewrite (time_of_lookup _ _ _ Hfl). }
  assert (Hd2 : forall q, is_Some (flows m2 !! q) <-> is_Some (flows m !! q)).
  { intros q. rewrite Hm2, lookup_insert_is_Some. destruct (decide (q = p)) as [->|]; [|naive_solver].
    split; eauto. }
  assert (Hb2 : forall q, backlogged m2 q = true -> q = p \/ backlogged m q = true).
  { intros q. rewrite !backlogged_spec, Hq2. case_decide; tauto. }
  assert (Hc2 : core m2).
  { constructor.
    - apply (q_weight _ Hi).
    - apply (q_mtu _ Hi).
    - apply (q_max _ Hi).
    - apply (q_nodup _ Hi).
    - intros q. rewrite Hd2. apply (q_list _ Hi).
    - intros q. change (queued_tree m2) with t'. rewrite Ht', elem_of_cons, Hq2, (q_tree _ Hi).
      case_decide; naive_solver.
    - apply (sorted_ext (time_of m1)); [|exact Hst]. intros q _. by rewrite Ht1, Ht2.
    - intros q f. rewrite Hm2. destruct (decide (q = p)) as [->|].
      + rewrite lookup_insert_eq. intros [= <-]. split; [apply (q_flow _ Hi _ _ Hfl)|exact Hd].
      + rewrite lookup_insert_ne by congruence. apply (q_flow _ Hi).
    - intros s Es. change (sending_flow m2) with (sending_flow m) in Es.
      destruct (q_sending _ Hi s Es) as (S1 & S2 & S3 & S4 & S5 & S6). split_and!; try done.
      + by apply Hd2.
      + rewrite Hq2, decide_False by congruence. done.
      + apply S3.
      + apply S3.
      + intros q. rewrite Hq2, !Ht2. case_decide; [subst; auto|apply S6].
    - intros s Es. change (previous_flow m2) with (previous_flow m) in Es.
      destruct (q_previous _ Hi s Es) as (S1 & S2). split; [by apply Hd2|].
      rewrite Hq2, decide_False by congruence. done. }
  assert (Hp2 : pending m2 ≡ₚ data :: pending m).
  { unfold pending at 1. change (queued_tree m2) with t'. rewrite Ht'. cbn.
    rewrite (data_of_insert_ne m m2 p fl2 _ Hm2) by (rewrite (q_tree _ Hi); congruence).
    rewrite (data_of_lookup m2 p fl2); [done|]. rewrite Hm2. apply lookup_insert_eq. }
  destruct (bool_decide (sending_flow m2 = None) && negb (schedule_job m2)) eqn:Eb; cycle 1.
  - hstep. split_and!; try done. constructor; [done| |exact Hj]. intros Hs2 _ _.
    rewrite bool_decide_eq_true_2 in Eb by done. by destruct (schedule_job m2).
  - apply andb_true_iff in Eb as [Es%bool_decide_eq_true Ej%negb_true_iff].
    eapply wp_mono; [apply (schedule_ok m2)|].
    + done.
    + done.
    + destruct (previous_flow m2) as [q|] eqn:Ep; [|done].
      specialize (Hj q Ep). change (schedule_job m2) with (schedule_job m) in Ej. congruence.
    + done.
    + done.
    + intros E. change (queued_tree m2) with t' in E. rewrite E in Ht'. by apply Permutation_nil_cons in Ht'.
    + intros [] m3 l3 (Hi3 & [S1 S2 S3 S4] & S5). split_and!; try done.
      * by rewrite <- Hp2.
      * by destruct S1 as [-> _].
      * by destruct S1 as [_ ->].
      * intros q. by rewrite S2.
      * intros q. by rewrite S3.
      * auto.
Qed.

(** *** Handlers *)

Lemma send_ok p data m :
  inv m -> event_ok m (Ev_send p data) = true ->
  wp (handle (Ev_send p data)) m (fun _ m' l => inv m' /\ effect 0 (fun _ => 0) m m' /\
    data :: pending m ≡ₚ sends l ++ pending m').
Proof.
  intros [Hi Hw Hj] He. unfold event_ok in He. apply andb_true_iff in He as [_ He].
  apply andb_true_iff in He as [[Hf%negb_true_iff Hd]%andb_true_iff He].
  destruct (flows m !! p) as [fl|] eqn:Hfl; [|done].
  apply andb_true_iff in He as [Hq%negb_true_iff Hs%negb_true_iff%bool_decide_eq_false].
  pose proof (q_flow _ Hi _ _ Hfl) as [Hr Hl].
  cbn [handle]. unfold input_handler_send. hstep. hstep. hstep. eapply fq_wp_deref; [exact Hfl|].
  hstep. hstep; [by rewrite bool_decide_eq_false_2|]. hstep. hstep; [by rewrite Hq|].
  hstep. hstep; [by rewrite Hf|].
  set (tail := set_flow p (fun fl => fl <| queued_data := data |>);; _).
  hstep. case_bool_decide as Hp.
  - hstep. set (m1 := m <| previous_flow := None |>).
    assert (Hc1 : core m1).
    { destruct Hi. constructor; try done. intros s Es. by destruct (q_sending0 s Es) as (? & ? & ? & ? & ? & ?). }
    eapply wp_mono; [apply (enqueue_ok p data m1 fl); try done|].
    + change (output_mtu m1) with (output_mtu m). lia.
    + intros s Es. destruct (q_sending _ Hi s Es) as (_ & _ & _ & ? & _). congruence.
    + intros [] m' l (Hi' & H0 & H1 & H2 & H3 & H4 & H5). split_and!; [done| |exact H0].
      constructor; [done|done| |].
      * intros q _ _. rewrite H3. change (time_of m1 q) with (time_of m q). lia.
      * intros q _ _. rewrite H3. change (time_of m1 q) with (time_of m q). lia.
  - hstep. eapply wp_mono; [by apply get_current_time_ok|].
    intros t m0 l (-> & -> & Ht & Hcur). eapply wp_set_flow; [exact Hfl|].
    set (fl1 := fl <| time := _ |>). set (m1 := m <| flows := _ |>).
    pose proof (time_of_lookup _ _ _ Hfl) as Htp.
    pose proof (time_of_insert m m1 p fl1 eq_refl) as Ht1. change (time fl1) with (Z.max (time fl) t) in Ht1.
    pose proof (queued_insert m m1 p fl1 eq_refl) as Hq1. cbn [fl1 is_queued] in Hq1.
    assert (Hqp : queued m p = false) by by rewrite (queued_lookup _ _ _ Hfl).
    assert (Hqs : forall q, queued m1 q = queued m q).
    { intros q. rewrite Hq1. case_decide; [subst; by rewrite Hqp|done]. }
    assert (Hle : forall q, time_of m q <= time_of m1 q).
    { intros q. rewrite Ht1. case_decide; [subst|]; lia. }
    assert (Hd1 : forall q, is_Some (flows m1 !! q) <-> is_Some (flows m !! q)).
    { intros q. change (flows m1) with (<[p := fl1]> (flows m)). rewrite lookup_insert_is_Some.
      destruct (decide (q = p)) as [->|]; [|naive_solver]. split; eauto. }
    assert (Hc1 : core m1).
    { constructor.
      - apply (q_weight _ Hi).
      - apply (q_mtu _ Hi).
      - apply (q_max _ Hi).
      - apply (q_nodup _ Hi).
      - intros q. rewrite Hd1. apply (q_list _ Hi).
      - intros q. rewrite Hqs. apply (q_tree _ Hi).
      - apply (sorted_ext (time_of m)); [|apply (q_sorted _ Hi)]. intros q Hin.
        rewrite Ht1, decide_False; [done|]. intros ->. apply (q_tree _ Hi) in Hin. congruence.
      - intros q f. change (flows m1) with (<[p := fl1]> (flows m)). destruct (decide (q = p)) as [->|].
        + rewrite lookup_insert_eq. intros [= <-]. cbn. lia.
        + rewrite lookup_insert_ne by congruence. apply (q_flow _ Hi).
      - intros s Es. change (sending_flow m1) with (sending_flow m) in Es.
        destruct (q_sending _ Hi s Es) as (S1 & S2 & S3 & S4 & S5 & S6). split_and!; try done.
        + by apply Hd1.
        + by rewrite Hqs.
        + apply S3.
        + apply S3.
        + intros q. rewrite Hqs. intros H. rewrite Ht1, decide_False; [|congruence].
          specialize (S6 q H). specialize (Hle q). lia.
      - intros s Es. destruct (q_previous _ Hi s Es) as (S1 & S2).
        split; [by apply Hd1|by rewrite Hqs]. }
    eapply wp_mono; [apply (enqueue_ok p data m1 fl1); try done|].
    + apply lookup_insert_eq.
    + change (output_mtu m1) with (output_mtu m). lia.
    + intros s Es. change (sending_flow m1) with (sending_flow m) in Es. rewrite !Ht1.
      rewrite decide_False by congruence. rewrite decide_True by done. specialize (Hcur s Es). lia.
    + intros [] m' l (Hi' & H0 & H1 & H2 & H3 & H4 & H5). split_and!; [done| |].
      2: { cbn [app]. rewrite <- H0. unfold pending at 2. change (queued_tree m1) with (queued_tree m).
        rewrite (data_of_insert_ne m m1 p fl1 _ eq_refl); [done|]. rewrite (q_tree _ Hi). congruence. }
      constructor; [done|done| |].
      * intros q Hb _. rewrite H3, Ht1. case_decide; [|lia]. subst q.
        apply backlogged_spec in Hb as [|[|]]; congruence.
      * intros q _ _. rewrite H3. specialize (Hle q). lia.
Qed.

Lemma incremented_core p amount s m m' :
  core m -> sending_flow m = None -> incremented p amount s m m' -> core m'.
Proof.
  intros Hi Hs [N0 N1 N2 _ N3 N4 N5 _ _].
  assert (Hq : queued_tree m' = queued_tree m) by by rewrite N0.
  assert (Hf : flows_list m' = flows_list m) by by rewrite N0.
  assert (Hse : sending_flow m' = None) by by rewrite N0.
  assert (Hp : previous_flow m' = previous_flow m) by by rewrite N0.
  assert (Hmtu : output_mtu m' = output_mtu m) by by rewrite N0.
  assert (Hw : packet_weight m' = packet_weight m) by by rewrite N0.
  constructor; rewrite ?Hq, ?Hf, ?Hse, ?Hp, ?Hmtu, ?Hw; try apply Hi.
  - intros q. rewrite N3. apply (q_list _ Hi).
  - intros q. rewrite N2. apply (q_tree _ Hi).
  - apply (sorted_shift (time_of m) _ s); [|apply (q_sorted _ Hi)].
    intros q Hin. apply N5. by apply (q_tree _ Hi).
  - exact N4.
  - done.
  - intros q Eq. destruct (q_previous _ Hi q Eq) as [S1 S2]. split; [by apply N3|by rewrite N2].
Qed.

(** The busy handler plays no role in the queue. *)
Lemma set_busy_core p fl b m : core m -> flows m !! p = Some fl ->
  let m' := m <| flows := <[p := fl <| handler_busy := b |>]> (flows m) |> in core m' /\ same m m'.
Proof.
  intros Hi Hfl. set (fl' := _ <| handler_busy := _ |>). intros m'.
  assert (Ht : forall q, time_of m' q = time_of m q).
  { intros q. rewrite (time_of_insert m m' p fl' eq_refl). case_decide; [subst|done].
    by rewrite (time_of_lookup _ _ _ Hfl). }
  assert (Hq : forall q, queued m' q = queued m q).
  { intros q. rewrite (queued_insert m m' p fl' eq_refl). case_decide; [subst|done].
    by rewrite (queued_lookup _ _ _ Hfl). }
  assert (Hd : forall q, is_Some (flows m' !! q) <-> is_Some (flows m !! q)).
  { intros q. change (flows m') with (<[p := fl']> (flows m)). rewrite lookup_insert_is_Some.
    destruct (decide (q = p)) as [->|]; [|naive_solver]. split; eauto. }
  split; constructor; try done.
  - apply (q_weight _ Hi).
  - apply (q_mtu _ Hi).
  - apply (q_max _ Hi).
  - apply (q_nodup _ Hi).
  - intros q. rewrite Hd. apply (q_list _ Hi).
  - intros q. rewrite Hq. apply (q_tree _ Hi).
  - apply (sorted_ext (time_of m)); [auto|apply (q_sorted _ Hi)].
  - intros q f. change (flows m') with (<[p := fl']> (flows m)). destruct (decide (q = p)) as [->|].
    + rewrite lookup_insert_eq. intros [= <-]. apply (q_flow _ Hi _ _ Hfl).
    + rewrite lookup_insert_ne by congruence. apply (q_flow _ Hi).
  - intros q Eq. destruct (q_sending _ Hi q Eq) as (S1 & S2 & S3 & S4 & S5 & S6).
    rewrite Hd, Hq, Ht. split_and!; try done; try apply S3. intros r. rewrite Hq, Ht. apply S6.
  - intros q Eq. rewrite Hd, Hq. by apply (q_previous _ Hi).
  - intros q. by rewrite !backlogged_spec, Hq.
Qed.

Lemma set_busy_data p fl b m : flows m !! p = Some fl ->
  forall q, data_of (m <| flows := <[p := fl <| handler_busy := b |>]> (flows m) |>) q = data_of m q.
Proof.
  intros Hfl q. unfold data_of. cbn. destruct (decide (q = p)) as [->|].
  - by rewrite lookup_insert_eq, Hfl.
  - by rewrite lookup_insert_ne by congruence.
Qed.

Lemma done_ok m :
  inv m -> event_ok m Ev_done = true ->
  wp (handle Ev_done) m (fun _ m' l => inv m' /\ (exists s, effect s (served Ev_done m) m m') /\
    pending m ≡ₚ sends l ++ pending m').
Proof.
  intros [Hi Hw _] He. unfold event_ok in He. apply andb_true_iff in He as [_ He].
  apply andb_true_iff in He as [Hf%negb_true_iff [p Es]%bool_decide_eq_true].
  destruct (q_sending _ Hi p Es) as (Hdom & Hqp & Hlen & Hprev & Hjob & Hmin).
  pose proof (q_weight _ Hi). pose proof (q_max _ Hi) as Hmax.
  cbn [handle]. unfold output_handler_done. hstep. hstep.
  hstep. eapply wp_of_option; [exact Es|]. destruct Hdom as [fl Hfl].
  hstep. eapply fq_wp_deref; [exact Hfl|]. pose proof (queued_lookup _ _ _ Hfl) as Hq.
  do 4 (hstep; hstep; [first [by apply bool_decide_eq_true_2|by rewrite Hjob|by rewrite Hf|by rewrite <- Hq, Hqp]|]).
  hstep. hstep. hstep. hstep. set (m1 := _ <| previous_flow := _ |>).
  assert (Hc1 : core m1).
  { destruct Hi. constructor; try done. intros q [= <-]. split; [|done].
    change (flows m1) with (flows m). eauto. }
  assert (Ha : to_u64 (packet_weight m + sending_len m) = packet_weight m + sending_len m).
  { apply to_u64_small. unfold FAIRQUEUE_MAX_TIME, UINT64_MAX in *. lia. }
  rewrite Ha. hstep. eapply wp_mono.
  { apply (increment_sent_flow_ok p _ m1); try done; lia. }
  intros [] m2 l (-> & s & Hinc). pose proof (incremented_core _ _ _ _ _ Hc1 eq_refl Hinc) as Hc2.
  destruct Hinc as [N0 N1 N2 Nd N3 N4 N5 N6 N7].
  assert (Hse : sending_flow m2 = None) by by rewrite N0.
  assert (Hp2 : previous_flow m2 = Some p) by by rewrite N0.
  hstep. hstep. set (m3 := _ <| schedule_job := _ |>). hstep. hstep. hstep.
  destruct (proj2 (N3 p)) as [fl2 Hfl2]; [change (flows m1) with (flows m); eauto|].
  eapply (fq_wp_deref p m3); [exact Hfl2|].
  assert (Hc3 : core m3).
  { destruct Hc2. constructor; try done. intros q Eq. change (sending_flow m3) with (sending_flow m2) in Eq.
    congruence. }
  assert (He3 : effect s (served Ev_done m) m m3).
  { assert (Hm3 : output_mtu m3 = output_mtu m /\ packet_weight m3 = packet_weight m).
    { change (output_mtu m3) with (output_mtu m2). change (packet_weight m3) with (packet_weight m2).
      by rewrite N0. }
    constructor; [done|done|..]; unfold served; rewrite Es; intros q; change (time_of m3 q) with (time_of m2 q).
    - intros Hb _. case_bool_decide as E.
      + injection E as <-. rewrite N7. change (time_of m1 p) with (time_of m p). lia.
      + apply backlogged_spec in Hb as [Hb|[Hb|Hb]]; [|congruence..].
        rewrite N5 by done. change (time_of m1 q) with (time_of m q). lia.
    - intros Hq' _. case_bool_decide as E.
      + injection E as <-. rewrite N7. change (time_of m1 p) with (time_of m p). lia.
      + change (time_of m q) with (time_of m1 q). enough (time_of m1 q - s <= time_of m2 q) by lia.
        apply N6; [done|congruence]. }
  assert (Hpe : pending m3 = pending m).
  { unfold pending. change (queued_tree m3) with (queued_tree m2). rewrite N0. 
    apply map_ext. exact Nd. }
  destruct (handler_busy fl2).
  - hstep. eapply (wp_set_flow p _ m3); [exact Hfl2|]. hstep.
    destruct (set_busy_core p fl2 false m3 Hc3 Hfl2) as [Hc4 Hs4].
    split_and!; [constructor; [exact Hc4|done|done]|exists s; by eapply effect_same|].
    cbn. rewrite <- Hpe. unfold pending. change (queued_tree (_ <| flows := _ |>)) with (queued_tree m3).
    apply reflexive_eq, map_ext. intros q. symmetry. apply (set_busy_data p fl2 false m3 Hfl2).
  - hstep. split_and!; [constructor; done|by exists s|]. cbn. by rewrite Hpe.
Qed.

Lemma job_ok m :
  inv m -> event_ok m Ev_job = true ->
  wp (handle Ev_job) m (fun _ m' l => inv m' /\ effect 0 (fun _ => 0) m m' /\
    pending m ≡ₚ sends l ++ pending m').
Proof.
  intros [Hi Hw Hj] He. unfold event_ok in He. apply andb_true_iff in He as [_ He].
  apply andb_true_iff in He as [Hf%negb_true_iff Hjob].
  assert (Hs : sending_flow m = None).
  { destruct (sending_flow m) as [p|] eqn:E; [|done].
    destruct (q_sending _ Hi p E) as (_ & _ & _ & _ & ? & _). congruence. }
  cbn [handle]. hstep. hstep. unfold schedule_job_handler. hstep. hstep.
  hstep. hstep; [by apply bool_decide_eq_true_2|]. hstep. hstep; [by apply negb_true_iff|].
  hstep. hstep. set (m1 := _ <| previous_flow := _ |>).
  assert (Hc1 : core m1) .
  { destruct Hi. constructor; try done. intros q E. change (sending_flow m1) with (sending_flow m) in E.
    congruence. }
  assert (Hs1 : same m m1).
  { constructor; try done. intros q. rewrite !backlogged_spec.
    change (queued m1 q) with (queued m q). change (sending_flow m1) with (sending_flow m).
    change (previous_flow m1) with (@None ptr). intros [|[|]]; [tauto|tauto|done]. }
  hstep. hstep. destruct (negb _) eqn:E.
  - apply negb_true_iff, bool_decide_eq_false in E. eapply wp_mono; [by apply (schedule_ok m1)|].
    intros [] m2 l (Hi2 & Hs2 & Hp2). split_and!; [done| |exact Hp2].
    eapply effect_same; [|exact Hs2]. by apply same_effect.
  - apply negb_false_iff, bool_decide_eq_true in E. hstep. split_and!; [|by apply same_effect|done].
    constructor; [done|done|done].
Qed.

Lemma backlogged_dom m p : core m -> backlogged m p = true -> is_Some (flows m !! p).
Proof.
  intros Hi [Hb|[Hb|Hb]]%backlogged_spec.
  - apply queued_some in Hb as (fl & -> & _). eauto.
  - by apply (q_sending _ Hi).
  - by apply (q_previous _ Hi).
Qed.

Lemma flow_init_ok p m :
  inv m -> event_ok m (Ev_flow_init p) = true ->
  wp (handle (Ev_flow_init p)) m (fun _ m' l => inv m' /\ effect 0 (fun _ => 0) m m' /\
    pending m ≡ₚ sends l ++ pending m').
Proof.
  intros [Hi Hw Hj] He. unfold event_ok in He. apply andb_true_iff in He as [_ He].
  apply andb_true_iff in He as [Hf%negb_true_iff Hp%bool_decide_eq_true].
  cbn [handle]. unfold PacketPassFairQueueFlow_Init. hstep. hstep. hstep. hstep; [by rewrite Hf|]. hstep.
  set (fl := mk_flow _ _ _ _). set (m' := _ <| flows_list := _ |>).
  pose proof (time_of_insert m m' p fl eq_refl) as Ht. pose proof (queued_insert m m' p fl eq_refl) as Hq.
  assert (Hne : forall q, is_Some (flows m !! q) -> q <> p) by (intros q [f E]; congruence).
  assert (Hqp : queued m p = false) by (unfold queued; by rewrite Hp).
  assert (Hqs : forall q, queued m' q = queued m q).
  { intros q. rewrite Hq. case_decide; [by subst|done]. }
  assert (Hts : forall q, is_Some (flows m !! q) -> time_of m' q = time_of m q).
  { intros q Hsome. rewrite Ht, decide_False; [done|by apply Hne]. }
  assert (Hd : forall q, is_Some (flows m !! q) -> is_Some (flows m' !! q)).
  { intros q Hsome. change (flows m') with (<[p := fl]> (flows m)). rewrite lookup_insert_is_Some. naive_solver. }
  split_and!; [constructor; [constructor|done|done]|constructor; try done|].
  - apply (q_weight _ Hi).
  - apply (q_mtu _ Hi).
  - apply (q_max _ Hi).
  - change (flows_list m') with (flows_list m ++ [p]). apply NoDup_app. split_and!.
    + apply (q_nodup _ Hi).
    + intros q Hin ->%list_elem_of_singleton. apply (q_list _ Hi) in Hin. by apply Hne in Hin.
    + apply NoDup_singleton.
  - intros q. change (flows_list m') with (flows_list m ++ [p]). change (flows m') with (<[p := fl]> (flows m)).
    rewrite elem_of_app, list_elem_of_singleton, (q_list _ Hi), lookup_insert_is_Some.
    destruct (decide (q = p)); naive_solver.
  - intros q. rewrite Hqs. apply (q_tree _ Hi).
  - apply (sorted_ext (time_of m)); [|apply (q_sorted _ Hi)]. intros q Hin. apply Hts.
    apply (q_tree _ Hi), queued_some in Hin as (f & -> & _). eauto.
  - intros q f. change (flows m') with (<[p := fl]> (flows m)). destruct (decide (q = p)) as [->|].
    + rewrite lookup_insert_eq. intros [= <-]. split; [done|]. apply (q_mtu _ Hi).
    + rewrite lookup_insert_ne by congruence. apply (q_flow _ Hi).
  - intros q Eq. destruct (q_sending _ Hi q Eq) as (S1 & S2 & S3 & S4 & S5 & S6).
    rewrite Hqs, Hts by done. split_and!; try done; try apply S3; [by apply Hd|].
    intros r. rewrite Hqs. intros Hr. rewrite Hts; [by apply S6|].
    apply queued_some in Hr as (f & -> & _). eauto.
  - intros q Eq. destruct (q_previous _ Hi q Eq) as (S1 & S2). rewrite Hqs. split; [by apply Hd|done].
  - intros q Hb _. rewrite Hts by by apply backlogged_dom. lia.
  - intros q Hsome _. rewrite Hts by done. lia.
  - cbn. unfold pending. change (queued_tree m') with (queued_tree m).
    rewrite (data_of_insert_ne m m' p fl _ eq_refl); [done|]. rewrite (q_tree _ Hi). congruence.
Qed.

(** A flow that is freed leaves no pointer to it behind. *)
Lemma remove_ok p m m' :
  inv m -> (freeing m = true \/ sending_flow m <> Some p) ->
  flows m' = delete p (flows m) -> flows_list m' = filter (fun q => q <> p) (flows_list m) ->
  (forall q, q ∈ queued_tree m' <-> q <> p /\ q ∈ queued_tree m) -> sorted m (queued_tree m') ->
  (forall q, sending_flow m' = Some q <-> sending_flow m = Some q /\ q <> p) ->
  (forall q, previous_flow m' = Some q <-> previous_flow m = Some q /\ q <> p) ->
  output_mtu m' = output_mtu m -> packet_weight m' = packet_weight m -> sending_len m' = sending_len m ->
  freeing m' = freeing m -> schedule_job m' = schedule_job m ->
  inv m' /\ effect 0 (fun _ => 0) m m'.
Proof.
  intros [Hi Hw Hj] Hfree Hfl Hl Htr Hso Hse Hpr Hmtu Hwt Hsl Hf Hjob.
  assert (Ht : forall q, q <> p -> time_of m' q = time_of m q).
  { intros q Hne. unfold time_of. by rewrite Hfl, lookup_delete_ne by congruence. }
  assert (Hq : forall q, queued m' q = true <-> q <> p /\ queued m q = true).
  { intros q. unfold queued. rewrite Hfl. destruct (decide (q = p)) as [->|].
    - rewrite lookup_delete_eq. naive_solver.
    - rewrite lookup_delete_ne by congruence. naive_solver. }
  assert (Hd : forall q, is_Some (flows m' !! q) <-> q <> p /\ is_Some (flows m !! q)).
  { intros q. rewrite Hfl. rewrite lookup_delete_is_Some. naive_solver. }
  assert (Hqf : forall q, queued m q = false -> queued m' q = false).
  { intros q Hn. destruct (queued m' q) eqn:E; [|done]. apply Hq in E as [_ ?]. congruence. }
  split; [constructor; [constructor|..]|constructor]; rewrite ?Hmtu, ?Hwt, ?Hsl, ?Hf, ?Hjob; try apply Hi.
  - rewrite Hl. apply NoDup_filter, (q_nodup _ Hi).
  - intros q. rewrite Hl, list_elem_of_filter, Hd. by rewrite (q_list _ Hi).
  - intros q. rewrite Htr, Hq. by rewrite (q_tree _ Hi).
  - apply (sorted_ext (time_of m)); [|done]. intros q [Hne _]%Htr. by apply Ht.
  - intros q f. rewrite Hfl, lookup_delete_Some. intros [_ E]. exact (q_flow _ Hi q f E).
  - intros q [Eq Hne]%Hse. destruct (q_sending _ Hi q Eq) as (S1 & S2 & S3 & S4 & S5 & S6).
    split_and!; try done; try apply S3.
    + by apply Hd.
    + by apply Hqf.
    + destruct (previous_flow m') as [r|] eqn:E; [|done].
      destruct (proj1 (Hpr r) eq_refl). congruence.
    + intros r [Hr ?]%Hq. rewrite !Ht by done. by apply S6.
  - intros q [Eq Hne]%Hpr. destruct (q_previous _ Hi q Eq) as (S1 & S2). split; [by apply Hd|by apply Hqf].
  - intros Hs Hnf Hne. apply Hw; [|done|].
    + destruct (sending_flow m) as [q|] eqn:E; [|done]. destruct (decide (q = p)) as [->|].
      * destruct Hfree; congruence.
      * by rewrite (proj2 (Hse q)) in Hs by done.
    + intros E. apply Hne. destruct (queued_tree m') as [|q t] eqn:E'; [done|].
      destruct (proj1 (Htr q)) as [_ H]; [left|]. rewrite E in H.
      by apply not_elem_of_nil in H.
  - intros q [Eq _]%Hpr. by eapply Hj.
  - lia.
  - done.
  - intros q _ Hb. rewrite Ht; [lia|]. apply backlogged_spec in Hb as [Hb|[Hb|Hb]];
      [by apply Hq in Hb as []|by apply Hse in Hb as []|by apply Hpr in Hb as []].
  - intros q _ [Hne _]%Hd. rewrite Ht by done. lia.
Qed.

Lemma forget_spec p (x : option ptr) q :
  (if bool_decide (x = Some p) then None else x) = Some q <-> x = Some q /\ q <> p.
Proof. case_bool_decide; naive_solver. Qed.

Lemma flow_free_ok p m :
  inv m -> event_ok m (Ev_flow_free p) = true ->
  wp (handle (Ev_flow_free p)) m (fun _ m' _ => inv m' /\ effect 0 (fun _ => 0) m m').
Proof.
  intros Hi He. unfold event_ok in He. apply andb_true_iff in He as [_ He].
  apply andb_true_iff in He as [[fl Hfl]%bool_decide_eq_true Hfree].
  assert (Hfree' : freeing m = true \/ sending_flow m <> Some p).
  { apply orb_true_iff in Hfree as [|H]; [by left|right]. by apply negb_true_iff, bool_decide_eq_false in H. }
  pose proof (queued_lookup _ _ _ Hfl) as Hq. pose proof (q_tree _ (q_core _ Hi)) as Htr.
  pose proof (q_sorted _ (q_core _ Hi)) as Hso.
  cbn [handle]. unfold PacketPassFairQueueFlow_Free, Tree_Remove, without. hstep. hstep. hstep.
  eapply fq_wp_deref; [exact Hfl|]. hstep. hstep; [done|].
  assert (Htree : forall q, q ∈ (if is_queued fl then filter (fun q => q <> p) (queued_tree m) else queued_tree m)
    <-> q <> p /\ q ∈ queued_tree m).
  { intros q. destruct (is_queued fl) eqn:E; [by rewrite list_elem_of_filter|].
    split; [|tauto]. intros Hin. split; [|done]. intros ->. apply Htr in Hin. congruence. }
  assert (Hsort : sorted m (if is_queued fl then filter (fun q => q <> p) (queued_tree m) else queued_tree m)).
  { destruct (is_queued fl); [by apply sorted_filter|done]. }
  pose proof (forget_spec p (sending_flow m)) as Hse. pose proof (forget_spec p (previous_flow m)) as Hpr.
  destruct (bool_decide (sending_flow m = Some p)), (bool_decide (previous_flow m = Some p)),
    (is_queued fl) eqn:Eq; hsteps; try (by apply (remove_ok p));
    apply bool_decide_eq_true_2, Htr; congruence.
Qed.

Lemma fairqueue_handle_ok e m : inv m -> event_ok m e = true ->
  wp (handle e) m (fun _ m' l => inv m' /\ (exists s, effect s (served e m) m m') /\
    ((forall p, e <> Ev_flow_free p) -> submitted [e] ++ pending m ≡ₚ sends l ++ pending m')).
Proof.
  intros Hi He.
  assert (Hsame : forall m', core m' -> same m m' -> sending_flow m' = sending_flow m ->
    queued_tree m' = queued_tree m -> previous_flow m' = previous_flow m ->
    (freeing m' = true \/ freeing m' = freeing m) ->
    (schedule_job m' = schedule_job m \/ queued_tree m = [] /\ previous_flow m = None) ->
    (forall q, data_of m' q = data_of m q) ->
    inv m' /\ (exists s, effect s (fun _ => 0) m m') /\ ((forall p, e <> Ev_flow_free p) -> pending m ≡ₚ pending m')).
  { intros m' Hc Hs E1 E2 E3 E4 E5 E6.
    split_and!; [|exists 0; by apply same_effect|intros _; unfold pending; rewrite E2; by rewrite (map_ext _ _ E6)].
    constructor; [done|rewrite E1, E2|rewrite E3].
    - intros H1 H2 H3. destruct E4 as [|E4]; [congruence|].
      destruct E5 as [->|[]]; [|done]. apply (q_work _ Hi); congruence.
    - intros q Eq. destruct E5 as [->|[]]; [by apply (q_job _ Hi q)|congruence]. }
  destruct e as [p|p|p data| | |p|p|p| |].
  - eapply wp_mono; [by apply flow_init_ok|]. intros [] m' l (? & ? & ?). eauto.
  - eapply wp_mono; [by apply flow_free_ok|]. intros [] m' l []. split_and!; [done|eauto|].
    intros Hne. by destruct (Hne p).
  - eapply wp_mono; [by apply send_ok|]. intros [] m' l (? & ? & ?). eauto.
  - eapply wp_mono; [by apply done_ok|]. intros [] m' l (? & ? & ?). eauto.
  - eapply wp_mono; [by apply job_ok|]. intros [] m' l (? & ? & ?). eauto.
  - apply andb_true_iff in He as [_ He%negb_true_iff]. cbn [handle]. unfold PacketPassFairQueueFlow_IsBusy.
    hsteps; [by rewrite He|]. apply Hsame; try done; [apply Hi|by right|by left].
  - apply andb_true_iff in He as [_ [[Hf%negb_true_iff Hc]%andb_true_iff Hs]%andb_true_iff].
    cbn [handle]. unfold PacketPassFairQueueFlow_RequestCancel.
    apply bool_decide_eq_true in Hs as Hs'. pose proof (q_sending _ (q_core _ Hi) p Hs') as (_ & _ & _ & _ & Hj & _).
    hsteps; [done|done|by rewrite Hf|by rewrite Hj|]. apply Hsame; try done; [apply Hi|by right|by left].
  - apply andb_true_iff in He as [_ [Hf%negb_true_iff Hs]%andb_true_iff].
    cbn [handle]. unfold PacketPassFairQueueFlow_SetBusyHandler.
    apply bool_decide_eq_true in Hs as Hs'. pose proof (q_sending _ (q_core _ Hi) p Hs') as ([fl Hfl] & _).
    hstep. hstep. hstep. hstep; [done|]. hstep. hstep; [by rewrite Hf|]. eapply wp_set_flow; [exact Hfl|].
    pose proof (set_busy_core p fl true m (q_core _ Hi) Hfl) as [Hc Hsm].
    apply Hsame; try done; [by right|by left|]. by apply set_busy_data.
  - cbn [handle]. unfold PacketPassFairQueue_PrepareFree. hstep.
    apply Hsame; try done; [|by left|by left]. destruct Hi as [[] _ _]. by constructor.
  - apply andb_true_iff in He as [_ He%bool_decide_eq_true].
    cbn [handle]. unfold PacketPassFairQueue_Free. pose proof (q_core _ Hi) as Hc.
    assert (Hnone : forall p, is_Some (flows m !! p) -> False).
    { intros p Hp%(q_list _ Hc). rewrite He in Hp. by apply not_elem_of_nil in Hp. }
    assert (Ht : queued_tree m = []).
    { destruct (queued_tree m) as [|p t] eqn:E; [done|]. destruct (Hnone p).
      destruct (tree_head m p t Hc E) as (fl & -> & _). eauto. }
    assert (Hp : previous_flow m = None).
    { destruct (previous_flow m) as [p|] eqn:E; [|done]. destruct (Hnone p). by apply (q_previous _ Hc). }
    assert (Hs : sending_flow m = None).
    { destruct (sending_flow m) as [p|] eqn:E; [|done]. destruct (Hnone p). by apply (q_sending _ Hc). }
    hsteps; try by apply bool_decide_eq_true_2.
    apply Hsame; try done; [|by right|by right]. destruct Hc. constructor; try done.
    intros p E. by rewrite Hs in E.
Qed.

(** *** Executions *)

Lemma fairqueue_step m e : inv m -> event_ok m e = true ->
  exists m' l, handle e m = Some (tt, m', l) /\ inv m' /\ (exists s, effect s (served e m) m m') /\
    ((forall p, e <> Ev_flow_free p) -> submitted [e] ++ pending m ≡ₚ sends l ++ pending m').
Proof.
  intros Hi He. pose proof (fairqueue_handle_ok e m Hi He) as H.
  apply wp_spec in H as ([] & m' & l & E & H). eauto.
Qed.

Lemma fairqueue_run_inv es m m' l : inv m -> run m es = Some (m', l) -> inv m'.
Proof.
  revert m l. induction es as [|e es IH]; intros m l Hi; cbn [run]; [by intros [= <- _]|].
  destruct (event_ok m e) eqn:He; [|done].
  destruct (fairqueue_step m e Hi He) as (m1 & l1 & -> & Hi1 & _). cbn.
  destruct (run m1 es) as [[m2 l2]|] eqn:E; [|done]. cbn. intros [= <- _]. by apply (IH m1 l2).
Qed.

Lemma fairqueue_run_cons m e es m' l : inv m -> run m (e :: es) = Some (m', l) ->
  event_ok m e = true /\ exists m1 l1 l2, handle e m = Some (tt, m1, l1) /\ inv m1 /\
    (exists s, effect s (served e m) m m1) /\ run m1 es = Some (m', l2) /\ l = l1 ++ l2 /\
    ((forall p, e <> Ev_flow_free p) -> submitted [e] ++ pending m ≡ₚ sends l1 ++ pending m1).
Proof.
  intros Hi. cbn [run]. destruct (event_ok m e) eqn:He; [|done].
  destruct (fairqueue_step m e Hi He) as (m1 & l1 & E & Hi1 & Hs & Hp). rewrite E. cbn.
  destruct (run m1 es) as [[m2 l2]|] eqn:E2; [|done]. cbn. intros [= <- <-]. eauto 12.
Qed.

(** A flow that is served while another waits is not ahead of it. *)
Lemma served_spec m e p : inv m -> event_ok m e = true ->
  served e m p = 0 \/
  1 <= served e m p <= output_mtu m + packet_weight m /\ e = Ev_done /\ sending_flow m = Some p /\
    forall q, q <> p -> backlogged m q = true -> time_of m p <= time_of m q.
Proof.
  intros Hi He. destruct e; try (by left). unfold served. case_bool_decide as E; [|by left]. right.
  destruct (q_sending _ (q_core _ Hi) p E) as (_ & _ & Hl & Hp & _ & Hmin).
  pose proof (q_weight _ (q_core _ Hi)). split_and!; try done; try lia.
  intros q Hne [Hb|[Hb|Hb]]%backlogged_spec; [by apply Hmin|congruence|congruence].
Qed.
Lemma served_other m e p q : p <> q -> served e m p <> 0 -> served e m q = 0.
Proof.
  intros Hne. destruct e; try done. unfold served. do 2 case_bool_decide; try done. congruence.
Qed.

Lemma fair_run f g es m m' l : f <> g -> inv m -> run m es = Some (m', l) ->
  throughout (fun m => backlogged m f && backlogged m g) m es = true ->
  service f m es - service g m es
    <= Z.max 0 (output_mtu m + packet_weight m - (time_of m f - time_of m g)).
Proof.
  intros Hne. revert m l. induction es as [|e es IH]; intros m l Hi Hrun Hth; cbn [service]; [lia|].
  cbn [throughout] in Hth. apply andb_true_iff in Hth as [[Hf Hg]%andb_true_iff Hth].
  apply fairqueue_run_cons in Hrun as (He & m1 & l1 & l2 & E & Hi1 & [s Hs] & Hrun & _); [|done].
  rewrite E in Hth |- *. specialize (IH m1 l2 Hi1 Hrun Hth).
  assert (Hb : backlogged m1 f = true /\ backlogged m1 g = true).
  { apply andb_true_iff. destruct es; cbn in Hth; apply andb_true_iff in Hth as [? _]; done. }
  destruct Hb as [Hf1 Hg1]. destruct Hs as [_ [H1 H2] Hb _].
  pose proof (Hb f Hf Hf1). pose proof (Hb g Hg Hg1). rewrite H1, H2 in IH.
  destruct (served_spec m e f Hi He) as [|(? & _ & _ & Hmin)];
    destruct (served_spec m e g Hi He) as [|(? & _)]; try lia.
  - specialize (Hmin g ltac:(congruence) Hg). lia.
  - pose proof (served_other m e f g Hne ltac:(lia)). lia.
Qed.

Lemma sum_le (a b c : ptr -> Z) (l : list ptr) :
  (forall q, q ∈ l -> a q + c q <= b q) ->
  foldr Z.add 0 (map a l) + foldr Z.add 0 (map c l) <= foldr Z.add 0 (map b l).
Proof.
  induction l as [|q l IH]; intros H; cbn; [lia|].
  pose proof (H q ltac:(left)). specialize (IH ltac:(intros; apply H; by right)). lia.
Qed.
Lemma sum_filter (a : ptr -> Z) (P : ptr -> Prop) {HP : forall x, Decision (P x)} (l : list ptr) :
  (forall q, 0 <= a q) -> foldr Z.add 0 (map a (filter P l)) <= foldr Z.add 0 (map a l).
Proof.
  intros H. induction l as [|q l IH]; [done|]. rewrite filter_cons. specialize (H q).
  case_decide; cbn; lia.
Qed.
Lemma sum_one (s : ptr) (l : list ptr) (c : Z) : 0 <= c ->
  0 <= foldr Z.add 0 (map (fun q => if decide (q = s) then c else 0) l) /\
  (s ∈ l -> c <= foldr Z.add 0 (map (fun q => if decide (q = s) then c else 0) l)).
Proof.
  intros Hc. induction l as [|q l [IH1 IH2]]; cbn; [split; [lia|by intros ?%not_elem_of_nil]|].
  case_decide; split; try lia; intros [->|Hin]%elem_of_cons; try done; specialize (IH2 Hin); lia.
Qed.
Lemma ahead_nonneg m p q : 0 <= ahead m p q.
Proof. unfold ahead. case_bool_decide; lia. Qed.
Lemma wait_bound_nonneg m p : 0 <= wait_bound m p.
Proof.
  unfold wait_bound. induction (flows_list m) as [|q l IH]; cbn; [done|].
  pose proof (ahead_nonneg m p q). lia.
Qed.

(** *** The list of flows *)

Lemma keeps_list_deref p : keeps flows_list (deref p).
Proof. unfold deref. solve_keeps. Qed.
Lemma keeps_list_set_flow p f : keeps flows_list (set_flow p f).
Proof. unfold set_flow. apply keeps_bind; [apply keeps_list_deref|intros ?]. solve_keeps. Qed.
#[local] Hint Resolve keeps_list_deref keeps_list_set_flow : keeps.
Lemma keeps_list_tree_insert p t : keeps flows_list (tree_insert compare_flows p t).
Proof. apply keeps_tree_insert. intros q. unfold compare_flows. solve_keeps. Qed.
Lemma keeps_list_subtract p s l : keeps flows_list (subtract_loop p s l).
Proof. induction l; cbn [subtract_loop]; solve_keeps. Qed.
#[local] Hint Resolve keeps_list_tree_insert keeps_list_subtract : keeps.
Lemma keeps_list_schedule : keeps flows_list schedule.
Proof. unfold schedule, Tree_GetFirst, Tree_Remove. solve_keeps. Qed.
#[local] Hint Resolve keeps_list_schedule : keeps.

Lemma handle_list e m m' l : handle e m = Some (tt, m', l) ->
  (forall p, e <> Ev_flow_init p) ->
  flows_list m' = flows_list m \/
  exists p, e = Ev_flow_free p /\ flows_list m' = filter (fun q => q <> p) (flows_list m).
Proof.
  intros E Hne. destruct e as [p|p|p data| | |p|p|p| |]; cbn [handle] in E.
  1: by destruct (Hne p).
  1: { right. exists p. split; [done|]. unfold PacketPassFairQueueFlow_Free in E.
    apply bind_Some in E as (? & ? & ? & ? & [= <- <- <-] & E & _).
    apply bind_Some in E as (fl & m1 & ? & ? & E1 & E & _). apply keeps_list_deref in E1 as <-.
    apply bind_Some in E as (? & ? & ? & ? & (_ & -> & _)%assert_Some & E & _).
    apply bind_Some in E as (? & m2 & ? & ? & E2 & E & _).
    apply bind_Some in E as (? & m3 & ? & ? & E3 & E & _).
    apply bind_Some in E as (? & m4 & ? & ? & E4 & [= <- <-] & _). cbn.
    assert (flows_list m2 = flows_list m1 /\ flows_list m3 = flows_list m2 /\ flows_list m4 = flows_list m3)
      as (-> & -> & ->); [|done].
    split_and!; [revert E2|revert E3|revert E4]; match goal with |- ?h _ = Some (?x, ?m, ?l) -> ?f = _ =>
      enough (keeps flows_list h) as Hk by exact (Hk _ x m l) end; unfold Tree_Remove, without; solve_keeps. }
  all: left; match type of E with ?h _ = Some (?x, ?m, ?l) =>
    enough (keeps flows_list h) as Hk by exact (Hk _ x m l E) end.
  all: unfold input_handler_send, get_current_time, Tree_GetFirst, Tree_Insert, output_handler_done,
    increment_sent_flow, Tree_GetFirst, schedule_job_handler, PacketPassFairQueueFlow_IsBusy,
    PacketPassFairQueueFlow_RequestCancel, PacketPassFairQueueFlow_SetBusyHandler,
    PacketPassFairQueue_PrepareFree, PacketPassFairQueue_Free; solve_keeps.
Qed.

Lemma queued_not_served m e p : inv m -> event_ok m e = true -> queued m p = true -> served e m p = 0.
Proof.
  intros Hi He Hq. destruct (served_spec m e p Hi He) as [|(_ & _ & Hs & _)]; [done|].
  destruct (q_sending _ (q_core _ Hi) p Hs) as (_ & ? & _). congruence.
Qed.

Lemma wait_step f e m m1 l1 sub : inv m -> inv m1 -> event_ok m e = true ->
  handle e m = Some (tt, m1, l1) -> effect sub (served e m) m m1 ->
  (forall p, e <> Ev_flow_init p) -> queued m f = true -> queued m1 f = true ->
  wait_bound m1 f + (if decide (e = Ev_done) then 1 else 0) <= wait_bound m f.
Proof.
  intros Hi Hi1 He E [_ _ Hb Hfl] Hne Hf Hf1. unfold wait_bound.
  pose proof (queued_not_served m e f Hi He Hf) as Hs0.
  assert (Htf : time_of m1 f = time_of m f - sub).
  { rewrite Hb; [lia|apply backlogged_spec; by left..]. }
  set (c := fun q => if decide (e = Ev_done /\ sending_flow m = Some q) then 1 else 0).
  assert (Hstep : forall q, q ∈ flows_list m -> q ∈ flows_list m1 -> ahead m1 f q + c q <= ahead m f q).
  { intros q Hq Hq1. apply (q_list _ (q_core _ Hi)) in Hq. apply (q_list _ (q_core _ Hi1)) in Hq1.
    specialize (Hfl q Hq Hq1). unfold ahead, c.
    destruct (served_spec m e q Hi He) as [E0|(Hr & -> & Hs & Hmin)].
    - rewrite decide_False.
      + case_bool_decide; lia.
      + intros [-> Hs]. unfold served in E0. rewrite bool_decide_eq_true_2 in E0 by done.
        destruct (q_sending _ (q_core _ Hi) q Hs) as (_ & _ & ? & _). pose proof (q_weight _ (q_core _ Hi)). lia.
    - rewrite decide_True by done.
      assert (q <> f). { intros ->. destruct (q_sending _ (q_core _ Hi) f Hs) as (_ & ? & _). congruence. }
      rewrite !bool_decide_eq_false_2 by done.
      pose proof (Hmin f ltac:(congruence) ltac:(apply backlogged_spec; by left)). lia. }
  destruct (handle_list e m m1 l1 E Hne) as [El|(p & -> & El)].
  - rewrite El in Hstep |- *. pose proof (sum_le (ahead m1 f) (ahead m f) c _ (fun q Hq => Hstep q Hq Hq)) as Hsum.
    enough ((if decide (e = Ev_done) then 1 else 0) <= foldr Z.add 0 (map c (flows_list m))) by lia.
    case_decide as Ed; cycle 1.
    { rewrite (map_ext c (fun q => if decide (q = f) then 0 else 0)); [exact (proj1 (sum_one f _ 0 ltac:(lia)))|].
      intros q. unfold c. rewrite decide_False by tauto. by case_decide. }
    subst e. apply andb_true_iff in He as [_ [_ [s Hs]%bool_decide_eq_true]%andb_true_iff].
    rewrite (map_ext c (fun q => if decide (q = s) then 1 else 0)).
    + apply (sum_one s _ 1); [lia|]. apply (q_list _ (q_core _ Hi)). by apply (q_sending _ (q_core _ Hi)).
    + intros q. unfold c. rewrite Hs. repeat case_decide; naive_solver.
  - rewrite decide_False by done. rewrite Z.add_0_r. etrans; [|apply (sum_filter _ (fun q => q <> p)), ahead_nonneg].
    rewrite <- El. pose proof (sum_le (ahead m1 f) (ahead m f) (fun _ => 0) (flows_list m1)) as Hsum.
    pose proof (sum_one f (flows_list m1) 0 ltac:(lia)) as [H0 _].
    rewrite (map_ext _ (fun _ => 0)) in H0 by (intros q; by case_decide).
    enough (forall q, q ∈ flows_list m1 -> ahead m1 f q + 0 <= ahead m f q) by (specialize (Hsum H); lia).
    intros q Hq. assert (Hq0 : q ∈ flows_list m) by (rewrite El in Hq; by apply list_elem_of_filter in Hq as [_ ?]).
    specialize (Hstep q Hq0 Hq). unfold c in Hstep. rewrite decide_False in Hstep by naive_solver. lia.
Qed.

Lemma starvation_run f es m m' l : inv m -> run m es = Some (m', l) ->
  Forall (fun e => forall p, e <> Ev_flow_init p) es ->
  throughout (fun m => queued m f) m es = true -> completions es <= wait_bound m f.
Proof.
  unfold completions. revert m l. induction es as [|e es IH]; intros m l Hi Hrun Hin Hth.
  { apply wait_bound_nonneg. }
  apply Forall_cons in Hin as [Hne Hin]. cbn [throughout] in Hth. apply andb_true_iff in Hth as [Hf Hth].
  apply fairqueue_run_cons in Hrun as (He & m1 & l1 & l2 & E & Hi1 & [s Hs] & Hrun & _); [|done].
  rewrite E in Hth. specialize (IH m1 l2 Hi1 Hrun Hin Hth).
  assert (Hf1 : queued m1 f = true) by (destruct es; cbn in Hth; by apply andb_true_iff in Hth as [? _]).
  pose proof (wait_step f e m m1 l1 s Hi Hi1 He E Hs Hne Hf Hf1).
  rewrite filter_cons. destruct (decide (e = Ev_done)); rewrite ?len_cons; lia.
Qed.

Lemma delivers_run es m m' l : inv m -> run m es = Some (m', l) ->
  Forall (fun e => forall p, e <> Ev_flow_free p) es ->
  submitted es ++ pending m ≡ₚ sends l ++ pending m'.
Proof.
  revert m l. induction es as [|e es IH]; intros m l Hi Hrun Hin.
  { by injection Hrun as <- <-. }
  apply Forall_cons in Hin as [Hne Hin].
  apply fairqueue_run_cons in Hrun as (He & m1 & l1 & l2 & E & Hi1 & _ & Hrun & -> & Hp); [|done].
  specialize (IH m1 l2 Hi1 Hrun Hin). specialize (Hp Hne).
  change (submitted (e :: es)) with (submitted ([e] ++ es)). unfold submitted, sends in *.
  rewrite !omap_app, <- !app_assoc, <- IH, (app_assoc _ _ (pending m)), (Permutation_app_comm (omap _ [e])),
    <- app_assoc, Hp, !app_assoc. f_equiv. apply Permutation_app_comm.
Qed.

Lemma fairqueue_init_inv mtu has_cancel cancel weight m :
  0 <= mtu -> PacketPassFairQueue_Init mtu has_cancel cancel weight = Some (Some m) ->
  inv m /\ output_mtu m = mtu /\ packet_weight m = weight.
Proof.
  intros Hm. unfold PacketPassFairQueue_Init. destruct (0 <? weight) eqn:Ew; cbn [negb]; [|done].
  destruct (negb (negb cancel || has_cancel)); [done|].
  destruct (_ && _) eqn:E; cbn [negb]; [|done]. intros [= <-]. split; [|done].
  constructor; [constructor|done|done]; cbn; try done; try lia.
  - constructor.
  - intros p. rewrite lookup_empty. split; [by intros ?%not_elem_of_nil|by intros []].
  - intros p. unfold queued. cbn. rewrite lookup_empty. split; [by intros ?%not_elem_of_nil|done].
  - constructor.
Qed.
End FairQueueProofs.

(** ** Properties *)

Section fairqueue_properties.
Import FairQueueProofs.
Context (mtu weight : Z) (has_cancel cancel : bool) (m0 : PacketPassFairQueue).
Hypothesis Hmtu : 0 <= mtu.
Hypothesis Hinit : PacketPassFairQueue_Init mtu has_cancel cancel weight = Some (Some m0).

Lemma fairqueue_reachable es m l : run m0 es = Some (m, l) ->
  inv m /\ output_mtu m = mtu /\ packet_weight m = weight.
Proof using All.
  destruct (fairqueue_init_inv _ _ _ _ _ Hmtu Hinit) as (Hi & Hm & Hw). revert Hi Hm Hw. clear Hinit.
  revert m0 l. induction es as [|e es IH]; intros m1 l Hi Hm Hw; [by intros [= <- _]|].
  intros Hrun. apply fairqueue_run_cons in Hrun as (He & m2 & l1 & l2 & _ & Hi2 & [s [_ [H1 H2] _ _]] & Hrun & _);
    [|done]. apply (IH m2 l2); congruence || done.
Qed.

(** C20: fairness.  While two flows both have packets waiting or in transmission,
    what one is sent more than the other, in bytes and packet weights, is at
    most one packet of the largest size, plus the lead the other one had at the
    start: whatever the packets, however the times are renormalised when they
    reach the end of their range. *)
Theorem fairqueue_fair es m l f g es' m' l' :
  run m0 es = Some (m, l) -> f <> g -> run m es' = Some (m', l') ->
  throughout (fun m => backlogged m f && backlogged m g) m es' = true ->
  service f m es' - service g m es' <= Z.max 0 (mtu + weight + (time_of m g - time_of m f)).
Proof using All.
  intros Hrun Hne Hrun' Hth. destruct (fairqueue_reachable es m l Hrun) as (Hi & Hm & Hw).
  pose proof (fair_run f g es' m m' l' Hne Hi Hrun' Hth). lia.
Qed.

(** C21: no flow starves.  While a packet waits, unless new flows are made, no
    more sends end than [wait_bound] counts, and one is always in progress or
    about to be started. *)
Theorem fairqueue_no_starvation es m l f es' m' l' :
  run m0 es = Some (m, l) -> run m es' = Some (m', l') ->
  Forall (fun e => forall p, e <> Ev_flow_init p) es' ->
  throughout (fun m => queued m f) m es' = true ->
  completions es' <= wait_bound m f /\
  (freeing m = false -> is_Some (sending_flow m) \/ schedule_job m = true).
Proof using All.
  intros Hrun Hrun' Hin Hth. destruct (fairqueue_reachable es m l Hrun) as (Hi & _).
  split; [by apply (starvation_run f es' m m' l')|]. intros Hf.
  destruct (sending_flow m) as [p|] eqn:Es; [left; eauto|right].
  apply (q_work _ Hi); [done|done|]. intros E.
  assert (Hq : f ∈ queued_tree m).
  { apply (q_tree _ (q_core _ Hi)). destruct es'; cbn in Hth; by apply andb_true_iff in Hth as [? _]. }
  rewrite E in Hq. by apply not_elem_of_nil in Hq.
Qed.

(** No packet is lost, duplicated or altered: those submitted are those
    sent to the output and those that still wait, unless a flow is freed with
    its packet. *)
Theorem fairqueue_delivers es m l :
  run m0 es = Some (m, l) -> Forall (fun e => forall p, e <> Ev_flow_free p) es ->
  submitted es ≡ₚ sends l ++ pending m.
Proof using All.
  intros Hrun Hne. destruct (fairqueue_init_inv _ _ _ _ _ Hmtu Hinit) as (Hi & _).
  pose proof (delivers_run es m0 m l Hi Hrun Hne) as H.
  assert (E : pending m0 = []).
  { unfold PacketPassFairQueue_Init in Hinit. repeat (destruct (negb _); [done|]). by injection Hinit as <-. }
  by rewrite E, app_nil_r in H.
Qed.

(** No assertion fails, whatever the flows, their packets and the order of
    events, freeing included; times stay in the range of their type, and the
    tree stays ordered by them. *)
Theorem fairqueue_safe es m l e :
  run m0 es = Some (m, l) -> event_ok m e = true ->
  exists m' l', handle e m = Some (tt, m', l') /\
    (forall p fl, flows m' !! p = Some fl -> 0 <= time fl <= FAIRQUEUE_MAX_TIME) /\
    StronglySorted (fun p q => time_of m' p < time_of m' q \/ time_of m' p = time_of m' q /\ (p < q)%nat)
      (queued_tree m').
Proof using All.
  intros Hrun He. destruct (fairqueue_reachable es m l Hrun) as (Hi & _).
  destruct (fairqueue_step m e Hi He) as (m' & l' & E & Hi' & _). exists m', l'.
  split_and!; [done| |apply (q_sorted _ (q_core _ Hi'))].
  intros p fl Hp. apply (q_flow _ (q_core _ Hi') _ _ Hp).
Qed.
End fairqueue_properties.

Module FairQueueWitnesses.

(** Two flows, and a weight so large that the times are renormalised. *)
Definition demo_weight : Z := 2 ^ 63.
Definition demo_m0 : PacketPassFairQueue :=
  match PacketPassFairQueue_Init 1500 false false demo_weight with
  | Some (Some m) => m
  | _ => mk_queue 0 false 0 None 0 None [] [] false false ∅ true
  end.
Definition packet (n : nat) : bytes := repeat Byte.x2a n.
(** Both flows have a packet, the first one is sending. *)
Definition demo_start : list event :=
  [Ev_flow_init 1%nat; Ev_flow_init 2%nat; Ev_send 1%nat (packet 3); Ev_send 2%nat (packet 4)].
(** Each flow sends again as soon as its packet is done. *)
Definition demo_events : list event :=
  [Ev_done; Ev_send 1%nat (packet 5); Ev_job; Ev_done; Ev_send 2%nat (packet 6); Ev_job;
   Ev_done; Ev_send 1%nat (packet 7); Ev_job].
Definition demo_at (es : list event) : PacketPassFairQueue :=
  match run demo_m0 es with Some (m, _) => m | None => demo_m0 end.
Definition demo_calls (m : PacketPassFairQueue) (es : list event) : list out :=
  match run m es with Some (_, l) => l | None => [] end.
Definition demo_m : PacketPassFairQueue := demo_at demo_start.
Definition demo_m' : PacketPassFairQueue :=
  match run demo_m demo_events with Some (m, _) => m | None => demo_m0 end.

Lemma fq_demo_init : PacketPassFairQueue_Init 1500 false false demo_weight = Some (Some demo_m0).
Proof. by vm_compute. Qed.
Lemma fq_demo_mtu : 0 <= 1500.
Proof. done. Qed.

Lemma fq_demo_run es : bool_decide (is_Some (run demo_m0 es)) = true ->
  run demo_m0 es = Some (demo_at es, demo_calls demo_m0 es).
Proof.
  unfold demo_at, demo_calls. destruct (run _ es) as [[m l]|]; [done|].
  by intros [x Hx]%bool_decide_eq_true.
Qed.
Lemma fq_demo_run' : run demo_m demo_events = Some (demo_m', demo_calls demo_m demo_events).
Proof.
  unfold demo_m', demo_calls.
  assert (bool_decide (is_Some (run demo_m demo_events)) = true) as H by by vm_compute.
  apply bool_decide_eq_true in H as [[m l] E]. by rewrite E.
Qed.

(** The third send ends beyond the range: 2^63 + 4 is subtracted from all. *)
Example demo_renormalised : (time_of demo_m' 1, time_of demo_m' 2) = (2 ^ 63 + 4, 0).
Proof. by vm_compute. Qed.

Lemma fairqueue_fair_witness :
  service 1 demo_m demo_events - service 2 demo_m demo_events
    <= Z.max 0 (1500 + demo_weight + (time_of demo_m 2 - time_of demo_m 1)).
Proof.
  apply (fairqueue_fair 1500 demo_weight false false demo_m0 fq_demo_mtu fq_demo_init demo_start demo_m
    (demo_calls demo_m0 demo_start) 1%nat 2%nat demo_events demo_m' (demo_calls demo_m demo_events));
    [by apply fq_demo_run|done|apply fq_demo_run'|by vm_compute].
Defined.

(** The packet of the second flow waits while the first flow's is sent. *)
Lemma fairqueue_no_starvation_witness :
  completions [Ev_done] <= wait_bound demo_m 2 /\
  (freeing demo_m = false -> is_Some (sending_flow demo_m) \/ schedule_job demo_m = true).
Proof.
  apply (fairqueue_no_starvation 1500 demo_weight false false demo_m0 fq_demo_mtu fq_demo_init demo_start demo_m
    (demo_calls demo_m0 demo_start) 2%nat [Ev_done] (demo_at (demo_start ++ [Ev_done]))
    (demo_calls demo_m [Ev_done])).
  - by apply fq_demo_run.
  - vm_compute. reflexivity.
  - constructor; [done|constructor].
  - by vm_compute.
Defined.

Lemma fairqueue_delivers_witness :
  submitted (demo_start ++ demo_events)
    ≡ₚ sends (demo_calls demo_m0 (demo_start ++ demo_events)) ++ pending (demo_at (demo_start ++ demo_events)).
Proof.
  apply (fairqueue_delivers 1500 demo_weight false false demo_m0 fq_demo_mtu fq_demo_init); [by apply fq_demo_run|].
  repeat (constructor; [done|]). constructor.
Defined.

(** Freeing the flow that is sending. *)
Lemma fairqueue_safe_witness :
  let m := demo_at (demo_start ++ [Ev_prepare_free]) in
  exists m' l', handle (Ev_flow_free 1) m = Some (tt, m', l') /\
    (forall p fl, flows m' !! p = Some fl -> 0 <= time fl <= FAIRQUEUE_MAX_TIME) /\
    StronglySorted (fun p q => time_of m' p < time_of m' q \/ time_of m' p = time_of m' q /\ (p < q)%nat)
      (queued_tree m').
Proof.
  apply (fairqueue_safe 1500 demo_weight false false demo_m0 fq_demo_mtu fq_demo_init
    (demo_start ++ [Ev_prepare_free]) _ (demo_calls demo_m0 (demo_start ++ [Ev_prepare_free])));
    [by apply fq_demo_run|by vm_compute].
Defined.
End FairQueueWitnesses.
