(* ===== verification/SocksUdpGw.v ===== *)
(** * The udpgw client over SOCKS

    [tun2socks/SocksUdpGwClient.c], as built (without [ANDROID_UDP]): a udpgw
    client whose server is reached through a SOCKS connection, which is made
    again after a pause whenever it fails.

    The udpgw client is the model of [UdpGw], run inside the larger state.  The
    SOCKS client is what [SocksClient] proves of it: it reports that it is up
    once, or an error, after which it is freed; here only whether it exists is
    kept. *)
From S2P Require Import Prelude UdpGw.

(** ** State *)

Record SocksUdpGwClient := mk_SocksUdpGwClient {
  udpgw_client : UdpGwClient;
  reconnect_timer : bool;
  have_socks : bool;
  socks_up : bool;
  freed : bool;
}.
#[export] Instance SocksUdpGwClient_eta : Eta SocksUdpGwClient := fun r =>
  mk_SocksUdpGwClient (udpgw_client r) (reconnect_timer r) (have_socks r) (socks_up r) (freed r).

(** The calls of the udpgw client are calls of the whole; the datagrams it
    receives go to the user. *)
Inductive call_t :=
  | Gw (o : UdpGw.out)
  | BSocksClient_Init
  | BSocksClient_Free
  | User_received (local_addr remote_addr : BAddr.BAddr) (data : bytes).

Definition hdl := handler SocksUdpGwClient call_t.

(** [udpgw_handler_received] passes the datagram on. *)
Definition udpgw_handler_received (local_addr remote_addr : BAddr.BAddr) (data : bytes) : call_t :=
  User_received local_addr remote_addr data.
Definition gw_call (o : UdpGw.out) : call_t :=
  match o with
  | Handler_received local_addr remote_addr data => udpgw_handler_received local_addr remote_addr data
  | o => Gw o
  end.
(** A function of the udpgw client, called on the member. *)
Definition gw {A} (h : UdpGw.hdl A) : hdl A := fun o =>
  match h (udpgw_client o) with
  | Some (a, c, l) => Some (a, o <| udpgw_client := c |>, map gw_call l)
  | None => None
  end.

(** ** Operations *)

Definition free_socks : hdl unit :=
  o ← get;
  ASSERT (have_socks o);;
  (if socks_up o then gw UdpGwClient_DisconnectServer else mret tt);;
  call BSocksClient_Free;;
  modify (fun o => o <| have_socks := false |>).

Definition BReactor_SetTimer : hdl unit := modify (fun o => o <| reconnect_timer := true |>).
Definition BReactor_RemoveTimer : hdl unit := modify (fun o => o <| reconnect_timer := false |>).

Definition try_connect (socks_ok : bool) : hdl unit :=
  o ← get;
  ASSERT (negb (have_socks o));;
  ASSERT (negb (reconnect_timer o));;
  if negb socks_ok then BReactor_SetTimer else
  call BSocksClient_Init;;
  modify (fun o => o <| have_socks := true |>);;
  modify (fun o => o <| socks_up := false |>).

Definition reconnect_timer_handler (socks_ok : bool) : hdl unit :=
  o ← get;
  ASSERT (negb (have_socks o));;
  try_connect socks_ok.

Inductive socks_event := BSOCKSCLIENT_EVENT_ERROR | BSOCKSCLIENT_EVENT_UP | BSOCKSCLIENT_EVENT_ERROR_CLOSED.

Definition socks_client_handler (decoder_ok : bool) (event : socks_event) : hdl unit :=
  o ← get;
  ASSERT (have_socks o);;
  match event with
  | BSOCKSCLIENT_EVENT_UP =>
      ASSERT (negb (socks_up o));;
      connected ← gw (UdpGwClient_ConnectServer decoder_ok);
      if negb connected then free_socks;; BReactor_SetTimer
      else modify (fun o => o <| socks_up := true |>)
  | BSOCKSCLIENT_EVENT_ERROR | BSOCKSCLIENT_EVENT_ERROR_CLOSED => free_socks;; BReactor_SetTimer
  end.

Definition udpgw_handler_servererror : hdl unit :=
  o ← get;
  ASSERT (have_socks o);;
  ASSERT (socks_up o);;
  free_socks;;
  BReactor_SetTimer.

Section init.
Context {abi : Abi}.
(** As for [UdpGwClient_Init]: [None] when an assertion fails, [Some None] when
    the result is 0. *)
Definition SocksUdpGwClient_Init (udp_mtu max_connections send_buffer_size : Z)
    (socks_server_addr remote_udpgw_addr : BAddr.BAddr) (queue_ok socks_ok : bool)
    : option (option (SocksUdpGwClient * list call_t)) :=
  if BAddr.BAddr_IsInvalid socks_server_addr then None else
  if BAddr.BAddr_IsInvalid remote_udpgw_addr then None else
  match UdpGwClient_Init udp_mtu max_connections send_buffer_size queue_ok with
  | None => None
  | Some None => Some None
  | Some (Some c) =>
      match try_connect socks_ok (mk_SocksUdpGwClient c false false false false) with
      | Some (_, o, l) => Some (Some (o, l))
      | None => None
      end
  end.
End init.

Definition SocksUdpGwClient_Free : hdl unit :=
  o ← get;
  (if have_socks o then free_socks else mret tt);;
  BReactor_RemoveTimer;;
  gw UdpGwClient_Free;;
  modify (fun o => o <| freed := true |>).

Definition SocksUdpGwClient_SubmitPacket (malloc_ok ppflow_ok : bool) (room : option bytes)
    (local_addr remote_addr : BAddr.BAddr) (is_dns : bool) (data : bytes) : hdl unit :=
  gw (UdpGwClient_SubmitPacket malloc_ok ppflow_ok room local_addr remote_addr is_dns data).

(** ** Executions *)

Inductive event :=
  | Ev_timer (socks_ok : bool)
  | Ev_socks (decoder_ok : bool) (e : socks_event)
  | Ev_submit (malloc_ok ppflow_ok : bool) (room : option bytes) (local_addr remote_addr : BAddr.BAddr)
      (is_dns : bool) (data : bytes)
  | Ev_first_job (room : option bytes) (con : nat)
  | Ev_received (data : bytes)
  | Ev_decoder_error
  | Ev_monitor
  | Ev_keepalive_done
  | Ev_free.

(** The event of the udpgw client, for those that are only passed on. *)
Definition gw_event (e : event) : option UdpGw.event :=
  match e with
  | Ev_submit m p room la ra dns data => Some (UdpGw.Ev_submit m p room la ra dns data)
  | Ev_first_job room con => Some (UdpGw.Ev_first_job room con)
  | Ev_received data => Some (UdpGw.Ev_received data)
  | Ev_decoder_error => Some UdpGw.Ev_decoder_error
  | Ev_monitor => Some UdpGw.Ev_monitor
  | Ev_keepalive_done => Some UdpGw.Ev_keepalive_done
  | _ => None
  end.

(** The timer fires when it is set, and is not set any more; a decoder error of
    the udpgw client is reported to [udpgw_handler_servererror]. *)
Definition handle (e : event) : hdl unit :=
  match e with
  | Ev_timer socks_ok =>
      modify (fun o => o <| reconnect_timer := false |>);; reconnect_timer_handler socks_ok
  | Ev_socks decoder_ok e => socks_client_handler decoder_ok e
  | Ev_submit m p room la ra dns data => SocksUdpGwClient_SubmitPacket m p room la ra dns data
  | Ev_first_job room con => gw (connection_first_job_handler room con)
  | Ev_received data => gw (recv_interface_handler_send data)
  | Ev_decoder_error => gw decoder_handler_error;; udpgw_handler_servererror
  | Ev_monitor => gw send_monitor_handler
  | Ev_keepalive_done => gw keepalive_if_handler_done
  | Ev_free => SocksUdpGwClient_Free
  end.

(** The SOCKS client exists while it reports, and is up at most once. *)
Definition event_ok (o : SocksUdpGwClient) (e : event) : bool :=
  negb (freed o) &&
  match e with
  | Ev_timer _ => reconnect_timer o
  | Ev_socks _ BSOCKSCLIENT_EVENT_UP => have_socks o && negb (socks_up o)
  | Ev_socks _ BSOCKSCLIENT_EVENT_ERROR => have_socks o
  | Ev_socks _ BSOCKSCLIENT_EVENT_ERROR_CLOSED => have_socks o && socks_up o
  | Ev_free => true
  | e => match gw_event e with
         | Some e => UdpGw.event_ok (udpgw_client o) e
         | None => false
         end
  end.

Fixpoint run (o : SocksUdpGwClient) (es : list event) : option (SocksUdpGwClient * list call_t) :=
  match es with
  | [] => Some (o, [])
  | e :: es =>
      if event_ok o e then
        '(_, o1, l1) ← handle e o; '(o2, l2) ← run o1 es; Some (o2, l1 ++ l2)
      else None
  end.

(** The events by which the server comes back, when SOCKS connects. *)
Definition reconnection (o : SocksUdpGwClient) : list event :=
  if have_server (udpgw_client o) then []
  else (if have_socks o then [] else [Ev_timer true]) ++ [Ev_socks true BSOCKSCLIENT_EVENT_UP].

(** The events that may change the flows. *)
Definition uses_flows (e : event) : bool :=
  match e with Ev_submit _ _ _ _ _ _ _ | Ev_received _ | Ev_free => true | _ => false end.

(** ** Invariant *)

Module SocksUdpGwProofs.

(** Either there is a SOCKS client or the timer runs; the udpgw client has a
    server when SOCKS is up. *)
Record inv (o : SocksUdpGwClient) : Prop := {
  g_gw : UdpGwProofs.inv (udpgw_client o);
  g_server : have_server (udpgw_client o) = have_socks o && socks_up o;
  g_timer : reconnect_timer o = negb (have_socks o);
  g_live : freed o = false;
}.
Definition released (o : SocksUdpGwClient) : Prop :=
  freed o = true /\ have_socks o = false /\ reconnect_timer o = false /\
  connections_list (udpgw_client o) = [] /\ heap (udpgw_client o) = ∅.

Lemma wp_gw {A} (h : UdpGw.hdl A) o (Q : A -> SocksUdpGwClient -> list call_t -> Prop) :
  wp h (udpgw_client o) (fun a c l => Q a (o <| udpgw_client := c |>) (map gw_call l)) -> wp (gw h) o Q.
Proof. unfold wp, gw. destruct (h (udpgw_client o)) as [[[a c] l]|]; done. Qed.

(** *** What the udpgw client keeps *)

Definition status (o : UdpGwClient) : bool * bool := (have_server o, freeing o).
Lemma keeps_status_deref p : keeps status (deref p).
Proof. unfold deref. solve_keeps. Qed.
#[local] Hint Resolve keeps_status_deref : keeps.
Lemma find_conid_status fuel o id o' :
  find_unused_conid_ fuel o = Some (id, o') -> status o' = status o.
Proof.
  revert o. induction fuel as [|fuel IH]; intros o; cbn; [done|].
  destruct (find_connection_by_conid o (next_conid o)); [|by intros [= _ <-]].
  case_match; intros E%IH; exact E.
Qed.
Lemma keeps_status_find_conid : keeps status find_unused_conid.
Proof.
  intros o id o' l (? & ? & ? & ? & [= <- <- <-] & E & _)%bind_Some.
  apply bind_Some in E as (? & ? & ? & ? & (_ & -> & _)%assert_Some & E & _).
  apply bind_Some in E as ([i o1] & ? & ? & ? & E1 & E & _).
  unfold of_option in E1. destruct (find_unused_conid_ _ o) as [[i' o1']|] eqn:E2; [|done].
  injection E1 as -> -> <- <-. apply find_conid_status in E2.
  by apply bind_Some in E as (? & ? & ? & ? & [= _ <- _] & [= _ <- _] & _).
Qed.
#[local] Hint Resolve keeps_status_find_conid : keeps.

Lemma keeps_status e e' : gw_event e = Some e' -> keeps status (UdpGw.handle e').
Proof.
  destruct e as [| | | | | | | |]; cbn [gw_event]; try done; intros [= <-]; cbn [UdpGw.handle];
    unfold UdpGwClient_SubmitPacket, reuse_connection, connection_init, BAVL_Insert_conaddr, BAVL_Insert_conid,
      move_to_front, connection_first_job_handler, recv_interface_handler_send,
      decoder_handler_error, send_monitor_handler, keepalive_if_handler_done, update_con, connection_send;
    solve_keeps.
Qed.

(** Running the udpgw client alone keeps the invariant. *)
Lemma gw_event_ok e e' o : inv o -> gw_event e = Some e' -> UdpGw.event_ok (udpgw_client o) e' = true ->
  wp (gw (UdpGw.handle e')) o (fun _ o' _ => inv o' /\ o' = o <| udpgw_client := udpgw_client o' |>).
Proof.
  intros [H1 H2 H3 H4] Hg He. apply wp_gw.
  pose proof (UdpGwProofs.udpgw_handle_ok e' (udpgw_client o) H1 He) as H.
  apply wp_spec in H as ([] & c & l & E & Hi). unfold wp. rewrite E.
  pose proof (keeps_status e e' Hg _ _ _ _ E) as [= Hs Hf].
  assert (Hc : UdpGwProofs.inv c).
  { destruct Hi as [(Hf' & _)|]; [|done]. rewrite (UdpGwProofs.i_live _ H1) in Hf. congruence. }
  split; [|done]. constructor; cbn; congruence || done.
Qed.

(** *** Connecting and disconnecting *)

Lemma set_server_inv b c : UdpGwProofs.inv c -> UdpGwProofs.inv (c <| have_server := b |>).
Proof. intros Hi. by apply (UdpGwProofs.inv_frame c); try apply Hi. Qed.

(** The state without SOCKS connection; the flows stay. *)
Definition disconnected (o : SocksUdpGwClient) : SocksUdpGwClient :=
  o <| udpgw_client := (udpgw_client o <| have_server := false |>) |> <| have_socks := false |>.

Lemma free_socks_ok o (Q : unit -> SocksUdpGwClient -> list call_t -> Prop) :
  have_socks o = true -> have_server (udpgw_client o) = socks_up o ->
  (forall l, Q tt (disconnected o) l) -> wp free_socks o Q.
Proof.
  intros Hs Hserver HQ. unfold free_socks. hstep. hstep. hstep. hstep; [done|]. hstep.
  destruct (socks_up o) eqn:Hup.
  - apply wp_gw. unfold UdpGwClient_DisconnectServer, UdpGw.free_server.
    hsteps; [done|]. hsteps. apply HQ.
  - repeat hstep. replace (o <| have_socks := false |>) with (disconnected o); [apply HQ|].
    unfold disconnected. destruct o as [[] ? ? ? ?]. cbn in *. by subst.
Qed.

Lemma retry_ok o : inv o -> have_socks o = true ->
  wp (free_socks;; BReactor_SetTimer) o (fun _ o' _ => inv o' /\
    o' = disconnected o <| reconnect_timer := true |>).
Proof.
  intros [H1 H2 H3 H4] Hs. rewrite Hs in H2, H3. hstep. apply free_socks_ok; [done|done|].
  intros l. unfold BReactor_SetTimer. hstep. split; [|done].
  constructor; cbn; try done. by apply set_server_inv.
Qed.

Lemma try_connect_ok ok_ o : inv (o <| reconnect_timer := true |>) -> have_socks o = false ->
  reconnect_timer o = false ->
  wp (try_connect ok_) o (fun _ o' _ => inv o' /\ udpgw_client o' = udpgw_client o /\
    have_socks o' = ok_ /\ (ok_ = true -> socks_up o' = false)).
Proof.
  intros [H1 H2 H3 H4] Hs Ht. cbn in *. rewrite Hs in H2. unfold try_connect, BReactor_SetTimer.
  hstep. hstep. hstep. hstep; [by rewrite Hs|]. hstep. hstep; [by rewrite Ht|].
  destruct ok_; cbn [negb]; hsteps; (split_and!; [constructor; cbn|..]; try done; by rewrite ?Hs).
Qed.

Lemma timer_ok ok_ o : inv o -> event_ok o (Ev_timer ok_) = true ->
  wp (handle (Ev_timer ok_)) o (fun _ o' _ => inv o' /\ udpgw_client o' = udpgw_client o /\
    have_socks o' = ok_ /\ (ok_ = true -> socks_up o' = false)).
Proof.
  intros Hi He. apply andb_true_iff in He as [_ Ht]. pose proof Hi as [H1 H2 H3 H4].
  rewrite Ht in H3. symmetry in H3. apply negb_true_iff in H3.
  cbn [handle]. hstep. hstep. unfold reconnect_timer_handler. hstep. hstep. hstep. hstep; [by cbn; rewrite H3|].
  eapply wp_mono; [apply try_connect_ok; try done|].
  - destruct o. cbn in *. by subst.
  - by intros [] o' l H.
Qed.

Lemma sug_up_ok ok_ o : inv o -> event_ok o (Ev_socks ok_ BSOCKSCLIENT_EVENT_UP) = true ->
  wp (handle (Ev_socks ok_ BSOCKSCLIENT_EVENT_UP)) o (fun _ o' _ => inv o' /\
    (exists b, udpgw_client o' = udpgw_client o <| have_server := b |>) /\
    (ok_ = true -> have_server (udpgw_client o') = true)).
Proof.
  intros Hi He. apply andb_true_iff in He as [_ [Hs Hup]%andb_true_iff]. pose proof Hi as [H1 H2 H3 H4].
  apply negb_true_iff in Hup as Hup'. rewrite Hs, Hup' in H2. cbn [andb] in H2.
  cbn [handle]. unfold socks_client_handler. hstep. hstep. hstep. hstep; [done|]. hstep. hstep; [done|].
  hstep. apply wp_gw. unfold UdpGwClient_ConnectServer. hstep. hstep. hstep. hstep; [by rewrite H2|].
  destruct ok_; cbn [negb].
  - hsteps. split_and!; [|by exists true|done]. constructor; cbn; try done; [by apply set_server_inv|by rewrite Hs].
  - hstep. cbn [negb]. replace (o <| udpgw_client := udpgw_client o |>) with o by by destruct o.
    eapply wp_mono; [by apply retry_ok|]. intros [] o' l [Hi' ->]. split_and!; [done|by exists false|done].
Qed.

(** *** Executions *)

Lemma socksudpgw_handle_ok e o : inv o -> event_ok o e = true ->
  wp (handle e) o (fun _ o' _ => inv o' \/ released o').
Proof.
  intros Hi He. pose proof Hi as [H1 H2 H3 H4].
  assert (Hpass : forall e', gw_event e = Some e' -> UdpGw.event_ok (udpgw_client o) e' = true ->
    wp (gw (UdpGw.handle e')) o (fun _ o' _ => inv o' \/ released o')).
  { intros e' Hg He'. eapply wp_mono; [by apply (gw_event_ok e)|]. intros [] o' l []. by left. }
  assert (He' := He). apply andb_true_iff in He' as [_ He'].
  destruct e as [ok_|ok_ e|m p room la ra dns data|room con|data| | | |]; cbn [gw_event] in *.
  - eapply wp_mono; [by apply timer_ok|]. intros [] o' l []. by left.
  - assert (Hr : have_socks o = true ->
      wp (free_socks;; BReactor_SetTimer) o (fun _ o' _ => inv o' \/ released o')).
    { intros Hs. eapply wp_mono; [by apply retry_ok|]. intros [] o' l []. by left. }
    destruct e.
    + cbn [handle]. unfold socks_client_handler. hstep. hstep. hstep. hstep; [done|]. by apply Hr.
    + eapply wp_mono; [by apply sug_up_ok|]. intros [] o' l []. by left.
    + apply andb_true_iff in He' as [Hs _].
      cbn [handle]. unfold socks_client_handler. hstep. hstep. hstep. hstep; [done|]. by apply Hr.
  - by apply (Hpass _ eq_refl).
  - by apply (Hpass _ eq_refl).
  - by apply (Hpass _ eq_refl).
  - cbn [handle]. hstep. apply wp_gw. unfold decoder_handler_error. hstep. hstep. hstep.
    apply andb_true_iff in He' as [_ Hserver]. hstep; [done|]. hstep.
    rewrite H2 in Hserver. apply andb_true_iff in Hserver as [Hs Hup].
    replace (o <| udpgw_client := udpgw_client o |>) with o by by destruct o.
    unfold udpgw_handler_servererror. hstep. hstep. hstep. hstep; [done|]. hstep. hstep; [done|].
    eapply wp_mono; [by apply retry_ok|]. intros [] o' l []. by left.
  - by apply (Hpass _ eq_refl).
  - by apply (Hpass _ eq_refl).
  - cbn [handle]. unfold SocksUdpGwClient_Free. hstep. hstep.
    assert (Hfree : forall o1, UdpGwProofs.inv (udpgw_client o1) -> have_socks o1 = false ->
      wp (BReactor_RemoveTimer;; gw UdpGwClient_Free;; modify (fun o => o <| freed := true |>)) o1
        (fun _ o' _ => inv o' \/ released o')).
    { intros o1 Hi1 Hs1. unfold BReactor_RemoveTimer. hstep. hstep. hstep. apply wp_gw.
      eapply wp_mono; [by apply (UdpGwProofs.free_ok (udpgw_client o1))|].
      intros [] c l (Hf & Hl & Hh). hstep. right. by split_and!. }
    hstep. destruct (have_socks o) eqn:Hs.
    + apply free_socks_ok; [done|by rewrite H2|]. intros l.
      eapply wp_mono; [apply Hfree; [|done]|done]. by apply set_server_inv.
    + hstep. eapply wp_mono; [by apply Hfree|done].
Qed.

Lemma socksudpgw_run_inv es o o' l : inv o \/ released o -> run o es = Some (o', l) -> inv o' \/ released o'.
Proof.
  revert o l. induction es as [|e es IH]; intros o l Hi; cbn [run]; [by intros [= <- _]|].
  destruct (event_ok o e) eqn:He; [|done].
  destruct Hi as [Hi|[Hf _]]; [|unfold event_ok in He; by rewrite Hf in He].
  pose proof (socksudpgw_handle_ok e o Hi He) as Hok. apply wp_spec in Hok as (u & o1 & l1 & E & Hi1).
  rewrite E. cbn. destruct (run o1 es) as [[o2 l2]|] eqn:E2; [|done]. cbn. intros [= <- _]. by apply (IH o1 l2).
Qed.

Lemma socksudpgw_init_inv {abi : Abi} mtu max bufsize server remote queue_ok socks_ok o l :
  mtu <= INT_MAX ->
  SocksUdpGwClient_Init mtu max bufsize server remote queue_ok socks_ok = Some (Some (o, l)) -> inv o.
Proof.
  intros Hm. unfold SocksUdpGwClient_Init. destruct (BAddr.BAddr_IsInvalid server), (BAddr.BAddr_IsInvalid remote); try done.
  destruct (UdpGwClient_Init _ _ _ _) as [[c|]|] eqn:E; try done.
  destruct queue_ok.
  2: { revert E. unfold UdpGwClient_Init. cbn. by destruct (negb _). }
  apply UdpGwProofs.udpgw_init_inv in E as Hi; [|done]. destruct Hi as (Hi & _).
  assert (Hserver : have_server c = false).
  { revert E. unfold UdpGwClient_Init. destruct (negb _); [done|]. by intros [= <-]. }
  pose proof (try_connect_ok socks_ok (mk_SocksUdpGwClient c false false false false)) as Hok.
  destruct (try_connect _ _) as [[[u o1] l1]|] eqn:E1; [|done]. intros [= -> ->].
  unfold wp in Hok. rewrite E1 in Hok. apply Hok; [|done|done]. constructor; cbn; done.
Qed.

(** The table of flows only changes with datagrams. *)
Lemma keeps_table e o o' l : inv o -> event_ok o e = true -> uses_flows e = false ->
  handle e o = Some (tt, o', l) -> abs (udpgw_client o') = abs (udpgw_client o).
Proof.
  intros Hi He Hd E. pose proof Hi as [H1 H2 H3 H4].
  assert (Hwp : forall Q, wp (handle e) o Q -> Q tt o' l) by (intros Q; unfold wp; by rewrite E).
  assert (Hpass : forall h, handle e = gw h -> keeps abs h -> abs (udpgw_client o') = abs (udpgw_client o)).
  { intros h Eh Hk. rewrite Eh in E. unfold gw in E. destruct (h (udpgw_client o)) as [[[a c] k]|] eqn:Eg; [|done].
    destruct a; injection E as <- <-. by eapply Hk. }
  destruct e as [ok_|ok_ e|m p room la ra dns data|room con|data| | | |]; try done.
  - by destruct (Hwp _ (timer_ok ok_ o Hi He)) as (_ & -> & _).
  - assert (He' := He). apply andb_true_iff in He' as [_ He'].
    assert (Hretry : wp (handle (Ev_socks ok_ e)) o (fun _ o' _ => abs (udpgw_client o') = abs (udpgw_client o)) ->
      abs (udpgw_client o') = abs (udpgw_client o)) by apply Hwp.
    destruct e; cbn [handle] in Hretry; unfold socks_client_handler in Hretry.
    + apply Hretry. hstep. hstep. hstep. hstep; [done|]. eapply wp_mono; [by apply retry_ok|].
      by intros [] o1 l1 [_ ->].
    + by destruct (Hwp _ (sug_up_ok ok_ o Hi He)) as (_ & (b & ->) & _).
    + apply andb_true_iff in He' as [Hs _]. apply Hretry. hstep. hstep. hstep. hstep; [done|].
      eapply wp_mono; [by apply retry_ok|]. by intros [] o1 l1 [_ ->].
  - apply andb_true_iff in He as [_ He]. cbn [gw_event] in He. apply andb_true_iff in He as [_ He].
    destruct (heap (udpgw_client o) !! con) as [c|] eqn:Hc; [|done].
    assert (Hj : wp (handle (Ev_first_job room con)) o (fun _ o' _ => abs (udpgw_client o') = abs (udpgw_client o))).
    { cbn [handle]. apply wp_gw. eapply wp_mono; [by apply (UdpGwProofs.first_job_ok room con (udpgw_client o) c)|].
      by intros [] o1 l1 (_ & Ha & _). }
    exact (Hwp _ Hj).
  - apply andb_true_iff in He as [_ He]. cbn [gw_event] in He. apply andb_true_iff in He as [_ Hserver].
    rewrite H2 in Hserver. apply andb_true_iff in Hserver as [Hs Hup].
    assert (Hj : wp (handle Ev_decoder_error) o (fun _ o' _ => abs (udpgw_client o') = abs (udpgw_client o))).
    { cbn [handle]. hstep. apply wp_gw. unfold decoder_handler_error. hstep. hstep. hstep.
      hstep; [by rewrite H2, Hs, Hup|]. hstep.
      replace (o <| udpgw_client := udpgw_client o |>) with o by by destruct o.
      unfold udpgw_handler_servererror. hstep. hstep. hstep. hstep; [done|]. hstep. hstep; [done|].
      eapply wp_mono; [by apply retry_ok|]. by intros [] o1 l1 [_ ->]. }
    exact (Hwp _ Hj).
  - apply (Hpass send_monitor_handler); [done|]. unfold send_monitor_handler. solve_keeps.
  - apply (Hpass keepalive_if_handler_done); [done|]. unfold keepalive_if_handler_done. solve_keeps.
Qed.

Lemma reconnection_ok o : inv o ->
  exists o' l, run o (reconnection o) = Some (o', l) /\ have_server (udpgw_client o') = true /\
    abs (udpgw_client o') = abs (udpgw_client o).
Proof.
  assert (Hup : forall o, inv o -> have_socks o = true -> socks_up o = false ->
    exists o' l, run o [Ev_socks true BSOCKSCLIENT_EVENT_UP] = Some (o', l) /\
      have_server (udpgw_client o') = true /\ abs (udpgw_client o') = abs (udpgw_client o)).
  { clear o. intros o Hi Hs Hup.
    assert (He : event_ok o (Ev_socks true BSOCKSCLIENT_EVENT_UP) = true).
    { unfold event_ok. by rewrite (g_live _ Hi), Hs, Hup. }
    pose proof (sug_up_ok true o Hi He) as H. apply wp_spec in H as ([] & o' & l & E & _ & (b & Hb) & Hserver).
    cbn [run]. rewrite He, E. cbn. exists o', (l ++ []). split_and!; [done|by apply Hserver|by rewrite Hb]. }
  intros Hi. pose proof Hi as [H1 H2 H3 H4]. unfold reconnection. destruct (have_server (udpgw_client o)) eqn:Es.
  { by exists o, []. }
  destruct (have_socks o) eqn:Hs; [by apply Hup|]. cbn [app].
  assert (He : event_ok o (Ev_timer true) = true) by (unfold event_ok; by rewrite H4, H3).
  pose proof (timer_ok true o Hi He) as H. apply wp_spec in H as ([] & o1 & l1 & E & Hi1 & Hg & Hs1 & Hup1).
  destruct (Hup o1 Hi1 Hs1 (Hup1 eq_refl)) as (o' & l & E' & Hserver & Ha).
  revert E'. generalize [Ev_socks true BSOCKSCLIENT_EVENT_UP] as up. intros up E'.
  cbn [run]. rewrite He, E. cbn. rewrite E'. cbn.
  exists o', (l1 ++ l). split_and!; [done|done|by rewrite Ha, Hg].
Qed.
End SocksUdpGwProofs.

(** ** Properties *)

Section socksudpgw_properties.
Import SocksUdpGwProofs.
Context {abi : Abi} (mtu max send_buffer_size : Z) (server remote : BAddr.BAddr) (socks_ok : bool).
Context (o0 : SocksUdpGwClient) (l0 : list call_t).
Hypothesis Hmtu : mtu <= INT_MAX.
Hypothesis Hinit :
  SocksUdpGwClient_Init mtu max send_buffer_size server remote true socks_ok = Some (Some (o0, l0)).

Lemma socksudpgw_reachable es o l : run o0 es = Some (o, l) -> freed o = false -> inv o.
Proof using All.
  pose proof (socksudpgw_init_inv _ _ _ _ _ _ _ _ _ Hmtu Hinit) as Hi. intros Hrun Hf.
  destruct (socksudpgw_run_inv es o0 o l (or_introl Hi) Hrun) as [|[]]; congruence.
Qed.

(** in every reachable state every event is handled to its end, by this
    component and by the udpgw client inside it: the server is connected and
    disconnected only when it can be, SOCKS is freed once, the timer is set only
    without SOCKS; and freeing leaves neither connection nor timer nor SOCKS. *)
Theorem socksudpgw_safe es o l e :
  run o0 es = Some (o, l) -> event_ok o e = true ->
  exists o' l', handle e o = Some (tt, o', l') /\
    (freed o' = true -> have_socks o' = false /\ reconnect_timer o' = false /\
      connections_list (udpgw_client o') = [] /\ heap (udpgw_client o') = ∅).
Proof using All.
  intros Hrun He. assert (Hf : freed o = false) by (unfold event_ok in He; by destruct (freed o)).
  pose proof (socksudpgw_handle_ok e o (socksudpgw_reachable es o l Hrun Hf) He) as H.
  apply wp_spec in H as ([] & o' & l' & E & Hi'). exists o', l'. split; [done|]. intros Hf'.
  destruct Hi' as [[]|(_ & ? & ? & ? & ?)]; [congruence|done].
Qed.

(** C22: the client never stays without a server for good: there is always a
    SOCKS connection or a running timer, and when SOCKS connects, two events at
    most bring the server back; failures and reconnections leave the flows and
    their conids as they are. *)
Theorem socksudpgw_recovers es o l :
  run o0 es = Some (o, l) -> freed o = false ->
  (have_socks o = true \/ reconnect_timer o = true) /\
  (exists o' l', run o (reconnection o) = Some (o', l') /\ have_server (udpgw_client o') = true /\
    abs (udpgw_client o') = abs (udpgw_client o)) /\
  (forall e o' l', event_ok o e = true -> uses_flows e = false -> handle e o = Some (tt, o', l') ->
    abs (udpgw_client o') = abs (udpgw_client o)).
Proof using All.
  intros Hrun Hf. pose proof (socksudpgw_reachable es o l Hrun Hf) as Hi. split_and!.
  - rewrite (g_timer _ Hi). destruct (have_socks o); auto.
  - by apply reconnection_ok.
  - intros e o' l' He Hu E. by apply (keeps_table e o o' l').
Qed.
End socksudpgw_properties.

Module SocksUdpGwWitnesses.
#[local] Existing Instance abi64.

Definition server_addr : BAddr.BAddr := BAddr.BAddr_IPv4 0x0100007f 0x3804.
Definition local_addr : BAddr.BAddr := BAddr.BAddr_IPv4 0x0200000a 0x1234.
Definition demo_o0 : SocksUdpGwClient :=
  match SocksUdpGwClient_Init 1472 256 32 server_addr server_addr true true with
  | Some (Some (o, _)) => o
  | _ => mk_SocksUdpGwClient UdpGw.UdpGwWitnesses.demo_o0 false false false true
  end.
(** SOCKS comes up, a datagram is sent, SOCKS fails, and so does the next try. *)
Definition demo_events : list event :=
  [Ev_socks true BSOCKSCLIENT_EVENT_UP; Ev_submit true true (Some []) local_addr server_addr false [Byte.x2a];
   Ev_first_job (Some []) 0; Ev_socks true BSOCKSCLIENT_EVENT_ERROR_CLOSED; Ev_timer false].
Definition demo_o : SocksUdpGwClient :=
  match run demo_o0 demo_events with Some (o, _) => o | None => demo_o0 end.
Definition demo_calls : list call_t :=
  match run demo_o0 demo_events with Some (_, l) => l | None => [] end.

Lemma sug_demo_init :
  SocksUdpGwClient_Init 1472 256 32 server_addr server_addr true true = Some (Some (demo_o0, [BSocksClient_Init])).
Proof. vm_compute. reflexivity. Qed.
Lemma sug_demo_mtu : 1472 <= INT_MAX.
Proof. by vm_compute. Qed.
Lemma sug_demo_run : run demo_o0 demo_events = Some (demo_o, demo_calls).
Proof.
  unfold demo_o, demo_calls. assert (bool_decide (is_Some (run demo_o0 demo_events)) = true) as H by by vm_compute.
  apply bool_decide_eq_true in H as [[o l] E]. by rewrite E.
Qed.

Lemma socksudpgw_safe_witness :
  exists o' l', handle Ev_free demo_o = Some (tt, o', l') /\
    (freed o' = true -> have_socks o' = false /\ reconnect_timer o' = false /\
      connections_list (udpgw_client o') = [] /\ heap (udpgw_client o') = ∅).
Proof.
  apply (socksudpgw_safe 1472 256 32 server_addr server_addr true demo_o0 [BSocksClient_Init] sug_demo_mtu sug_demo_init
    demo_events demo_o demo_calls); [apply sug_demo_run|by vm_compute].
Defined.

Lemma socksudpgw_recovers_witness :
  (have_socks demo_o = true \/ reconnect_timer demo_o = true) /\
  (exists o' l', run demo_o (reconnection demo_o) = Some (o', l') /\ have_server (udpgw_client o') = true /\
    abs (udpgw_client o') = abs (udpgw_client demo_o)) /\
  (forall e o' l', event_ok demo_o e = true -> uses_flows e = false -> handle e demo_o = Some (tt, o', l') ->
    abs (udpgw_client o') = abs (udpgw_client demo_o)).
Proof.
  apply (socksudpgw_recovers 1472 256 32 server_addr server_addr true demo_o0 [BSocksClient_Init] sug_demo_mtu sug_demo_init
    demo_events demo_o demo_calls); [apply sug_demo_run|by vm_compute].
Defined.

(** The flow has kept its conid and the timer runs. *)
Example demo_kept :
  (abs (udpgw_client demo_o), reconnect_timer demo_o) = ([(mk_conaddr local_addr server_addr, 0)], true).
Proof. by vm_compute. Qed.
End SocksUdpGwWitnesses.
