(* ===== verification/Reactor.v ===== *)
(** * The reactor

    [system/BReactor_badvpn.c], built for epoll ([BADVPN_USE_EPOLL]): the event
    loop everything runs in, with its jobs, timers, file descriptors and
    limits, and [system/BTime.h].

    What the loop runs is the program, so the model is run by events: a turn of
    [BReactor_Exec] or of [BReactor_Synchronize], which calls at most one
    handler, and what the handlers do, in any order.  The kernel's side
    ([world]) is the set of descriptors registered with the epoll instance and
    the clock; what [epoll_wait] returns and the clock readings are arguments
    of the turn that waits, restricted by [event_ok] to what the system's
    documentation says.

    Jobs are those of any [JobQueue]; the timers tree is an ordered tree; the
    lists of expired timers and of active limits are lists. *)
From stdpp Require Import sorting.
From S2P Require Import Prelude LinkedList BPending OrderedTree.

(** ** Time *)

Definition INT64_MIN : Z := - 2 ^ 63.
Definition INT64_MAX : Z := 2 ^ 63 - 1.
Definition INT_MAX : Z := 2 ^ 31 - 1.

Definition add_int64_overflows (a b : Z) : Z :=
  if xorb (a <? 0) (b <? 0) then 0
  else if a <? 0 then (if a <? INT64_MIN - b then -1 else 0)
  else (if INT64_MAX - b <? a then 1 else 0).
Definition btime_add (t1 t2 : Z) : Z :=
  let overflows := add_int64_overflows t1 t2 in
  if negb (overflows =? 0) then (if 0 <? overflows then INT64_MAX else INT64_MIN) else t1 + t2.

(** ** State *)

Inductive timer_state := TIMER_STATE_INACTIVE | TIMER_STATE_RUNNING | TIMER_STATE_EXPIRED.
#[export] Instance timer_state_eq_dec : EqDecision timer_state.
Proof. solve_decision. Defined.

Record BSmallTimer := mk_timer { handler_fn : code; absTime : Z; state : timer_state; is_small : bool }.
#[export] Instance timer_eta : Eta BSmallTimer :=
  fun r => mk_timer (handler_fn r) (absTime r) (state r) (is_small r).

(** What a [BTimer] has after its [base]. *)
Record BTimer := mk_btimer { user : ptr; msTime : Z }.

Definition BREACTOR_READ : Z := Z.shiftl 1 0.
Definition BREACTOR_WRITE : Z := Z.shiftl 1 1.
Definition BREACTOR_ERROR : Z := Z.shiftl 1 2.
Definition BREACTOR_HUP : Z := Z.shiftl 1 3.

(** [epoll_returned_ptr] points to the [data.ptr] of an element of
    [epoll_results]: its index. *)
Record BFileDescriptor := mk_fd {
  fd : Z; fd_handler : code; fd_user : ptr; active : bool; waitEvents : Z;
  epoll_returned_ptr : option nat;
}.
#[export] Instance fd_eta : Eta BFileDescriptor := fun r =>
  mk_fd (fd r) (fd_handler r) (fd_user r) (active r) (waitEvents r) (epoll_returned_ptr r).

Record BReactorLimit := mk_limit { limit : Z; count : Z }.
#[export] Instance limit_eta : Eta BReactorLimit := fun r => mk_limit (limit r) (count r).

(** The bits of [struct epoll_event]'s [events]. *)
Record epoll_bits := mk_bits { EPOLLIN : bool; EPOLLOUT : bool; EPOLLERR : bool; EPOLLHUP : bool }.
Record epoll_event := mk_event { events : epoll_bits; data_ptr : option ptr }.
#[export] Instance epoll_event_eta : Eta epoll_event := fun r => mk_event (events r) (data_ptr r).
#[export] Instance epoll_bits_eq_dec : EqDecision epoll_bits.
Proof. solve_decision. Defined.
#[export] Instance epoll_event_eq_dec : EqDecision epoll_event.
Proof. solve_decision. Defined.

Definition BSYSTEM_MAX_RESULTS : Z := 64.

(** The system: what is registered for each descriptor, and the clock. *)
Record world := mk_world { epoll : gmap Z epoll_event; clock : Z }.
#[export] Instance world_eta : Eta world := fun r => mk_world (epoll r) (clock r).

(** The reactor, with the objects that use it.  [epoll_results] is the part of
    the array that was written last. *)
Record BReactor (G : Type) := mk_reactor {
  exiting : bool;
  exit_code : Z;
  pending_jobs : G;
  timers_tree : list ptr;
  timers_expired_list : list ptr;
  active_limits_list : list ptr;
  epoll_results : list epoll_event;
  epoll_results_num : nat;
  epoll_results_pos : nat;
  timers : gmap ptr BSmallTimer;
  btimers : gmap ptr BTimer;
  fds : gmap ptr BFileDescriptor;
  limits : gmap ptr BReactorLimit;
  system : world;
}.
#[global] Arguments mk_reactor {G}. #[global] Arguments exiting {G}. #[global] Arguments exit_code {G}.
#[global] Arguments pending_jobs {G}. #[global] Arguments timers_tree {G}.
#[global] Arguments timers_expired_list {G}. #[global] Arguments active_limits_list {G}.
#[global] Arguments epoll_results {G}. #[global] Arguments epoll_results_num {G}.
#[global] Arguments epoll_results_pos {G}. #[global] Arguments timers {G}. #[global] Arguments btimers {G}.
#[global] Arguments fds {G}. #[global] Arguments limits {G}. #[global] Arguments system {G}.
#[export] Instance reactor_eta G : Eta (BReactor G) := fun r =>
  mk_reactor (exiting r) (exit_code r) (pending_jobs r) (timers_tree r) (timers_expired_list r)
    (active_limits_list r) (epoll_results r) (epoll_results_num r) (epoll_results_pos r)
    (timers r) (btimers r) (fds r) (limits r) (system r).

(** Calls of handlers. *)
Inductive out :=
  | Job (h : code) (u : ptr)
  | Small_timer (h : code) (timer : ptr)
  | Heavy_timer (h : code) (u : ptr)
  | Fd (h : code) (u : ptr) (events : Z).
#[export] Instance out_eq_dec : EqDecision out.
Proof. solve_decision. Defined.

(** What a call of [epoll_wait] does: it is interrupted by a signal, or it
    returns events (none when the timeout is reached). *)
Inductive epoll_answer := Interrupted | Returned (results : list epoll_event).

Section Reactor.
Context {G : Type} `{JobQueue G}.

Definition hdl := handler (BReactor G) out.

(** *** Accesses *)

Definition timer_at (t : ptr) : hdl BSmallTimer := m ← get; of_option (timers m !! t).
Definition set_timer (t : ptr) (f : BSmallTimer -> BSmallTimer) : hdl unit :=
  x ← timer_at t; modify (fun m => m <| timers := <[t := f x]> (timers m) |>).
Definition fd_at (b : ptr) : hdl BFileDescriptor := m ← get; of_option (fds m !! b).
Definition set_fd (b : ptr) (f : BFileDescriptor -> BFileDescriptor) : hdl unit :=
  x ← fd_at b; modify (fun m => m <| fds := <[b := f x]> (fds m) |>).
Definition limit_at (o : ptr) : hdl BReactorLimit := m ← get; of_option (limits m !! o).
Definition set_limit (o : ptr) (f : BReactorLimit -> BReactorLimit) : hdl unit :=
  x ← limit_at o; modify (fun m => m <| limits := <[o := f x]> (limits m) |>).

(** An operation on the pending jobs. *)
Definition jobs_do (i : op) : hdl result := fun m =>
  match queue_exec i (pending_jobs m) with
  | Some (r, g, o) => Some (r, m <| pending_jobs := g |>, map (fun c => Job (run_handler c) (run_user c)) o)
  | None => None
  end.
Definition BPendingGroup_HasJobs : hdl bool :=
  r ← jobs_do HasJobs; mret (match r with RBool b => b | _ => false end).
Definition BPendingGroup_PeekJob : hdl (option ptr) :=
  r ← jobs_do PeekJob; mret (match r with RPtr p => p | _ => None end).
Definition BPendingGroup_ExecuteJob : hdl unit := _ ← jobs_do ExecuteJob; mret tt.

(** The clock, which moves on between the events and while [epoll_wait] waits. *)
Definition set_clock (t : Z) : hdl unit :=
  modify (fun m => m <| system := (system m <| clock := t |>) |>).
Definition btime_gettime : hdl Z := gets (fun m => clock (system m)).

(** ** Timers *)

Definition compare_timers (t1 t2 : ptr) : hdl Z :=
  x1 ← timer_at t1;
  x2 ← timer_at t2;
  let cmp := B_COMPARE (absTime x1) (absTime x2) in
  if negb (cmp =? 0) then mret cmp else mret (B_COMPARE (Z.of_nat t1) (Z.of_nat t2)).

Definition TimersTree_GetFirst : hdl (option ptr) := m ← get; mret (head (timers_tree m)).
Definition TimersTree_Insert (t : ptr) : hdl bool :=
  m ← get;
  r ← tree_insert compare_timers t (timers_tree m);
  match r with
  | Some l => modify (fun m => m <| timers_tree := l |>);; mret true
  | None => mret false
  end.
Definition TimersTree_Remove (t : ptr) : hdl unit :=
  m ← get;
  ASSERT (bool_decide (t ∈ timers_tree m));;
  modify (fun m => m <| timers_tree := without t (timers_tree m) |>).
Definition expired_Append (t : ptr) : hdl unit :=
  modify (fun m => m <| timers_expired_list := timers_expired_list m ++ [t] |>).
Definition expired_Remove (t : ptr) : hdl unit :=
  m ← get;
  ASSERT (bool_decide (t ∈ timers_expired_list m));;
  modify (fun m => m <| timers_expired_list := without t (timers_expired_list m) |>).

(** What the two loops do with a timer that is due. *)
Definition move_timer (t : ptr) : hdl unit :=
  TimersTree_Remove t;;
  expired_Append t;;
  set_timer t (fun x => x <| state := TIMER_STATE_EXPIRED |>).

(** The loops take one timer out of the tree at each turn: the number of
    timers in the tree is fuel enough. *)
Fixpoint move_expired_loop (fuel : nat) (now : Z) (moved : bool) : hdl bool :=
  first ← TimersTree_GetFirst;
  match first with
  | None => mret moved
  | Some timer =>
      x ← timer_at timer;
      ASSERT (bool_decide (state x = TIMER_STATE_RUNNING));;
      if now <? absTime x then mret moved
      else match fuel with
           | O => of_option None
           | S fuel => move_timer timer;; move_expired_loop fuel now true
           end
  end.
Definition move_expired_timers (now : Z) : hdl bool :=
  m ← get; move_expired_loop (length (timers_tree m)) now false.

Fixpoint move_first_loop (fuel : nat) (first_time : Z) : hdl unit :=
  first ← TimersTree_GetFirst;
  match first with
  | None => mret tt
  | Some timer =>
      x ← timer_at timer;
      ASSERT (bool_decide (state x = TIMER_STATE_RUNNING));;
      ASSERT (first_time <=? absTime x);;
      if first_time <? absTime x then mret tt
      else match fuel with
           | O => of_option None
           | S fuel => move_timer timer;; move_first_loop fuel first_time
           end
  end.
Definition move_first_timers : hdl unit :=
  first ← TimersTree_GetFirst;
  first_timer ← of_option first;
  x ← timer_at first_timer;
  ASSERT (bool_decide (state x = TIMER_STATE_RUNNING));;
  move_timer first_timer;;
  m ← get;
  move_first_loop (length (timers_tree m)) (absTime x).

(** ** Waiting *)

(** For each element of the results a pointer back to it. *)
Fixpoint set_epoll_fd_pointers (i : nat) (l : list epoll_event) : hdl unit :=
  match l with
  | [] => mret tt
  | event :: l =>
      bfd ← of_option (data_ptr event);
      x ← fd_at bfd;
      ASSERT (active x);;
      ASSERT (bool_decide (epoll_returned_ptr x = None));;
      set_fd bfd (fun x => x <| epoll_returned_ptr := Some i |>);;
      set_epoll_fd_pointers (S i) l
  end.

(** [int64_t] subtraction: a fault when it overflows. *)
Definition sub_int64 (a b : Z) : hdl Z :=
  ASSERT ((INT64_MIN <=? a - b) && (a - b <=? INT64_MAX));; mret (a - b).

(** The loop around [epoll_wait]: [timeout] is [timeout_abs] when there is
    one; [answers] has what each call does and the time at its end. *)
Fixpoint wait_loop (timeout : option Z) (now : Z) (answers : list (epoll_answer * Z)) : hdl unit :=
  match answers with
  | [] => of_option None
  | (answer, t) :: answers =>
      timeout_rel ← match timeout with Some abs => sub_int64 abs now | None => mret 0 end;
      let timeout_rel_trunc := Z.min timeout_rel INT_MAX in
      set_clock t;;
      let try_again :=
        match timeout with
        | Some abs =>
            now ← btime_gettime;
            if abs <=? now then move_first_timers else wait_loop timeout now answers
        | None => wait_loop timeout now answers
        end in
      match answer with
      | Interrupted => try_again
      | Returned results =>
          let waitres := Z.of_nat (length results) in
          ASSERT (negb (waitres =? 0) || bool_decide (is_Some timeout));;
          ASSERT (waitres <=? BSYSTEM_MAX_RESULTS);;
          if negb (waitres =? 0) then
            modify (fun m => m <| epoll_results := results |> <| epoll_results_num := length results |>);;
            set_epoll_fd_pointers 0 results
          else if timeout_rel_trunc =? timeout_rel then move_first_timers
          else try_again
      end
  end.

Fixpoint reset_limits (fuel : nat) : hdl unit :=
  m ← get;
  match active_limits_list m with
  | [] => mret tt
  | o :: _ =>
      match fuel with
      | O => of_option None
      | S fuel =>
          x ← limit_at o;
          ASSERT (0 <? count x);;
          set_limit o (fun x => x <| count := 0 |>);;
          modify (fun m => m <| active_limits_list := without o (active_limits_list m) |>);;
          reset_limits fuel
      end
  end.

Definition wait_for_events (answers : list (epoll_answer * Z)) : hdl unit :=
  has_jobs ← BPendingGroup_HasJobs;
  ASSERT (negb has_jobs);;
  m ← get;
  ASSERT (bool_decide (timers_expired_list m = []));;
  ASSERT (Nat.eqb (epoll_results_pos m) (epoll_results_num m));;
  modify (fun m => m <| epoll_results_num := O |> <| epoll_results_pos := O |>);;
  first ← TimersTree_GetFirst;
  moved ←
    match first with
    | Some first_timer =>
        x ← timer_at first_timer;
        ASSERT (bool_decide (state x = TIMER_STATE_RUNNING));;
        now ← btime_gettime;
        moved ← move_expired_timers now;
        if moved : bool then mret true
        else x ← timer_at first_timer; wait_loop (Some (absTime x)) now answers;; mret false
    | None => wait_loop None 0 answers;; mret false
    end;
  if moved : bool then mret tt
  else m ← get; reset_limits (length (active_limits_list m)).

(** ** Objects *)

(** [BFileDescriptor_Init] and [BSmallTimer_Init] leave some fields of the
    memory they are given as they are: [junk]. *)
Definition BFileDescriptor_Init (bs : ptr) (fd : Z) (h : code) (u : ptr) (junk : Z * option nat) : hdl unit :=
  modify (fun m => m <| fds := <[bs := mk_fd fd h u false junk.1 junk.2]> (fds m) |>).

Definition BSmallTimer_Init (bt : ptr) (h : code) (junk : Z) : hdl unit :=
  modify (fun m => m <| timers := <[bt := mk_timer h junk TIMER_STATE_INACTIVE true]> (timers m) |>).
Definition BTimer_Init (bt : ptr) (msTime : Z) (h : code) (u : ptr) (junk : Z) : hdl unit :=
  modify (fun m => m <| timers := <[bt := mk_timer h junk TIMER_STATE_INACTIVE false]> (timers m) |>
                     <| btimers := <[bt := mk_btimer u msTime]> (btimers m) |>).
Definition BSmallTimer_IsRunning (bt : ptr) : hdl bool :=
  x ← timer_at bt; mret (negb (bool_decide (state x = TIMER_STATE_INACTIVE))).

Definition BReactor_RemoveSmallTimer (bt : ptr) : hdl unit :=
  x ← timer_at bt;
  if bool_decide (state x = TIMER_STATE_INACTIVE) then mret tt else
  (if bool_decide (state x = TIMER_STATE_EXPIRED) then expired_Remove bt else TimersTree_Remove bt);;
  set_timer bt (fun x => x <| state := TIMER_STATE_INACTIVE |>).

Inductive timer_mode := BTIMER_SET_ABSOLUTE | BTIMER_SET_RELATIVE.
Definition BReactor_SetSmallTimer (bt : ptr) (mode : timer_mode) (time : Z) : hdl unit :=
  BReactor_RemoveSmallTimer bt;;
  time ← match mode with
         | BTIMER_SET_RELATIVE => now ← btime_gettime; mret (btime_add now time)
         | BTIMER_SET_ABSOLUTE => mret time
         end;
  set_timer bt (fun x => x <| absTime := time |>);;
  set_timer bt (fun x => x <| state := TIMER_STATE_RUNNING |>);;
  res ← TimersTree_Insert bt;
  ASSERT res.

Definition BReactor_SetTimer (bt : ptr) : hdl unit :=
  m ← get; b ← of_option (btimers m !! bt);
  BReactor_SetSmallTimer bt BTIMER_SET_RELATIVE (msTime b).
Definition BReactor_SetTimerAfter (bt : ptr) (after : Z) : hdl unit :=
  BReactor_SetSmallTimer bt BTIMER_SET_RELATIVE after.
Definition BReactor_SetTimerAbsolute (bt : ptr) (time : Z) : hdl unit :=
  BReactor_SetSmallTimer bt BTIMER_SET_ABSOLUTE time.
Definition BReactor_RemoveTimer (bt : ptr) : hdl unit := BReactor_RemoveSmallTimer bt.

(** *** File descriptors *)

(** [epoll_ctl]: it fails when the descriptor is registered already, or not
    yet, and adding may fail for other reasons. *)
Definition epoll_ctl_add (granted : bool) (k : Z) (event : epoll_event) : hdl bool :=
  m ← get;
  if granted && bool_decide (epoll (system m) !! k = None)
  then modify (fun m => m <| system := (system m <| epoll := <[k := event]> (epoll (system m)) |>) |>);; mret true
  else mret false.
Definition epoll_ctl_mod (k : Z) (event : epoll_event) : hdl bool :=
  m ← get;
  if bool_decide (is_Some (epoll (system m) !! k))
  then modify (fun m => m <| system := (system m <| epoll := <[k := event]> (epoll (system m)) |>) |>);; mret true
  else mret false.
Definition epoll_ctl_del (k : Z) : hdl bool :=
  m ← get;
  if bool_decide (is_Some (epoll (system m) !! k))
  then modify (fun m => m <| system := (system m <| epoll := delete k (epoll (system m)) |>) |>);; mret true
  else mret false.

Definition BReactor_AddFileDescriptor (bs : ptr) (granted : bool) : hdl bool :=
  x ← fd_at bs;
  ASSERT (negb (active x));;
  added ← epoll_ctl_add granted (fd x) (mk_event (mk_bits false false false false) (Some bs));
  if negb added then mret false else
  set_fd bs (fun x => x <| epoll_returned_ptr := None |>);;
  set_fd bs (fun x => x <| active := true |> <| waitEvents := 0 |>);;
  mret true.

Definition BReactor_RemoveFileDescriptor (bs : ptr) : hdl unit :=
  x ← fd_at bs;
  ASSERT (active x);;
  set_fd bs (fun x => x <| active := false |>);;
  deleted ← epoll_ctl_del (fd x);
  ASSERT deleted;;
  match epoll_returned_ptr x with
  | Some i =>
      m ← get;
      event ← of_option (epoll_results m !! i);
      modify (fun m => m <| epoll_results := <[i := event <| data_ptr := None |>]> (epoll_results m) |>)
  | None => mret tt
  end.

Definition has_bit (x bit : Z) : bool := negb (Z.land x bit =? 0).
Definition BReactor_SetFileDescriptorEvents (bs : ptr) (ev : Z) : hdl unit :=
  x ← fd_at bs;
  ASSERT (active x);;
  ASSERT (Z.land ev (Z.lnot (Z.lor BREACTOR_READ BREACTOR_WRITE)) =? 0);;
  if waitEvents x =? ev then mret tt else
  changed ← epoll_ctl_mod (fd x)
    (mk_event (mk_bits (has_bit ev BREACTOR_READ) (has_bit ev BREACTOR_WRITE) false false) (Some bs));
  ASSERT changed;;
  set_fd bs (fun x => x <| waitEvents := ev |>).

(** *** Limits *)

Definition BReactorLimit_Init (o : ptr) (n : Z) : hdl unit :=
  ASSERT (0 <? n);; modify (fun m => m <| limits := <[o := mk_limit n 0]> (limits m) |>).
Definition BReactorLimit_Free (o : ptr) : hdl unit :=
  x ← limit_at o;
  (if 0 <? count x then
     m ← get;
     ASSERT (bool_decide (o ∈ active_limits_list m));;
     modify (fun m => m <| active_limits_list := without o (active_limits_list m) |>)
   else mret tt);;
  modify (fun m => m <| limits := delete o (limits m) |>).
Definition BReactorLimit_Increment (o : ptr) : hdl bool :=
  x ← limit_at o;
  if limit x <=? count x then mret false else
  set_limit o (fun x => x <| count := count x + 1 |>);;
  (if count x + 1 =? 1 then
     modify (fun m => m <| active_limits_list := active_limits_list m ++ [o] |>)
   else mret tt);;
  mret true.
Definition BReactorLimit_SetLimit (o : ptr) (n : Z) : hdl unit :=
  ASSERT (0 <? n);; set_limit o (fun x => x <| limit := n |>).

(** ** The loop *)

Definition BReactor_Quit (c : Z) : hdl unit :=
  modify (fun m => m <| exiting := true |> <| exit_code := c |>).

(** The bits that are reported: those asked for, errors and hang-ups. *)
Definition reported (wait : Z) (bits : epoll_bits) : Z :=
  let events := 0 in
  let events := if has_bit wait BREACTOR_READ && EPOLLIN bits then Z.lor events BREACTOR_READ else events in
  let events := if has_bit wait BREACTOR_WRITE && EPOLLOUT bits then Z.lor events BREACTOR_WRITE else events in
  let events := if EPOLLERR bits then Z.lor events BREACTOR_ERROR else events in
  if EPOLLHUP bits then Z.lor events BREACTOR_HUP else events.

Definition dispatch_fd : hdl unit :=
  m ← get;
  let pos := epoll_results_pos m in
  event ← of_option (epoll_results m !! pos);
  modify (fun m => m <| epoll_results_pos := S pos |>);;
  match data_ptr event with
  | None => mret tt
  | Some bfd =>
      x ← fd_at bfd;
      ASSERT (active x);;
      ASSERT (bool_decide (epoll_returned_ptr x = Some pos));;
      set_fd bfd (fun x => x <| epoll_returned_ptr := None |>);;
      let events := reported (waitEvents x) (events event) in
      if events =? 0 then mret tt else call (Fd (fd_handler x) (fd_user x) events)
  end.

Definition dispatch_timer (timer : ptr) : hdl unit :=
  x ← timer_at timer;
  ASSERT (bool_decide (state x = TIMER_STATE_EXPIRED));;
  expired_Remove timer;;
  set_timer timer (fun x => x <| state := TIMER_STATE_INACTIVE |>);;
  if is_small x then call (Small_timer (handler_fn x) timer)
  else m ← get; b ← of_option (btimers m !! timer); call (Heavy_timer (handler_fn x) (user b)).

(** A turn of the loop of [BReactor_Exec]: [Some c], it returns [c]. *)
Definition BReactor_Exec (answers : list (epoll_answer * Z)) : hdl (option Z) :=
  m ← get;
  if exiting m then mret (Some (exit_code m)) else
  has_jobs ← BPendingGroup_HasJobs;
  if has_jobs : bool then BPendingGroup_ExecuteJob;; mret None else
  m ← get;
  match head (timers_expired_list m) with
  | Some timer => dispatch_timer timer;; mret None
  | None =>
      if Nat.ltb (epoll_results_pos m) (epoll_results_num m) then dispatch_fd;; mret None
      else wait_for_events answers;; mret None
  end.

(** A turn of the loop of [BReactor_Synchronize]. *)
Definition BReactor_Synchronize (ref : ptr) : hdl (option bool) :=
  m ← get;
  if exiting m then mret (Some false) else
  has_jobs ← BPendingGroup_HasJobs;
  ASSERT has_jobs;;
  top ← BPendingGroup_PeekJob;
  if bool_decide (top = Some ref) then mret (Some true) else
  BPendingGroup_ExecuteJob;; mret None.

(** [epoll_create] may fail: [created]; the results array is not written. *)
Definition BReactor_Init (created : bool) (g : G) (w : world) (junk : list epoll_event) : option (BReactor G) :=
  if created then Some (mk_reactor false 0 g [] [] [] junk 0 0 ∅ ∅ ∅ ∅ w) else None.

Definition BReactor_Free : hdl unit :=
  has_jobs ← BPendingGroup_HasJobs;
  ASSERT (negb has_jobs);;
  m ← get;
  ASSERT (bool_decide (timers_tree m = []));;
  ASSERT (bool_decide (timers_expired_list m = []));;
  ASSERT (bool_decide (active_limits_list m = [])).

(** ** Executions *)

(** What the program does to the reactor: a turn of the loop, and what the
    handlers and the system do. *)
Inductive event :=
  | Ev_exec (answers : list (epoll_answer * Z))
  | Ev_synchronize (ref : ptr)
  | Ev_quit (c : Z)
  | Ev_time (t : Z)
  | Ev_jobs (i : op)
  | Ev_small_timer_init (bt : ptr) (h : code) (junk : Z)
  | Ev_timer_init (bt : ptr) (ms : Z) (h : code) (u : ptr) (junk : Z)
  | Ev_timer_forget (bt : ptr)
  | Ev_timer_is_running (bt : ptr)
  | Ev_small_timer_set (bt : ptr) (mode : timer_mode) (time : Z)
  | Ev_timer_set (bt : ptr)
  | Ev_timer_remove (bt : ptr)
  | Ev_fd_init (bs : ptr) (k : Z) (h : code) (u : ptr) (junk : Z * option nat)
  | Ev_fd_forget (bs : ptr)
  | Ev_fd_add (bs : ptr) (granted : bool)
  | Ev_fd_remove (bs : ptr)
  | Ev_fd_events (bs : ptr) (ev : Z)
  | Ev_limit_init (o : ptr) (n : Z)
  | Ev_limit_free (o : ptr)
  | Ev_limit_increment (o : ptr)
  | Ev_limit_set (o : ptr) (n : Z)
  | Ev_free.

Definition handle (e : event) : hdl unit :=
  match e with
  | Ev_exec answers => _ ← BReactor_Exec answers; mret tt
  | Ev_synchronize ref => _ ← BReactor_Synchronize ref; mret tt
  | Ev_quit c => BReactor_Quit c
  | Ev_time t => set_clock t
  | Ev_jobs i => _ ← jobs_do i; mret tt
  | Ev_small_timer_init bt h junk => BSmallTimer_Init bt h junk
  | Ev_timer_init bt ms h u junk => BTimer_Init bt ms h u junk
  | Ev_timer_forget bt => modify (fun m => m <| timers := delete bt (timers m) |>)
  | Ev_timer_is_running bt => _ ← BSmallTimer_IsRunning bt; mret tt
  | Ev_small_timer_set bt mode time => BReactor_SetSmallTimer bt mode time
  | Ev_timer_set bt => BReactor_SetTimer bt
  | Ev_timer_remove bt => BReactor_RemoveTimer bt
  | Ev_fd_init bs k h u junk => BFileDescriptor_Init bs k h u junk
  | Ev_fd_forget bs => modify (fun m => m <| fds := delete bs (fds m) |>)
  | Ev_fd_add bs granted => _ ← BReactor_AddFileDescriptor bs granted; mret tt
  | Ev_fd_remove bs => BReactor_RemoveFileDescriptor bs
  | Ev_fd_events bs ev => BReactor_SetFileDescriptorEvents bs ev
  | Ev_limit_init o n => BReactorLimit_Init o n
  | Ev_limit_free o => BReactorLimit_Free o
  | Ev_limit_increment o => _ ← BReactorLimit_Increment o; mret tt
  | Ev_limit_set o n => BReactorLimit_SetLimit o n
  | Ev_free => BReactor_Free
  end.

Definition in_int64 (t : Z) : bool := (INT64_MIN <=? t) && (t <=? INT64_MAX).

(** [epoll_wait] returns at most as many events as asked for, one for each
    descriptor, each with the pointer it was registered with. *)
Definition results_ok (reg : gmap Z epoll_event) (results : list epoll_event) : bool :=
  (Z.of_nat (length results) <=? BSYSTEM_MAX_RESULTS) && bool_decide (NoDup (map data_ptr results)) &&
  forallb (fun event => bool_decide (data_ptr event ∈ map (fun kv => data_ptr kv.2) (map_to_list reg))) results.

(** The clock does not go back; [epoll_wait] returns no events only when the
    time it was given has passed; it does return. *)
Fixpoint answers_ok (reg : gmap Z epoll_event) (timeout : option Z) (now : Z)
    (answers : list (epoll_answer * Z)) : bool :=
  match answers with
  | [] => false
  | (answer, t) :: answers =>
      let again := match timeout with
                   | Some abs => (abs <=? t) || answers_ok reg timeout t answers
                   | None => answers_ok reg timeout t answers
                   end in
      (now <=? t) && (t <=? INT64_MAX) &&
      match answer, timeout with
      | Interrupted, _ => again
      | Returned [], Some abs =>
          let ms := Z.min (abs - now) INT_MAX in (now + ms <=? t) && ((ms =? abs - now) || again)
      | Returned [], None => false
      | Returned results, _ => results_ok reg results
      end
  end.

(** The jobs, as the stack they are: [s]. *)
Definition idle (m : BReactor G) (s : JobStack.state) : bool :=
  negb (exiting m) && bool_decide (JobStack.stack s = []) && bool_decide (timers_expired_list m = [])
  && negb (Nat.ltb (epoll_results_pos m) (epoll_results_num m)).

Definition event_ok (m : BReactor G) (s : JobStack.state) (e : event) : bool :=
  match e with
  | Ev_exec answers =>
      negb (idle m s) ||
      let now := clock (system m) in
      match timers_tree m with
      | [] => answers_ok (epoll (system m)) None now answers
      | t :: _ =>
          match timers m !! t with
          | Some x => (absTime x <=? now) || answers_ok (epoll (system m)) (Some (absTime x)) now answers
          | None => false
          end
      end
  | Ev_synchronize ref => exiting m || bool_decide (ref ∈ JobStack.stack s)
  | Ev_quit c => true
  | Ev_time t => (clock (system m) <=? t) && (t <=? INT64_MAX)
  | Ev_jobs i => match i with ExecuteJob => false | _ => true end && bool_decide (is_Some (JobStack.step s i))
  | Ev_small_timer_init bt h junk => bool_decide (timers m !! bt = None)
  | Ev_timer_init bt ms h u junk => bool_decide (timers m !! bt = None) && in_int64 ms
  | Ev_timer_forget bt => bool_decide (state <$> timers m !! bt = Some TIMER_STATE_INACTIVE)
  | Ev_timer_is_running bt | Ev_timer_remove bt => bool_decide (is_Some (timers m !! bt))
  | Ev_small_timer_set bt mode time => bool_decide (is_Some (timers m !! bt)) && in_int64 time
  | Ev_timer_set bt => bool_decide (is_small <$> timers m !! bt = Some false)
  | Ev_fd_init bs k h u junk => negb (bool_decide (active <$> fds m !! bs = Some true))
  | Ev_fd_forget bs | Ev_fd_add bs _ => bool_decide (active <$> fds m !! bs = Some false)
  | Ev_fd_remove bs => bool_decide (active <$> fds m !! bs = Some true)
  | Ev_fd_events bs ev =>
      bool_decide (active <$> fds m !! bs = Some true) &&
      (Z.land ev (Z.lnot (Z.lor BREACTOR_READ BREACTOR_WRITE)) =? 0)
  | Ev_limit_init o n => bool_decide (limits m !! o = None) && (0 <? n) && (n <=? INT_MAX)
  | Ev_limit_free o | Ev_limit_increment o => bool_decide (is_Some (limits m !! o))
  | Ev_limit_set o n => bool_decide (is_Some (limits m !! o)) && (0 <? n) && (n <=? INT_MAX)
  | Ev_free =>
      bool_decide (JobStack.stack s = []) && bool_decide (limits m = ∅) &&
      bool_decide (map_Forall (fun _ x => state x = TIMER_STATE_INACTIVE) (timers m))
  end.

(** The stack of jobs after an event. *)
Definition popped (s : JobStack.state) : JobStack.state :=
  s <| JobStack.stack := tail (JobStack.stack s) |>.
Definition stack_after (m : BReactor G) (s : JobStack.state) (e : event) : JobStack.state :=
  match e with
  | Ev_exec _ => if exiting m then s else popped s
  | Ev_synchronize ref =>
      if exiting m || bool_decide (head (JobStack.stack s) = Some ref) then s else popped s
  | Ev_jobs i => match JobStack.step s i with Some (_, s', _) => s' | None => s end
  | _ => s
  end.

Fixpoint run (m : BReactor G) (s : JobStack.state) (es : list event)
    : option (BReactor G * JobStack.state * list out) :=
  match es with
  | [] => Some (m, s, [])
  | e :: es =>
      if event_ok m s e then
        '(_, m1, l1) ← handle e m;
        '(m2, s2, l2) ← run m1 (stack_after m s e) es;
        Some (m2, s2, l1 ++ l2)
      else None
  end.

End Reactor.

(** ** Invariants *)

Definition timer_st (tm : gmap ptr BSmallTimer) (t : ptr) : option timer_state := state <$> tm !! t.
Definition time_in (tm : gmap ptr BSmallTimer) (t : ptr) : Z := default 0 (absTime <$> tm !! t).

(** Timers: the tree has those that run, in order of time; the list those that
    expired, in order of time, and all are due. *)
Record timers_ok (tree expired : list ptr) (tm : gmap ptr BSmallTimer) (bt : gmap ptr BTimer) (c : Z) : Prop := {
  t_tree t : t ∈ tree <-> timer_st tm t = Some TIMER_STATE_RUNNING;
  t_expired t : t ∈ expired <-> timer_st tm t = Some TIMER_STATE_EXPIRED;
  t_sorted : StronglySorted (before (time_in tm)) tree;
  t_expired_sorted : StronglySorted (before (time_in tm)) expired;
  t_due t : t ∈ expired -> time_in tm t <= c;
  t_range t x : tm !! t = Some x -> state x <> TIMER_STATE_INACTIVE -> in_int64 (absTime x) = true;
  t_heavy t x : tm !! t = Some x -> is_small x = false ->
    exists b, bt !! t = Some b /\ in_int64 (msTime b) = true;
  t_clock : 0 <= c <= INT64_MAX;
}.

(** Descriptors: the active ones are registered, under their own pointer; the
    results that are left and the objects point to each other. *)
Record fds_ok (results : list epoll_event) (num pos : nat) (ds : gmap ptr BFileDescriptor)
    (reg : gmap Z epoll_event) : Prop := {
  f_pos : (pos <= num <= length results)%nat;
  f_result i ev b : (pos <= i < num)%nat -> results !! i = Some ev -> data_ptr ev = Some b ->
    exists x, ds !! b = Some x /\ active x = true /\ epoll_returned_ptr x = Some i;
  f_returned b x i : ds !! b = Some x -> active x = true -> epoll_returned_ptr x = Some i ->
    (pos <= i < num)%nat /\ exists ev, results !! i = Some ev /\ data_ptr ev = Some b;
  f_epoll k ev : reg !! k = Some ev ->
    exists b x, data_ptr ev = Some b /\ ds !! b = Some x /\ active x = true /\ fd x = k;
  f_active b x : ds !! b = Some x -> active x = true ->
    exists ev, reg !! fd x = Some ev /\ data_ptr ev = Some b;
}.

(** Limits: the active ones are those that were counted. *)
Record limits_ok (l : list ptr) (ls : gmap ptr BReactorLimit) : Prop := {
  l_nodup : NoDup l;
  l_active o : o ∈ l <-> exists x, ls !! o = Some x /\ 0 < count x;
  l_range o x : ls !! o = Some x -> 0 <= count x <= INT_MAX /\ 0 < limit x <= INT_MAX;
}.

Record inv {G} `{JobQueue G} (m : BReactor G) (s : JobStack.state) : Prop := {
  i_jobs : queue_is (pending_jobs m) s;
  i_set : forall o, o ∈ JobStack.stack s -> is_Some (JobStack.jobs s !! o);
  i_timers : timers_ok (timers_tree m) (timers_expired_list m) (timers m) (btimers m) (clock (system m));
  i_fds : fds_ok (epoll_results m) (epoll_results_num m) (epoll_results_pos m) (fds m) (epoll (system m));
  i_limits : limits_ok (active_limits_list m) (limits m);
}.

(** ** What it promises *)

(** The end of a wait: there is something to do, and no timer that is left is
    due before one that expires. *)
Definition wait_spec {G} (m m' : BReactor G) : Prop :=
  (forall q, time_in (timers m') q = time_in (timers m) q) /\ exiting m' = exiting m /\
  ((timers_tree m' = timers_tree m /\ timers_expired_list m' = [] /\
      epoll_results_pos m' = 0%nat /\ (0 < epoll_results_num m')%nat) \/
   (timers_expired_list m' <> [] /\ timers_tree m = timers_expired_list m' ++ timers_tree m' /\
      exists bound, (forall q, q ∈ timers_expired_list m' -> time_in (timers m') q <= bound) /\
        forall q, q ∈ timers_tree m' -> bound < time_in (timers m') q)).

(** A turn that calls the handler of timer [t]: it is the first of those that
    expired, its time has come, and it is not running any more. *)
Definition timer_spec {G} (m m' : BReactor G) (t : ptr) (l : list out) : Prop :=
  exists x, timers m !! t = Some x /\ absTime x <= clock (system m) /\
    (forall q, q ∈ timers_expired_list m -> absTime x <= time_in (timers m) q) /\
    timer_st (timers m') t = Some TIMER_STATE_INACTIVE /\
    l = [if is_small x then Small_timer (handler_fn x) t
         else Heavy_timer (handler_fn x) (from_option user 0%nat (btimers m !! t))].

(** A turn that takes the next result: the handler of the descriptor is called
    unless it was removed or nothing of what is watched has happened; the
    descriptor is active and is told of no other event. *)
Definition fd_spec {G} (m m' : BReactor G) (l : list out) : Prop :=
  epoll_results_pos m' = S (epoll_results_pos m) /\
  exists ev, epoll_results m !! epoll_results_pos m = Some ev /\
  match data_ptr ev with
  | None => l = []
  | Some b => exists x, fds m !! b = Some x /\ active x = true /\
      let events := reported (waitEvents x) (events ev) in
      Z.land events (Z.lnot (Z.lor (waitEvents x) (Z.lor BREACTOR_ERROR BREACTOR_HUP))) = 0 /\
      l = if events =? 0 then [] else [Fd (fd_handler x) (fd_user x) events]
  end.

(** Jobs come first, then timers, then descriptors; the reactor waits when
    there is nothing else to do. *)
Definition turn_spec {G} (m : BReactor G) (s : JobStack.state) (r : option Z) (m' : BReactor G)
    (l : list out) : Prop :=
  if exiting m then r = Some (exit_code m) /\ l = [] else
  r = None /\
  match JobStack.stack s, timers_expired_list m with
  | o :: _, _ => exists h u, JobStack.jobs s !! o = Some (h, u) /\ l = [Job h u]
  | [], t :: _ => timer_spec m m' t l
  | [], [] =>
      if Nat.ltb (epoll_results_pos m) (epoll_results_num m) then fd_spec m m' l
      else l = [] /\ wait_spec m m'
  end.

(** How often a timer is set, and how often it is the turn of its handler. *)
Definition sets (t : ptr) (e : event) : Z :=
  match e with
  | Ev_small_timer_set bt _ _ | Ev_timer_set bt => if decide (bt = t) then 1 else 0
  | _ => 0
  end.
Definition dispatched {G} (t : ptr) (m : BReactor G) (s : JobStack.state) (e : event) : Z :=
  match e with
  | Ev_exec _ =>
      if negb (exiting m) && bool_decide (JobStack.stack s = []) &&
         bool_decide (head (timers_expired_list m) = Some t) then 1 else 0
  | _ => 0
  end.
Fixpoint dispatches {G} `{JobQueue G} (t : ptr) (m : BReactor G) (s : JobStack.state) (es : list event) : Z :=
  match es with
  | [] => 0
  | e :: es =>
      dispatched t m s e +
      match handle e m with
      | Some (_, m1, _) => dispatches t m1 (stack_after m s e) es
      | None => 0
      end
  end.
Definition all_sets (t : ptr) (es : list event) : Z := foldr (fun e n => sets t e + n) 0 es.

(** What may happen while [BReactor_Synchronize] runs, without its reference
    job and those below it being moved. *)
Definition moves (i : op) (o : ptr) : bool :=
  match i with
  | Init x _ _ | Free x | Set_ x | Unset x => bool_decide (x = o)
  | _ => false
  end.
Definition above_mark (ref : ptr) (below : list ptr) (e : event) : bool :=
  match e with
  | Ev_exec _ => false
  | Ev_synchronize r => bool_decide (r = ref)
  | Ev_jobs i => forallb (fun o => negb (moves i o)) (ref :: below)
  | _ => true
  end.

Module ReactorProofs.
Section proofs.
Context {G : Type} `{JobQueue G}.
Implicit Types (m : BReactor G) (s : JobStack.state).

(** *** Time *)

Lemma btime_add_range a b : in_int64 a = true -> in_int64 b = true -> in_int64 (btime_add a b) = true.
Proof.
  unfold in_int64, btime_add, add_int64_overflows, INT64_MIN, INT64_MAX. intros.
  destruct (xorb (a <? 0) (b <? 0)) eqn:E; cbn [negb Z.eqb]; [destruct (a <? 0) eqn:?, (b <? 0) eqn:?; cbn in E; lia|].
  destruct (a <? 0) eqn:?; [destruct (a <? - 2 ^ 63 - b) eqn:?|destruct (2 ^ 63 - 1 - b <? a) eqn:?];
    cbn; destruct (b <? 0) eqn:?; cbn in E; lia.
Qed.

(** *** Timers *)

Definition with_timers m tree expired tm : BReactor G :=
  m <| timers_tree := tree |> <| timers_expired_list := expired |> <| timers := tm |>.
Lemma with_timers_id m : m = with_timers m (timers_tree m) (timers_expired_list m) (timers m).
Proof. by destruct m. Qed.

Lemma wp_timer_at t x m (Q : BSmallTimer -> BReactor G -> list out -> Prop) :
  timers m !! t = Some x -> Q x m [] -> wp (timer_at t) m Q.
Proof. intros Hx HQ. unfold timer_at. hstep. hstep. eapply wp_of_option; [exact Hx|exact HQ]. Qed.
Lemma wp_set_timer t f x m (Q : unit -> BReactor G -> list out -> Prop) : timers m !! t = Some x ->
  Q tt (m <| timers := <[t := f x]> (timers m) |>) [] -> wp (set_timer t f) m Q.
Proof. intros Hx HQ. unfold set_timer. hstep. eapply wp_timer_at; [exact Hx|]. by hstep. Qed.

Lemma timer_st_Some tm t st : timer_st tm t = Some st -> exists x, tm !! t = Some x /\ state x = st.
Proof. unfold timer_st. destruct (tm !! t) as [x|]; [|done]. intros [= <-]. eauto. Qed.
Lemma time_in_lookup tm t x : tm !! t = Some x -> time_in tm t = absTime x.
Proof. unfold time_in. by intros ->. Qed.
Lemma timer_st_insert tm t x t' :
  timer_st (<[t := x]> tm) t' = if decide (t' = t) then Some (state x) else timer_st tm t'.
Proof.
  unfold timer_st. case_decide; [subst; by rewrite lookup_insert_eq|].
  by rewrite lookup_insert_ne by congruence.
Qed.
Lemma time_in_insert tm t x t' :
  time_in (<[t := x]> tm) t' = if decide (t' = t) then absTime x else time_in tm t'.
Proof.
  unfold time_in. case_decide; [subst; by rewrite lookup_insert_eq|].
  by rewrite lookup_insert_ne by congruence.
Qed.

Lemma compare_timers_ok t1 t2 m : is_Some (timers m !! t1) -> is_Some (timers m !! t2) -> t1 <> t2 ->
  decides compare_timers (time_in (timers m)) m t1 t2.
Proof.
  intros [x1 H1] [x2 H2] Hne. unfold decides, compare_timers.
  hstep. eapply wp_timer_at; [exact H1|]. hstep. eapply wp_timer_at; [exact H2|]. cbv zeta.
  unfold before. rewrite (time_in_lookup _ _ _ H1), (time_in_lookup _ _ _ H2), !B_COMPARE_sgn.
  destruct (Z.sgn (absTime x1 - absTime x2) =? 0) eqn:E; cbn [negb]; hstep; split_and!; try done; lia.
Qed.

(** A change of the state of a timer, with its place. *)
Lemma timers_ok_set_state t x st tree expired tree' expired' tm bt c :
  timers_ok tree expired tm bt c -> tm !! t = Some x ->
  (st <> TIMER_STATE_INACTIVE -> in_int64 (absTime x) = true) ->
  (forall q, q ∈ tree' <-> if decide (q = t) then st = TIMER_STATE_RUNNING else q ∈ tree) ->
  (forall q, q ∈ expired' <-> if decide (q = t) then st = TIMER_STATE_EXPIRED else q ∈ expired) ->
  StronglySorted (before (time_in tm)) tree' -> StronglySorted (before (time_in tm)) expired' ->
  (st = TIMER_STATE_EXPIRED -> time_in tm t <= c) ->
  timers_ok tree' expired' (<[t := x <| state := st |>]> tm) bt c.
Proof.
  intros Ht Hx Hr Htree Hexp Hs Hse Hdue.
  assert (Htime : forall q, time_in (<[t := x <| state := st |>]> tm) q = time_in tm q).
  { intros q. rewrite time_in_insert. case_decide; [subst; by rewrite (time_in_lookup _ _ _ Hx)|done]. }
  split.
  - intros q. rewrite Htree, timer_st_insert. case_decide; cbn; [|by rewrite (t_tree _ _ _ _ _ Ht)].
    split; [by intros ->|by intros [= ->]].
  - intros q. rewrite Hexp, timer_st_insert. case_decide; cbn; [|by rewrite (t_expired _ _ _ _ _ Ht)].
    split; [by intros ->|by intros [= ->]].
  - eapply sorted_ext; [|exact Hs]. auto.
  - eapply sorted_ext; [|exact Hse]. auto.
  - intros q Hq. rewrite Htime. apply Hexp in Hq. case_decide; [subst; auto|]. by apply (t_due _ _ _ _ _ Ht).
  - intros q y [[<- <-]|[_ Hy]]%lookup_insert_Some; [exact Hr|]. by apply (t_range _ _ _ _ _ Ht q).
  - intros q y [[<- <-]|[_ Hy]]%lookup_insert_Some;
      [exact (t_heavy _ _ _ _ _ Ht t x Hx)|exact (t_heavy _ _ _ _ _ Ht q y Hy)].
  - apply (t_clock _ _ _ _ _ Ht).
Qed.

Lemma sorted_snoc f l p : StronglySorted (before f) l -> (forall q, q ∈ l -> before f q p) ->
  StronglySorted (before f) (l ++ [p]).
Proof.
  induction 1 as [|q l Hl IH Hq]; intros Hp; cbn [app]; [repeat constructor|]. constructor.
  - apply IH. intros r Hr. apply Hp. by right.
  - rewrite Forall_app. split; [done|]. constructor; [apply Hp; left|constructor].
Qed.

(** Moving the first timer of the tree. *)
Lemma move_timer_ok t tree expired tm m :
  timers_ok (t :: tree) expired tm (btimers m) (clock (system m)) ->
  time_in tm t <= clock (system m) -> (forall q, q ∈ expired -> before (time_in tm) q t) ->
  wp (move_timer t) (with_timers m (t :: tree) expired tm) (fun _ m' l => l = [] /\ exists tm',
    m' = with_timers m tree (expired ++ [t]) tm' /\ (forall q, time_in tm' q = time_in tm q) /\
    timers_ok tree (expired ++ [t]) tm' (btimers m) (clock (system m))).
Proof.
  intros Hi Hdue Hb. destruct (timer_st_Some tm t TIMER_STATE_RUNNING) as (x & Hx & Hst).
  { apply (t_tree _ _ _ _ _ Hi). left. }
  pose proof (t_sorted _ _ _ _ _ Hi) as Hs. pose proof (sorted_nodup _ _ Hs) as Hn. apply NoDup_cons in Hn as [Hn _].
  assert (Hte : t ∉ expired). { intros He. apply (t_expired _ _ _ _ _ Hi) in He. unfold timer_st in He. rewrite Hx in He. cbn in He. congruence. }
  unfold move_timer, TimersTree_Remove, expired_Append. hstep. hstep. hstep. hstep. hstep.
  { apply bool_decide_eq_true_2. left. }
  hstep. hstep. hstep. eapply wp_set_timer; [exact Hx|]. split; [done|].
  exists (<[t := x <| state := TIMER_STATE_EXPIRED |>]> tm). split; [|split].
  - unfold with_timers. cbn. by rewrite (sorted_cons_without _ _ _ Hs).
  - intros q. rewrite time_in_insert. case_decide; [subst; by rewrite (time_in_lookup _ _ _ Hx)|done].
  - eapply timers_ok_set_state; [exact Hi|exact Hx|..].
    + intros _. apply (t_range _ _ _ _ _ Hi t x Hx). congruence.
    + intros q. case_decide; [subst; by split|]. rewrite elem_of_cons. tauto.
    + intros q. rewrite elem_of_app, list_elem_of_singleton. case_decide; [subst; tauto|tauto].
    + by apply StronglySorted_inv in Hs as [? _].
    + by apply sorted_snoc; [apply (t_expired_sorted _ _ _ _ _ Hi)|].
    + done.
Qed.

Lemma wp_first tree expired tm m (Q : option ptr -> BReactor G -> list out -> Prop) :
  Q (head tree) (with_timers m tree expired tm) [] ->
  wp TimersTree_GetFirst (with_timers m tree expired tm) Q.
Proof. done. Qed.
Lemma timers_head t tree expired tm bt c : timers_ok (t :: tree) expired tm bt c ->
  exists x, tm !! t = Some x /\ state x = TIMER_STATE_RUNNING /\ time_in tm t = absTime x /\
    forall q, q ∈ t :: tree -> absTime x <= time_in tm q.
Proof.
  intros Hi. destruct (timer_st_Some tm t TIMER_STATE_RUNNING) as (x & Hx & Hst).
  { apply (t_tree _ _ _ _ _ Hi). left. }
  exists x. split_and!; [done|done|by apply time_in_lookup|].
  intros q Hq. rewrite <- (time_in_lookup _ _ _ Hx). eapply sorted_head; [apply (t_sorted _ _ _ _ _ Hi)|done].
Qed.

(** The timers due at [bound] have been moved, in order. *)
Definition moved_upto (bound : Z) m (tree expired : list ptr) (tm : gmap ptr BSmallTimer)
    (k : list ptr) (m' : BReactor G) : Prop :=
  exists tree' tm', tree = k ++ tree' /\ m' = with_timers m tree' (expired ++ k) tm' /\
    timers_ok tree' (expired ++ k) tm' (btimers m) (clock (system m)) /\
    (forall q, time_in tm' q = time_in tm q) /\
    (forall q, q ∈ k -> time_in tm q <= bound) /\ (forall q, q ∈ tree' -> bound < time_in tm q).

Lemma moved_nil bound m tree expired tm : timers_ok tree expired tm (btimers m) (clock (system m)) ->
  (forall q, q ∈ tree -> bound < time_in tm q) ->
  moved_upto bound m tree expired tm [] (with_timers m tree expired tm).
Proof.
  intros Hi Hb. exists tree, tm. rewrite app_nil_r. split_and!; try done. by intros q ?%not_elem_of_nil.
Qed.
Lemma moved_cons bound m t tree expired tm tm1 k m' : (forall q, time_in tm1 q = time_in tm q) ->
  time_in tm t <= bound -> moved_upto bound m tree (expired ++ [t]) tm1 k m' ->
  moved_upto bound m (t :: tree) expired tm (t :: k) m'.
Proof.
  intros Ht Hb (tree' & tm' & -> & -> & Hi & Htm & Hk & Hr). rewrite <- app_assoc in Hi.
  exists tree', tm'. rewrite <- app_assoc. split_and!; try done.
  - intros q. by rewrite Htm.
  - intros q [->|Hq]%elem_of_cons; [done|]. rewrite <- Ht. by apply Hk.
  - intros q Hq. rewrite <- Ht. by apply Hr.
Qed.

(** The order of what has expired before what may expire is kept by a move. *)
Lemma before_snoc tm tm1 t tree expired bt c : timers_ok (t :: tree) expired tm bt c ->
  (forall q, time_in tm1 q = time_in tm q) ->
  (forall p q, p ∈ expired -> q ∈ t :: tree -> before (time_in tm) p q) ->
  forall p q, p ∈ expired ++ [t] -> q ∈ tree -> before (time_in tm1) p q.
Proof.
  intros Hi Ht Hb p q Hp Hq. unfold before. rewrite !Ht. apply elem_of_app in Hp as [Hp|Hp%list_elem_of_singleton].
  - apply Hb; [done|by right].
  - subst p. pose proof (t_sorted _ _ _ _ _ Hi) as [_ Hs]%StronglySorted_inv.
    rewrite Forall_forall in Hs. by apply Hs.
Qed.

Lemma move_expired_loop_ok now m fuel : forall moved tree expired tm,
  timers_ok tree expired tm (btimers m) (clock (system m)) -> now <= clock (system m) ->
  (forall p q, p ∈ expired -> q ∈ tree -> before (time_in tm) p q) -> (length tree <= fuel)%nat ->
  wp (move_expired_loop fuel now moved) (with_timers m tree expired tm) (fun r m' l => l = [] /\
    exists k, moved_upto now m tree expired tm k m' /\ r = moved || negb (bool_decide (k = []))).
Proof.
  induction fuel as [|fuel IH]; intros moved tree expired tm Hi Hnow Hb Hf; cbn [move_expired_loop];
    hstep; apply wp_first; (destruct tree as [|t tree]; cbn [head];
    [hstep; split; [done|]; exists []; rewrite orb_false_r; split; [|done]; apply moved_nil; [done|];
     by intros q ?%not_elem_of_nil|]); [cbn in Hf; lia|].
  destruct (timers_head _ _ _ _ _ _ Hi) as (x & Hx & Hst & Ht & Hmin).
  hstep. eapply wp_timer_at; [exact Hx|]. hstep. hstep; [by apply bool_decide_eq_true_2|].
  destruct (now <? absTime x) eqn:E.
  - hstep. split; [done|]. exists []. rewrite orb_false_r. split; [|done]. apply moved_nil; [done|].
    intros q Hq%Hmin. lia.
  - hstep. eapply wp_mono.
    { apply move_timer_ok; [done|lia|]. intros q Hq. apply Hb; [done|left]. }
    intros _ m1 ? (-> & tm1 & -> & Htm & Hi1). eapply wp_mono.
    { apply IH; [done|done|by eapply before_snoc|cbn in Hf; lia]. }
    intros r m2 ? (-> & k & Hk & ->). split; [done|]. exists (t :: k). split.
    + eapply moved_cons; [done|lia|done].
    + by rewrite orb_true_r.
Qed.

Lemma move_first_loop_ok first_time m fuel : forall tree expired tm,
  timers_ok tree expired tm (btimers m) (clock (system m)) -> first_time <= clock (system m) ->
  (forall q, q ∈ tree -> first_time <= time_in tm q) ->
  (forall p q, p ∈ expired -> q ∈ tree -> before (time_in tm) p q) -> (length tree <= fuel)%nat ->
  wp (move_first_loop fuel first_time) (with_timers m tree expired tm) (fun r m' l => l = [] /\
    exists k, moved_upto first_time m tree expired tm k m').
Proof.
  induction fuel as [|fuel IH]; intros tree expired tm Hi Hnow Hge Hb Hf; cbn [move_first_loop];
    hstep; apply wp_first; (destruct tree as [|t tree]; cbn [head];
    [hstep; split; [done|]; exists []; apply moved_nil; [done|];
     by intros q ?%not_elem_of_nil|]); [cbn in Hf; lia|].
  destruct (timers_head _ _ _ _ _ _ Hi) as (x & Hx & Hst & Ht & Hmin).
  specialize (Hge t ltac:(left)) as Hge'.
  hstep. eapply wp_timer_at; [exact Hx|]. hstep. hstep; [by apply bool_decide_eq_true_2|].
  hstep. hstep; [lia|]. destruct (first_time <? absTime x) eqn:E.
  - hstep. split; [done|]. exists []. apply moved_nil; [done|]. intros q Hq%Hmin. lia.
  - hstep. eapply wp_mono.
    { apply move_timer_ok; [done|lia|]. intros q Hq. apply Hb; [done|left]. }
    intros _ m1 ? (-> & tm1 & -> & Htm & Hi1). eapply wp_mono.
    { apply IH; [done|done| |by eapply before_snoc|cbn in Hf; lia].
      intros q Hq. rewrite Htm. apply Hge. by right. }
    intros r m2 ? (-> & k & Hk). split; [done|]. exists (t :: k). eapply moved_cons; [done|lia|done].
Qed.

Lemma move_expired_timers_ok now m tree tm : timers_ok tree [] tm (btimers m) (clock (system m)) ->
  now <= clock (system m) ->
  wp (move_expired_timers now) (with_timers m tree [] tm) (fun r m' l => l = [] /\
    exists k, moved_upto now m tree [] tm k m' /\ r = negb (bool_decide (k = []))).
Proof.
  intros Hi Hnow. unfold move_expired_timers. hstep. hstep. eapply wp_mono.
  { apply (move_expired_loop_ok now m _ false tree [] tm Hi Hnow); [|done]. by intros p q ?%not_elem_of_nil. }
  intros r m' l (-> & k & Hk & ->). split; [done|]. by exists k.
Qed.

Lemma move_first_timers_ok t tree m tm : timers_ok (t :: tree) [] tm (btimers m) (clock (system m)) ->
  time_in tm t <= clock (system m) ->
  wp move_first_timers (with_timers m (t :: tree) [] tm) (fun _ m' l => l = [] /\
    exists k, moved_upto (time_in tm t) m (t :: tree) [] tm (t :: k) m').
Proof.
  intros Hi Hnow. destruct (timers_head _ _ _ _ _ _ Hi) as (x & Hx & Hst & Ht & Hmin).
  unfold move_first_timers. hstep. apply wp_first. cbn [head]. hstep. eapply wp_of_option; [done|].
  hstep. eapply wp_timer_at; [exact Hx|]. hstep. hstep; [by apply bool_decide_eq_true_2|].
  hstep. eapply wp_mono; [apply move_timer_ok; [done|done|by intros q ?%not_elem_of_nil]|].
  intros _ m1 ? (-> & tm1 & -> & Htm & Hi1). hstep. hstep. eapply wp_mono.
  { apply (move_first_loop_ok (absTime x) m _ tree [t] tm1 Hi1); [lia| | |done].
    - intros q Hq. rewrite Htm. apply Hmin. by right.
    - apply (before_snoc tm tm1 t tree [] _ _ Hi Htm). by intros p q ?%not_elem_of_nil. }
  intros _ m2 ? (-> & k & Hk). split; [done|]. exists k. rewrite Ht. eapply moved_cons; [done|lia|done].
Qed.

(** *** File descriptors *)

Definition with_fds m ds : BReactor G := m <| fds := ds |>.

(** The fields of a descriptor but the one the results write to. *)
Definition fd_core (x : BFileDescriptor) : BFileDescriptor := x <| epoll_returned_ptr := None |>.
Definition same_fds (ds ds' : gmap ptr BFileDescriptor) : Prop :=
  forall b, fd_core <$> ds !! b = fd_core <$> ds' !! b.
Lemma same_fds_lookup ds ds' b x : same_fds ds ds' -> ds !! b = Some x ->
  exists x', ds' !! b = Some x' /\ fd x' = fd x /\ active x' = active x /\ waitEvents x' = waitEvents x /\
    fd_handler x' = fd_handler x /\ fd_user x' = fd_user x.
Proof.
  intros Hs Hx. specialize (Hs b). rewrite Hx in Hs. destruct (ds' !! b) as [x'|]; [|done].
  injection Hs as H1 H2 H3 H4 H5. eauto 8.
Qed.
Lemma same_fds_sym ds ds' : same_fds ds ds' -> same_fds ds' ds.
Proof. intros Hs b. by rewrite Hs. Qed.
Lemma same_fds_insert ds b x v : ds !! b = Some x -> same_fds ds (<[b := x <| epoll_returned_ptr := v |>]> ds).
Proof.
  intros Hx b'. destruct (decide (b' = b)) as [->|]; [by rewrite lookup_insert_eq, Hx|].
  by rewrite lookup_insert_ne by congruence.
Qed.
Lemma same_fds_trans ds ds1 ds2 : same_fds ds ds1 -> same_fds ds1 ds2 -> same_fds ds ds2.
Proof. intros H1 H2 b. by rewrite H1. Qed.

Lemma wp_fd_at b x m (Q : BFileDescriptor -> BReactor G -> list out -> Prop) :
  fds m !! b = Some x -> Q x m [] -> wp (fd_at b) m Q.
Proof. intros Hx HQ. unfold fd_at. hstep. hstep. eapply wp_of_option; [exact Hx|exact HQ]. Qed.
Lemma wp_set_fd b f x m (Q : unit -> BReactor G -> list out -> Prop) : fds m !! b = Some x ->
  Q tt (m <| fds := <[b := f x]> (fds m) |>) [] -> wp (set_fd b f) m Q.
Proof. intros Hx HQ. unfold set_fd. hstep. eapply wp_fd_at; [exact Hx|]. by hstep. Qed.

(** The objects and the first [n] results point to each other. *)
Definition pointed (results : list epoll_event) (n : nat) (ds : gmap ptr BFileDescriptor) : Prop :=
  (forall i ev b, (i < n)%nat -> results !! i = Some ev -> data_ptr ev = Some b ->
    exists x, ds !! b = Some x /\ active x = true /\ epoll_returned_ptr x = Some i) /\
  (forall b x i, ds !! b = Some x -> active x = true -> epoll_returned_ptr x = Some i ->
    (i < n)%nat /\ exists ev, results !! i = Some ev /\ data_ptr ev = Some b).

Lemma pointed_next results n ds ev b x : pointed results n ds -> NoDup (map data_ptr results) ->
  results !! n = Some ev -> data_ptr ev = Some b -> ds !! b = Some x -> active x = true ->
  pointed results (S n) (<[b := x <| epoll_returned_ptr := Some n |>]> ds).
Proof.
  intros [H1 H2] Hn He Hb Hx Ha.
  assert (Huniq : forall i ev', results !! i = Some ev' -> data_ptr ev' = Some b -> i = n).
  { intros i ev' Hi Hb'. eapply (NoDup_lookup _ i n (Some b)); [exact Hn|..];
      rewrite list_lookup_fmap; [by rewrite Hi; cbn; rewrite Hb'|by rewrite He; cbn; rewrite Hb]. }
  split.
  - intros i ev' b' Hi He' Hb'. destruct (decide (b' = b)) as [->|Hne].
    + rewrite (Huniq i ev') by done. eexists. rewrite lookup_insert_eq. by split.
    + rewrite lookup_insert_ne by congruence. apply (H1 i ev'); [|done|done].
      assert (i <> n) by (intros ->; congruence). lia.
  - intros b' x' i [[<- <-]|[Hne Hx']]%lookup_insert_Some Ha' Hr.
    + cbn in Hr. injection Hr as <-. split; [lia|]. eauto.
    + destruct (H2 b' x' i Hx' Ha' Hr) as [? ?]. split; [lia|done].
Qed.

Lemma set_pointers_ok l results m : forall n ds, results = take n results ++ l -> (n <= length results)%nat ->
  pointed results n ds -> NoDup (map data_ptr results) ->
  (forall ev, ev ∈ l -> exists b x, data_ptr ev = Some b /\ ds !! b = Some x /\ active x = true) ->
  wp (set_epoll_fd_pointers n l) (with_fds m ds) (fun _ m' out => out = [] /\ exists ds',
    m' = with_fds m ds' /\ same_fds ds ds' /\ pointed results (length results) ds').
Proof.
  induction l as [|ev l IH]; intros n ds Hres Hn Hp Hnd Hl; cbn [set_epoll_fd_pointers].
  - hstep. split; [done|]. exists ds. split_and!; [done|done|].
    assert (n = length results) as <-; [|done]. rewrite app_nil_r in Hres.
    apply (f_equal length) in Hres. rewrite length_take in Hres. lia.
  - destruct (Hl ev ltac:(left)) as (b & x & Hb & Hx & Ha).
    assert (He : results !! n = Some ev).
    { rewrite Hres, lookup_app_r, length_take_le, Nat.sub_diag by (rewrite ?length_take; lia). done. }
    hstep. eapply wp_of_option; [exact Hb|]. hstep. eapply wp_fd_at; [exact Hx|].
    hstep. hstep; [done|]. hstep. hstep.
    { apply bool_decide_eq_true_2. destruct (epoll_returned_ptr x) as [i|] eqn:E; [|done].
      destruct Hp as [_ Hp2]. destruct (Hp2 b x i Hx Ha E) as (Hi & ev' & He' & Hb').
      assert (i = n) as ->; [|lia]. eapply (NoDup_lookup _ i n (Some b)); [exact Hnd|..];
        rewrite list_lookup_fmap; [by rewrite He'; cbn; rewrite Hb'|by rewrite He; cbn; rewrite Hb]. }
    hstep. eapply wp_set_fd; [exact Hx|]. change (wp (set_epoll_fd_pointers (S n) l)
      (with_fds m (<[b := x <| epoll_returned_ptr := Some n |>]> ds)) (fun (_ : unit) m' out =>
        [] ++ [] ++ [] ++ [] ++ [] ++ out = [] /\ exists ds', m' = with_fds m ds' /\ same_fds ds ds' /\
        pointed results (length results) ds')).
    eapply wp_mono; [apply IH|].
    + rewrite (take_S_r _ _ ev He), <- app_assoc. done.
    + apply lookup_lt_Some in He. lia.
    + by eapply pointed_next.
    + done.
    + intros ev' He'. destruct (Hl ev' ltac:(by right)) as (b' & x' & Hb' & Hx' & Ha').
      exists b'. destruct (decide (b' = b)) as [->|]; [|rewrite lookup_insert_ne by congruence; eauto].
      rewrite lookup_insert_eq. eexists. by split_and!.
    + intros _ m' ? (-> & ds' & -> & Hs & Hp'). split; [done|]. exists ds'. split_and!; [done| |done].
      eapply same_fds_trans; [by eapply same_fds_insert|done].
Qed.

Lemma fds_ok_pointed results results' num ds ds' reg : fds_ok results num num ds reg ->
  same_fds ds ds' -> pointed results' (length results') ds' -> fds_ok results' (length results') 0 ds' reg.
Proof.
  intros Hf Hs [H1 H2]. split; [lia|..].
  - intros i ev b Hi. apply H1. lia.
  - intros b x i Hx Ha Hr. destruct (H2 b x i Hx Ha Hr) as [? ?]. split; [lia|done].
  - intros k ev Hk. destruct (f_epoll _ _ _ _ _ Hf k ev Hk) as (b & x & Hb & Hx & Ha & Hfd).
    destruct (same_fds_lookup _ _ b x Hs Hx) as (x' & Hx' & Hfd' & Ha' & _).
    exists b, x'. split_and!; congruence.
  - intros b x Hx Ha. destruct (same_fds_lookup _ _ b x (same_fds_sym _ _ Hs) Hx) as (x' & Hx' & Hfd' & Ha' & _).
    rewrite <- Hfd'. apply (f_active _ _ _ _ _ Hf b x' Hx'). congruence.
Qed.

Lemma results_ok_fds results num pos ds reg results' : fds_ok results num pos ds reg ->
  results_ok reg results' = true ->
  Z.of_nat (length results') <= BSYSTEM_MAX_RESULTS /\ NoDup (map data_ptr results') /\
  forall ev, ev ∈ results' -> exists b x, data_ptr ev = Some b /\ ds !! b = Some x /\ active x = true.
Proof.
  intros Hf Hr. unfold results_ok in Hr. apply andb_true_iff in Hr as [[Hlen Hnd]%andb_true_iff Hall].
  split_and!; [lia|by apply bool_decide_eq_true in Hnd|]. intros ev Hev.
  rewrite forallb_forall in Hall. apply list_elem_of_In in Hev. apply Hall in Hev.
  apply bool_decide_eq_true, list_elem_of_fmap in Hev as ([k rev] & Hptr & Hin).
  apply elem_of_map_to_list in Hin. destruct (f_epoll _ _ _ _ _ Hf k rev Hin) as (b & x & Hb & Hx & Ha & _).
  exists b, x. cbn in Hptr. split_and!; congruence.
Qed.

(** What waiting does: it ends with timers that have expired, or with results. *)
Record waited m m' : Prop := {
  w_jobs : pending_jobs m' = pending_jobs m;
  w_exiting : exiting m' = exiting m;
  w_limits : active_limits_list m' = active_limits_list m /\ limits m' = limits m;
  w_timers : timers_ok (timers_tree m') (timers_expired_list m') (timers m') (btimers m') (clock (system m'));
  w_fds : fds_ok (epoll_results m') (epoll_results_num m') (epoll_results_pos m') (fds m') (epoll (system m'));
  w_pos : epoll_results_pos m' = 0%nat;
  w_time : forall q, time_in (timers m') q = time_in (timers m) q;
  w_end :
    (timers_tree m' = timers_tree m /\ timers_expired_list m' = [] /\ (0 < epoll_results_num m')%nat) \/
    (epoll_results_num m' = 0%nat /\ timers_expired_list m' <> [] /\
     timers_tree m = timers_expired_list m' ++ timers_tree m' /\
     exists bound, (forall q, q ∈ timers_expired_list m' -> time_in (timers m') q <= bound) /\
       forall q, q ∈ timers_tree m' -> bound < time_in (timers m') q);
}.

Definition with_clock m t : BReactor G := m <| system := (system m <| clock := t |>) |>.
Lemma waited_clock m t m' : waited (with_clock m t) m' -> waited m m'.
Proof. by intros []. Qed.

Lemma timers_ok_clock tree expired tm bt c c' : timers_ok tree expired tm bt c -> c <= c' <= INT64_MAX ->
  timers_ok tree expired tm bt c'.
Proof.
  intros Hi Hc. pose proof (t_clock _ _ _ _ _ Hi). destruct Hi. split; try done; [|lia].
  intros t Ht. etrans; [by eapply t_due0|lia].
Qed.

(** Before [epoll_wait]. *)
Record waiting m : Prop := {
  wg_timers : timers_ok (timers_tree m) [] (timers m) (btimers m) (clock (system m));
  wg_expired : timers_expired_list m = [];
  wg_num : epoll_results_num m = 0%nat;
  wg_pos : epoll_results_pos m = 0%nat;
  wg_fds : fds_ok (epoll_results m) 0 0 (fds m) (epoll (system m));
}.
Lemma waiting_clock m t : waiting m -> clock (system m) <= t <= INT64_MAX -> waiting (with_clock m t).
Proof. intros [] Ht. split; cbn; try done. by eapply timers_ok_clock. Qed.

Lemma moved_waited bound m k m' : waiting m -> k <> [] ->
  moved_upto bound m (timers_tree m) [] (timers m) k m' -> waited m m'.
Proof.
  intros Hw Hk (tree' & tm' & Htree & -> & Hi & Ht & Hle & Hgt).
  split; cbn; try done; [|by apply Hw|].
  - destruct Hw as [_ _ Hnum Hpos Hf]. by rewrite Hnum, Hpos.
  - right. destruct Hw as [_ _ Hnum _ _]. split_and!; [done|done|done|]. exists bound.
    by split; intros q Hq; rewrite Ht; auto.
Qed.

Lemma wait_first_ok m : waiting m ->
  match timers_tree m with t :: _ => time_in (timers m) t <= clock (system m) | [] => False end ->
  wp move_first_timers m (fun _ m' l => l = [] /\ waited m m').
Proof.
  intros Hw Ht. destruct (timers_tree m) as [|t tree] eqn:E; [done|].
  pose proof (wg_timers _ Hw) as Hi. rewrite E in Hi.
  rewrite (with_timers_id m), E, (wg_expired _ Hw). eapply wp_mono; [by apply move_first_timers_ok|].
  intros _ m' ? (-> & k & Hk). split; [done|].
  rewrite <- (wg_expired _ Hw), <- E, <- (with_timers_id m). eapply moved_waited; [done| |rewrite E; exact Hk].
  done.
Qed.

Lemma wait_results_ok m results : waiting m -> results_ok (epoll (system m)) results = true -> results <> [] ->
  wp (modify (fun m => m <| epoll_results := results |> <| epoll_results_num := length results |>);;
      set_epoll_fd_pointers 0 results) m (fun _ m' l => l = [] /\ waited m m').
Proof.
  intros Hw Hr Hne. destruct (results_ok_fds _ _ _ _ _ _ (wg_fds _ Hw) Hr) as (_ & Hnd & Hall).
  hstep. hstep. set (m1 := _ <| epoll_results_num := _ |>).
  change (wp (set_epoll_fd_pointers 0 results) (with_fds m1 (fds m))
    (fun _ m' out => [] ++ out = [] /\ waited m m')).
  eapply wp_mono; [apply (set_pointers_ok results results)|].
  - done.
  - lia.
  - split; [intros; lia|]. intros b x i Hx Ha Hret.
    destruct (f_returned _ _ _ _ _ (wg_fds _ Hw) b x i Hx Ha Hret). lia.
  - done.
  - done.
  - intros _ m' ? (-> & ds' & -> & Hs & Hp). split; [done|]. subst m1. split; cbn; try done.
    + rewrite (wg_expired _ Hw). apply Hw.
    + rewrite (wg_pos _ Hw). eapply fds_ok_pointed; [apply Hw|done|done].
    + apply Hw.
    + left. split_and!; [done|apply Hw|]. destruct results; [done|cbn; lia].
Qed.

Lemma wait_loop_ok timeout answers : forall now m, waiting m ->
  answers_ok (epoll (system m)) timeout (clock (system m)) answers = true ->
  match timeout with
  | Some abs => now = clock (system m) /\ now < abs /\
      exists t tree, timers_tree m = t :: tree /\ time_in (timers m) t = abs
  | None => True
  end ->
  wp (wait_loop timeout now answers) m (fun _ m' l => l = [] /\ waited m m').
Proof.
  induction answers as [|[answer t] answers IH]; intros now m Hw Ha Ht; cbn [wait_loop answers_ok] in *; [done|].
  apply andb_true_iff in Ha as [[Ht1 Ht2]%andb_true_iff Ha]. hstep.
  apply (wp_mono _ _ (fun rel m1 l => m1 = m /\ l = [] /\
    rel = match timeout with Some abs => abs - now | None => 0 end)).
  { destruct timeout as [abs|]; [|by hstep]. destruct Ht as (-> & Hlt & h & tree & Htree & Habs).
    unfold sub_int64. hstep. hstep; [|by hstep].
    pose proof (wg_timers _ Hw) as Hi. rewrite Htree in Hi.
    destruct (timers_head _ _ _ _ _ _ Hi) as (x & Hx & Hst & Htx & _).
    pose proof (t_range _ _ _ _ _ Hi h x Hx ltac:(by rewrite Hst)) as Hr.
    pose proof (t_clock _ _ _ _ _ Hi). unfold in_int64, INT64_MIN, INT64_MAX in *. lia. }
  intros rel m1 l (-> & -> & Hrel). unfold set_clock. hstep. hstep. fold (with_clock m t).
  assert (Hw1 : waiting (with_clock m t)) by (apply waiting_clock; [done|lia]).
  set (try_again := match timeout with Some _ => _ | None => _ end).
  assert (Hagain : match timeout with Some abs => (abs <=? t) || answers_ok (epoll (system m)) timeout t answers
                   | None => answers_ok (epoll (system m)) timeout t answers end = true ->
                   wp try_again (with_clock m t) (fun _ m' l => l = [] /\ waited m m')).
  { subst try_again. intros Hag. destruct timeout as [abs|].
    - destruct Ht as (-> & Hlt & h & tree & Htree & Habs). hstep. unfold btime_gettime. hstep.
      change (clock (system (with_clock m t))) with t. destruct (abs <=? t) eqn:E.
      + eapply wp_mono; [apply wait_first_ok; [done|]|].
        * change (timers_tree _) with (timers_tree m). rewrite Htree. cbn. lia.
        * intros _ m' ? [-> H']. split; [done|by eapply waited_clock].
      + eapply wp_mono; [apply IH; [done|done|]|].
        * cbn. split; [done|]. split; [lia|]. by exists h, tree.
        * intros _ m' ? [-> H']. split; [done|by eapply waited_clock].
    - eapply wp_mono; [by apply IH|]. intros _ m' ? [-> H']. split; [done|by eapply waited_clock]. }
  destruct answer as [|results]; [by apply Hagain|].
  destruct results as [|ev results]; [cbn [length Nat.eqb Z.of_nat Z.eqb negb orb]|].
  - destruct timeout as [abs|]; [|done]. destruct Ht as (-> & Hlt & h & tree & Htree & Habs). subst rel.
    apply andb_true_iff in Ha as [Hms Ha]. hstep. hstep; [done|]. hstep. hstep; [done|].
    destruct (Z.min (abs - clock (system m)) INT_MAX =? abs - clock (system m)) eqn:E; [|by apply Hagain].
    eapply wp_mono; [apply wait_first_ok; [done|]|].
    + change (timers_tree _) with (timers_tree m). rewrite Htree. cbn. lia.
    + intros _ m' ? [-> H']. split; [done|by eapply waited_clock].
  - replace (Z.of_nat (length (ev :: results)) =? 0) with false by done. cbn [negb orb].
    hstep. hstep; [done|]. hstep. hstep.
    { destruct (results_ok_fds _ _ _ _ _ _ (wg_fds _ Hw) Ha) as (Hl & _ & _). lia. }
    eapply wp_mono; [by apply wait_results_ok|]. intros _ m' ? [-> H']. split; [done|by eapply waited_clock].
Qed.

(** *** Limits *)

Lemma wp_limit_at o x m (Q : BReactorLimit -> BReactor G -> list out -> Prop) :
  limits m !! o = Some x -> Q x m [] -> wp (limit_at o) m Q.
Proof. intros Hx HQ. unfold limit_at. hstep. hstep. eapply wp_of_option; [exact Hx|exact HQ]. Qed.
Lemma wp_set_limit o f x m (Q : unit -> BReactor G -> list out -> Prop) : limits m !! o = Some x ->
  Q tt (m <| limits := <[o := f x]> (limits m) |>) [] -> wp (set_limit o f) m Q.
Proof. intros Hx HQ. unfold set_limit. hstep. eapply wp_limit_at; [exact Hx|]. by hstep. Qed.

Definition with_limits m l ls : BReactor G := m <| active_limits_list := l |> <| limits := ls |>.
Lemma with_limits_id m : m = with_limits m (active_limits_list m) (limits m).
Proof. by destruct m. Qed.

(** A limit and its place in the list change together. *)
Lemma limits_ok_insert l ls o x l' : limits_ok l ls -> NoDup l' ->
  (forall q, q ∈ l' <-> if decide (q = o) then 0 < count x else q ∈ l) ->
  0 <= count x <= INT_MAX -> 0 < limit x <= INT_MAX -> limits_ok l' (<[o := x]> ls).
Proof.
  intros Hi Hn Hl Hc Hm. split; [done|..].
  - intros q. rewrite Hl. case_decide as E.
    + subst. rewrite lookup_insert_eq. split; [by eauto|]. intros (? & [= <-] & ?). done.
    + rewrite lookup_insert_ne by congruence. apply (l_active _ _ Hi).
  - intros q y [[<- <-]|[_ Hy]]%lookup_insert_Some; [done|]. by apply (l_range _ _ Hi q).
Qed.

Lemma reset_limits_ok m fuel : forall l ls, limits_ok l ls -> (length l <= fuel)%nat ->
  wp (reset_limits fuel) (with_limits m l ls) (fun _ m' out => out = [] /\
    exists ls', m' = with_limits m [] ls' /\ limits_ok [] ls').
Proof.
  induction fuel as [|fuel IH]; intros l ls Hi Hf; cbn [reset_limits]; hstep; hstep;
    change (active_limits_list (with_limits m l ls)) with l; (destruct l as [|o l];
    [hstep; split; [done|]; by exists ls|]); [cbn in Hf; lia|].
  pose proof (l_nodup _ _ Hi) as Hn. pose proof (proj1 (l_active _ _ Hi o) ltac:(left)) as (x & Hx & Hc).
  hstep. eapply wp_limit_at; [exact Hx|]. hstep. hstep; [lia|].
  hstep. eapply wp_set_limit; [exact Hx|]. hstep. hstep.
  match goal with |- wp _ ?st _ => replace st with (with_limits m l (<[o := x <| count := 0 |>]> ls)) end.
  2:{ unfold with_limits. cbn. by rewrite (without_head _ _ Hn). }
  pose proof (l_range _ _ Hi o x Hx) as [Hc' Hm]. apply NoDup_cons in Hn as [Hno Hn].
  eapply wp_mono; [apply (IH l (<[o := x <| count := 0 |>]> ls)); [|cbn in Hf; lia]|].
  - eapply limits_ok_insert; [exact Hi|done| |cbn; lia|done]. intros q. cbn.
    case_decide; [subst; split; [done|lia]|]. rewrite elem_of_cons. tauto.
  - intros _ m' ? (-> & ls' & -> & Hi'). split; [done|]. by exists ls'.
Qed.

(** *** Jobs *)

Definition with_jobs m g : BReactor G := m <| pending_jobs := g |>.

Lemma jobs_do_ok i m s r s' o : queue_is (pending_jobs m) s -> JobStack.step s i = Some (r, s', o) ->
  wp (jobs_do i) m (fun r' m' l => r' = r /\ l = map (fun c => Job (run_handler c) (run_user c)) o /\
    exists g, m' = with_jobs m g /\ queue_is g s').
Proof.
  intros Hq Hs. pose proof (queue_ok _ _ _ _ _ _ Hq Hs) as Hw.
  apply wp_spec in Hw as (r' & g & o' & He & -> & -> & Hg).
  unfold wp, jobs_do. rewrite He. split_and!; [done|done|]. by exists g.
Qed.
Lemma has_jobs_ok m s : queue_is (pending_jobs m) s ->
  wp BPendingGroup_HasJobs m (fun b m' l => b = negb (bool_decide (JobStack.stack s = [])) /\ l = [] /\
    exists g, m' = with_jobs m g /\ queue_is g s).
Proof.
  intros Hq. unfold BPendingGroup_HasJobs. hstep. eapply wp_mono; [by eapply jobs_do_ok|].
  intros r m' l (-> & -> & g & -> & Hg). hstep. split_and!; [done|done|]. by exists g.
Qed.
Lemma execute_job_ok m s o h u l : queue_is (pending_jobs m) s -> JobStack.stack s = o :: l ->
  JobStack.jobs s !! o = Some (h, u) ->
  wp BPendingGroup_ExecuteJob m (fun _ m' out => out = [Job h u] /\
    exists g, m' = with_jobs m g /\ queue_is g (popped s)).
Proof.
  intros Hq Hs Hj. unfold BPendingGroup_ExecuteJob. hstep. eapply wp_mono.
  { eapply jobs_do_ok; [done|]. cbn. rewrite Hs, Hj. cbn. done. }
  intros r m' ? (-> & -> & g & -> & Hg). hstep. split; [done|]. exists g. split; [done|].
  unfold popped. by rewrite Hs.
Qed.

(** What is kept when the queue of jobs answers. *)
Lemma inv_jobs m s g s' : inv m s -> queue_is g s' ->
  (forall o, o ∈ JobStack.stack s' -> is_Some (JobStack.jobs s' !! o)) -> inv (with_jobs m g) s'.
Proof. intros [] Hg Hs. by split. Qed.
Lemma inv_popped m s g : inv m s -> queue_is g (popped s) -> inv (with_jobs m g) (popped s).
Proof.
  intros Hi Hg. eapply inv_jobs; [done|done|]. intros o Ho. apply (i_set _ _ Hi).
  unfold popped in Ho. cbn in Ho. destruct (JobStack.stack s); [done|]. by right.
Qed.

(** *** Waiting for events *)

Lemma waited_inv m s m' : inv m s -> waited m m' -> inv m' s /\ wait_spec m m'.
Proof.
  intros Hi Hw. split.
  - split; [rewrite (w_jobs _ _ Hw); apply Hi|apply Hi|apply Hw|apply Hw|].
    destruct (w_limits _ _ Hw) as [-> ->]. apply Hi.
  - split; [apply Hw|]. split; [apply Hw|]. destruct (w_end _ _ Hw) as [(?&?&?)|(?&?&?&?)]; [left|by right].
    split_and!; try done. apply Hw.
Qed.

Lemma inv_waiting m s : inv m s -> timers_expired_list m = [] ->
  epoll_results_pos m = epoll_results_num m ->
  waiting (m <| epoll_results_num := 0%nat |> <| epoll_results_pos := 0%nat |>).
Proof.
  intros Hi He Hp. split; cbn; try done.
  - rewrite <- He. apply Hi.
  - destruct (i_fds _ _ Hi) as [Hpos Hr Hret Hep Hac]. rewrite Hp in *. split; [lia|..]; try done.
    + intros i ev b ?. lia.
    + intros b x i Hx Ha Hri. destruct (Hret b x i Hx Ha Hri). lia.
Qed.

Lemma waited_inv' m m1 s m' : inv m s -> m1 = m <| epoll_results_num := 0%nat |> <| epoll_results_pos := 0%nat |> ->
  waited m1 m' -> inv m' s /\ wait_spec m m'.
Proof.
  intros Hi -> Hw. split.
  - split; [rewrite (w_jobs _ _ Hw); apply Hi|apply Hi|apply Hw|apply Hw|].
    destruct (w_limits _ _ Hw) as [-> ->]. apply Hi.
  - split; [apply Hw|]. split; [apply Hw|]. destruct (w_end _ _ Hw) as [(?&?&?)|(?&?&?&?)]; [left|by right].
    split_and!; try done. apply Hw.
Qed.

Lemma reset_end m m' s : inv m' s -> wait_spec m m' ->
  wp (m ← get; reset_limits (length (active_limits_list m))) m' (fun _ m2 l => l = [] /\
    inv m2 s /\ wait_spec m m2).
Proof.
  intros Hi Hw. hstep. hstep. rewrite (with_limits_id m') at 2. eapply wp_mono.
  { apply reset_limits_ok; [apply Hi|done]. }
  intros _ m2 ? (-> & ls & -> & Hl). split; [done|]. split; [|exact Hw].
  destruct Hi. by split.
Qed.

Lemma wait_for_events_ok answers m s : inv m s -> JobStack.stack s = [] -> timers_expired_list m = [] ->
  epoll_results_pos m = epoll_results_num m ->
  match timers_tree m with
  | [] => answers_ok (epoll (system m)) None (clock (system m)) answers
  | t :: _ => match timers m !! t with
              | Some x => (absTime x <=? clock (system m)) ||
                          answers_ok (epoll (system m)) (Some (absTime x)) (clock (system m)) answers
              | None => false
              end
  end = true ->
  wp (wait_for_events answers) m (fun _ m' l => l = [] /\ inv m' s /\ wait_spec m m').
Proof.
  intros Hi Hs He Hp Ha. unfold wait_for_events. hstep. eapply wp_mono; [apply has_jobs_ok, Hi|].
  intros b m0 ? (-> & -> & g & -> & Hg). rewrite (bool_decide_eq_true_2 _ Hs). cbn [negb].
  assert (Hi0 : inv (with_jobs m g) s) by (eapply inv_jobs; [done|done|apply Hi]).
  assert (Hspec : forall m2, wait_spec (with_jobs m g) m2 -> wait_spec m m2) by done.
  assert (He0 : timers_expired_list (with_jobs m g) = []) by done.
  assert (Hp0 : epoll_results_pos (with_jobs m g) = epoll_results_num (with_jobs m g)) by done.
  change (timers_tree m) with (timers_tree (with_jobs m g)) in Ha.
  change (timers m) with (timers (with_jobs m g)) in Ha. change (system m) with (system (with_jobs m g)) in Ha.
  generalize dependent (with_jobs m g). intros m0 Ha Hi0 Hspec He0 Hp0. clear Hi He Hp Hg.
  hstep. hstep; [done|]. hstep. hstep. hstep. hstep; [by apply bool_decide_eq_true_2|].
  hstep. hstep; [by apply Nat.eqb_eq|]. hstep. hstep.
  pose proof (inv_waiting m0 s Hi0 He0 Hp0) as Hw.
  set (m1 := _ <| epoll_results_pos := _ |>) in *.
  assert (Hend : forall m', waited m1 m' -> inv m' s /\ wait_spec m0 m') by (intros m'; by eapply waited_inv').
  change (timers_tree m0) with (timers_tree m1) in Ha. change (timers m0) with (timers m1) in Ha.
  change (system m0) with (system m1) in Ha. clearbody m1.
  hstep. rewrite (with_timers_id m1). apply wp_first. rewrite <- (with_timers_id m1).
  pose proof (wg_timers _ Hw) as Hit. destruct (timers_tree m1) as [|t tree] eqn:Et; cbn [head].
  - hstep. hstep. eapply wp_mono; [by apply wait_loop_ok|]. intros _ m' ? [-> H']. hstep.
    destruct (Hend _ H') as [Hi' Hw']. eapply wp_mono; [by apply reset_end|].
    intros _ m2 ? (-> & ? & ?). split; [done|]. auto.
  - destruct (timers_head _ _ _ _ _ _ Hit) as (x & Hx & Hst & Htx & Hmin). rewrite Hx in Ha.
    hstep. hstep. eapply wp_timer_at; [exact Hx|]. hstep. hstep; [by apply bool_decide_eq_true_2|].
    hstep. unfold btime_gettime. hstep. hstep.
    assert (Hm1 : with_timers m1 (t :: tree) [] (timers m1) = m1).
    { rewrite <- Et, <- (wg_expired _ Hw) at 1. symmetry. apply with_timers_id. }
    pose proof (move_expired_timers_ok (clock (system m1)) m1 (t :: tree) (timers m1) Hit ltac:(lia)) as Hmv.
    rewrite Hm1 in Hmv. eapply wp_mono; [exact Hmv|].
    intros moved m2 ? (-> & k & Hk & ->). case_bool_decide as Ek; cbn [negb].
    + subst k. hstep. destruct Hk as (tree' & tm' & Htr & Hm2 & Hit2 & Ht2 & _ & Hgt).
      cbn [app] in Htr. subst tree'.
      assert (Hw2 : waiting m2). { subst m2. destruct Hw. split; cbn; try done. }
      destruct (timers_head _ _ _ _ _ _ Hit2) as (x2 & Hx2 & Hst2 & Htx2 & _).
      eapply wp_timer_at; [subst m2; exact Hx2|]. hstep.
      assert (Hax : absTime x2 = absTime x) by (rewrite <- Htx2, Ht2; done).
      specialize (Hgt t ltac:(left)).
      assert (Hw12 : forall m', waited m2 m' -> waited m1 m').
      { intros m' []. subst m2. cbn in *. split; try done.
        - intros q. rewrite w_time0. apply Ht2.
        - rewrite Et. destruct w_end0 as [?|?]; [by left|by right]. }
      eapply wp_mono; [apply wait_loop_ok; [done| |]|].
      * subst m2. cbn. rewrite Hax. apply orb_true_iff in Ha as [Ha|Ha]; [lia|exact Ha].
      * subst m2. cbn. split; [done|]. split; [lia|]. exists t, tree. by rewrite Htx2.
      * intros _ m3 ? [-> H3%Hw12]. hstep. destruct (Hend _ H3) as [Hi' Hw'].
        eapply wp_mono; [by apply reset_end|]. intros _ m4 ? (-> & ? & ?). split; [done|]. auto.
    + hstep. hstep. split; [done|]. destruct (Hend m2) as [Hi' Hw']; [|auto].
      rewrite <- Et in Hk. by eapply moved_waited.
Qed.

(** *** Setting and removing timers *)

Lemma tree_expired_disjoint tree expired tm bt c t : timers_ok tree expired tm bt c ->
  t ∈ tree -> t ∉ expired.
Proof. intros Hi Ht He. apply (t_tree _ _ _ _ _ Hi) in Ht. apply (t_expired _ _ _ _ _ Hi) in He. congruence. Qed.

(** A timer becomes inactive and leaves the tree or the list. *)
Lemma timers_ok_inactive tree expired tm bt c t x : timers_ok tree expired tm bt c -> tm !! t = Some x ->
  timers_ok (without t tree) (without t expired) (<[t := x <| state := TIMER_STATE_INACTIVE |>]> tm) bt c.
Proof.
  intros Hi Hx. eapply timers_ok_set_state; [exact Hi|exact Hx|done|..].
  - intros q. rewrite elem_of_without. case_decide; [split; [tauto|done]|tauto].
  - intros q. rewrite elem_of_without. case_decide; [split; [tauto|done]|tauto].
  - apply sorted_without, Hi.
  - apply sorted_without, Hi.
  - done.
Qed.

(** What an operation on timer [t] changes. *)
Definition timer_changed t st m m' : Prop :=
  exists tree' expired' tm', m' = with_timers m tree' expired' tm' /\
    timers_ok tree' expired' tm' (btimers m) (clock (system m)) /\
    (forall q, timer_st tm' q = if decide (q = t) then Some st else timer_st (timers m) q).

Lemma remove_timer_ok t m x :
  timers_ok (timers_tree m) (timers_expired_list m) (timers m) (btimers m) (clock (system m)) ->
  timers m !! t = Some x ->
  wp (BReactor_RemoveSmallTimer t) m (fun _ m' l => l = [] /\ timer_changed t TIMER_STATE_INACTIVE m m' /\
    exists x', timers m' !! t = Some x' /\ is_small x' = is_small x).
Proof.
  intros Hi Hx. unfold BReactor_RemoveSmallTimer. hstep. eapply wp_timer_at; [exact Hx|].
  assert (Hst : timer_st (timers m) t = Some (state x)) by (unfold timer_st; by rewrite Hx).
  case_bool_decide as E1.
  { hstep. split; [done|]. split; [|by exists x].
    exists (timers_tree m), (timers_expired_list m), (timers m). split_and!; [apply with_timers_id|done|].
    intros q. case_decide; [subst; by rewrite Hst, E1|done]. }
  assert (Hw : forall m1, m1 = with_timers m (without t (timers_tree m)) (without t (timers_expired_list m)) (timers m) ->
    wp (set_timer t (fun x => x <| state := TIMER_STATE_INACTIVE |>)) m1 (fun _ m' l => l = [] /\
      timer_changed t TIMER_STATE_INACTIVE m m' /\ exists x', timers m' !! t = Some x' /\ is_small x' = is_small x)).
  { intros m1 ->. eapply wp_set_timer; [exact Hx|]. split; [done|]. split.
    - do 3 eexists. split; [reflexivity|]. split; [by apply timers_ok_inactive|].
      intros q. by rewrite timer_st_insert.
    - cbn. rewrite lookup_insert_eq. eexists. by split. }
  hstep. case_bool_decide as E2.
  - assert (Ht : t ∈ timers_expired_list m) by (apply (t_expired _ _ _ _ _ Hi); congruence).
    unfold expired_Remove. hstep. hstep. hstep. hstep; [by apply bool_decide_eq_true_2|]. hstep.
    eapply wp_mono; [apply Hw|].
    + unfold with_timers. cbn. rewrite (without_not_in t (timers_tree m)); [by destruct m|].
      intros Ht'. by eapply tree_expired_disjoint.
    + by intros _ m' ? [-> ?].
  - assert (Ht : t ∈ timers_tree m).
    { apply (t_tree _ _ _ _ _ Hi). rewrite Hst. destruct (state x); done. }
    unfold TimersTree_Remove. hstep. hstep. hstep. hstep; [by apply bool_decide_eq_true_2|]. hstep.
    eapply wp_mono; [apply Hw|].
    + unfold with_timers. cbn. rewrite (without_not_in t (timers_expired_list m)); [by destruct m|].
      by eapply tree_expired_disjoint.
    + by intros _ m' ? [-> ?].
Qed.

Lemma set_timer_ok t mode time m x :
  timers_ok (timers_tree m) (timers_expired_list m) (timers m) (btimers m) (clock (system m)) ->
  timers m !! t = Some x -> in_int64 time = true ->
  wp (BReactor_SetSmallTimer t mode time) m (fun _ m' l => l = [] /\ timer_changed t TIMER_STATE_RUNNING m m').
Proof.
  intros Hi Hx Htime. unfold BReactor_SetSmallTimer. hstep. eapply wp_mono; [by eapply remove_timer_ok|].
  intros _ m1 ? (-> & (tree & expired & tm & -> & Hi1 & Hst) & x1 & Hx1 & Hsm). hstep.
  apply (wp_mono _ _ (fun v m1 l => l = [] /\ m1 = with_timers m tree expired tm /\ in_int64 v = true)).
  { destruct mode; [by hstep|]. hstep. unfold btime_gettime. hstep. hstep. split_and!; [done|done|].
    apply btime_add_range; [|done]. pose proof (t_clock _ _ _ _ _ Hi1). cbn. unfold in_int64, INT64_MIN. lia. }
  intros v m1 ? (-> & -> & Hv). cbn in Hx1.
  hstep. eapply wp_set_timer; [exact Hx1|]. hstep. eapply wp_set_timer; [by cbn; rewrite lookup_insert_eq|].
  set (x2 := x1 <| absTime := v |> <| state := TIMER_STATE_RUNNING |>).
  match goal with |- wp _ ?st _ => replace st with (with_timers m tree expired (<[t := x2]> tm)) end.
  2:{ unfold with_timers. cbn. by rewrite insert_insert_eq. }
  assert (Ht1 : t ∉ tree). { rewrite (t_tree _ _ _ _ _ Hi1), Hst, decide_True by done. done. }
  assert (Ht2 : t ∉ expired). { rewrite (t_expired _ _ _ _ _ Hi1), Hst, decide_True by done. done. }
  assert (Htm : forall q, q <> t -> time_in (<[t := x2]> tm) q = time_in tm q).
  { intros q Hq. by rewrite time_in_insert, decide_False. }
  assert (Hsort : StronglySorted (before (time_in (<[t := x2]> tm))) tree).
  { eapply sorted_ext; [|apply Hi1]. intros q Hq. apply Htm. by intros ->. }
  hstep. unfold TimersTree_Insert. hstep. hstep. hstep. eapply wp_mono.
  { apply (tree_insert_ok compare_timers (time_in (<[t := x2]> tm)) _ t tree); [|exact Hsort].
    intros q Hq. set (m1 := with_timers m tree expired (<[t := x2]> tm)).
    change (decides compare_timers (time_in (timers m1)) m1 t q). apply compare_timers_ok.
    - cbn. rewrite lookup_insert_eq. by eexists.
    - cbn. rewrite lookup_insert_ne by (by intros ->). apply (t_tree _ _ _ _ _ Hi1) in Hq.
      apply timer_st_Some in Hq as (y & -> & _). by eexists.
    - by intros ->. }
  intros r m1 ? (-> & -> & tree' & -> & Hperm & Hsort'). hstep. hstep. hstep. hstep; [done|].
  split; [done|]. exists tree', expired, (<[t := x2]> tm). split; [done|]. split.
  2:{ intros q. rewrite timer_st_insert. case_decide; [done|]. by rewrite Hst, decide_False. }
  split; cbn.
  - intros q. rewrite Hperm, elem_of_cons, timer_st_insert, (t_tree _ _ _ _ _ Hi1).
    case_decide; [subst; cbn; split; [done|by left]|]. tauto.
  - intros q. rewrite timer_st_insert, (t_expired _ _ _ _ _ Hi1). case_decide; [|done].
    subst. cbn. rewrite <- (t_expired _ _ _ _ _ Hi1). split; [done|by intros [= ?]].
  - done.
  - eapply sorted_ext; [|apply Hi1]. intros q Hq. apply Htm. by intros ->.
  - intros q Hq. rewrite Htm by (by intros ->). by apply (t_due _ _ _ _ _ Hi1).
  - intros q y [[<- <-]|[_ Hy]]%lookup_insert_Some; [done|]. by apply (t_range _ _ _ _ _ Hi1 q).
  - intros q y [[<- <-]|[_ Hy]]%lookup_insert_Some;
      [exact (t_heavy _ _ _ _ _ Hi1 t x1 Hx1)|exact (t_heavy _ _ _ _ _ Hi1 q y Hy)].
  - apply (t_clock _ _ _ _ _ Hi1).
Qed.

Lemma timer_changed_inv t st m m' s : inv m s -> timer_changed t st m m' -> inv m' s.
Proof. intros [] (tree & expired & tm & -> & Hi & _). by split. Qed.

(** *** Registering descriptors *)

(** Objects that are not active do not matter. *)
Lemma fds_ok_active results num pos ds ds' reg : fds_ok results num pos ds reg ->
  (forall b x, active x = true -> ds' !! b = Some x <-> ds !! b = Some x) -> fds_ok results num pos ds' reg.
Proof.
  intros [] Hact. split; [done|..].
  - intros i ev b Hi He Hb. destruct (f_result0 i ev b Hi He Hb) as (x & Hx & Ha & Hr).
    exists x. split_and!; [by apply Hact|done|done].
  - intros b x i Hx Ha. apply f_returned0; [|done]. by apply Hact.
  - intros k ev Hk. destruct (f_epoll0 k ev Hk) as (b & x & Hb & Hx & Ha & Hf).
    exists b, x. split_and!; [done|by apply Hact|done|done].
  - intros b x Hx Ha. apply f_active0; [|done]. by apply Hact.
Qed.

Lemma fds_ok_add results num pos ds reg b x ev : fds_ok results num pos ds reg ->
  (forall y, ds !! b = Some y -> active y = false) -> reg !! fd x = None -> active x = true ->
  data_ptr ev = Some b -> epoll_returned_ptr x = None ->
  fds_ok results num pos (<[b := x]> ds) (<[fd x := ev]> reg).
Proof.
  intros [] Hb Hr Hax Hev Hret. split; [done|..].
  - intros i ev' b' Hi He Hb'. destruct (f_result0 i ev' b' Hi He Hb') as (y & Hy & Ha & Hry).
    exists y. split_and!; [|done|done]. rewrite lookup_insert_ne; [done|]. intros ->.
    apply Hb in Hy. congruence.
  - intros b' y i [[<- <-]|[Hne Hy]]%lookup_insert_Some Ha Hry; [congruence|]. by eapply f_returned0.
  - intros k ev' [[<- <-]|[Hne Hk]]%lookup_insert_Some; [exists b, x; by rewrite lookup_insert_eq|].
    destruct (f_epoll0 k ev' Hk) as (b' & y & Hb' & Hy & Ha & Hf). exists b', y. split_and!; try done.
    rewrite lookup_insert_ne; [done|]. intros ->. apply Hb in Hy. congruence.
  - intros b' y [[<- <-]|[Hne Hy]]%lookup_insert_Some Ha; [exists ev; by rewrite lookup_insert_eq|].
    destruct (f_active0 b' y Hy Ha) as (ev' & Hk & Hb'). exists ev'. split; [|done].
    rewrite lookup_insert_ne; [done|]. intros E. congruence.
Qed.

Lemma fds_ok_remove results num pos ds reg b x : fds_ok results num pos ds reg ->
  ds !! b = Some x -> active x = true ->
  exists results', match epoll_returned_ptr x with
    | Some i => exists ev, results !! i = Some ev /\ results' = <[i := ev <| data_ptr := None |>]> results
    | None => results' = results
    end /\ fds_ok results' num pos (<[b := x <| active := false |>]> ds) (delete (fd x) reg).
Proof.
  intros Hf Hx Ha. pose proof Hf as [].
  set (results' := match epoll_returned_ptr x with
    | Some i => match results !! i with Some ev => <[i := ev <| data_ptr := None |>]> results | None => results end
    | None => results
    end).
  exists results'.
  assert (Hex : forall i, epoll_returned_ptr x = Some i -> exists ev, results !! i = Some ev /\ data_ptr ev = Some b).
  { intros i Hr. by destruct (f_returned0 b x i Hx Ha Hr) as (_ & ?). }
  assert (Hres : forall i ev b', results' !! i = Some ev -> data_ptr ev = Some b' ->
    results !! i = Some ev /\ epoll_returned_ptr x <> Some i).
  { intros i ev b' He Hb'. subst results'. destruct (epoll_returned_ptr x) as [j|]; [|done].
    destruct (Hex j eq_refl) as (evj & Hj & _). rewrite Hj in He.
    apply list_lookup_insert_Some in He as [(<- & <- & _)|(Hne & He)]; [done|]. split; [done|congruence]. }
  assert (Hlen : length results' = length results).
  { subst results'. destruct (epoll_returned_ptr x) as [j|]; [|done].
    destruct (results !! j); [by rewrite length_insert|done]. }
  split.
  { subst results'. destruct (epoll_returned_ptr x) as [i|]; [|done].
    destruct (Hex i eq_refl) as (ev & Hi & _). rewrite Hi. by exists ev. }
  split; [lia|..].
  - intros i ev b' Hi He Hb'. destruct (Hres i ev b' He Hb') as [He' Hr].
    destruct (f_result0 i ev b' Hi He' Hb') as (y & Hy & Hay & Hry).
    exists y. split_and!; [|done|done]. rewrite lookup_insert_ne; [done|]. intros ->. congruence.
  - intros b' y i [[<- <-]|[Hne Hy]]%lookup_insert_Some Hay Hry; [done|].
    destruct (f_returned0 b' y i Hy Hay Hry) as (Hi & ev & He & Hb'). split; [done|]. exists ev.
    split; [|done]. subst results'. destruct (epoll_returned_ptr x) as [j|]; [|done].
    destruct (Hex j eq_refl) as (evj & Hj & Hbj). rewrite Hj. rewrite list_lookup_insert_ne; [done|].
    intros ->. congruence.
  - intros k ev [Hne Hk]%lookup_delete_Some. destruct (f_epoll0 k ev Hk) as (b' & y & Hb' & Hy & Hay & Hfd).
    exists b', y. split_and!; try done. rewrite lookup_insert_ne; [done|]. intros ->. congruence.
  - intros b' y [[<- <-]|[Hne Hy]]%lookup_insert_Some Hay; [done|].
    destruct (f_active0 b' y Hy Hay) as (ev & Hk & Hb'). exists ev. split; [|done].
    rewrite lookup_delete_ne; [done|]. intros E. destruct (f_active0 b x Hx Ha) as (evx & Hkx & Hbx). congruence.
Qed.

Lemma fds_ok_update results num pos ds reg b x ev w : fds_ok results num pos ds reg ->
  ds !! b = Some x -> active x = true -> data_ptr ev = Some b ->
  fds_ok results num pos (<[b := x <| waitEvents := w |>]> ds) (<[fd x := ev]> reg).
Proof.
  intros [] Hx Ha Hev. split; [done|..].
  - intros i ev' b' Hi He Hb'. destruct (f_result0 i ev' b' Hi He Hb') as (y & Hy & Hay & Hry).
    destruct (decide (b' = b)) as [->|]; [|exists y; by rewrite lookup_insert_ne by congruence].
    rewrite lookup_insert_eq. eexists. split; [done|]. rewrite Hx in Hy. by injection Hy as <-.
  - intros b' y i [[<- <-]|[Hne Hy]]%lookup_insert_Some Hay Hry; [exact (f_returned0 b x i Hx Ha Hry)|].
    by eapply f_returned0.
  - intros k ev' [[<- <-]|[Hne Hk]]%lookup_insert_Some.
    + exists b, (x <| waitEvents := w |>). by rewrite lookup_insert_eq.
    + destruct (f_epoll0 k ev' Hk) as (b' & y & Hb' & Hy & Hay & Hf). exists b', y. split_and!; try done.
      rewrite lookup_insert_ne; [done|]. intros ->. congruence.
  - intros b' y [[<- <-]|[Hne Hy]]%lookup_insert_Some Hay.
    + exists ev. change (fd (x <| waitEvents := w |>)) with (fd x). by rewrite lookup_insert_eq.
    + destruct (f_active0 b' y Hy Hay) as (ev' & Hk & Hb').
      destruct (f_active0 b x Hx Ha) as (evx & Hkx & Hbx). exists ev'. split; [|done].
      rewrite lookup_insert_ne; [done|]. intros E. congruence.
Qed.

(** The next result is taken. *)
Lemma fds_ok_taken results num pos ds reg ev : fds_ok results num pos ds reg -> (pos < num)%nat ->
  results !! pos = Some ev ->
  match data_ptr ev with
  | None => fds_ok results num (S pos) ds reg
  | Some b => exists x, ds !! b = Some x /\ active x = true /\ epoll_returned_ptr x = Some pos /\
      fds_ok results num (S pos) (<[b := x <| epoll_returned_ptr := None |>]> ds) reg
  end.
Proof.
  intros [] Hp Hev. destruct (data_ptr ev) as [b|] eqn:Eb.
  - destruct (f_result0 pos ev b ltac:(lia) Hev Eb) as (x & Hx & Ha & Hr).
    exists x. split_and!; try done. split; [lia|..].
    + intros i ev' b' Hi He Hb'. destruct (f_result0 i ev' b' ltac:(lia) He Hb') as (y & Hy & Hay & Hry).
      exists y. split_and!; [|done|done]. rewrite lookup_insert_ne; [done|]. intros ->.
      assert (i = pos) by congruence. lia.
    + intros b' y i [[<- <-]|[Hne Hy]]%lookup_insert_Some Hay Hry; [done|].
      destruct (f_returned0 b' y i Hy Hay Hry) as (Hi & ev' & He & Hb'). split; [|by exists ev'].
      assert (i <> pos) by (intros ->; congruence). lia.
    + intros k ev' Hk. destruct (f_epoll0 k ev' Hk) as (b' & y & Hb' & Hy & Hay & Hf).
      destruct (decide (b' = b)) as [->|]; [|exists b', y; by rewrite lookup_insert_ne by congruence].
      eexists b, _. rewrite lookup_insert_eq. split_and!; [done|done|done|]. rewrite Hx in Hy. by injection Hy as <-.
    + intros b' y [[<- <-]|[Hne Hy]]%lookup_insert_Some Hay; [exact (f_active0 b x Hx Ha)|by eapply f_active0].
  - split; [lia|..]; try done.
    + intros i ev' b' Hi. apply f_result0. lia.
    + intros b' y i Hy Hay Hry. destruct (f_returned0 b' y i Hy Hay Hry) as (Hi & ev' & He & Hb').
      split; [|by exists ev']. assert (i <> pos) by (intros ->; congruence). lia.
Qed.

(** *** A turn of the loop *)

Lemma has_bit_testbit x k : 0 <= k -> has_bit x (Z.shiftl 1 k) = Z.testbit x k.
Proof.
  intros Hk. unfold has_bit. rewrite Z.shiftl_1_l. destruct (Z.testbit x k) eqn:E.
  - apply negb_true_iff, Z.eqb_neq. intros H0.
    assert (Hb : Z.testbit (Z.land x (2 ^ k)) k = true) by by rewrite Z.land_spec, E, Z.pow2_bits_true.
    rewrite H0, Z.bits_0 in Hb. done.
  - apply negb_false_iff, Z.eqb_eq, Z.bits_inj'. intros n Hn. rewrite Z.land_spec, Z.bits_0.
    destruct (decide (n = k)) as [->|]; [by rewrite E|]. by rewrite Z.pow2_bits_false, andb_false_r.
Qed.

Lemma reported_bits w b :
  Z.land (reported w b) (Z.lnot (Z.lor w (Z.lor BREACTOR_ERROR BREACTOR_HUP))) = 0.
Proof.
  apply Z.bits_inj'. intros n Hn. rewrite Z.land_spec, Z.lnot_spec, !Z.lor_spec, Z.bits_0 by done.
  unfold reported, BREACTOR_READ, BREACTOR_WRITE, BREACTOR_ERROR, BREACTOR_HUP.
  rewrite !has_bit_testbit by done.
  destruct (Z.testbit w 0) eqn:E0, (Z.testbit w 1) eqn:E1, (EPOLLIN b), (EPOLLOUT b), (EPOLLERR b), (EPOLLHUP b);
    cbn [andb]; rewrite ?Z.lor_0_l, ?Z.lor_spec, ?Z.bits_0, !Z.shiftl_1_l, !Z.pow2_bits_eqb by done;
    destruct (0 =? n) eqn:N0, (1 =? n) eqn:N1, (2 =? n) eqn:N2, (3 =? n) eqn:N3;
    try (assert (n = 0) by lia; subst n); try (assert (n = 1) by lia; subst n);
    rewrite ?E0, ?E1, ?orb_true_r; cbn; try done; rewrite ?andb_false_r; try done; lia.
Qed.

Lemma dispatch_timer_ok t rest m s : inv m s -> timers_expired_list m = t :: rest ->
  wp (dispatch_timer t) m (fun _ m' l => inv m' s /\ timer_spec m m' t l /\
    timer_changed t TIMER_STATE_INACTIVE m m').
Proof.
  intros Hi He. pose proof (i_timers _ _ Hi) as Hit.
  assert (Hin : t ∈ timers_expired_list m) by (rewrite He; left).
  pose proof (proj1 (t_expired _ _ _ _ _ Hit t) Hin) as Hst.
  apply timer_st_Some in Hst as (x & Hx & Hst).
  unfold dispatch_timer, expired_Remove. hstep. eapply wp_timer_at; [exact Hx|].
  hstep. hstep; [by apply bool_decide_eq_true_2|]. hstep. hstep. hstep.
  hstep. hstep; [by apply bool_decide_eq_true_2|]. hstep. hstep. eapply wp_set_timer; [exact Hx|].
  set (m1 := _ <| timers := _ |>).
  assert (Hch : timer_changed t TIMER_STATE_INACTIVE m m1).
  { exists (without t (timers_tree m)), (without t (timers_expired_list m)),
      (<[t := x <| state := TIMER_STATE_INACTIVE |>]> (timers m)). split; [|split].
    - subst m1. unfold with_timers. cbn. rewrite (without_not_in t (timers_tree m)); [done|].
      intros Ht. by eapply tree_expired_disjoint.
    - by apply timers_ok_inactive.
    - intros q. by rewrite timer_st_insert. }
  assert (Hspec : timer_spec m m1 t [if is_small x then Small_timer (handler_fn x) t
         else Heavy_timer (handler_fn x) (from_option user 0%nat (btimers m !! t))]).
  { exists x. split; [done|]. rewrite <- (time_in_lookup _ _ _ Hx). split; [by apply (t_due _ _ _ _ _ Hit)|].
    split; [|split; [|done]].
    - intros q Hq. eapply sorted_head; [|by rewrite <- He]. rewrite <- He. apply Hit.
    - destruct Hch as (? & ? & ? & -> & _ & Hst'). cbn. by rewrite Hst', decide_True. }
  assert (Hi1 : inv m1 s) by by eapply timer_changed_inv.
  destruct (is_small x) eqn:Es; [by hstep|].
  destruct (t_heavy _ _ _ _ _ Hit t x Hx Es) as (b & Hb & _).
  hstep. hstep. hstep. eapply wp_of_option; [exact Hb|]. hstep. cbn. rewrite Hb in Hspec. done.
Qed.

Lemma dispatch_fd_ok m s : inv m s -> (epoll_results_pos m < epoll_results_num m)%nat ->
  wp dispatch_fd m (fun _ m' l => inv m' s /\ fd_spec m m' l /\
    timers_tree m' = timers_tree m /\ timers_expired_list m' = timers_expired_list m /\ timers m' = timers m).
Proof.
  intros Hi Hp. pose proof (i_fds _ _ Hi) as Hf.
  destruct (lookup_lt_is_Some_2 (epoll_results m) (epoll_results_pos m)) as [ev Hev].
  { destruct (f_pos _ _ _ _ _ Hf). lia. }
  pose proof (fds_ok_taken _ _ _ _ _ _ Hf Hp Hev) as Ht.
  unfold dispatch_fd. hstep. hstep. hstep. eapply wp_of_option; [exact Hev|]. hstep. hstep.
  destruct (data_ptr ev) as [b|] eqn:Eb.
  - destruct Ht as (x & Hx & Ha & Hr & Hf'). hstep. eapply wp_fd_at; [exact Hx|].
    hstep. hstep; [done|]. hstep. hstep; [by apply bool_decide_eq_true_2|].
    hstep. eapply wp_set_fd; [exact Hx|]. set (m1 := _ <| fds := _ |>).
    assert (Hi1 : inv m1 s) by (destruct Hi; by split).
    assert (Hspec : fd_spec m m1 (if reported (waitEvents x) (events ev) =? 0 then []
      else [Fd (fd_handler x) (fd_user x) (reported (waitEvents x) (events ev))])).
    { split; [done|]. exists ev. split; [done|]. rewrite Eb. exists x. split_and!; [done|done|]. split; [apply reported_bits|done]. }
    destruct (reported _ _ =? 0); hstep; done.
  - hstep. split; [destruct Hi; by split|]. split; [|done]. split; [done|]. exists ev. by rewrite Eb.
Qed.

(** What an event does to the timers that are set. *)
Definition set_timers m : list ptr := timers_tree m ++ timers_expired_list m.
Definition timer_becomes t st m m' : Prop :=
  forall q, timer_st (timers m') q = if decide (q = t) then Some st else timer_st (timers m) q.
Lemma timer_changed_becomes t st m m' : timer_changed t st m m' -> timer_becomes t st m m'.
Proof. by intros (tree & expired & tm & -> & _ & Hst). Qed.
Definition timers_step (e : event) m m' : Prop :=
  match e with
  | Ev_exec _ =>
      (exists t rest, timers_expired_list m = t :: rest /\ timer_becomes t TIMER_STATE_INACTIVE m m') \/
      set_timers m' ≡ₚ set_timers m
  | Ev_small_timer_set t _ _ | Ev_timer_set t => timer_becomes t TIMER_STATE_RUNNING m m'
  | Ev_timer_remove t => timer_becomes t TIMER_STATE_INACTIVE m m'
  | _ => set_timers m' ≡ₚ set_timers m
  end.

Lemma turn_ok answers m s : inv m s -> event_ok m s (Ev_exec answers) = true ->
  wp (BReactor_Exec answers) m (fun r m' l => inv m' (stack_after m s (Ev_exec answers)) /\
    turn_spec m s r m' l /\ timers_step (Ev_exec answers) m m').
Proof.
  intros Hi Ho. unfold BReactor_Exec, turn_spec, stack_after, timers_step. hstep. hstep.
  destruct (exiting m) eqn:Ee; [hstep; split_and!; [done|done|done|by right]|].
  hstep. eapply wp_mono; [apply has_jobs_ok, Hi|]. intros b m0 ? (-> & -> & g & -> & Hg).
  assert (Hi0 : inv (with_jobs m g) s) by (eapply inv_jobs; [done|done|apply Hi]).
  destruct (JobStack.stack s) as [|o rest] eqn:Es.
  2:{ rewrite bool_decide_eq_false_2 by done. cbn [negb]. hstep.
      destruct (i_set _ _ Hi o) as [[h u] Hj]; [rewrite Es; left|].
      eapply wp_mono; [eapply execute_job_ok; [exact Hg|exact Es|exact Hj]|].
      intros _ m1 ? (-> & g1 & -> & Hg1). hstep. split; [|split; [split; [done|]; by exists h, u|by right]].
      apply (inv_popped (with_jobs m g)); [done|done]. }
  rewrite bool_decide_eq_true_2 by done. cbn [negb].
  assert (Hpop : popped s = s). { unfold popped. destruct s. cbn in *. by subst. }
  rewrite Hpop. hstep. hstep. change (timers_expired_list (with_jobs m g)) with (timers_expired_list m).
  destruct (timers_expired_list m) as [|t rest] eqn:Ex; cbn [head].
  - change (epoll_results_pos (with_jobs m g)) with (epoll_results_pos m).
    change (epoll_results_num (with_jobs m g)) with (epoll_results_num m).
    destruct (Nat.ltb _ _) eqn:El.
    + apply Nat.ltb_lt in El. hstep. eapply wp_mono; [by apply (dispatch_fd_ok (with_jobs m g))|].
      intros _ m1 l (Hi1 & Hs & Ht1 & Ht2 & _). hstep. rewrite app_nil_r. split_and!; try done.
      right. unfold set_timers. by rewrite Ht1, Ht2.
    + assert (Hidle : idle m s = true).
      { unfold idle. rewrite Ee, Es, Ex, El. done. }
      cbn [event_ok] in Ho. rewrite Hidle in Ho. cbn [negb orb] in Ho.
      apply Nat.ltb_ge in El. destruct (f_pos _ _ _ _ _ (i_fds _ _ Hi)).
      hstep. eapply wp_mono; [apply (wait_for_events_ok answers (with_jobs m g) s); try done; cbn; lia|].
      intros _ m1 ? (-> & Hi1 & Hw). hstep. split_and!; try done. right. unfold set_timers.
      destruct Hw as (_ & _ & [(Ht1 & Ht2 & _)|(_ & Ht & _)]).
      * by rewrite Ht1, Ht2, Ex.
      * change (timers_tree m) with (timers_tree (with_jobs m g)). rewrite Ht, Ex, app_nil_r. apply Permutation_app_comm.
  - hstep. eapply wp_mono; [by eapply (dispatch_timer_ok t rest (with_jobs m g))|].
    intros _ m1 l (Hi1 & Hs & Hc). hstep. rewrite app_nil_r. split_and!; try done.
    left. exists t, rest. split; [done|]. by apply timer_changed_becomes in Hc.
Qed.

Lemma sync_ok ref m s : inv m s -> exiting m || bool_decide (ref ∈ JobStack.stack s) = true ->
  wp (BReactor_Synchronize ref) m (fun r m' l => inv m' (stack_after m s (Ev_synchronize ref)) /\
    (exists g, m' = with_jobs m g) /\
    if exiting m then r = Some false /\ l = [] else
    match JobStack.stack s with
    | [] => False
    | o :: _ => if bool_decide (o = ref) then r = Some true /\ l = []
                else r = None /\ exists h u, JobStack.jobs s !! o = Some (h, u) /\ l = [Job h u]
    end).
Proof.
  intros Hi Ho. unfold BReactor_Synchronize, stack_after. hstep. hstep.
  destruct (exiting m) eqn:Ee; cbn [orb] in *.
  { hstep. split; [done|]. split; [|done]. exists (pending_jobs m). by destruct m. }
  apply bool_decide_eq_true in Ho.
  hstep. eapply wp_mono; [apply has_jobs_ok, Hi|]. intros b m0 ? (-> & -> & g & -> & Hg).
  destruct (JobStack.stack s) as [|o rest] eqn:Es; [by apply not_elem_of_nil in Ho|].
  hstep. hstep; [done|]. hstep. unfold BPendingGroup_PeekJob. hstep.
  eapply wp_mono; [by eapply (jobs_do_ok PeekJob (with_jobs m g))|].
  intros r m0 ? (-> & -> & g1 & -> & Hg1). hstep. rewrite Es. cbn [head].
  assert (Hi1 : inv (with_jobs (with_jobs m g) g1) s) by (eapply inv_jobs; [eapply inv_jobs; [done|done|]|done|]; apply Hi).
  rewrite (bool_decide_ext (Some o = Some ref) (o = ref)) by naive_solver.
  case_bool_decide as E.
  - hstep. split; [done|]. split; [by exists g1|done].
  - destruct (i_set _ _ Hi o) as [[h u] Hj]; [rewrite Es; left|].
    hstep. eapply wp_mono; [eapply execute_job_ok; [exact Hg1|exact Es|exact Hj]|].
    intros _ m1 ? (-> & g2 & -> & Hg2). hstep. split; [by eapply inv_popped|].
    split; [by exists g2|]. split; [done|]. by exists h, u.
Qed.

Lemma jobs_event_ok i m s : inv m s -> event_ok m s (Ev_jobs i) = true ->
  wp (jobs_do i) m (fun _ m' _ => inv m' (stack_after m s (Ev_jobs i)) /\ exists g, m' = with_jobs m g).
Proof.
  intros Hi Ho. cbn [event_ok stack_after] in *. apply andb_true_iff in Ho as [Hx Hs%bool_decide_eq_true].
  destruct Hs as [[[r s'] o] Hs]. rewrite Hs. eapply wp_mono; [eapply jobs_do_ok; [apply Hi|exact Hs]|].
  intros r' m' l (-> & -> & g & -> & Hg). split; [|by exists g]. eapply inv_jobs; [done|done|].
  pose proof (i_set _ _ Hi) as Hset. clear Hg.
  destruct i as [x h u|x|x h u|x|x|x| | |]; cbn [JobStack.step] in Hs; try done; simplify_option_eq;
    try exact Hset; intros y Hy; cbn in *.
  - apply lookup_insert_is_Some'. right. by apply Hset.
  - apply elem_of_without in Hy as [Hne Hy]. rewrite lookup_delete_ne by congruence. by apply Hset.
  - apply lookup_insert_is_Some'. right. by apply Hset.
  - apply elem_of_cons in Hy as [->|[_ Hy]%elem_of_without]; [by eexists|by apply Hset].
  - apply elem_of_without in Hy as [_ Hy]. by apply Hset.
Qed.

(** *** The other events *)

Lemma inv_timers m s tree expired tm bt : inv m s -> timers_ok tree expired tm bt (clock (system m)) ->
  inv (with_timers m tree expired tm <| btimers := bt |>) s.
Proof. intros [] Ht. by split. Qed.

(** Memory becomes an inactive timer. *)
Lemma timers_ok_new tree expired tm bt bt' c t x : timers_ok tree expired tm bt c -> tm !! t = None ->
  state x = TIMER_STATE_INACTIVE ->
  (is_small x = false -> exists b, bt' !! t = Some b /\ in_int64 (msTime b) = true) ->
  (forall q, q <> t -> bt' !! q = bt !! q) ->
  timers_ok tree expired (<[t := x]> tm) bt' c.
Proof.
  intros Hi Hn Hx Hsm Hbt.
  assert (Htree : t ∉ tree). { rewrite (t_tree _ _ _ _ _ Hi). unfold timer_st. by rewrite Hn. }
  assert (Hexp : t ∉ expired). { rewrite (t_expired _ _ _ _ _ Hi). unfold timer_st. by rewrite Hn. }
  assert (Htime : forall q, q <> t -> time_in (<[t := x]> tm) q = time_in tm q).
  { intros q Hq. by rewrite time_in_insert, decide_False. }
  split.
  - intros q. rewrite timer_st_insert, (t_tree _ _ _ _ _ Hi). case_decide; [|done]. subst.
    rewrite <- (t_tree _ _ _ _ _ Hi), Hx. by split.
  - intros q. rewrite timer_st_insert, (t_expired _ _ _ _ _ Hi). case_decide; [|done]. subst.
    rewrite <- (t_expired _ _ _ _ _ Hi), Hx. by split.
  - eapply sorted_ext; [|apply Hi]. intros q Hq. apply Htime. by intros ->.
  - eapply sorted_ext; [|apply Hi]. intros q Hq. apply Htime. by intros ->.
  - intros q Hq. rewrite Htime by (by intros ->). by apply (t_due _ _ _ _ _ Hi).
  - intros q y [[<- <-]|[_ Hy]]%lookup_insert_Some; [done|]. by apply (t_range _ _ _ _ _ Hi q).
  - intros q y [[<- <-]|[Hne Hy]]%lookup_insert_Some; [done|]. rewrite Hbt by congruence.
    by apply (t_heavy _ _ _ _ _ Hi q y Hy).
  - apply (t_clock _ _ _ _ _ Hi).
Qed.
Lemma timers_ok_forget tree expired tm bt c t : timers_ok tree expired tm bt c ->
  timer_st tm t = Some TIMER_STATE_INACTIVE -> timers_ok tree expired (delete t tm) bt c.
Proof.
  intros Hi Hst.
  assert (Htree : t ∉ tree). { rewrite (t_tree _ _ _ _ _ Hi). congruence. }
  assert (Hexp : t ∉ expired). { rewrite (t_expired _ _ _ _ _ Hi). congruence. }
  assert (Htime : forall q, q <> t -> time_in (delete t tm) q = time_in tm q).
  { intros q Hq. unfold time_in. by rewrite lookup_delete_ne. }
  assert (Hsts : forall q st, timer_st (delete t tm) q = Some st <-> q <> t /\ timer_st tm q = Some st).
  { intros q st. unfold timer_st. destruct (decide (q = t)) as [->|]; [rewrite lookup_delete_eq; naive_solver|].
    rewrite lookup_delete_ne by done. naive_solver. }
  split.
  - intros q. rewrite Hsts, (t_tree _ _ _ _ _ Hi). split; [|tauto]. intros Hq. split; [by intros ->; congruence|done].
  - intros q. rewrite Hsts, (t_expired _ _ _ _ _ Hi). split; [|tauto]. intros Hq. split; [by intros ->; congruence|done].
  - eapply sorted_ext; [|apply Hi]. intros q Hq. apply Htime. by intros ->.
  - eapply sorted_ext; [|apply Hi]. intros q Hq. apply Htime. by intros ->.
  - intros q Hq. rewrite Htime by (by intros ->). by apply (t_due _ _ _ _ _ Hi).
  - intros q y [_ Hy]%lookup_delete_Some. by apply (t_range _ _ _ _ _ Hi q).
  - intros q y [_ Hy]%lookup_delete_Some. by apply (t_heavy _ _ _ _ _ Hi q).
  - apply (t_clock _ _ _ _ _ Hi).
Qed.

Lemma inv_fds m s results ds reg : inv m s ->
  fds_ok results (epoll_results_num m) (epoll_results_pos m) ds reg ->
  inv (m <| epoll_results := results |> <| fds := ds |> <| system := (system m <| epoll := reg |>) |>) s.
Proof. intros [] Hf. by split. Qed.

Lemma add_fd_ok bs granted m s x : inv m s -> fds m !! bs = Some x -> active x = false ->
  wp (BReactor_AddFileDescriptor bs granted) m (fun _ m' l => inv m' s /\ set_timers m' = set_timers m).
Proof.
  intros Hi Hx Ha. unfold BReactor_AddFileDescriptor. hstep. eapply wp_fd_at; [exact Hx|].
  hstep. hstep; [by rewrite Ha|]. hstep. unfold epoll_ctl_add. hstep. hstep.
  destruct (granted && _) eqn:E; [|by hstep; hstep]. apply andb_true_iff in E as [_ E%bool_decide_eq_true].
  hstep. hstep. hstep. cbn [negb]. hstep. eapply wp_set_fd; [exact Hx|].
  hstep. eapply wp_set_fd; [by cbn; rewrite lookup_insert_eq|]. hstep. split; [|done].
  set (x' := x <| epoll_returned_ptr := None |> <| active := true |> <| waitEvents := 0 |>).
  pose proof (fds_ok_add _ _ _ _ _ bs x' (mk_event (mk_bits false false false false) (Some bs)) (i_fds _ _ Hi)
    ltac:(intros y Hy; congruence) E eq_refl eq_refl eq_refl) as Hf.
  destruct Hi. split; cbn; try done. by rewrite insert_insert_eq.
Qed.

Lemma remove_fd_ok bs m s x : inv m s -> fds m !! bs = Some x -> active x = true ->
  wp (BReactor_RemoveFileDescriptor bs) m (fun _ m' l => inv m' s /\ set_timers m' = set_timers m).
Proof.
  intros Hi Hx Ha. unfold BReactor_RemoveFileDescriptor. hstep. eapply wp_fd_at; [exact Hx|].
  hstep. hstep; [by rewrite Ha|]. hstep. eapply wp_set_fd; [exact Hx|].
  destruct (f_active _ _ _ _ _ (i_fds _ _ Hi) bs x Hx Ha) as (ev & Hk & _).
  destruct (fds_ok_remove _ _ _ _ _ _ _ (i_fds _ _ Hi) Hx Ha) as (results' & Hr & Hf).
  hstep. unfold epoll_ctl_del. hstep. hstep. rewrite bool_decide_eq_true_2 by (cbn; rewrite Hk; by eexists).
  hstep. hstep. hstep. hstep. hstep; [done|].
  destruct (epoll_returned_ptr x) as [i|].
  - destruct Hr as (evi & Hevi & ->). hstep. hstep. hstep. eapply wp_of_option; [exact Hevi|]. hstep.
    split; [|done]. destruct Hi. by split.
  - subst results'. hstep. split; [|done]. destruct Hi. by split.
Qed.

Lemma fd_events_ok bs ev m s x : inv m s -> fds m !! bs = Some x -> active x = true ->
  Z.land ev (Z.lnot (Z.lor BREACTOR_READ BREACTOR_WRITE)) = 0 ->
  wp (BReactor_SetFileDescriptorEvents bs ev) m (fun _ m' l => inv m' s /\ set_timers m' = set_timers m).
Proof.
  intros Hi Hx Ha Hev. unfold BReactor_SetFileDescriptorEvents. hstep. eapply wp_fd_at; [exact Hx|].
  hstep. hstep; [by rewrite Ha|]. hstep. hstep; [by rewrite Hev|].
  destruct (waitEvents x =? ev); [by hstep|].
  destruct (f_active _ _ _ _ _ (i_fds _ _ Hi) bs x Hx Ha) as (old & Hk & _).
  hstep. unfold epoll_ctl_mod. hstep. hstep. rewrite bool_decide_eq_true_2 by (rewrite Hk; by eexists).
  hstep. hstep. hstep. hstep. hstep; [done|]. eapply wp_set_fd; [exact Hx|]. split; [|done].
  pose proof (fds_ok_update _ _ _ _ _ bs x (mk_event (mk_bits (has_bit ev BREACTOR_READ)
    (has_bit ev BREACTOR_WRITE) false false) (Some bs)) ev (i_fds _ _ Hi) Hx Ha eq_refl) as Hf.
  destruct Hi. by split.
Qed.

Lemma limit_free_ok o m s x : inv m s -> limits m !! o = Some x ->
  wp (BReactorLimit_Free o) m (fun _ m' l => inv m' s /\ set_timers m' = set_timers m).
Proof.
  intros Hi Hx. pose proof (i_limits _ _ Hi) as Hl. unfold BReactorLimit_Free.
  hstep. eapply wp_limit_at; [exact Hx|].
  assert (Hok : limits_ok (without o (active_limits_list m)) (delete o (limits m))).
  { split.
    - apply NoDup_filter, Hl.
    - intros q. rewrite elem_of_without, (l_active _ _ Hl). split.
      + intros (Hne & y & Hy & Hc). exists y. by rewrite lookup_delete_ne by congruence.
      + intros (y & [Hne Hy]%lookup_delete_Some & Hc). split; [congruence|by exists y].
    - intros q y [_ Hy]%lookup_delete_Some. by apply (l_range _ _ Hl q). }
  hstep. destruct (0 <? count x) eqn:E.
  - hstep. hstep. hstep. hstep.
    { apply bool_decide_eq_true_2, (l_active _ _ Hl). exists x. split; [done|lia]. }
    hstep. hstep. split; [|done]. destruct Hi. by split.
  - hstep. hstep. split; [|done]. rewrite without_not_in in Hok; [destruct Hi; by split|].
    rewrite (l_active _ _ Hl). intros (y & Hy & Hc). assert (y = x) by congruence. subst. lia.
Qed.

Lemma limit_increment_ok o m s x : inv m s -> limits m !! o = Some x ->
  wp (BReactorLimit_Increment o) m (fun b m' l => inv m' s /\ set_timers m' = set_timers m /\
    b = negb (limit x <=? count x)).
Proof.
  intros Hi Hx. pose proof (i_limits _ _ Hi) as Hl. unfold BReactorLimit_Increment.
  pose proof (l_range _ _ Hl o x Hx) as [Hc Hm].
  hstep. eapply wp_limit_at; [exact Hx|]. destruct (limit x <=? count x) eqn:E; [by hstep|].
  hstep. eapply wp_set_limit; [exact Hx|]. set (x' := x <| count := _ |>).
  assert (Hact : o ∈ active_limits_list m <-> 0 < count x).
  { rewrite (l_active _ _ Hl). split; [|by eauto]. intros (y & Hy & ?). by assert (y = x) as -> by congruence. }
  hstep. destruct (count x + 1 =? 1) eqn:E1.
  - hstep. hstep. split_and!; [|done|done].
    assert (limits_ok (active_limits_list m ++ [o]) (<[o := x']> (limits m))).
    { eapply limits_ok_insert; [exact Hl| | |cbn; lia|done].
      - apply NoDup_app. split_and!; [apply Hl| |repeat constructor; by apply not_elem_of_nil].
        intros q Hq ->%list_elem_of_singleton. apply Hact in Hq. lia.
      - intros q. rewrite elem_of_app, list_elem_of_singleton. case_decide; [subst; cbn; split; [lia|tauto]|tauto]. }
    destruct Hi. by split.
  - hstep. hstep. split_and!; [|done|done].
    assert (limits_ok (active_limits_list m) (<[o := x']> (limits m))).
    { eapply limits_ok_insert; [exact Hl|apply Hl| |cbn; lia|done].
      intros q. case_decide; [subst; rewrite Hact; cbn; lia|done]. }
    destruct Hi. by split.
Qed.

Lemma fds_event_ok m s ds : inv m s ->
  (forall b x, active x = true -> ds !! b = Some x <-> fds m !! b = Some x) -> inv (m <| fds := ds |>) s.
Proof.
  intros Hi Hact. pose proof (fds_ok_active _ _ _ _ _ _ (i_fds _ _ Hi) Hact). destruct Hi. by split.
Qed.

Lemma limit_event_ok m s o x : inv m s -> 0 < limit x <= INT_MAX -> 
  (limits m !! o = None /\ count x = 0 \/ exists y, limits m !! o = Some y /\ count x = count y) ->
  inv (m <| limits := <[o := x]> (limits m) |>) s.
Proof.
  intros Hi Hm Hold. pose proof (i_limits _ _ Hi) as Hl.
  assert (limits_ok (active_limits_list m) (<[o := x]> (limits m))).
  { eapply limits_ok_insert; [exact Hl|apply Hl| | |done].
    - intros q. case_decide; [|done]. subst. rewrite (l_active _ _ Hl).
      destruct Hold as [[Hn ->]|(y & Hy & ->)]; (split; [intros (z & Hz & ?)|]).
      + congruence.
      + lia.
      + by assert (z = y) as -> by congruence.
      + intros ?. by exists y.
    - destruct Hold as [[_ ->]|(y & Hy & ->)]; [unfold INT_MAX; lia|]. by apply (l_range _ _ Hl o). }
  destruct Hi. by split.
Qed.

Lemma free_reactor_ok m s : inv m s -> event_ok m s Ev_free = true ->
  wp BReactor_Free m (fun _ m' _ => inv m' s /\ set_timers m' = set_timers m).
Proof.
  intros Hi Ho. cbn [event_ok] in Ho. apply andb_true_iff in Ho as [[Hs Hl]%andb_true_iff Ht].
  apply bool_decide_eq_true in Hs, Hl, Ht. unfold BReactor_Free. hstep.
  eapply wp_mono; [apply has_jobs_ok, Hi|]. intros b m0 ? (-> & -> & g & -> & Hg).
  rewrite (bool_decide_eq_true_2 _ Hs). hstep. hstep; [done|]. hstep. hstep.
  assert (Hno : forall t st, timer_st (timers m) t = Some st -> st = TIMER_STATE_INACTIVE).
  { intros t st (x & Hx & <-)%timer_st_Some. by apply (Ht t x). }
  pose proof (i_timers _ _ Hi) as Hit.
  hstep. hstep.
  { apply bool_decide_eq_true_2. cbn. destruct (timers_tree m) as [|t l] eqn:E; [done|].
    pose proof (proj1 (t_tree _ _ _ _ _ Hit t) ltac:(left)) as H1. by apply Hno in H1. }
  hstep. hstep.
  { apply bool_decide_eq_true_2. cbn. destruct (timers_expired_list m) as [|t l] eqn:E; [done|].
    pose proof (proj1 (t_expired _ _ _ _ _ Hit t) ltac:(left)) as H1. by apply Hno in H1. }
  hstep.
  { apply bool_decide_eq_true_2. cbn. destruct (active_limits_list m) as [|t l] eqn:E; [done|].
    pose proof (proj1 (l_active _ _ (i_limits _ _ Hi) t) ltac:(rewrite E; left)) as (x & Hx & _).
    by rewrite Hl in Hx. }
  split; [|done]. eapply inv_jobs; [done|done|apply Hi].
Qed.

Lemma reactor_handle_ok e m s : inv m s -> event_ok m s e = true ->
  wp (handle e) m (fun _ m' l => inv m' (stack_after m s e) /\ timers_step e m m').
Proof.
  intros Hi Ho.
  assert (Hfd : forall bs b, active <$> fds m !! bs = Some b -> exists x, fds m !! bs = Some x /\ active x = b).
  { intros bs b H'. destruct (fds m !! bs) as [x|]; [|done]. injection H' as <-. eauto. }
  destruct e; cbn [handle].
  - hstep. eapply wp_mono; [by apply turn_ok|]. intros r m' l (? & _ & ?). by hstep.
  - hstep. eapply wp_mono; [by apply sync_ok|]. intros r m' l (? & (g & ->) & _). hstep. split; [done|by unfold timers_step].
  - unfold BReactor_Quit. hstep. split; [destruct Hi; by split|by unfold timers_step].
  - unfold set_clock. hstep. cbn [event_ok] in Ho. split; [|by unfold timers_step].
    assert (timers_ok (timers_tree m) (timers_expired_list m) (timers m) (btimers m) t)
      by (eapply timers_ok_clock; [apply Hi|lia]). destruct Hi. by split.
  - hstep. eapply wp_mono; [by apply jobs_event_ok|]. intros r m' l (? & g & ->). hstep. split; [done|by unfold timers_step].
  - unfold BSmallTimer_Init. hstep. apply bool_decide_eq_true in Ho. split; [|by unfold timers_step].
    apply (inv_timers m s (timers_tree m) (timers_expired_list m) (<[bt:=_]> (timers m)) (btimers m) Hi).
    eapply timers_ok_new; [apply Hi|done|done|done|done].
  - unfold BTimer_Init. hstep. cbn [event_ok] in Ho. apply andb_true_iff in Ho as [Ho%bool_decide_eq_true Hms].
    split; [|by unfold timers_step].
    apply (inv_timers m s (timers_tree m) (timers_expired_list m) (<[bt:=_]> (timers m)) (<[bt:=_]> (btimers m)) Hi).
    eapply timers_ok_new; [apply Hi|done|done| |].
    + intros _. eexists. rewrite lookup_insert_eq. by split.
    + intros q Hq. by rewrite lookup_insert_ne by congruence.
  - hstep. cbn [event_ok] in Ho. apply bool_decide_eq_true in Ho. split; [|by unfold timers_step].
    apply (inv_timers m s (timers_tree m) (timers_expired_list m) (delete bt (timers m)) (btimers m) Hi).
    apply timers_ok_forget; [apply Hi|done].
  - cbn [event_ok] in Ho. apply bool_decide_eq_true in Ho as [x Hx].
    hstep. unfold BSmallTimer_IsRunning. hstep. eapply wp_timer_at; [exact Hx|]. hstep. hstep. split; [done|by unfold timers_step].
  - cbn [event_ok] in Ho. apply andb_true_iff in Ho as [[x Hx]%bool_decide_eq_true Ht].
    eapply wp_mono; [eapply set_timer_ok; [apply Hi|exact Hx|done]|]. intros _ m' l [-> Hc].
    split; [by eapply timer_changed_inv|by apply timer_changed_becomes].
  - cbn [event_ok] in Ho. apply bool_decide_eq_true in Ho.
    destruct (timers m !! bt) as [x|] eqn:Hx; [|done]. injection Ho as Hsm.
    destruct (t_heavy _ _ _ _ _ (i_timers _ _ Hi) bt x Hx Hsm) as (b & Hb & Hms).
    unfold BReactor_SetTimer. hstep. hstep. hstep. eapply wp_of_option; [exact Hb|].
    eapply wp_mono; [eapply set_timer_ok; [apply Hi|exact Hx|done]|]. intros _ m' l [-> Hc].
    split; [by eapply timer_changed_inv|by apply timer_changed_becomes].
  - cbn [event_ok] in Ho. apply bool_decide_eq_true in Ho as [x Hx].
    eapply wp_mono; [eapply remove_timer_ok; [apply Hi|exact Hx]|]. intros _ m' l (-> & Hc & _).
    split; [by eapply timer_changed_inv|by apply timer_changed_becomes].
  - unfold BFileDescriptor_Init. hstep. cbn [event_ok] in Ho. apply negb_true_iff, bool_decide_eq_false in Ho.
    split; [|by unfold timers_step]. apply fds_event_ok; [done|]. intros b x Ha. destruct (decide (bs = b)) as [->|].
    + rewrite lookup_insert_eq. split; [by intros [= <-]|]. intros Hx. destruct Ho. by rewrite Hx, <- Ha.
    + by rewrite lookup_insert_ne.
  - hstep. cbn [event_ok] in Ho. apply bool_decide_eq_true, Hfd in Ho as (y & Hy & Hay). split; [|by unfold timers_step].
    apply fds_event_ok; [done|]. intros b x Ha. destruct (decide (bs = b)) as [->|].
    + rewrite lookup_delete_eq. split; [done|]. congruence.
    + by rewrite lookup_delete_ne.
  - cbn [event_ok] in Ho. apply bool_decide_eq_true, Hfd in Ho as (y & Hy & Hay).
    hstep. eapply wp_mono; [by eapply add_fd_ok|]. intros r m' l [? Heq]. hstep. split; [done|].
    unfold timers_step. by rewrite Heq.
  - cbn [event_ok] in Ho. apply bool_decide_eq_true, Hfd in Ho as (y & Hy & Hay).
    eapply wp_mono; [by eapply remove_fd_ok|]. intros r m' l [? Heq]. split; [done|]. cbn. by rewrite Heq.
  - cbn [event_ok] in Ho. apply andb_true_iff in Ho as [Ho Hev]. apply bool_decide_eq_true, Hfd in Ho as (y & Hy & Hay).
    eapply wp_mono; [eapply fd_events_ok; [done|done|done|lia]|].
    intros r m' l [? Heq]. split; [done|]. cbn. by rewrite Heq.
  - unfold BReactorLimit_Init. cbn [event_ok] in Ho. apply andb_true_iff in Ho as [[Ho%bool_decide_eq_true H1]%andb_true_iff H2].
    hstep. hstep; [done|]. hstep. split; [|by unfold timers_step]. apply limit_event_ok; [done|cbn; lia|by left].
  - cbn [event_ok] in Ho. apply bool_decide_eq_true in Ho as [x Hx].
    eapply wp_mono; [by eapply limit_free_ok|]. intros r m' l [? Heq]. split; [done|]. cbn. by rewrite Heq.
  - cbn [event_ok] in Ho. apply bool_decide_eq_true in Ho as [x Hx].
    hstep. eapply wp_mono; [by eapply limit_increment_ok|]. intros r m' l (? & Heq & _). hstep. split; [done|].
    cbn. by rewrite Heq.
  - unfold BReactorLimit_SetLimit. cbn [event_ok] in Ho.
    apply andb_true_iff in Ho as [[[x Hx]%bool_decide_eq_true H1]%andb_true_iff H2].
    hstep. hstep; [done|]. eapply wp_set_limit; [exact Hx|]. split; [|by unfold timers_step].
    apply limit_event_ok; [done|cbn; lia|]. right. by exists x.
  - eapply wp_mono; [by apply free_reactor_ok|]. intros r m' l [? Heq]. split; [done|]. cbn. by rewrite Heq.
Qed.

(** *** Executions *)

Lemma run_cons e es m s m2 s2 l : run m s (e :: es) = Some (m2, s2, l) ->
  event_ok m s e = true /\ exists m1 l1 l2, handle e m = Some (tt, m1, l1) /\
    run m1 (stack_after m s e) es = Some (m2, s2, l2) /\ l = l1 ++ l2.
Proof.
  cbn [run]. destruct (event_ok m s e); [|done].
  destruct (handle e m) as [[[[] m1] l1]|]; [|done]. cbn.
  destruct (run m1 _ es) as [[[m2' s2'] l2]|] eqn:E; [|done]. intros [= -> -> <-]. split; [done|].
  exists m1, l1, l2. by rewrite E.
Qed.
Lemma handle_step e m s m1 l1 : inv m s -> event_ok m s e = true -> handle e m = Some (tt, m1, l1) ->
  inv m1 (stack_after m s e) /\ timers_step e m m1.
Proof.
  intros Hi Ho He. pose proof (reactor_handle_ok e m s Hi Ho) as Hw. unfold wp in Hw. by rewrite He in Hw.
Qed.
Lemma reactor_run_inv es : forall m s m2 s2 l, inv m s -> run m s es = Some (m2, s2, l) -> inv m2 s2.
Proof.
  induction es as [|e es IH]; intros m s m2 s2 l Hi Hr; [by injection Hr as <- <- <-|].
  apply run_cons in Hr as (Ho & m1 & l1 & l2 & He & Hr & _). eapply IH; [|exact Hr].
  by eapply handle_step.
Qed.

Lemma reactor_init_inv g room w junk m : queue_is g (JobStack.mk_stack [] ∅ room) -> epoll w = ∅ ->
  0 <= clock w <= INT64_MAX -> BReactor_Init true g w junk = Some m ->
  inv m (JobStack.mk_stack [] ∅ room).
Proof.
  intros Hg He Hc [= <-]. split; cbn.
  - done.
  - by intros o ?%not_elem_of_nil.
  - split; try done; try (by intros t; split; [intros ?%not_elem_of_nil|]); try constructor;
      by intros ? ?%not_elem_of_nil.
  - split; [lia|..].
    + intros. lia.
    + done.
    + by rewrite He.
    + done.
  - split; [constructor| |done]. intros o. split; [by intros ?%not_elem_of_nil|]. by intros (x & ? & _).
Qed.

(** *** Timers are called once for each time they are set *)

Definition armed m t : Z := if decide (t ∈ set_timers m) then 1 else 0.

Lemma armed_nonneg m t : 0 <= armed m t.
Proof. unfold armed. by case_decide. Qed.
Lemma elem_of_set_timers m s t : inv m s -> t ∈ set_timers m <->
  timer_st (timers m) t = Some TIMER_STATE_RUNNING \/ timer_st (timers m) t = Some TIMER_STATE_EXPIRED.
Proof.
  intros Hi. unfold set_timers. rewrite elem_of_app, (t_tree _ _ _ _ _ (i_timers _ _ Hi)).
  by rewrite (t_expired _ _ _ _ _ (i_timers _ _ Hi)).
Qed.

Lemma armed_step e m s m1 t : inv m s -> event_ok m s e = true -> inv m1 (stack_after m s e) ->
  timers_step e m m1 -> dispatched t m s e <= armed m t ->
  (dispatched t m s e = 1 -> timer_becomes t TIMER_STATE_INACTIVE m m1) ->
  dispatched t m s e + armed m1 t <= armed m t + sets t e.
Proof.
  intros Hi Ho Hi1 Hs Hd Hd1.
  assert (Hd01 : 0 <= dispatched t m s e <= 1) by (unfold dispatched; destruct e; try lia; case_match; lia).
  assert (Hsame : set_timers m1 ≡ₚ set_timers m -> armed m1 t = armed m t).
  { intros Hp. unfold armed. destruct (decide (t ∈ set_timers m1)) as [E|E], (decide (t ∈ set_timers m)) as [E'|E'];
      try done; rewrite Hp in E; tauto. }
  assert (Hbec : forall q st, timer_becomes q st m m1 ->
    armed m1 t <= armed m t + if decide (q = t) then 1 else 0).
  { intros q st Hb. unfold armed. destruct (decide (t ∈ set_timers m1)) as [E|E]; [|repeat case_decide; lia].
    destruct (decide (q = t)) as [->|Hne]; [repeat case_decide; lia|]. rewrite decide_True; [lia|].
    apply (elem_of_set_timers _ _ _ Hi). apply (elem_of_set_timers _ _ _ Hi1) in E.
    by rewrite Hb, decide_False in E by congruence. }
  assert (Hoff : forall q, timer_becomes q TIMER_STATE_INACTIVE m m1 -> armed m1 t <= armed m t).
  { intros q Hb. destruct (decide (q = t)) as [->|Hne]; [|specialize (Hbec _ _ Hb); rewrite decide_False in Hbec by done; lia].
    unfold armed at 1. rewrite decide_False; [unfold armed; case_decide; lia|].
    rewrite (elem_of_set_timers _ _ _ Hi1), !Hb, decide_True by done. by intros [|]. }
  destruct e; cbn [timers_step sets dispatched] in *; try (rewrite (Hsame Hs); lia); try (specialize (Hbec _ _ Hs); lia);
    try (specialize (Hoff _ Hs); lia).
  destruct (decide (dispatched t m s (Ev_exec answers) = 1)) as [E|E].
  - cbn [dispatched] in E. rewrite E in *. specialize (Hd1 eq_refl).
    assert (armed m1 t = 0); [|lia]. unfold armed. rewrite decide_False; [done|].
    rewrite (elem_of_set_timers _ _ _ Hi1), !Hd1, decide_True by done. by intros [|].
  - cbn [dispatched] in E. destruct Hs as [(q & rest & _ & Hb)|Hp]; [specialize (Hoff _ Hb); lia|].
    rewrite (Hsame Hp). lia.
Qed.

Lemma dispatched_spec e m s m1 l1 t : inv m s -> event_ok m s e = true -> handle e m = Some (tt, m1, l1) ->
  dispatched t m s e <= armed m t /\
  (dispatched t m s e = 1 -> timer_becomes t TIMER_STATE_INACTIVE m m1).
Proof.
  intros Hi Ho He. unfold dispatched. destruct e; try (split; [apply armed_nonneg|done]).
  destruct (negb _ && _ && _) eqn:E; [|split; [apply armed_nonneg|done]].
  apply andb_true_iff in E as [[Ex%negb_true_iff Es%bool_decide_eq_true]%andb_true_iff Eh%bool_decide_eq_true].
  destruct (timers_expired_list m) as [|q rest] eqn:El; [done|]. injection Eh as ->.
  assert (Hin : t ∈ set_timers m) by (unfold set_timers; rewrite El, elem_of_app; right; left).
  split; [unfold armed; by rewrite decide_True|]. intros _.
  pose proof (handle_step _ _ _ _ _ Hi Ho He) as [_ [(q & r & Eq & Hb)|Hp]].
  { rewrite El in Eq. by injection Eq as <- <-. }
  exfalso. pose proof (turn_ok answers m s Hi Ho) as Hw. cbn [handle] in He.
  apply bind_Some in He as (r & m1' & l & l2 & He & [= <- <-] & ->).
  unfold wp in Hw. rewrite He in Hw. destruct Hw as (Hi1 & Ht & _). unfold turn_spec in Ht.
  rewrite Ex, Es, El in Ht. destruct Ht as (_ & x & _ & _ & _ & Hst & _).
  rewrite <- Hp in Hin. apply (elem_of_set_timers _ _ _ Hi1) in Hin. rewrite Hst in Hin. by destruct Hin.
Qed.

Lemma once_run t es : forall m s m2 s2 l, inv m s -> run m s es = Some (m2, s2, l) ->
  dispatches t m s es + armed m2 t <= armed m t + all_sets t es.
Proof.
  induction es as [|e es IH]; intros m s m2 s2 l Hi Hr; [injection Hr as <- <- <-; cbn; lia|].
  apply run_cons in Hr as (Ho & m1 & l1 & l2 & He & Hr & _).
  destruct (handle_step _ _ _ _ _ Hi Ho He) as [Hi1 Hs]. specialize (IH _ _ _ _ _ Hi1 Hr).
  destruct (dispatched_spec _ _ _ _ _ t Hi Ho He) as [Hd Hd1].
  pose proof (armed_step e m s m1 t Hi Ho Hi1 Hs Hd Hd1). cbn [dispatches all_sets foldr]. rewrite He.
  fold (all_sets t es). lia.
Qed.

(** *** Synchronizing *)

Lemma without_above o above ref below : o <> ref -> o ∉ below ->
  without o (above ++ ref :: below) = without o above ++ ref :: below.
Proof.
  intros H1 H2. assert (Hr : o ∉ ref :: below) by (by apply not_elem_of_cons).
  rewrite <- (without_not_in o _ Hr) at 2. unfold without. by rewrite filter_app.
Qed.
Lemma not_elem_of_without ref o l : ref ∉ l -> ref ∉ without o l.
Proof. intros Hr [_ ?]%elem_of_without. done. Qed.

Lemma above_step ref below e m s above : inv m s -> event_ok m s e = true -> above_mark ref below e = true ->
  JobStack.stack s = above ++ ref :: below -> ref ∉ above ->
  exists above', JobStack.stack (stack_after m s e) = above' ++ ref :: below /\ ref ∉ above'.
Proof.
  intros Hi Ho He Hs Hr. destruct e; cbn [stack_after above_mark] in *; try done; try (by exists above).
  - apply bool_decide_eq_true in He as ->. destruct (exiting m); cbn [orb]; [by exists above|].
    rewrite Hs. case_bool_decide as E; [by exists above|]. destruct above as [|o above]; [done|].
    exists above. unfold popped. cbn. rewrite Hs. split; [done|]. by apply not_elem_of_cons in Hr as [_ ?].
  - cbn [event_ok] in Ho. apply andb_true_iff in Ho as [Hx [[[r s'] o] Hst]%bool_decide_eq_true]. rewrite Hst.
    assert (Hm : forall o', o' ∈ ref :: below -> moves i o' = false).
    { intros o' Ho'. rewrite forallb_forall in He. apply negb_true_iff, He. by apply list_elem_of_In. }
    assert (Hw : forall x, (forall o', o' ∈ ref :: below -> bool_decide (x = o') = false) -> x <> ref /\ x ∉ below).
    { intros x Hx'. split.
      - intros ->. specialize (Hx' ref ltac:(left)). by rewrite bool_decide_eq_true_2 in Hx'.
      - intros Hin. specialize (Hx' x ltac:(by right)). by rewrite bool_decide_eq_true_2 in Hx'. }
    destruct i as [x h u|x|x h u|x|x|x| | |]; cbn [JobStack.step moves] in *; try done; simplify_option_eq;
      try (by exists above).
    + destruct (Hw x Hm) as [Hxr Hxb]. exists (without x above). rewrite Hs, without_above by done.
      split; [done|by apply not_elem_of_without].
    + destruct (Hw x Hm) as [Hxr Hxb]. exists (x :: without x above). rewrite Hs, without_above by done.
      split; [done|]. apply not_elem_of_cons. split; [congruence|by apply not_elem_of_without].
    + destruct (Hw x Hm) as [Hxr Hxb]. exists (without x above). rewrite Hs, without_above by done.
      split; [done|by apply not_elem_of_without].
Qed.

Lemma above_run ref below es : forall m s m2 s2 l above, inv m s -> run m s es = Some (m2, s2, l) ->
  forallb (above_mark ref below) es = true -> JobStack.stack s = above ++ ref :: below -> ref ∉ above ->
  exists above', JobStack.stack s2 = above' ++ ref :: below /\ ref ∉ above'.
Proof.
  induction es as [|e es IH]; intros m s m2 s2 l above Hi Hr Hes Hs Ha.
  { injection Hr as <- <- <-. by exists above. }
  cbn [forallb] in Hes. apply andb_true_iff in Hes as [He Hes].
  apply run_cons in Hr as (Ho & m1 & l1 & l2 & Hh & Hr & _).
  destruct (above_step ref below e m s above Hi Ho He Hs Ha) as (above1 & Hs1 & Ha1).
  eapply (IH m1 _ m2 s2 l2 above1); try done. by eapply handle_step.
Qed.
End proofs.
End ReactorProofs.

Section reactor_properties.
Import ReactorProofs.
Context {G : Type} `{JobQueue G} (g0 : G) (room : gset ptr) (w : world) (junk : list epoll_event)
  (m0 : BReactor G).
Abbreviation s0 := (JobStack.mk_stack [] ∅ room).
Hypothesis (Hqueue : queue_is g0 s0) (Hepoll : epoll w = ∅) (Hclock : 0 <= clock w <= INT64_MAX).
Hypothesis (Hinit : BReactor_Init true g0 w junk = Some m0).

Lemma reactor_reachable es m s l : run m0 s0 es = Some (m, s, l) -> inv m s.
Proof. intros Hr. eapply reactor_run_inv; [|exact Hr]. by eapply reactor_init_inv. Qed.

(** C24: Whatever the program does with a reactor, and whatever [epoll_wait]
    answers within its documentation, nothing goes wrong: no assertion fails,
    no pointer left in the results array or in a descriptor dangles, no time
    overflows, the loops over timers and limits end. *)
Theorem reactor_safe es m s l e :
  run m0 s0 es = Some (m, s, l) -> event_ok m s e = true -> is_Some (handle e m).
Proof.
  intros Hr Ho. pose proof (reactor_handle_ok e m s (reactor_reachable _ _ _ _ Hr) Ho) as Hw.
  apply wp_spec in Hw as (a & m' & o & -> & _). by eexists.
Qed.

(** C23: A turn of the event loop does one thing, and in this order: the last
    job that was set; else the timer that expired first, whose time has come;
    else the next event of [epoll_wait], told to a descriptor that is still
    active and only as far as it watches for it; else it waits, until timers
    have expired, before all those that are left, or events are there. *)
Theorem reactor_turn es m s l answers :
  run m0 s0 es = Some (m, s, l) -> event_ok m s (Ev_exec answers) = true ->
  exists r m' l', BReactor_Exec answers m = Some (r, m', l') /\ turn_spec m s r m' l'.
Proof.
  intros Hr Ho. pose proof (turn_ok answers m s (reactor_reachable _ _ _ _ Hr) Ho) as Hw.
  apply wp_spec in Hw as (a & m' & o & He & _ & Ht & _). eauto.
Qed.

(** The handler of a timer is called at most once for each time the timer
    is set, and not for the last time while the timer is still running. *)
Theorem reactor_timer_once es m s l t :
  run m0 s0 es = Some (m, s, l) ->
  dispatches t m0 s0 es + (if decide (timer_st (timers m) t = Some TIMER_STATE_RUNNING) then 1 else 0)
    <= all_sets t es.
Proof.
  intros Hr. pose proof (reactor_init_inv _ _ _ _ _ Hqueue Hepoll Hclock Hinit) as Hi0.
  pose proof (reactor_reachable _ _ _ _ Hr) as Hi.
  pose proof (once_run t es _ _ _ _ _ Hi0 Hr) as Ho.
  assert (Ha0 : armed m0 t = 0). { injection Hinit as <-. unfold armed, set_timers. cbn.
    rewrite decide_False; [done|by apply not_elem_of_nil]. }
  assert (Ha : (if decide (timer_st (timers m) t = Some TIMER_STATE_RUNNING) then 1 else 0) <= armed m t).
  { unfold armed. case_decide as E; [|by case_decide]. rewrite decide_True; [done|].
    apply (elem_of_set_timers _ _ _ Hi). by left. }
  lia.
Qed.

(** [BReactor_Synchronize] runs the jobs above its reference job and those
    set meanwhile, whatever they do short of moving it or the jobs below: these
    stay where they are, and it returns 1 exactly when nothing is above. *)
Theorem reactor_synchronize es m s l above ref below es' m' s' l' :
  run m0 s0 es = Some (m, s, l) ->
  JobStack.stack s = above ++ ref :: below -> ref ∉ above ->
  run m s es' = Some (m', s', l') -> forallb (above_mark ref below) es' = true ->
  exists above', JobStack.stack s' = above' ++ ref :: below /\
    exists r m'' l'', BReactor_Synchronize ref m' = Some (r, m'', l'') /\
      r = (if exiting m' then Some false else if bool_decide (above' = []) then Some true else None).
Proof.
  intros Hr Hs Ha Hr' Hes. pose proof (reactor_reachable _ _ _ _ Hr) as Hi.
  destruct (above_run ref below es' m s m' s' l' above Hi Hr' Hes Hs Ha) as (above' & Hs' & Ha').
  exists above'. split; [done|]. pose proof (reactor_run_inv _ _ _ _ _ _ Hi Hr') as Hi'.
  pose proof (sync_ok ref m' s' Hi') as Hw. rewrite Hs' in Hw.
  destruct (exiting m') eqn:Ex; cbn [orb] in Hw.
  - destruct (proj1 (wp_spec _ _ _) (Hw eq_refl)) as (r & m'' & l'' & He & _ & _ & -> & _). eauto 7.
  - rewrite bool_decide_eq_true_2 in Hw by (apply elem_of_app; right; left).
    destruct (proj1 (wp_spec _ _ _) (Hw eq_refl)) as (r & m'' & l'' & He & _ & _ & Hspec).
    exists r, m'', l''. split; [done|]. destruct above' as [|o above']; cbn [app] in Hspec.
    + rewrite bool_decide_eq_true_2 in Hspec by done. by destruct Hspec.
    + rewrite bool_decide_eq_false_2 in Hspec; [by destruct Hspec|]. intros ->. apply Ha'. left.
Qed.
End reactor_properties.

(** ** Witnesses *)

Module ReactorWitnesses.
Import ReactorProofs.

(** Two jobs' memory; a descriptor 7 with an object at 40; timers at 20 and 21. *)
Definition demo_memory : BPendingGroup :=
  let junk := mk_pending 99 99 (mk_pending_node None None) in
  mk_group None {[ 1%nat := junk; 2%nat := junk ]}.
Definition demo_room : gset ptr := {[ 1%nat; 2%nat ]}.
Definition demo_s0 : JobStack.state := JobStack.mk_stack [] ∅ demo_room.
Definition demo_world : world := mk_world ∅ 1000.
Definition demo_m0 : BReactor BPendingGroup :=
  mk_reactor false 0 demo_memory [] [] [] [] 0 0 ∅ ∅ ∅ ∅ demo_world.

Definition demo_readable : epoll_event := mk_event (mk_bits true false false false) (Some 40%nat).
(** A descriptor is watched and two timers are set; the first wait ends with
    the descriptor, the second one, interrupted once, with a timer. *)
Definition demo_start : list event :=
  [ Ev_fd_init 40 7 50 500 (3, Some 9%nat); Ev_fd_add 40 true; Ev_fd_events 40 BREACTOR_READ;
    Ev_timer_init 20 100 60 600 0; Ev_timer_set 20; Ev_small_timer_init 21 61 0;
    Ev_small_timer_set 21 BTIMER_SET_ABSOLUTE 1050;
    Ev_exec [(Returned [demo_readable], 1010)]; Ev_exec [];
    Ev_exec [(Interrupted, 1020); (Returned [], 1050)]; Ev_exec [];
    Ev_jobs (Init 1 70 700); Ev_jobs (Init 2 71 701); Ev_jobs (Set_ 1); Ev_jobs (Set_ 2) ].
Definition demo_sync : list event := [ Ev_synchronize 1%nat; Ev_quit 5 ].

Definition demo_at (es : list event) : BReactor BPendingGroup * JobStack.state * list out :=
  match run demo_m0 demo_s0 es with Some x => x | None => (demo_m0, demo_s0, []) end.
Definition demo_m : BReactor BPendingGroup := (demo_at demo_start).1.1.
Definition demo_s : JobStack.state := (demo_at demo_start).1.2.

Lemma demo_ran es : bool_decide (is_Some (run demo_m0 demo_s0 es)) = true ->
  run demo_m0 demo_s0 es = Some (demo_at es).
Proof. unfold demo_at. destruct (run _ _ es); [done|]. by intros [x Hx]%bool_decide_eq_true. Qed.
Lemma reactor_demo_run : run demo_m0 demo_s0 demo_start = Some (demo_m, demo_s, (demo_at demo_start).2).
Proof.
  rewrite demo_ran by by vm_compute. unfold demo_m, demo_s. by destruct (demo_at demo_start) as [[? ?] ?].
Qed.

Example demo_calls : (demo_at (demo_start ++ [Ev_exec []; Ev_exec []; Ev_time 1100; Ev_exec []; Ev_exec []])).2 =
  [Fd 50 500 1; Small_timer 61 21; Job 71 701; Job 70 700; Heavy_timer 60 600].
Proof. by vm_compute. Qed.

Lemma demo_queue : queue_is demo_memory demo_s0.
Proof.
  assert (forall x, x ∈ demo_room -> is_Some (heap demo_memory !! x)) as Hroom.
  { apply (bool_decide_unpack (set_Forall (fun x => is_Some (heap demo_memory !! x)) demo_room)). by vm_compute. }
  pose proof (init_implements demo_memory demo_room Hroom) as Hw. exact (proj2 Hw).
Qed.
Lemma demo_clock : 0 <= clock demo_world <= INT64_MAX.
Proof. done. Qed.

Lemma reactor_safe_witness : is_Some (handle (Ev_fd_remove 40%nat) demo_m).
Proof.
  apply (reactor_safe demo_memory demo_room demo_world [] demo_m0 demo_queue eq_refl demo_clock eq_refl
    demo_start demo_m demo_s (demo_at demo_start).2 (Ev_fd_remove 40%nat)); [apply reactor_demo_run|by vm_compute].
Defined.

Lemma reactor_turn_witness : exists r m' l, BReactor_Exec [] demo_m = Some (r, m', l) /\
  turn_spec demo_m demo_s r m' l.
Proof.
  apply (reactor_turn demo_memory demo_room demo_world [] demo_m0 demo_queue eq_refl demo_clock eq_refl
    demo_start demo_m demo_s (demo_at demo_start).2 []); [apply reactor_demo_run|by vm_compute].
Defined.

Lemma reactor_timer_once_witness :
  dispatches 20%nat demo_m0 demo_s0 demo_start +
  (if decide (timer_st (timers demo_m) 20%nat = Some TIMER_STATE_RUNNING) then 1 else 0)
    <= all_sets 20%nat demo_start.
Proof.
  apply (reactor_timer_once demo_memory demo_room demo_world [] demo_m0 demo_queue eq_refl demo_clock eq_refl
    demo_start demo_m demo_s (demo_at demo_start).2); apply reactor_demo_run.
Defined.

Definition demo_after : option (BReactor BPendingGroup * JobStack.state * list out) :=
  run demo_m demo_s [Ev_synchronize 1%nat].
Lemma reactor_synchronize_witness :
  JobStack.stack demo_s = [2; 1]%nat /\
  exists m' s' l' above', demo_after = Some (m', s', l') /\ JobStack.stack s' = above' ++ [1%nat] /\
    exists r m'' l'', BReactor_Synchronize 1%nat m' = Some (r, m'', l'') /\
      r = (if exiting m' then Some false else if bool_decide (above' = []) then Some true else None).
Proof.
  split; [by vm_compute|].
  assert (exists x, demo_after = Some x) as [[[m' s'] l'] Ha].
  { apply (bool_decide_unpack (is_Some demo_after)). by vm_compute. }
  destruct (reactor_synchronize demo_memory demo_room demo_world [] demo_m0 demo_queue eq_refl demo_clock eq_refl
    demo_start demo_m demo_s (demo_at demo_start).2 [2%nat] 1%nat [] [Ev_synchronize 1%nat] m' s' l')
    as (above' & Hst & Hres).
  - apply reactor_demo_run.
  - by vm_compute.
  - apply (bool_decide_unpack _). by vm_compute.
  - exact Ha.
  - done.
  - exists m', s', l', above'. split; [exact Ha|]. split; [exact Hst|exact Hres].
Defined.
End ReactorWitnesses.
