(* ===== verification/ParseNumber.v ===== *)
(** * Numbers as text

    [misc/parse_number.h], [misc/find_char.h], and the [strtol]/[atoi] and
    [sprintf] conversions of the C library that the program relies on.  A
    string is the list of its characters; the [_bin] functions get exactly that
    list, the others the characters before the terminating zero.  A [char] is
    taken as its unsigned byte: every test of the code is on ASCII characters
    and has the same answer for a signed [char]. *)
From S2P Require Import Prelude InetProto BAddr.
From Stdlib Require Import Strings.Byte.

(** [parse_number__uintmax_max_str]. *)
Definition parse_number__uintmax_max_str : bytes :=
  ["1"; "8"; "4"; "4"; "6"; "7"; "4"; "4"; "0"; "7";
   "3"; "7"; "0"; "9"; "5"; "5"; "1"; "6"; "1"; "5"]%byte.

Definition decode_decimal_digit (c : byte) : Z :=
  match c with
  | "0" => 0 | "1" => 1 | "2" => 2 | "3" => 3 | "4" => 4
  | "5" => 5 | "6" => 6 | "7" => 7 | "8" => 8 | "9" => 9
  | _ => -1
  end%byte.

Definition decode_hex_digit (c : byte) : Z :=
  match c with
  | "0" => 0 | "1" => 1 | "2" => 2 | "3" => 3 | "4" => 4
  | "5" => 5 | "6" => 6 | "7" => 7 | "8" => 8 | "9" => 9
  | "A" | "a" => 10 | "B" | "b" => 11 | "C" | "c" => 12
  | "D" | "d" => 13 | "E" | "e" => 14 | "F" | "f" => 15
  | _ => -1
  end%byte.

(** The loop of [parse__no_overflow], [n] being computed in [uintmax_t]. *)
Fixpoint no_overflow_loop (str : bytes) (n : Z) : option Z :=
  match str with
  | [] => Some n
  | c :: str =>
      if (b2z c <? b2z "0"%byte) || (b2z "9"%byte <? b2z c) then None
      else no_overflow_loop str (to_u64 (10 * n + (b2z c - b2z "0"%byte)))
  end.
Definition parse__no_overflow (str : bytes) : option Z := no_overflow_loop str 0.

(** The loop that removes leading zeros. *)
Fixpoint skip_zeros (str : bytes) : bytes :=
  match str with
  | c :: rest => if b2z c =? b2z "0"%byte then skip_zeros rest else str
  | [] => []
  end.

Definition parse_unsigned_integer_bin (str : bytes) : option Z :=
  if len str =? 0 then None else
  let str := skip_zeros str in
  if (len parse_number__uintmax_max_str <? len str)
     || ((len str =? len parse_number__uintmax_max_str)
         && (0 <? memcmp str parse_number__uintmax_max_str))
  then None
  else parse__no_overflow str.

(** The step [n = base * n + digit] with the two tests that keep it below
    [max], as the parsers write it out each time. *)
Definition push_digit (base max n digit : Z) : option Z :=
  if max / base <? n then None else
  let n := n * base in
  if max - n <? digit then None else Some (n + digit).

Fixpoint hex_loop (str : bytes) (n : Z) : option Z :=
  match str with
  | [] => Some n
  | c :: str =>
      let digit := decode_hex_digit c in
      if digit <? 0 then None else
      n ← push_digit 16 UINT64_MAX n digit;
      hex_loop str n
  end.
Definition parse_unsigned_hex_integer_bin (str : bytes) : option Z :=
  if len str =? 0 then None else hex_loop str 0.

(** The sign and the magnitude. *)
Definition parse_signmag_integer_bin (str : bytes) : option (Z * Z) :=
  let '(sign, str) :=
    match str with
    | c :: rest =>
        if (b2z c =? b2z "+"%byte) || (b2z c =? b2z "-"%byte)
        then (1 - 2 * Z.b2z (b2z c =? b2z "-"%byte), rest) else (1, str)
    | [] => (1, str)
    end in
  mag ← parse_unsigned_integer_bin str;
  Some (sign, mag).

(** [b_find_char_bin]: the position of the first [c]. *)
Fixpoint find_char_loop (str : bytes) (c : byte) (i : Z) : option Z :=
  match str with
  | [] => None
  | d :: str => if b2z d =? b2z c then Some i else find_char_loop str c (i + 1)
  end.
Definition b_find_char_bin (str : bytes) (c : byte) : option Z := find_char_loop str c 0.

(** [compute_decimal_repr_size] and [generate_decimal_repr]: both are
    do-while loops; [out] is written backwards from [out + repr_size]. *)
Fixpoint repr_size_loop (fuel : nat) (x size : Z) : option Z :=
  match fuel with
  | O => None
  | S fuel =>
      let size := size + 1 in
      let x := x / 10 in
      if 0 <? x then repr_size_loop fuel x size else Some size
  end.
Definition repr_fuel : nat := 20.
Definition compute_decimal_repr_size (x : Z) : option Z := repr_size_loop repr_fuel x 0.

Fixpoint generate_loop (fuel : nat) (x : Z) (out : bytes) (pos : Z) : option bytes :=
  match fuel with
  | O => None
  | S fuel =>
      let pos := pos - 1 in
      out ← store pos [z2b (b2z "0"%byte + x mod 10)] out;
      let x := x / 10 in
      if 0 <? x then generate_loop fuel x out pos else Some out
  end.
Definition generate_decimal_repr (x : Z) (out : bytes) (repr_size : Z) : option bytes :=
  generate_loop repr_fuel x out repr_size.

Definition generate_decimal_repr_string (x : Z) (out : bytes) : option (Z * bytes) :=
  repr_size ← compute_decimal_repr_size x;
  out ← generate_decimal_repr x out repr_size;
  out ← store repr_size ["000"%byte] out;
  Some (repr_size, out).

(** The conversions [%u], [%d] (of a number that is not negative) and [%x] of
    [sprintf]: the digits of the number, at least one. *)
Definition digit_char (d : Z) : byte :=
  if d <? 10 then z2b (b2z "0"%byte + d) else z2b (b2z "a"%byte + (d - 10)).
Fixpoint print_digits (fuel : nat) (base x : Z) : bytes :=
  match fuel with
  | O => []
  | S fuel =>
      (if 0 <? x / base then print_digits fuel base (x / base) else [])
      ++ [digit_char (x mod base)]
  end.
Definition print_dec (x : Z) : bytes := print_digits repr_fuel 10 x.
Definition print_hex (x : Z) : bytes := print_digits repr_fuel 16 x.

Module ParseNumberProofs.
Import Checksum.

(** The number a digit string denotes after the number [n], in a base. *)
Definition digits_value (base : Z) (dec : byte -> Z) (str : bytes) (n : Z) : Z :=
  fold_left (fun n c => base * n + dec c) str n.
Definition digits_ok (dec : byte -> Z) (str : bytes) : bool :=
  forallb (fun c => 0 <=? dec c) str.

(** What the parsers should return: the number, when the string is a nonempty
    string of digits and the number fits. *)
Definition number_of (base : Z) (dec : byte -> Z) (max : Z) (str : bytes) : option Z :=
  if negb (len str =? 0) && digits_ok dec str && (digits_value base dec str 0 <=? max)
  then Some (digits_value base dec str 0) else None.

Lemma decimal_digit_spec c :
  decode_decimal_digit c =
    if (b2z c <? b2z "0"%byte) || (b2z "9"%byte <? b2z c) then -1 else b2z c - b2z "0"%byte.
Proof. by destruct c. Qed.
Lemma decimal_digit_range c : -1 <= decode_decimal_digit c < 10.
Proof. by destruct c. Qed.
Lemma hex_digit_range c : -1 <= decode_hex_digit c < 16.
Proof. by destruct c. Qed.

Section Digits.
Variables (base max : Z) (dec : byte -> Z).
Hypothesis (base_ge : 2 <= base) (max_ge : 0 <= max).
Hypothesis dec_range : forall c, -1 <= dec c < base.

Lemma digits_value_shift str n :
  digits_value base dec str n = n * base ^ len str + digits_value base dec str 0.
Proof using base_ge.
  unfold digits_value. revert n. induction str as [|c str IH]; intros n; cbn [fold_left].
  - rewrite (@len_nil byte). lia.
  - rewrite IH, (IH (base * 0 + dec c)), len_cons, Z.pow_add_r by zlia. ring.
Qed.

Lemma digits_value_cons c str n :
  digits_value base dec (c :: str) n = digits_value base dec str (base * n + dec c).
Proof. done. Qed.

Lemma digits_value_range str :
  digits_ok dec str = true -> 0 <= digits_value base dec str 0 < base ^ len str.
Proof using base_ge dec_range.
  induction str as [|c str IH]; intros Hok; [by rewrite (@len_nil byte)|].
  cbn in Hok. apply andb_prop in Hok as [Hc Hok]. specialize (IH Hok).
  rewrite digits_value_cons, digits_value_shift, len_cons, Z.pow_add_r by zlia.
  pose proof (dec_range c). apply Z.leb_le in Hc. set (P := base ^ len str) in *.
  assert (0 < P) by lia. assert (0 <= dec c * P) by nia.
  assert ((dec c + 1) * P <= base * P) by (apply Z.mul_le_mono_nonneg_r; lia). lia.
Qed.

Lemma digits_value_ge str n :
  digits_ok dec str = true -> 0 <= n -> n <= digits_value base dec str n.
Proof using base_ge dec_range.
  intros Hok Hn. rewrite digits_value_shift. pose proof (digits_value_range str Hok).
  assert (0 < base ^ len str) by (apply Z.pow_pos_nonneg; zlia). nia.
Qed.

(** The checked step: it fails exactly when the number leaves the range. *)
Lemma push_digit_spec n d :
  0 <= n -> 0 <= d ->
  push_digit base max n d = if base * n + d <=? max then Some (base * n + d) else None.
Proof using base_ge max_ge.
  intros Hn Hd. unfold push_digit.
  pose proof (Z.div_mod max base ltac:(lia)). pose proof (Z.mod_pos_bound max base ltac:(lia)).
  destruct (Z.ltb_spec (max / base) n); destruct (Z.leb_spec (base * n + d) max); try done;
    try nia; destruct (Z.ltb_spec (max - n * base) d); try done; try nia. f_equal. ring.
Qed.

Fixpoint push_loop (str : bytes) (n : Z) : option Z :=
  match str with
  | [] => Some n
  | c :: str =>
      let digit := dec c in
      if digit <? 0 then None else
      n ← push_digit base max n digit;
      push_loop str n
  end.

Lemma push_loop_spec str n :
  0 <= n <= max ->
  push_loop str n =
    if digits_ok dec str && (digits_value base dec str n <=? max)
    then Some (digits_value base dec str n) else None.
Proof using base_ge max_ge dec_range.
  revert n. induction str as [|c str IH]; intros n Hn.
  - cbn. by destruct (Z.leb_spec n max); [|lia].
  - cbn [push_loop]. rewrite digits_value_cons. cbn [digits_ok forallb].
    destruct (Z.ltb_spec (dec c) 0), (Z.leb_spec 0 (dec c)); try lia; [done|].
    rewrite push_digit_spec by lia. cbn [andb].
    destruct (Z.leb_spec (base * n + dec c) max) as [Hle|Hgt]; cbn.
    + apply IH. nia.
    + destruct (forallb _ str) eqn:Hok; [|done]. cbn.
      pose proof (digits_value_ge str (base * n + dec c) Hok ltac:(nia)).
      by destruct (Z.leb_spec (digits_value base dec str (base * n + dec c)) max); [lia|].
Qed.
End Digits.
#[export] Hint Resolve decimal_digit_range hex_digit_range : core.

Abbreviation decimal_value := (fun str => digits_value 10 decode_decimal_digit str 0).
Abbreviation is_decimal := (digits_ok decode_decimal_digit).

(** Digit strings of one length compare as their numbers. *)
Lemma memcmp_digits l k :
  is_decimal l = true -> is_decimal k = true -> len l = len k ->
  Z.sgn (memcmp l k) = Z.sgn (decimal_value l - decimal_value k).
Proof.
  revert k. induction l as [|c l IH]; intros [|d k] Hl Hk Hlen;
    autorewrite with len in Hlen; try zlia.
  - done.
  - cbn in Hl, Hk. apply andb_prop in Hl as [Hc Hl], Hk as [Hd Hk].
    cbn beta. rewrite !digits_value_cons, (digits_value_shift 10 _ ltac:(lia) l),
      (digits_value_shift 10 _ ltac:(lia) k).
    assert (Heq : len l = len k) by lia. rewrite <- Heq.
    rewrite !decimal_digit_spec in *. cbn [memcmp].
    destruct ((b2z c <? _) || _) eqn:E1; [done|]. destruct ((b2z d <? _) || _) eqn:E2; [done|].
    pose proof (digits_value_range 10 _ ltac:(lia) decimal_digit_range l Hl) as R1.
    pose proof (digits_value_range 10 _ ltac:(lia) decimal_digit_range k Hk) as R2.
    rewrite <- Heq in R2.
    destruct (Z.eqb_spec (b2z c) (b2z d)) as [->|Hne].
    + rewrite (IH k Hl Hk Heq). f_equal. cbn beta. lia.
    + destruct (Z.lt_ge_cases (b2z c) (b2z d));
        [rewrite !Z.sgn_neg by nia|rewrite !Z.sgn_pos by nia]; done.
Qed.

Lemma no_overflow_loop_spec str n :
  0 <= n -> digits_value 10 decode_decimal_digit str n <= UINT64_MAX \/ is_decimal str = false ->
  no_overflow_loop str n =
    if is_decimal str then Some (digits_value 10 decode_decimal_digit str n) else None.
Proof.
  revert n. induction str as [|c str IH]; intros n Hn Hfit; [done|].
  cbn [no_overflow_loop digits_ok forallb] in *. rewrite digits_value_cons in *.
  rewrite decimal_digit_spec in *.
  destruct ((b2z c <? b2z "0"%byte) || (b2z "9"%byte <? b2z c)) eqn:Ec; [done|].
  apply orb_false_iff in Ec as [E1%Z.ltb_ge E2%Z.ltb_ge].
  replace (0 <=? b2z c - b2z "0"%byte) with true in * by (symmetry; apply Z.leb_le; lia).
  cbn [andb] in *. fold (digits_ok decode_decimal_digit str) in *.
  destruct (is_decimal str) eqn:Hok.
  - destruct Hfit as [Hfit|]; [|done].
    pose proof (digits_value_ge 10 _ ltac:(lia) decimal_digit_range str
      (10 * n + (b2z c - b2z "0"%byte)) Hok ltac:(lia)).
    rewrite to_u64_small by (unfold UINT64_MAX in *; lia).
    rewrite IH; [done|lia|by left].
  - rewrite IH; [done|apply Z.mod_pos_bound; lia|by right].
Qed.

Lemma skip_zeros_spec str :
  is_decimal (skip_zeros str) = is_decimal str /\
  decimal_value (skip_zeros str) = decimal_value str /\
  len (skip_zeros str) <= len str /\
  match skip_zeros str with [] => True | c :: _ => b2z c <> b2z "0"%byte end.
Proof.
  induction str as [|c str (IH1 & IH2 & IH3 & IH4)]; [by repeat split|]. cbn [skip_zeros].
  destruct (Z.eqb_spec (b2z c) (b2z "0"%byte)) as [E|E]; [|by repeat split].
  apply byte.unsigned_inj in E as ->. repeat split; [done|done|zlia|done].
Qed.

(** A number without leading zeros has as many digits as its size says. *)
Lemma leading_digit c str :
  is_decimal (c :: str) = true -> b2z c <> b2z "0"%byte ->
  10 ^ len str <= decimal_value (c :: str).
Proof.
  intros Hok Hc. cbn in Hok. apply andb_prop in Hok as [Hd Hok].
  cbn beta. rewrite digits_value_cons, (digits_value_shift 10 _ ltac:(lia)).
  pose proof (digits_value_range 10 _ ltac:(lia) decimal_digit_range str Hok).
  rewrite decimal_digit_spec in *. destruct ((b2z c <? _) || _) eqn:Ec; [done|].
  apply orb_false_iff in Ec as [E1%Z.ltb_ge E2%Z.ltb_ge].
  assert (0 < 10 ^ len str) by (apply Z.pow_pos_nonneg; zlia). nia.
Qed.

(** The length and the [memcmp] of the overflow test together decide whether
    the number fits, for a string of digits. *)
Lemma overflow_test str :
  is_decimal str = true ->
  match str with [] => True | c :: _ => b2z c <> b2z "0"%byte end ->
  (len parse_number__uintmax_max_str <? len str)
    || ((len str =? len parse_number__uintmax_max_str)
        && (0 <? memcmp str parse_number__uintmax_max_str))
  = negb (decimal_value str <=? UINT64_MAX).
Proof.
  intros Hok Hlead. change (len parse_number__uintmax_max_str) with 20.
  pose proof (digits_value_range 10 _ ltac:(lia) decimal_digit_range str Hok) as [_ Hlt].
  destruct (Z.ltb_spec 20 (len str)) as [Hlong|Hshort]; cbn [orb].
  - destruct str as [|c str]; [zlia|]. pose proof (leading_digit c str Hok Hlead).
    assert (10 ^ 20 <= 10 ^ len str) by (apply Z.pow_le_mono_r; zlia).
    destruct (Z.leb_spec (decimal_value (c :: str)) UINT64_MAX); [|done].
    unfold UINT64_MAX in *. cbn beta in *. lia.
  - destruct (Z.eqb_spec (len str) 20) as [Heq|Hne]; cbn [andb].
    + pose proof (memcmp_digits str parse_number__uintmax_max_str Hok eq_refl Heq) as Hs.
      change (decimal_value parse_number__uintmax_max_str) with UINT64_MAX in Hs.
      destruct (Z.ltb_spec 0 (memcmp str parse_number__uintmax_max_str)),
        (Z.leb_spec (decimal_value str) UINT64_MAX); cbn beta in *; try done; lia.
    + assert (10 ^ len str <= 10 ^ 19) by (apply Z.pow_le_mono_r; zlia).
      destruct (Z.leb_spec (decimal_value str) UINT64_MAX); [done|].
      unfold UINT64_MAX in *. cbn beta in *. lia.
Qed.

Lemma byte_list_z2b z : 0 <= z < 256 -> b2z (z2b z) = z.
Proof. intros. unfold b2z, z2b. rewrite byte.unsigned_of_Z. by apply Z.mod_small. Qed.

Lemma digit_char_dec d : 0 <= d < 10 -> decode_decimal_digit (digit_char d) = d.
Proof.
  intros. unfold digit_char. destruct (Z.ltb_spec d 10); [|lia]. rewrite decimal_digit_spec.
  change (b2z "0"%byte) with 48. change (b2z "9"%byte) with 57. rewrite byte_list_z2b by lia.
  destruct (Z.ltb_spec (48 + d) 48), (Z.ltb_spec 57 (48 + d)); cbn; lia.
Qed.
Lemma digit_char_hex d : 0 <= d < 16 -> decode_hex_digit (digit_char d) = d.
Proof.
  intros. assert (Hd : In d (seqZ 0 16)) by (apply list_elem_of_In, elem_of_seqZ; lia).
  cbn in Hd. by repeat destruct Hd as [<-|Hd].
Qed.

(** One digit less after a division: the fuel of the loops over digits. *)
Lemma div_fuel base fuel x :
  2 <= base -> 0 <= x < base ^ Z.of_nat (S fuel) -> 0 < x / base ->
  0 <= x / base < base ^ Z.of_nat fuel /\ (0 < fuel)%nat.
Proof.
  intros Hb Hx Hpos. assert (Hlt : x / base < base ^ Z.of_nat fuel).
  { apply Z.div_lt_upper_bound; [lia|]. rewrite <- Z.pow_succ_r, <- Nat2Z.inj_succ; lia. }
  split; [lia|]. destruct fuel; [|lia]. change (base ^ Z.of_nat 0) with 1 in Hlt. lia.
Qed.

(** Printed digits: at least one, no leading zero, and they denote the number;
    [repr_fuel] is enough for every 64-bit number. *)
Section Print.
Variables (base : Z) (dec : byte -> Z).
Hypothesis base_range : 2 <= base.
Hypothesis dec_char : forall d, 0 <= d < base -> dec (digit_char d) = d.

Lemma print_digits_spec fuel x :
  0 <= x < base ^ Z.of_nat fuel -> (0 < fuel)%nat ->
  let d := print_digits fuel base x in
  digits_ok dec d = true /\ digits_value base dec d 0 = x /\ 0 < len d
  /\ forall n, 0 < n -> x < base ^ n -> len d <= n.
Proof using base_range dec_char.
  revert x. induction fuel as [|fuel IH]; intros x Hx Hfuel; [lia|]. cbn [print_digits].
  pose proof (Z.div_mod x base ltac:(lia)) as Hdiv.
  pose proof (Z.mod_pos_bound x base ltac:(lia)) as Hmod.
  assert (0 <= x / base) by (apply Z.div_pos; lia).
  destruct (Z.ltb_spec 0 (x / base)) as [Hpos|Hzero]; cbn zeta.
  - destruct (div_fuel base fuel x ltac:(lia) Hx Hpos) as [Hx' Hf].
    destruct (IH _ Hx' Hf) as (Hok & Hval & Hlen & Hbound).
    repeat split.
    + unfold digits_ok in *. rewrite forallb_app, Hok. cbn. rewrite dec_char by done.
      apply andb_true_iff. split; [|done]. apply Z.leb_le. lia.
    + unfold digits_value in *. rewrite fold_left_app, Hval. cbn. rewrite dec_char by done. lia.
    + zlia.
    + intros n Hn Hxn. rewrite len_app. cbn. change (len [_]) with 1.
      destruct (Z.eq_dec n 1) as [->|]; [rewrite Z.pow_1_r in Hxn; nia|].
      assert (len (print_digits fuel base (x / base)) <= n - 1); [|lia].
      apply Hbound; [lia|]. apply Z.div_lt_upper_bound; [lia|].
      rewrite <- Z.pow_succ_r by lia. by replace (Z.succ (n - 1)) with n by lia.
  - cbn. rewrite dec_char by done. repeat split; [apply andb_true_iff; split; [apply Z.leb_le; lia|done]|nia|].
    intros. change (len [_]) with 1. lia.
Qed.

End Print.

Lemma print_dec_spec x :
  0 <= x <= UINT64_MAX ->
  is_decimal (print_dec x) = true /\ decimal_value (print_dec x) = x /\ 0 < len (print_dec x)
  /\ forall n, 0 < n -> x < 10 ^ n -> len (print_dec x) <= n.
Proof.
  intros. apply (print_digits_spec 10 _ ltac:(lia) digit_char_dec); [|unfold repr_fuel; lia].
  unfold repr_fuel. assert (UINT64_MAX < 10 ^ Z.of_nat 20) by done. lia.
Qed.
Lemma print_hex_spec x :
  0 <= x <= UINT64_MAX ->
  let d := print_hex x in
  digits_ok decode_hex_digit d = true /\ digits_value 16 decode_hex_digit d 0 = x /\ 0 < len d
  /\ forall n, 0 < n -> x < 16 ^ n -> len d <= n.
Proof.
  intros. apply (print_digits_spec 16 _ ltac:(lia) digit_char_hex); [|unfold repr_fuel; lia].
  unfold repr_fuel. assert (UINT64_MAX < 16 ^ Z.of_nat 20) by done. lia.
Qed.

(** The loops of [compute_decimal_repr_size] and [generate_decimal_repr]. *)
Lemma repr_size_loop_spec fuel x size :
  0 <= x < 10 ^ Z.of_nat fuel -> (0 < fuel)%nat ->
  repr_size_loop fuel x size = Some (size + len (print_digits fuel 10 x)).
Proof.
  revert x size. induction fuel as [|fuel IH]; intros x size Hx Hfuel; [lia|].
  cbn [repr_size_loop print_digits]. destruct (Z.ltb_spec 0 (x / 10)) as [Hpos|].
  - destruct (div_fuel 10 fuel x ltac:(lia) Hx Hpos) as [Hx' Hf].
    rewrite IH by done. f_equal. zlia.
  - done.
Qed.

Lemma generate_loop_spec fuel x pre mid post :
  0 <= x < 10 ^ Z.of_nat fuel -> (0 < fuel)%nat -> len mid = len (print_digits fuel 10 x) ->
  generate_loop fuel x (pre ++ mid ++ post) (len pre + len mid)
    = Some (pre ++ print_digits fuel 10 x ++ post).
Proof.
  revert x mid post. induction fuel as [|fuel IH]; intros x mid post Hx Hfuel Hmid; [lia|].
  cbn [generate_loop print_digits] in *. rewrite len_app in Hmid. change (len [_]) with 1 in Hmid.
  destruct mid as [|c mid _] using rev_ind; [zlia|].
  rewrite len_app in *. change (len [_]) with 1 in *.
  pose proof (Z.mod_pos_bound x 10 ltac:(lia)).
  replace (len pre + (len mid + 1) - 1) with (len (pre ++ mid)) by zlia.
  replace (pre ++ (mid ++ [c]) ++ post) with ((pre ++ mid) ++ c :: post)
    by (by rewrite <- !app_assoc).
  rewrite store_next by zlia. cbn. unfold digit_char. destruct (Z.ltb_spec (x mod 10) 10); [|lia].
  destruct (Z.ltb_spec 0 (x / 10)) as [Hpos|].
  - destruct (div_fuel 10 fuel x ltac:(lia) Hx Hpos) as [Hx' Hf].
    rewrite <- !app_assoc, len_app, IH by (done || lia). done.
  - assert (mid = []) as -> by (apply len_zero_nil; revert Hmid; rewrite (@len_nil byte); lia).
    rewrite app_nil_r, <- app_assoc. done.
Qed.
End ParseNumberProofs.
Import ParseNumberProofs.

(** [parse_unsigned_integer] is exact: for every string it returns the
    number the string denotes when it is a nonempty string of decimal digits,
    leading zeros allowed, whose value is at most UINTMAX_MAX, and fails on
    every other string. *)
Theorem parse_unsigned_integer_exact str :
  parse_unsigned_integer_bin str = number_of 10 decode_decimal_digit UINT64_MAX str.
Proof.
  unfold parse_unsigned_integer_bin, number_of, parse__no_overflow.
  destruct (Z.eqb_spec (len str) 0); [done|]. cbn [negb andb].
  destruct (skip_zeros_spec str) as (<- & Hval & _ & Hlead). cbn beta in Hval. rewrite <- Hval.
  destruct (is_decimal (skip_zeros str)) eqn:Hok; cbn [andb].
  - rewrite overflow_test by done. cbn beta.
    destruct (_ <=? UINT64_MAX) eqn:Hfit; [|done]. cbn [negb].
    apply Z.leb_le in Hfit. by rewrite no_overflow_loop_spec, Hok by (done || by left).
  - rewrite no_overflow_loop_spec, Hok by (done || by right). by destruct (_ || _).
Qed.

Lemma parse_unsigned_hex_integer_exact str :
  parse_unsigned_hex_integer_bin str = number_of 16 decode_hex_digit UINT64_MAX str.
Proof.
  unfold parse_unsigned_hex_integer_bin, number_of. destruct (Z.eqb_spec (len str) 0); [done|].
  apply (push_loop_spec 16 UINT64_MAX decode_hex_digit); (unfold UINT64_MAX; lia) || auto.
Qed.

Lemma parse_print_dec x : 0 <= x <= UINT64_MAX -> parse_unsigned_integer_bin (print_dec x) = Some x.
Proof.
  intros Hx. destruct (print_dec_spec x Hx) as (Hok & Hval & Hpos & _).
  rewrite parse_unsigned_integer_exact. unfold number_of. rewrite Hok. cbn beta in Hval. rewrite Hval.
  destruct (Z.eqb_spec (len (print_dec x)) 0), (Z.leb_spec x UINT64_MAX); try lia. done.
Qed.

(** [b_find_char_bin] finds the first occurrence. *)
Lemma find_char_first t c r :
  Forall (fun d => (b2z d =? b2z c) = false) t -> b_find_char_bin (t ++ c :: r) c = Some (len t).
Proof.
  intros H. unfold b_find_char_bin. cut (forall i, find_char_loop (t ++ c :: r) c i = Some (i + len t)).
  { intros E. by rewrite E. }
  induction H as [|d t Hd _ IH]; intros i; cbn [app find_char_loop].
  - rewrite Z.eqb_refl, (@len_nil byte). f_equal. lia.
  - rewrite Hd, IH, len_cons. f_equal. lia.
Qed.
Lemma find_char_none t c :
  Forall (fun d => (b2z d =? b2z c) = false) t -> b_find_char_bin t c = None.
Proof.
  unfold b_find_char_bin. intros H. generalize 0. induction H as [|d t Hd _ IH]; intros i; [done|].
  cbn [find_char_loop]. by rewrite Hd.
Qed.

(** Printing a number with [generate_decimal_repr_string] into a buffer of at
    least 21 bytes writes its digits and a zero, in bounds, and
    [parse_unsigned_integer] reads the number back. *)
Theorem decimal_repr_roundtrip x out :
  0 <= x <= UINT64_MAX -> 21 <= len out ->
  exists out',
    generate_decimal_repr_string x out = Some (len (print_dec x), out')
    /\ len (print_dec x) <= 20
    /\ out' = print_dec x ++ x00 :: drop (Z.to_nat (len (print_dec x) + 1)) out
    /\ parse_unsigned_integer_bin (print_dec x) = Some x.
Proof.
  intros Hx Hout. destruct (print_dec_spec x Hx) as (Hok & Hval & Hpos & Hlen).
  assert (Hl : len (print_dec x) <= 20) by (apply Hlen; unfold UINT64_MAX in *; lia).
  assert (Hfit : 0 <= x < 10 ^ Z.of_nat repr_fuel).
  { unfold repr_fuel. assert (UINT64_MAX < 10 ^ Z.of_nat 20) by done. lia. }
  unfold generate_decimal_repr_string, compute_decimal_repr_size.
  rewrite repr_size_loop_spec by (done || unfold repr_fuel; lia). cbn [mbind option_bind].
  rewrite Z.add_0_l. fold (print_dec x). unfold generate_decimal_repr.
  set (d := print_dec x) in *.
  pose proof (generate_loop_spec repr_fuel x [] (take (Z.to_nat (len d)) out)
    (drop (Z.to_nat (len d)) out)
    Hfit ltac:(unfold repr_fuel; lia)) as Hgen.
  fold (print_dec x) d in Hgen. cbn [app] in Hgen. rewrite take_drop in Hgen.
  rewrite (@len_nil byte), len_take, Z.min_l, Z.add_0_l in Hgen by zlia.
  rewrite Hgen by done. cbn [mbind option_bind].
  rewrite store_next by (rewrite len_drop by lia; change (len [_]) with 1; lia).
  eexists. split; [done|]. split; [done|]. split.
  - rewrite <- app_assoc, drop_drop. do 2 f_equal. change (len [_]) with 1.
    cbn [app]. do 2 f_equal. lia.
  - by apply parse_print_dec.
Qed.
Lemma decimal_repr_roundtrip_witness :
  exists out', generate_decimal_repr_string 1080 (replicate 21 x2a) = Some (4, out').
Proof.
  destruct (decimal_repr_roundtrip 1080 (replicate 21 x2a)) as (out' & H & _);
    [unfold UINT64_MAX; lia|done|]. exists out'. exact H.
Defined.
