(* ===== verification/IPAddr.v ===== *)
(** * Textual IP addresses

    [misc/ipaddr.h] and [misc/ipaddr6.h]: parsing and printing of IPv4 and
    IPv6 addresses and of addresses with a prefix length, network masks.  A
    parser returns [Some (Some a)] when the code returns 1 with [a] in its
    output, [Some None] when it returns 0, and [None] when it would access
    memory it must not (an index outside of the string or of the 16 bytes).
    The printers return the characters that [sprintf] writes, without the
    terminating zero. *)
From S2P Require Import Prelude InetProto BAddr ParseNumber.
From Stdlib Require Import Strings.Byte.

(** The [i]-th character of a string. *)
Definition char_at (name : bytes) (i : Z) : option byte :=
  if i <? 0 then None else name !! Z.to_nat i.
Definition is_char (c d : byte) : bool := b2z c =? b2z d.

(** ** IPv4 *)

(** [for (j = 0; j < name_len && name[j] != '.'; j++);] *)
Fixpoint dot_pos (name : bytes) : Z :=
  match name with
  | [] => 0
  | c :: name => if is_char c "."%byte then 0 else 1 + dot_pos name
  end.

(** The loop over the four fields; the fields written so far are [out]. *)
Fixpoint ipv4_addr_loop (fuel : nat) (name : bytes) (i : Z) (out : bytes) : option (option bytes) :=
  match fuel with
  | O => None
  | S fuel =>
      let j := dot_pos name in
      if ((j =? len name) && (i <? 3)) || ((j <? len name) && (i =? 3)) then Some None else
      if (j <? 1) || (3 <? j) then Some None else
      match parse_unsigned_integer_bin (take (Z.to_nat j) name) with
      | None => Some None
      | Some d =>
          if 255 <? d then Some None else
          let out := out ++ [z2b d] in
          if i =? 3 then Some (Some out) else
          ipv4_addr_loop fuel (drop (Z.to_nat (j + 1)) name) (i + 1) out
      end
  end.
Definition ipaddr_parse_ipv4_addr_bin (name : bytes) : option (option Z) :=
  out ← ipv4_addr_loop 4 name 0 [];
  Some (option_map le_combine out).

Definition ipaddr_parse_ipv4_prefix_bin (str : bytes) : option Z :=
  d ← parse_unsigned_integer_bin str;
  if 32 <? d then None else Some d.

Definition ipaddr_parse_ipv4_ifaddr_bin (str : bytes) : option (option (Z * Z)) :=
  match b_find_char_bin str "/"%byte with
  | None => Some None
  | Some slash_pos =>
      addr ← ipaddr_parse_ipv4_addr_bin (take (Z.to_nat slash_pos) str);
      Some (addr ← addr;
            prefix ← ipaddr_parse_ipv4_prefix_bin (drop (Z.to_nat (slash_pos + 1)) str);
            Some (addr, prefix))
  end.

(** [t |= 1 << (32 - i - 1)] for [i] below [prefix]; the shift of the [int] 1
    by 31 gives the sign bit, which is bit 31 of the [uint32_t]. *)
Fixpoint mask_loop (width : Z) (prefix : nat) : Z :=
  match prefix with
  | O => 0
  | S i => Z.lor (mask_loop width i) (Z.shiftl 1 (width - Z.of_nat i - 1))
  end.
Definition ipaddr_ipv4_mask_from_prefix (prefix : Z) : Z :=
  hton32 (mask_loop 32 (Z.to_nat prefix)).

(** The search for the number of leading ones: [t] has [i] of them. *)
Fixpoint prefix_search (fuel : nat) (width m : Z) (t i : Z) : option Z :=
  match fuel with
  | O => None
  | S fuel =>
      if m =? t then Some i else
      prefix_search fuel width m
        (if i <? width then Z.lor t (Z.shiftl 1 (width - i - 1)) else t) (i + 1)
  end.
Definition ipaddr_ipv4_prefix_from_mask (mask : Z) : option Z :=
  prefix_search 33 32 (ntoh32 mask) 0 0.

Definition ipaddr_ipv4_ifaddr_from_addr_mask (addr mask : Z) : option (Z * Z) :=
  prefix ← ipaddr_ipv4_prefix_from_mask mask;
  Some (addr, prefix).

Definition ipaddr_ipv4_addrs_in_network (addr1 addr2 netprefix : Z) : bool :=
  let mask := ipaddr_ipv4_mask_from_prefix netprefix in
  Z.land addr1 mask =? Z.land addr2 mask.

(** [sprintf] of the four bytes of the address. *)
Definition dotted (b : bytes) : bytes :=
  match b with
  | [b0; b1; b2; b3] =>
      print_dec (b2z b0) ++ "."%byte :: print_dec (b2z b1) ++ "."%byte ::
      print_dec (b2z b2) ++ "."%byte :: print_dec (b2z b3)
  | _ => []
  end.
Definition IPADDR_PRINT_MAX : Z := 19.
Definition ipaddr_print_addr (addr : Z) : bytes := dotted (le_split 4 addr).
Definition ipaddr_print_ifaddr (addr prefix : Z) : bytes :=
  dotted (le_split 4 addr) ++ "/"%byte :: print_dec prefix.

(** ** IPv6: the parser *)

(** The variables of [ipaddr6_parse_ipv6_addr_bin] and the output. *)
Record v6 := mk_v6 {
  num_blocks : Z;
  compress_pos : Z;
  block : Z;
  is_empty : bool;
  out_bytes : bytes;
}.
#[export] Instance v6_eta : Eta v6 := fun s =>
  mk_v6 (num_blocks s) (compress_pos s) (block s) (is_empty s) (out_bytes s).

(** A block is written: [bytes[2 * num_blocks]] and the next byte. *)
Definition put_block (s : v6) : option v6 :=
  out ← store (2 * num_blocks s) [z2b (Z.shiftr (block s) 8)] (out_bytes s);
  out ← store (2 * num_blocks s + 1) [z2b (Z.land (block s) 0xFF)] out;
  Some (s <| out_bytes := out |> <| num_blocks := num_blocks s + 1 |>).

(** How the first loop ends: [return 0], the end of the name, or a dot. *)
Inductive v6_exit :=
  | ExitFail
  | ExitEnd (s : v6)
  | ExitDot (i : Z) (s : v6).

(** A colon at [i]. *)
Definition v6_colon (i : Z) (is_double : bool) (s : v6) : option (option v6) :=
  r ← (if 0 <? i then
         if is_empty s || (num_blocks s =? 7) then Some None else
         s ← put_block s;
         Some (Some (s <| block := 0 |> <| is_empty := true |>))
       else Some (if is_double then Some s else None));
  Some (s ← r;
        if is_double
        then if negb (compress_pos s =? -1) then None
             else Some (s <| compress_pos := num_blocks s |>)
        else Some s).

(** A character that should be a hexadecimal digit. *)
Definition v6_digit (c : byte) (s : v6) : option v6 :=
  let digit := decode_hex_digit c in
  if digit <? 0 then None else
  b ← push_digit 16 UINT16_MAX (block s) digit;
  Some (s <| block := b |> <| is_empty := false |>).

Fixpoint v6_loop (fuel : nat) (name : bytes) (i : Z) (s : v6) : option v6_exit :=
  match fuel with
  | O => None
  | S fuel =>
      if len name <=? i then Some (ExitEnd s) else
      c ← char_at name i;
      if is_char c "."%byte then Some (ExitDot i s) else
      if is_char c ":"%byte then
        is_double ← (if i + 1 <? len name
                     then d ← char_at name (i + 1); Some (is_char d ":"%byte)
                     else Some false);
        r ← v6_colon i is_double s;
        match r with
        | None => Some ExitFail
        | Some s => v6_loop fuel name (i + (1 + Z.b2z is_double)) s
        end
      else
        match v6_digit c s with
        | None => Some ExitFail
        | Some s => v6_loop fuel name (i + 1) s
        end
  end.

(** [while (name[i - 1] != ':') i--;] *)
Fixpoint back_to_colon (fuel : nat) (name : bytes) (i : Z) : option Z :=
  match fuel with
  | O => None
  | S fuel =>
      c ← char_at name (i - 1);
      if is_char c ":"%byte then Some i else back_to_colon fuel name (i - 1)
  end.

(** The loop over the dotted quad: the array [bytes], [cur_byte], [byte],
    [empty]. *)
Fixpoint quad_loop (name : bytes) (quad : bytes) (cur_byte byte : Z) (empty : bool)
    : option (option (bytes * Z * Z * bool)) :=
  match name with
  | [] => Some (Some (quad, cur_byte, byte, empty))
  | c :: name =>
      if is_char c "."%byte then
        if empty || (cur_byte =? 3) then Some None else
        quad ← store cur_byte [z2b byte] quad;
        quad_loop name quad (cur_byte + 1) 0 true
      else
        if negb empty && (byte =? 0) then Some None else
        let digit := decode_decimal_digit c in
        if digit <? 0 then Some None else
        match push_digit 10 255 byte digit with
        | None => Some None
        | Some byte => quad_loop name quad cur_byte byte false
        end
  end.

(** [ipv4_ending]; [quad] is what the uninitialised array holds. *)
Definition v6_ipv4_ending (name quad : bytes) (i : Z) (s : v6) : option (option v6) :=
  if is_empty s || ((num_blocks s =? 0) && (compress_pos s =? -1)) then Some None else
  i ← back_to_colon (S (length name)) name i;
  r ← quad_loop (drop (Z.to_nat i) name) quad 0 0 true;
  match r with
  | None => Some None
  | Some (quad, cur_byte, byte, empty) =>
      if negb (cur_byte =? 3) || empty then Some None else
      quad ← store cur_byte [z2b byte] quad;
      if 8 - num_blocks s <? 2 then Some None else
      out ← store (2 * num_blocks s) quad (out_bytes s);
      Some (Some (s <| out_bytes := out |> <| num_blocks := num_blocks s + 2 |>))
  end.

(** The end of the name: the last block. *)
Definition v6_end (s : v6) : option (option v6) :=
  if negb (is_empty s) then s ← put_block s; Some (Some s)
  else if negb (num_blocks s =? compress_pos s) then Some None
  else Some (Some s).

(** [ipv4_done]: the blocks after the [::] move to the end. *)
Definition v6_done (s : v6) : option (option bytes) :=
  if (compress_pos s =? -1) && negb (num_blocks s =? 8) then Some None else
  let compress_pos := if compress_pos s =? -1 then 0 else compress_pos s in
  let num_rear := num_blocks s - compress_pos in
  rear ← load (2 * compress_pos) (2 * num_rear) (out_bytes s);
  out ← store (2 * (8 - num_rear)) rear (out_bytes s);
  out ← store (2 * compress_pos)
    (replicate (Z.to_nat (2 * (8 - num_rear - compress_pos))) x00) out;
  Some (Some out).

Definition ipaddr6_parse_ipv6_addr_bin (quad out_addr name : bytes) : option (option bytes) :=
  e ← v6_loop (S (length name)) name 0 (mk_v6 0 (-1) 0 true out_addr);
  r ← match e with
      | ExitFail => Some None
      | ExitEnd s => v6_end s
      | ExitDot i s => v6_ipv4_ending name quad i s
      end;
  match r with
  | None => Some None
  | Some s => v6_done s
  end.

Definition ipaddr6_parse_ipv6_prefix_bin (str : bytes) : option Z :=
  d ← parse_unsigned_integer_bin str;
  if 128 <? d then None else Some d.

Definition ipaddr6_parse_ipv6_ifaddr_bin (quad out_addr str : bytes) : option (option (bytes * Z)) :=
  match b_find_char_bin str "/"%byte with
  | None => Some None
  | Some slash_pos =>
      addr ← ipaddr6_parse_ipv6_addr_bin quad out_addr (take (Z.to_nat slash_pos) str);
      Some (addr ← addr;
            prefix ← ipaddr6_parse_ipv6_prefix_bin (drop (Z.to_nat (slash_pos + 1)) str);
            Some (addr, prefix))
  end.

(** ** IPv6: masks and printing *)

(** [out_mask] is what the mask held before. *)
Definition ipaddr6_ipv6_mask_from_prefix (prefix : Z) (out_mask : bytes) : option bytes :=
  let quot := prefix / 8 in
  let rem := prefix mod 8 in
  out ← (if 0 <? quot then store 0 (replicate (Z.to_nat quot) xff) out_mask else Some out_mask);
  out ← (if 0 <? 16 - quot then store quot (replicate (Z.to_nat (16 - quot)) x00) out
         else Some out);
  if rem =? 0 then Some out else
  b ← char_at out quot;
  store quot [z2b (Z.lor (b2z b) (mask_loop 8 (Z.to_nat rem)))] out.

Fixpoint leading_ff (mask : bytes) : Z :=
  match mask with
  | c :: mask => if b2z c =? 255 then 1 + leading_ff mask else 0
  | [] => 0
  end.
Definition ipaddr6_ipv6_prefix_from_mask (mask : bytes) : option Z :=
  let i := leading_ff mask in
  let prefix := 8 * i in
  if i <? 16 then
    c ← char_at mask i;
    j ← prefix_search 9 8 (b2z c) 0 0;
    if forallb (fun c => b2z c =? 0) (drop (Z.to_nat (i + 1)) mask)
    then Some (prefix + j) else None
  else Some prefix.

Definition ipaddr6_ipv6_ifaddr_from_addr_mask (addr mask : bytes) : option (bytes * Z) :=
  prefix ← ipaddr6_ipv6_prefix_from_mask mask;
  Some (addr, prefix).

Definition ipaddr6_ipv6_addrs_in_network (addr1 addr2 : bytes) (netprefix : Z) : option bool :=
  let quot := netprefix / 8 in
  let rem := netprefix mod 8 in
  if negb (memcmp (take (Z.to_nat quot) addr1) (take (Z.to_nat quot) addr2) =? 0)
  then Some false else
  if rem =? 0 then Some true else
  let t := mask_loop 8 (Z.to_nat rem) in
  c1 ← char_at addr1 quot;
  c2 ← char_at addr2 quot;
  Some (Z.land (b2z c1) t =? Z.land (b2z c2) t).

(** [((uint16_t)addr.bytes[2 * i] << 8) | addr.bytes[2 * i + 1]] *)
Fixpoint words (addr : bytes) : list Z :=
  match addr with
  | a :: b :: addr => Z.lor (Z.shiftl (b2z a) 8) (b2z b) :: words addr
  | _ => []
  end.

(** The search for the longest run of zero words: the loop's variables are
    [(largest_start, largest_len)] and [(current_start, current_len)]. *)
Definition zero_run_step (st : Z * (Z * Z) * (Z * Z)) (w : Z) : Z * (Z * Z) * (Z * Z) :=
  let '(i, (largest_start, largest_len), (current_start, current_len)) := st in
  if w =? 0 then
    let current_len := current_len + 1 in
    if largest_len <? current_len
    then (i + 1, (current_start, current_len), (current_start, current_len))
    else (i + 1, (largest_start, largest_len), (current_start, current_len))
  else (i + 1, (largest_start, largest_len), (i + 1, 0)).
Definition largest_zeros (ws : list Z) : Z * Z :=
  (fold_left zero_run_step ws (0, (0, 0), (0, 0))).1.2.

(** All words, with colons between. *)
Definition print_words (ws : list Z) : bytes :=
  match ws with
  | [] => []
  | w :: ws => print_hex w ++ concat (map (fun w => ":"%byte :: print_hex w) ws)
  end.

Definition IPADDR6_PRINT_MAX : Z := 44.
Definition ipaddr6_print_addr (addr : bytes) : bytes :=
  let ws := words addr in
  let '(largest_start, largest_len) := largest_zeros ws in
  if 1 <? largest_len then
    concat (map (fun w => print_hex w ++ [":"%byte]) (take (Z.to_nat largest_start) ws))
    ++ (if largest_start =? 0 then [":"%byte] else [])
    ++ concat (map (fun w => ":"%byte :: print_hex w)
                 (drop (Z.to_nat (largest_start + largest_len)) ws))
    ++ (if largest_start + largest_len =? 8 then [":"%byte] else [])
  else print_words ws.
Definition ipaddr6_print_ifaddr (addr : bytes) (prefix : Z) : bytes :=
  ipaddr6_print_addr addr ++ "/"%byte :: print_dec prefix.

Module IPAddrProofs.
Import Checksum ParseNumberProofs.

Lemma is_char_spec c d : is_char c d = true <-> c = d.
Proof.
  unfold is_char. rewrite Z.eqb_eq. split; [apply byte.unsigned_inj|congruence].
Qed.
Lemma is_char_refl c : is_char c c = true.
Proof. by apply is_char_spec. Qed.
Lemma char_at_app (t : bytes) c r : char_at (t ++ c :: r) (len t) = Some c.
Proof.
  unfold char_at. destruct (Z.ltb_spec (len t) 0); [zlia|]. by rewrite <- length_len, list_lookup_middle.
Qed.
Lemma drop_len {A} (t r : list A) : drop (Z.to_nat (len t)) (t ++ r) = r.
Proof. rewrite <- length_len. apply drop_app_length. Qed.
Lemma drop_sep {A} (t r : list A) c : drop (Z.to_nat (len t + 1)) (t ++ c :: r) = r.
Proof.
  replace (len t + 1) with (len (t ++ [c])) by (by rewrite len_app).
  replace (t ++ c :: r) with ((t ++ [c]) ++ r) by (by rewrite <- app_assoc). apply drop_len.
Qed.
Lemma take_len {A} (t r : list A) : take (Z.to_nat (len t)) (t ++ r) = t.
Proof. rewrite <- length_len. apply take_app_length. Qed.

(** ** The grammar of IPv6 addresses *)

(** Strings with a separator after each, and between. *)
Definition ended (sep : byte) (l : list bytes) : bytes := concat (map (fun g => g ++ [sep]) l).
Fixpoint join (sep : byte) (l : list bytes) : bytes :=
  match l with
  | [] => []
  | [g] => g
  | g :: l => g ++ sep :: join sep l
  end.
Lemma ended_snoc sep l g : ended sep (l ++ [g]) = ended sep l ++ g ++ [sep].
Proof. unfold ended. rewrite map_app, concat_app. cbn. by rewrite app_nil_r. Qed.
Lemma join_snoc sep l g : join sep (l ++ [g]) = ended sep l ++ g.
Proof.
  induction l as [|h l IH]; [done|]. cbn [app join]. rewrite IH.
  destruct (l ++ [g]) eqn:E; [by destruct l|]. unfold ended. cbn. by rewrite <- !app_assoc.
Qed.

(** A group of hexadecimal digits, of any length, whose value has 16 bits. *)
Definition hex_value (g : bytes) : Z := digits_value 16 decode_hex_digit g 0.
Definition hex_group (g : bytes) : Prop :=
  g <> [] /\ digits_ok decode_hex_digit g = true /\ hex_value g <= UINT16_MAX.
Definition group_bytes (g : bytes) : bytes :=
  [z2b (Z.shiftr (hex_value g) 8); z2b (Z.land (hex_value g) 0xFF)].
Definition groups_bytes (l : list bytes) : bytes := concat (map group_bytes l).

(** An address: the groups before the [::], if there is one the groups after
    it, and what ends it: a group, four numbers with dots, or nothing. *)
Inductive ip6_last :=
  | LGroup (g : bytes)
  | LQuad (q : bytes)
  | LNone.
Record ip6_form := { front : list bytes; rear : option (list bytes); ending : ip6_last }.

Definition rear_list (f : ip6_form) : list bytes := default [] (rear f).
Definition last_text (l : ip6_last) : bytes :=
  match l with LGroup g => g | LQuad q => join "."%byte (map (fun b => print_dec (b2z b)) q)
             | LNone => [] end.
Definition last_bytes (l : ip6_last) : bytes :=
  match l with LGroup g => group_bytes g | LQuad q => q | LNone => [] end.

Definition ip6_string (f : ip6_form) : bytes :=
  match rear f with
  | None => ended ":"%byte (front f) ++ last_text (ending f)
  | Some r => join ":"%byte (front f) ++ [":"; ":"]%byte
              ++ ended ":"%byte r ++ last_text (ending f)
  end.

(** The number of 16-bit words written. *)
Definition form_words (f : ip6_form) : Z :=
  len (front f) + len (rear_list f)
  + match ending f with LGroup _ => 1 | LQuad _ => 2 | LNone => 0 end.
Definition form_wf (f : ip6_form) : Prop :=
  Forall hex_group (front f) /\ Forall hex_group (rear_list f) /\
  match ending f with
  | LGroup g => hex_group g
  | LQuad q => length q = 4%nat
  | LNone => rear f = Some [] /\ len (front f) <= 7
  end /\
  match rear f with None => form_words f = 8 | Some _ => form_words f <= 8 end.
Definition form_address (f : ip6_form) : bytes :=
  let high := groups_bytes (front f) in
  let low := groups_bytes (rear_list f) ++ last_bytes (ending f) in
  high ++ replicate (Z.to_nat (16 - len high - len low)) x00 ++ low.

Lemma len_groups l : len (groups_bytes l) = 2 * len l.
Proof.
  induction l as [|g l IH]; [done|]. unfold groups_bytes in *. cbn [map concat].
  rewrite len_app, IH, len_cons. change (len (group_bytes g)) with 2. lia.
Qed.
Lemma groups_bytes_snoc l g : groups_bytes (l ++ [g]) = groups_bytes l ++ group_bytes g.
Proof. unfold groups_bytes. by rewrite map_app, concat_app. Qed.
#[local] Hint Rewrite len_groups : len.

(** ** The scan of the name *)

(** The loop as a recursion on the characters that are left. *)
Definition after_colon (i : Z) (is_double : bool) (s : v6) (k : v6 -> option v6_exit) : option v6_exit :=
  r ← v6_colon i is_double s;
  match r with None => Some ExitFail | Some s => k s end.
Fixpoint v6_scan (rest : bytes) (i : Z) (s : v6) : option v6_exit :=
  match rest with
  | [] => Some (ExitEnd s)
  | c :: rest =>
      if is_char c "."%byte then Some (ExitDot i s) else
      if is_char c ":"%byte then
        let single := after_colon i false s (v6_scan rest (i + 1)) in
        match rest with
        | d :: rest' =>
            if is_char d ":"%byte then
              after_colon i true s (v6_scan rest' (i + 2))
            else single
        | [] => single
        end
      else
        match v6_digit c s with
        | None => Some ExitFail
        | Some s => v6_scan rest (i + 1) s
        end
  end.

Lemma v6_loop_scan fuel t rest s :
  (length rest < fuel)%nat ->
  v6_loop fuel (t ++ rest) (len t) s = v6_scan rest (len t) s.
Proof.
  revert t rest s. induction fuel as [|fuel IH]; intros t rest s Hf; [lia|].
  destruct rest as [|c rest]; cbn [v6_loop v6_scan].
  - rewrite app_nil_r. by rewrite Z.leb_refl.
  - rewrite len_app, len_cons. destruct (Z.leb_spec (len t + (1 + len rest)) (len t)); [zlia|].
    rewrite char_at_app. cbn [mbind option_bind]. destruct (is_char c "."%byte); [done|].
    cbn in Hf. replace (t ++ c :: rest) with ((t ++ [c]) ++ rest) by (by rewrite <- app_assoc).
    replace (len t + 1) with (len (t ++ [c])) by (rewrite len_app; done).
    destruct (is_char c ":"%byte); [|destruct (v6_digit c s); [apply IH; lia|done]].
    unfold after_colon.
    destruct rest as [|d rest].
    + destruct (Z.ltb_spec (len (t ++ [c])) (len t + (1 + len (@nil byte)))) as [Hl|]; cbn [mbind option_bind].
      { revert Hl. rewrite len_app. change (len [c]) with 1. change (len (@nil byte)) with 0. lia. }
      cbn [Z.b2z]. rewrite Z.add_0_r. replace (len t + 1) with (len (t ++ [c])) by (by rewrite len_app).
      destruct (v6_colon _ false s) as [[s'|]|]; cbn; [apply IH; cbn; lia|done..].
    + destruct (Z.ltb_spec (len (t ++ [c])) (len t + (1 + len (d :: rest)))) as [|Hl];
        [|revert Hl; rewrite len_app, len_cons; change (len [c]) with 1; zlia].
      rewrite char_at_app. cbn [mbind option_bind]. destruct (is_char d ":"%byte); cbn [Z.b2z].
      * replace (len t + (1 + 1)) with (len ((t ++ [c]) ++ [d]))
          by (rewrite !len_app; change (len [_]) with 1; lia).
        replace ((t ++ [c]) ++ d :: rest) with (((t ++ [c]) ++ [d]) ++ rest)
          by (by rewrite <- app_assoc).
        replace (len t + 2) with (len ((t ++ [c]) ++ [d]))
          by (rewrite !len_app; change (len [_]) with 1; lia).
        destruct (v6_colon _ true s) as [[s'|]|]; [apply IH; cbn in Hf; lia|done..].
      * replace (len t + (1 + 0)) with (len (t ++ [c])) by (rewrite len_app; change (len [_]) with 1; lia).
        destruct (v6_colon _ false s) as [[s'|]|]; [apply IH; lia|done..].
Qed.

(** ** What has been read *)

(** The variables after the groups [pre], the groups [post] after a [::] if
    one was read, and the characters [cur] of the next group. *)
Definition scanned (pre : list bytes) (post : option (list bytes)) (cur : bytes) (s : v6) : Prop :=
  num_blocks s = len pre + len (default [] post) /\
  compress_pos s = match post with None => -1 | Some _ => len pre end /\
  block s = hex_value cur /\ is_empty s = bool_decide (cur = []) /\
  Forall hex_group (pre ++ default [] post) /\
  (digits_ok decode_hex_digit cur = true /\ hex_value cur <= UINT16_MAX) /\
  num_blocks s <= 7 /\ len (out_bytes s) = 16 /\
  zslice 0 (2 * num_blocks s) (out_bytes s) = groups_bytes (pre ++ default [] post).
Definition scan_text (pre : list bytes) (post : option (list bytes)) (cur : bytes) : bytes :=
  match post with
  | None => ended ":"%byte pre ++ cur
  | Some post => join ":"%byte pre ++ [":"; ":"]%byte ++ ended ":"%byte post ++ cur
  end.

Lemma hex_value_snoc g c : hex_value (g ++ [c]) = 16 * hex_value g + decode_hex_digit c.
Proof. unfold hex_value, digits_value. by rewrite fold_left_app. Qed.
Lemma digits_ok_app dec g c : digits_ok dec (g ++ c) = digits_ok dec g && digits_ok dec c.
Proof. apply forallb_app. Qed.
Lemma hex_value_nonneg g : digits_ok decode_hex_digit g = true -> 0 <= hex_value g.
Proof.
  intros H. by destruct (digits_value_range 16 decode_hex_digit ltac:(lia) hex_digit_range g H).
Qed.

Lemma digit_step pre post cur s c :
  scanned pre post cur s ->
  match v6_digit c s with
  | Some s' => scanned pre post (cur ++ [c]) s'
  | None => ~ (digits_ok decode_hex_digit (cur ++ [c]) = true /\ hex_value (cur ++ [c]) <= UINT16_MAX)
  end.
Proof.
  intros (Hn & Hc & Hb & He & Hg & (Hok & Hv) & H7 & Hl & Hz). unfold v6_digit.
  rewrite hex_value_snoc, digits_ok_app, Hok. cbn [digits_ok forallb].
  pose proof (hex_value_nonneg cur Hok).
  destruct (Z.ltb_spec (decode_hex_digit c) 0), (Z.leb_spec 0 (decode_hex_digit c)) as [Hd|];
    try lia.
  rewrite Hb, push_digit_spec by (unfold UINT16_MAX in *; lia).
  destruct (Z.leb_spec (16 * hex_value cur + decode_hex_digit c) UINT16_MAX); cbn; [|lia].
  unfold scanned. cbn. rewrite hex_value_snoc, digits_ok_app, Hok. cbn.
  rewrite (proj2 (Z.leb_le _ _) Hd), bool_decide_eq_false_2 by (by destruct cur).
  by split_and!.
Qed.

Lemma put_block_spec pre post cur s :
  scanned pre post cur s ->
  exists out,
    put_block s = Some (s <| out_bytes := out |> <| num_blocks := num_blocks s + 1 |>)
    /\ len out = 16
    /\ zslice 0 (2 * (num_blocks s + 1)) out
       = groups_bytes (pre ++ default [] post) ++ group_bytes cur.
Proof.
  intros (Hn & Hc & Hb & He & Hg & Hok & H7 & Hl & Hz). pose_len. unfold put_block.
  set (d1 := [z2b (Z.shiftr (block s) 8)]). set (d2 := [z2b (Z.land (block s) 255)]).
  assert (len d1 = 1) by done. assert (len d2 = 1) by done.
  destruct (store_Some (2 * num_blocks s) d1 (out_bytes s)) as [o1 Hs1]; [lia..|].
  rewrite Hs1. cbn [mbind option_bind]. pose proof (len_store _ _ _ _ Hs1).
  destruct (store_Some (2 * num_blocks s + 1) d2 o1) as [o2 Hs2]; [lia..|].
  rewrite Hs2. cbn [mbind option_bind]. pose proof (len_store _ _ _ _ Hs2).
  exists o2. split; [done|]. split; [lia|].
  replace (2 * (num_blocks s + 1)) with (2 * num_blocks s + (1 + 1)) by lia.
  rewrite !zslice_app by lia. rewrite !Z.add_0_l.
  rewrite (zslice_store_before _ _ _ _ Hs2) by lia. rewrite (zslice_store_before _ _ _ _ Hs1) by lia.
  rewrite (zslice_store_before _ _ _ _ Hs2 (2 * num_blocks s)) by lia.
  rewrite (zslice_store_same _ _ _ _ Hs1), (zslice_store_same _ _ _ _ Hs2), Hz by lia.
  unfold group_bytes. by rewrite <- Hb.
Qed.

(** A group is complete. *)
Definition push_pre (pre : list bytes) (post : option (list bytes)) (g : bytes) : list bytes :=
  match post with None => pre ++ [g] | Some _ => pre end.
Definition push_post (post : option (list bytes)) (g : bytes) : option (list bytes) :=
  match post with None => None | Some post => Some (post ++ [g]) end.
Lemma push_list pre post g :
  push_pre pre post g ++ default [] (push_post post g) = (pre ++ default [] post) ++ [g].
Proof. destruct post; cbn; by rewrite ?app_nil_r, <- ?app_assoc. Qed.
Lemma push_len pre post g :
  len (push_pre pre post g) + len (default [] (push_post post g))
  = len pre + len (default [] post) + 1.
Proof. rewrite <- !len_app, push_list. by rewrite len_app. Qed.

(** A colon that is not the first character: it ends a group. *)
Lemma colon_step pre post cur s i :
  scanned pre post cur s -> 0 < i ->
  if bool_decide (cur = []) || (num_blocks s =? 7) then v6_colon i false s = Some None
  else exists s', v6_colon i false s = Some (Some s')
       /\ scanned (push_pre pre post cur) (push_post post cur) [] s'.
Proof.
  intros Hs Hi. destruct (put_block_spec _ _ _ _ Hs) as (out & Hput & Hlen & Hz).
  destruct Hs as (Hn & Hc & Hb & He & Hg & Hok & H7 & Hl & _).
  unfold v6_colon. destruct (Z.ltb_spec 0 i); [|lia]. rewrite He.
  destruct (bool_decide_reflect (cur = [])) as [|Hne]; [done|]. cbn [orb].
  destruct (Z.eqb_spec (num_blocks s) 7); [done|].
  rewrite Hput. cbn. eexists. split; [done|]. unfold scanned. cbn.
  pose proof (push_len pre post cur). rewrite push_list, Hz.
  split_and!; try done; try lia.
  - by destruct post.
  - apply Forall_app. split; [done|]. by apply Forall_singleton.
  - by rewrite groups_bytes_snoc.
Qed.

(** A double colon that is not at the start. *)
Lemma double_step pre post cur s i :
  scanned pre post cur s -> 0 < i ->
  if bool_decide (cur = []) || (num_blocks s =? 7) || bool_decide (is_Some post)
  then v6_colon i true s = Some None
  else exists s', v6_colon i true s = Some (Some s') /\ scanned (pre ++ [cur]) (Some []) [] s'.
Proof.
  intros Hs Hi. pose proof (colon_step pre post cur s i Hs Hi) as Hstep.
  unfold v6_colon in *. destruct (Z.ltb_spec 0 i); [|lia]. destruct Hs as (Hn & Hc & Hb & He & _).
  rewrite He in *. destruct (bool_decide (cur = []) || (num_blocks s =? 7)) eqn:E; [done|]. cbn [orb].
  destruct Hstep as (s' & Hput & Hs'). destruct (put_block s) as [s1|]; [|done].
  cbn in Hput. injection Hput as <-. cbn.
  destruct post as [post|]; cbn in *.
  - destruct Hs' as (_ & Hc' & _). cbn in Hc'. rewrite Hc'.
    destruct (Z.eqb_spec (len pre) (-1)); [zlia|]. done.
  - destruct Hs' as (Hn' & Hc' & Hrest). cbn in Hc', Hn'. rewrite Hc'. cbn.
    eexists. split; [done|]. unfold scanned. cbn. rewrite (@len_nil bytes) in *.
    split_and!; [lia|lia|apply Hrest..].
Qed.

(** Concatenations, nested to the right. *)
Ltac flat := repeat (progress (rewrite <- ?app_assoc, ?app_nil_r; cbn [app])).

Lemma scan_text_digit pre post cur c :
  scan_text pre post (cur ++ [c]) = scan_text pre post cur ++ [c].
Proof. destruct post; cbn [scan_text]; by flat. Qed.
Lemma scan_text_cur pre post cur : scan_text pre post cur = scan_text pre post [] ++ cur.
Proof. destruct post; cbn [scan_text]; by flat. Qed.
Lemma scan_text_colon pre post cur :
  scan_text (push_pre pre post cur) (push_post post cur) [] = scan_text pre post cur ++ [":"%byte].
Proof. destruct post; cbn [scan_text push_pre push_post]; rewrite ended_snoc; by flat. Qed.
Lemma scan_text_double pre cur :
  scan_text (pre ++ [cur]) (Some []) [] = scan_text pre None cur ++ [":"; ":"]%byte.
Proof. cbn [scan_text]. rewrite join_snoc. by flat. Qed.
Lemma scan_text_start pre post cur :
  scan_text pre post cur = [] -> pre = [] /\ post = None /\ cur = [].
Proof.
  destruct post as [post|]; cbn; [by intros [_ ?]%app_nil|].
  intros [Hp ->]%app_nil. destruct pre as [|g pre]; [done|]. unfold ended in Hp. cbn in Hp.
  apply app_nil in Hp as [[_ ?]%app_nil _]. done.
Qed.

Lemma scanned_start out : len out = 16 -> scanned [] None [] (mk_v6 0 (-1) 0 true out).
Proof. intros. unfold scanned. cbn. by split_and!. Qed.
Lemma scanned_double0 s :
  scanned [] None [] s ->
  exists s', v6_colon 0 true s = Some (Some s') /\ scanned [] (Some []) [] s'.
Proof.
  intros (Hn & Hc & Hrest). unfold v6_colon. cbn. rewrite Hc. cbn. eexists. split; [done|].
  unfold scanned. cbn in *. split_and!; try apply Hrest; done.
Qed.

Lemma colon_any pre post cur s is_double :
  scanned pre post cur s ->
  exists r, v6_colon (len (scan_text pre post cur)) is_double s = Some r /\
    forall s', r = Some s' ->
    exists pre' post', scanned pre' post' [] s' /\
      scan_text pre' post' [] = scan_text pre post cur ++ (if is_double then [":"; ":"]%byte else [":"%byte]).
Proof.
  intros Hs. destruct (Z.eq_dec (len (scan_text pre post cur)) 0) as [Hz|Hnz].
  - rewrite Hz. apply len_zero_nil in Hz. rewrite Hz. apply scan_text_start in Hz as (-> & -> & ->).
    destruct is_double; [|by exists None].
    destruct (scanned_double0 s Hs) as (s' & -> & Hs'). eexists. split; [done|].
    intros ? [= <-]. by exists [], (Some []).
  - assert (Hi : 0 < len (scan_text pre post cur)) by zlia. destruct is_double.
    + pose proof (double_step pre post cur s _ Hs Hi) as Hstep. case_match eqn:E.
      { rewrite Hstep. by exists None. }
      apply orb_false_iff in E as [_ E%bool_decide_eq_false].
      destruct Hstep as (s' & -> & Hs'). eexists. split; [done|]. intros ? [= <-].
      exists (pre ++ [cur]), (Some []). split; [done|].
      destruct post; [by destruct E|]. apply scan_text_double.
    + pose proof (colon_step pre post cur s _ Hs Hi) as Hstep. case_match.
      { rewrite Hstep. by exists None. }
      destruct Hstep as (s' & -> & Hs'). eexists. split; [done|]. intros ? [= <-].
      eexists _, _. split; [done|]. apply scan_text_colon.
Qed.

(** Whatever the name, the scan stays in bounds, and what it has read at its
    end or at the first dot is made of groups. *)
Definition scan_result (text : bytes) (e : v6_exit) : Prop :=
  match e with
  | ExitFail => True
  | ExitEnd s =>
      exists pre post cur, scanned pre post cur s /\ scan_text pre post cur = text
  | ExitDot i s =>
      exists pre post cur r, scanned pre post cur s /\ i = len (scan_text pre post cur)
        /\ scan_text pre post cur ++ "."%byte :: r = text
  end.

Lemma scan_sound rest pre post cur s :
  scanned pre post cur s ->
  exists e, v6_scan rest (len (scan_text pre post cur)) s = Some e
            /\ scan_result (scan_text pre post cur ++ rest) e.
Proof.
  remember (length rest) as n eqn:Hn. revert rest pre post cur s Hn.
  induction n as [n IH] using lt_wf_ind. intros rest pre post cur s -> Hs.
  assert (Hnext : forall pre' post' cur' s' u r,
    scanned pre' post' cur' s' -> scan_text pre' post' cur' = scan_text pre post cur ++ u ->
    u ++ r = rest -> u <> [] ->
    exists e, v6_scan r (len (scan_text pre post cur) + len u) s' = Some e
              /\ scan_result (scan_text pre post cur ++ rest) e).
  { intros pre' post' cur' s' u r Hs' Htext <- Hu. rewrite <- len_app, <- Htext, app_assoc, <- Htext.
    eapply (IH (length r)); [|done|done]. rewrite length_app. destruct u; cbn; [done|lia]. }
  destruct rest as [|c rest]; cbn [v6_scan].
  { eexists. split; [done|]. rewrite app_nil_r. exists pre, post, cur. done. }
  destruct (is_char c "."%byte) eqn:Edot.
  { apply is_char_spec in Edot as ->. eexists. split; [done|]. exists pre, post, cur, rest. done. }
  destruct (is_char c ":"%byte) eqn:Ecol.
  - apply is_char_spec in Ecol as ->.
    assert (Hcolon : forall (d : bool) (u r : bytes),
      u = (if d then [":"; ":"]%byte else [":"%byte]) -> u ++ r = ":"%byte :: rest ->
      exists e, after_colon (len (scan_text pre post cur)) d s
                  (v6_scan r (len (scan_text pre post cur) + len u)) = Some e
                /\ scan_result (scan_text pre post cur ++ ":"%byte :: rest) e).
    { intros d u r Hu Hr. destruct (colon_any pre post cur s d Hs) as (o & Ho & Hnx).
      unfold after_colon. rewrite Ho. cbn [mbind option_bind].
      destruct o as [s'|]; [|by eexists]. destruct (Hnx s' eq_refl) as (pre' & post' & Hs' & Ht).
      rewrite <- Hu in Ht. apply (Hnext pre' post' [] s' u r); [done|done|done|].
      rewrite Hu. by destruct d. }
    destruct rest as [|d rest]; [by apply (Hcolon false [":"%byte])|].
    destruct (is_char d ":"%byte) eqn:Ed; [|by apply (Hcolon false [":"%byte])].
    apply is_char_spec in Ed as ->. by apply (Hcolon true [":"; ":"]%byte).
  - pose proof (digit_step pre post cur s c Hs) as Hstep.
    destruct (v6_digit c s) as [s'|]; [|eexists; split; [done|exact I]].
    apply (Hnext pre post (cur ++ [c]) s' [c] rest); [done|apply scan_text_digit|done..].
Qed.

(** ** The dotted quad *)

Definition dec_byte (b : byte) : bytes := print_dec (b2z b).
Definition quad_text (vs : bytes) (e : bool) (b : Z) : bytes :=
  ended "."%byte (map dec_byte vs) ++ (if e then [] else print_dec b).
Definition quad_state (quad vs : bytes) (cur_byte b : Z) (e : bool) : Prop :=
  len quad = 4 /\ cur_byte = len vs /\ len vs <= 3 /\ zslice 0 (len vs) quad = vs
  /\ 0 <= b <= 255 /\ (e = true -> b = 0).

Lemma digit_byte c : 0 <= decode_decimal_digit c -> c = digit_char (decode_decimal_digit c).
Proof. by destruct c. Qed.
(** The decimal numbers without a leading zero grow by one digit at a time. *)
Lemma print_dec_push b c :
  0 < b -> 0 <= decode_decimal_digit c -> 10 * b + decode_decimal_digit c <= 255 ->
  print_dec (10 * b + decode_decimal_digit c) = print_dec b ++ [c].
Proof.
  intros Hb Hc Hle. rewrite (digit_byte c Hc) at 2. pose proof (decimal_digit_range c).
  set (d := decode_decimal_digit c) in *. clearbody d.
  assert (Hin : forall x n, 0 <= x < n -> In x (seqZ 0 n))
    by (intros; apply list_elem_of_In, elem_of_seqZ; lia).
  pose proof (Hin b 26 ltac:(lia)) as Hb'. pose proof (Hin d 10 ltac:(lia)) as Hd'.
  assert (Hall : forallb (fun b => forallb (fun d => negb (0 <? b) ||
    bool_decide (print_dec (10 * b + d) = print_dec b ++ [digit_char d])) (seqZ 0 10)) (seqZ 0 26) = true)
    by (by vm_compute).
  rewrite forallb_forall in Hall. specialize (Hall b Hb'). rewrite forallb_forall in Hall.
  specialize (Hall d Hd'). destruct (Z.ltb_spec 0 b); [|lia]. by apply bool_decide_eq_true in Hall.
Qed.

Lemma quad_sound rest quad vs k b e :
  quad_state quad vs k b e ->
  exists r, quad_loop rest quad k b e = Some r /\
    match r with
    | None => True
    | Some (quad', k', b', e') =>
        exists vs', quad_state quad' vs' k' b' e' /\ quad_text vs e b ++ rest = quad_text vs' e' b'
    end.
Proof.
  revert quad vs k b e. induction rest as [|c rest IH]; intros quad vs k b e Hq; cbn [quad_loop].
  { eexists. split; [done|]. exists vs. by rewrite app_nil_r. }
  pose proof Hq as (Hl & Hk & H3 & Hz & Hb & He).
  destruct (is_char c "."%byte) eqn:Edot.
  - apply is_char_spec in Edot as ->.
    destruct e; [by exists None|]. destruct (Z.eqb_spec k 3); [by exists None|]. cbn [orb].
    assert (Hone : len [z2b b] = 1) by done. subst k.
    destruct (store_Some (len vs) [z2b b] quad) as [quad' Hst]; [zlia..|].
    rewrite Hst. cbn [mbind option_bind]. pose proof (len_store _ _ _ _ Hst).
    destruct (IH quad' (vs ++ [z2b b]) (len vs + 1) 0 true) as (r & -> & Hr).
    { unfold quad_state. rewrite len_app, Hone. split_and!; try done; try zlia.
      rewrite zslice_app, Z.add_0_l by zlia. rewrite (zslice_store_same _ _ _ _ Hst) by done.
      by rewrite (zslice_store_before _ _ _ _ Hst), Hz by zlia. }
    eexists. split; [done|]. destruct r as [[[[quad2 k2] b2] e2]|]; [|done].
    destruct Hr as (vs2 & Hq2 & Ht). exists vs2. split; [done|]. rewrite <- Ht. unfold quad_text.
    rewrite map_app. cbn [map]. rewrite ended_snoc. unfold dec_byte.
    rewrite byte_list_z2b by lia. by flat.
  - destruct (negb e && (b =? 0)) eqn:Elead; [by exists None|].
    destruct (Z.ltb_spec (decode_decimal_digit c) 0) as [|Hd]; [by exists None|].
    pose proof (decimal_digit_range c). rewrite push_digit_spec by lia.
    destruct (Z.leb_spec (10 * b + decode_decimal_digit c) 255) as [Hle|]; [|by exists None].
    destruct (IH quad vs k (10 * b + decode_decimal_digit c) false) as (r & -> & Hr).
    { unfold quad_state. split_and!; done || lia. }
    eexists. split; [done|]. destruct r as [[[[quad2 k2] b2] e2]|]; [|done].
    destruct Hr as (vs2 & Hq2 & Ht). exists vs2. split; [done|]. rewrite <- Ht. unfold quad_text.
    rewrite <- !app_assoc. f_equal. destruct e; cbn [negb andb app] in *.
    + rewrite (He eq_refl), Z.mul_0_r, Z.add_0_l. clear -Hd. by destruct c.
    + apply Z.eqb_neq in Elead. rewrite print_dec_push by lia. by flat.
Qed.

Lemma quad_run_field b r quad k :
  quad_loop (dec_byte b ++ r) quad k 0 true = quad_loop r quad k (b2z b) false.
Proof. by destruct b. Qed.

(** The four numbers are read into the array. *)
Lemma quad_complete quad q :
  len quad = 4 -> length q = 4%nat ->
  exists quad' b, quad_loop (join "."%byte (map dec_byte q)) quad 0 0 true
                  = Some (Some (quad', 3, b, false))
                /\ store 3 [z2b b] quad' = Some q.
Proof.
  intros Hl Hq. destruct q as [|q0 [|q1 [|q2 [|q3 [|]]]]]; try done.
  destruct quad as [|x0 [|x1 [|x2 [|x3 [|]]]]]; try (revert Hl; autorewrite with len; zlia).
  assert (Hput : forall k pre b x rest, k = len pre ->
    store k [z2b (b2z b)] (pre ++ x :: rest) = Some (pre ++ b :: rest)).
  { intros k pre b x rest ->. rewrite store_next by (change (len [_]) with 1; zlia). flat.
    unfold z2b, b2z. by rewrite byte.of_Z_unsigned. }
  assert (Hfield : forall k quad pre b x rest r, quad = pre ++ x :: rest -> k = len pre -> k <> 3 ->
    quad_loop (dec_byte b ++ "."%byte :: r) quad k 0 true
    = quad_loop r (pre ++ b :: rest) (k + 1) 0 true).
  { intros k quad pre b x rest r -> Hk H3. rewrite quad_run_field. cbn [quad_loop]. rewrite is_char_refl.
    destruct (Z.eqb_spec k 3); [done|]. cbn [orb]. by rewrite (Hput k pre b x rest Hk). }
  cbn [map join]. rewrite (Hfield 0 _ [] q0 x0 [x1; x2; x3]) by done. cbn [app].
  rewrite (Hfield _ _ [q0] q1 x1 [x2; x3]) by done. cbn [app].
  rewrite (Hfield _ _ [q0; q1] q2 x2 [x3]) by done. cbn [app].
  rewrite <- (app_nil_r (dec_byte q3)), quad_run_field. cbn [quad_loop].
  do 2 eexists. split; [done|]. by apply (Hput _ [q0; q1; q2] q3 x3 []).
Qed.

(** ** The end of the parser *)

(** All the words are written: those of the groups and the bytes [tail]. *)
Definition written (pre : list bytes) (post : option (list bytes)) (tail : bytes) (s : v6) : Prop :=
  compress_pos s = match post with None => -1 | Some _ => len pre end /\
  2 * num_blocks s = 2 * len pre + 2 * len (default [] post) + len tail /\
  num_blocks s <= 8 /\ len (out_bytes s) = 16 /\
  zslice 0 (2 * num_blocks s) (out_bytes s) = groups_bytes pre ++ groups_bytes (default [] post) ++ tail.

Lemma groups_bytes_app l k : groups_bytes (l ++ k) = groups_bytes l ++ groups_bytes k.
Proof. unfold groups_bytes. by rewrite map_app, concat_app. Qed.

(** The [memmove] and the [memset]. *)
Lemma move_rear out high low cp nb :
  len out = 16 -> len high = 2 * cp -> 2 * nb = len high + len low -> nb <= 8 ->
  zslice 0 (2 * nb) out = high ++ low ->
  (rear ← load (2 * cp) (2 * (nb - cp)) out;
   out ← store (2 * (8 - (nb - cp))) rear out;
   out ← store (2 * cp) (replicate (Z.to_nat (2 * (8 - (nb - cp) - cp))) x00) out;
   Some (Some out))
  = Some (Some (high ++ replicate (Z.to_nat (16 - len high - len low)) x00 ++ low)).
Proof.
  intros Hlen Hhigh Hnb H8 Hz. pose_len.
  replace (2 * (nb - cp)) with (len low) by lia.
  replace (2 * nb) with (len high + len low) in Hz by lia. rewrite zslice_app in Hz by lia.
  apply app_inj_1 in Hz as [Hzh Hzl];
    [|rewrite !length_len, len_zslice by lia; done].
  rewrite Z.add_0_l, Hhigh in Hzl.
  rewrite load_Some, Hzl by lia. cbn [mbind option_bind].
  destruct (store_Some (2 * (8 - (nb - cp))) low out) as [o1 Ho1]; [lia..|]. rewrite Ho1.
  cbn [mbind option_bind]. pose proof (len_store _ _ _ _ Ho1).
  replace (2 * (8 - (nb - cp) - cp)) with (16 - len high - len low) by lia.
  set (z := replicate _ _). assert (Hz : len z = 16 - len high - len low).
  { unfold z. rewrite len_replicate. lia. }
  destruct (store_Some (2 * cp) z o1) as [o2 Ho2]; [lia..|]. rewrite Ho2.
  cbn [mbind option_bind]. pose proof (len_store _ _ _ _ Ho2). do 2 f_equal.
  rewrite <- (zslice_all (len high + (len z + len low)) o2) by lia.
  rewrite !zslice_app, !Z.add_0_l by lia.
  rewrite (zslice_store_before _ _ _ _ Ho2), (zslice_store_before _ _ _ _ Ho1), Hzh by lia.
  rewrite Hhigh, (zslice_store_same _ _ _ _ Ho2), (zslice_store_after _ _ _ _ Ho2) by lia.
  replace (2 * cp + len z) with (2 * (8 - (nb - cp))) by lia.
  by rewrite (zslice_store_same _ _ _ _ Ho1).
Qed.

Lemma done_spec pre post tail s :
  written pre post tail s ->
  v6_done s =
    if bool_decide (post = None) && negb (num_blocks s =? 8) then Some None
    else Some (Some (groups_bytes pre
           ++ replicate (Z.to_nat (16 - 2 * len pre - (2 * len (default [] post) + len tail))) x00
           ++ groups_bytes (default [] post) ++ tail)).
Proof.
  intros (Hc & Hn & H8 & Hl & Hz). pose_len. unfold v6_done. rewrite Hc. destruct post as [post|]; cbn in *.
  - destruct (Z.eqb_spec (len pre) (-1)); [lia|]. cbn.
    rewrite (move_rear _ (groups_bytes pre) (groups_bytes post ++ tail)); try done;
      rewrite ?len_app, ?len_groups; try lia. done.
  - destruct (Z.eqb_spec (num_blocks s) 8) as [E8|]; cbn; [|done]. rewrite E8 in *.
    change (len (@nil bytes)) with 0 in *.
    rewrite (move_rear _ [] (groups_bytes pre ++ tail)); try done;
      rewrite ?len_app, ?len_groups; try (change (len (@nil byte)) with 0); try lia.
    cbn [app]. replace (2 * 0 + len tail) with (len tail) by lia.
    change (groups_bytes []) with (@nil byte). cbn [app].
    by replace (16 - 0 - _) with 0 by lia; replace (16 - 2 * len pre - len tail) with 0 by lia.
Qed.

Lemma end_spec pre post cur s :
  scanned pre post cur s ->
  exists r, v6_end s = Some r /\
    match r with
    | Some s' =>
        if bool_decide (cur = []) then post = Some [] /\ written pre post [] s'
        else written pre post (group_bytes cur) s'
    | None => cur = [] /\ post <> Some []
    end.
Proof.
  intros Hs. destruct (put_block_spec _ _ _ _ Hs) as (out & Hput & Hlen & Hz).
  destruct Hs as (Hn & Hc & Hb & He & Hg & Hok & H7 & Hl & Hz0).
  unfold v6_end. rewrite He. destruct (bool_decide_reflect (cur = [])) as [Hcur|Hne]; cbn [negb].
  - rewrite Hc, Hn. destruct post as [post|].
    + change (default [] (Some post)) with post in *. destruct (Z.eqb_spec (len pre + len post) (len pre)) as [E|E]; cbn [negb].
      * eexists. split; [done|]. assert (post = []) as -> by (apply len_zero_nil; lia).
        split; [done|]. unfold written. cbn in *. rewrite !app_nil_r in *.
        change (len (@nil byte)) with 0. split_and!; done || lia.
      * eexists. split; [done|]. split; [done|]. intros [= ->]. change (len (@nil bytes)) with 0 in E. lia.
    + change (default [] None) with (@nil bytes).
      destruct (Z.eqb_spec (len pre + len (@nil bytes)) (-1)); [zlia|]. by eexists.
  - rewrite Hput. cbn [mbind option_bind]. eexists. split; [done|]. unfold written. cbn.
    change (len (group_bytes cur)) with 2. rewrite Hz, groups_bytes_app, <- app_assoc.
    split_and!; done || lia.
Qed.

Lemma hex_not_sep c : 0 <= decode_hex_digit c -> is_char c ":"%byte = false /\ is_char c "."%byte = false.
Proof. by destruct c. Qed.
Lemma hex_no_colon g :
  digits_ok decode_hex_digit g = true -> Forall (fun c => is_char c ":"%byte = false) g.
Proof.
  unfold digits_ok. rewrite forallb_forall. intros H. apply Forall_forall. intros c Hc.
  apply hex_not_sep, Z.leb_le, H. by apply list_elem_of_In.
Qed.
Lemma dec_byte_spec b :
  digits_ok decode_hex_digit (dec_byte b) = true /\ hex_value (dec_byte b) <= UINT16_MAX
  /\ dec_byte b <> [].
Proof. destruct b; by vm_compute. Qed.
Lemma dec_byte_cons b : exists c g, dec_byte b = c :: g /\ is_char c "."%byte = false.
Proof. destruct b; do 2 eexists; (split; [by vm_compute|done]). Qed.

Lemma back_spec fuel t u r :
  Forall (fun c => is_char c ":"%byte = false) u -> (length u < fuel)%nat ->
  back_to_colon fuel (t ++ ":"%byte :: u ++ r) (len t + 1 + len u) = Some (len t + 1).
Proof.
  revert fuel r. induction u as [|c u IH] using rev_ind; intros fuel r Hu Hf;
    (destruct fuel as [|fuel]; [lia|]); cbn [back_to_colon].
  - rewrite (@len_nil byte), Z.add_0_r. replace (len t + 1 - 1) with (len t) by lia.
    by rewrite char_at_app.
  - apply Forall_app in Hu as [Hu [Hc _]%Forall_cons_1]. rewrite length_app in Hf. cbn in Hf.
    replace (len t + 1 + len (u ++ [c]) - 1) with (len (t ++ ":"%byte :: u))
      by (rewrite !len_app, len_cons; change (len [c]) with 1; lia).
    replace (t ++ ":"%byte :: (u ++ [c]) ++ r) with ((t ++ ":"%byte :: u) ++ c :: r) by (by flat).
    rewrite char_at_app. cbn [mbind option_bind]. cbn beta in Hc; rewrite Hc. flat.
    rewrite len_app, len_cons. replace (len t + (1 + len u)) with (len t + 1 + len u) by lia.
    apply (IH fuel (c :: r)); [done|lia].
Qed.

Lemma scan_text_ends pre post :
  pre <> [] \/ post <> None -> exists t, scan_text pre post [] = t ++ [":"%byte].
Proof.
  destruct post as [post|]; intros H; cbn [scan_text].
  - destruct post as [|g post _] using rev_ind.
    + exists (join ":"%byte pre ++ [":"%byte]). by flat.
    + exists (join ":"%byte pre ++ [":"; ":"]%byte ++ ended ":"%byte post ++ g).
      rewrite ended_snoc. by flat.
  - destruct H as [H|]; [|done]. destruct pre as [|g pre _] using rev_ind; [done|].
    exists (ended ":"%byte pre ++ g). rewrite ended_snoc. by flat.
Qed.

(** The quad is copied behind the groups. *)
Lemma quad_finish pre post cur s q :
  scanned pre post cur s -> length q = 4%nat -> num_blocks s <= 6 ->
  exists out, store (2 * num_blocks s) q (out_bytes s) = Some out
    /\ written pre post q (s <| out_bytes := out |> <| num_blocks := num_blocks s + 2 |>).
Proof.
  intros (Hn & Hc & Hb & He & Hg & Hok & H7 & Hl & Hz) Hq H6. pose_len.
  assert (Hq4 : len q = 4) by (rewrite length_len in Hq; lia).
  destruct (store_Some (2 * num_blocks s) q (out_bytes s)) as [out Hst]; [lia..|].
  exists out. split; [done|]. unfold written. cbn. rewrite (len_store _ _ _ _ Hst).
  split_and!; try done; try lia.
  replace (2 * (num_blocks s + 2)) with (2 * num_blocks s + len q) by lia.
  rewrite zslice_app, Z.add_0_l by lia.
  rewrite (zslice_store_same _ _ _ _ Hst), (zslice_store_before _ _ _ _ Hst), Hz by lia.
  by rewrite groups_bytes_app, <- app_assoc.
Qed.

Lemma quad_array quad vs b :
  len quad = 4 -> len vs = 3 -> zslice 0 (len vs) quad = vs -> store 3 [b] quad = Some (vs ++ [b]).
Proof.
  intros Hl Hv Hz. assert (Hq : quad = vs ++ zslice 3 1 quad).
  { rewrite <- Hz at 1. rewrite Hv, <- (zslice_all 4 quad) at 1 by done.
    change 4 with (3 + 1). by rewrite zslice_app by lia. }
  rewrite Hq, <- Hv at 1. rewrite store_next.
  - change (len [b]) with 1. rewrite drop_ge, app_nil_r; [done|].
    rewrite length_len, len_zslice; lia.
  - change (len [b]) with 1. rewrite len_zslice; lia.
Qed.

Section Ending.
Variables (pre : list bytes) (post : option (list bytes)) (cur r quad : bytes) (s : v6).
Hypothesis (Hs : scanned pre post cur s) (Hquad : len quad = 4).
Abbreviation text := (scan_text pre post cur).
Abbreviation name := (text ++ "."%byte :: r).

Lemma ending_back :
  cur <> [] -> pre <> [] \/ post <> None ->
  v6_ipv4_ending name quad (len text) s =
    (r ← quad_loop (cur ++ "."%byte :: r) quad 0 0 true;
     match r with
     | None => Some None
     | Some (quad, cur_byte, byte, empty) =>
         if negb (cur_byte =? 3) || empty then Some None else
         quad ← store cur_byte [z2b byte] quad;
         if 8 - num_blocks s <? 2 then Some None else
         out ← store (2 * num_blocks s) quad (out_bytes s);
         Some (Some (s <| out_bytes := out |> <| num_blocks := num_blocks s + 2 |>))
     end).
Proof using Hs.
  intros Hcur Hne. destruct (scan_text_ends pre post Hne) as [t Ht].
  destruct Hs as (Hn & Hc & Hb & He & Hg & (Hok & _) & H7 & Hl & Hz). unfold v6_ipv4_ending.
  rewrite He, bool_decide_eq_false_2 by done. cbn [orb].
  replace ((num_blocks s =? 0) && (compress_pos s =? -1)) with false.
  2:{ symmetry. rewrite Hn, Hc. pose_len. destruct post as [l|]; cbn in *.
      - apply andb_false_iff. right. apply Z.eqb_neq. lia.
      - destruct Hne as [Hne|]; [|done]. destruct pre; [done|].
        rewrite len_cons. pose_len. apply andb_false_iff. left. apply Z.eqb_neq. lia. }
  rewrite scan_text_cur, Ht. flat.
  replace (len (t ++ ":"%byte :: cur)) with (len t + 1 + len cur) by (rewrite len_app, len_cons; lia).
  rewrite back_spec; [|by apply hex_no_colon|rewrite !length_app; cbn; rewrite length_app; lia].
  cbn [mbind option_bind].
  replace (len t + 1) with (len (t ++ [":"%byte])) by (rewrite len_app; done).
  replace (t ++ ":"%byte :: cur ++ "."%byte :: r) with ((t ++ [":"%byte]) ++ cur ++ "."%byte :: r) by (by flat).
  by rewrite drop_len.
Qed.

Lemma ending_sound :
  exists res, v6_ipv4_ending name quad (len text) s = Some res /\
    forall s', res = Some s' ->
    exists q, length q = 4%nat /\ cur ++ "."%byte :: r = join "."%byte (map dec_byte q)
              /\ written pre post q s'.
Proof using Hs Hquad.
  destruct (decide (cur = [])) as [Hcur|Hcur].
  { exists None. split; [|done]. unfold v6_ipv4_ending.
    destruct Hs as (_ & _ & _ & -> & _). by rewrite bool_decide_eq_true_2. }
  destruct (decide (pre = [] /\ post = None)) as [[Hp Hq]|Hne].
  { exists None. split; [|done]. unfold v6_ipv4_ending.
    destruct Hs as (-> & -> & _). rewrite Hp, Hq. cbn. by rewrite orb_true_r. }
  rewrite ending_back by (done || destruct (decide (pre = [])); naive_solver).
  destruct (quad_sound (cur ++ "."%byte :: r) quad [] 0 0 true) as (res & -> & Hres).
  { unfold quad_state. change (len (@nil byte)) with 0. split_and!; done || lia. }
  cbn [mbind option_bind]. destruct res as [[[[quad' k'] b'] e']|]; [|by exists None].
  destruct Hres as (vs & (Hl & Hk & H3 & Hz & Hb & He) & Ht).
  destruct (Z.eqb_spec k' 3) as [E3|]; [|by exists None]. cbn [negb orb].
  destruct e'; [by exists None|]. rewrite E3.
  rewrite (quad_array quad' vs) by (done || lia). cbn [mbind option_bind].
  destruct (Z.ltb_spec (8 - num_blocks s) 2); [by exists None|].
  set (q := vs ++ [z2b b']). assert (Hq4 : length q = 4%nat).
  { unfold q. rewrite length_app. cbn. rewrite length_len, <- Hk, E3. lia. }
  destruct (quad_finish _ _ _ _ q Hs Hq4 ltac:(lia)) as (out & -> & Hw). cbn [mbind option_bind].
  eexists. split; [done|]. intros s' [= <-]. exists q. split; [done|]. split; [|done].
  unfold q. rewrite map_app. cbn [map]. rewrite join_snoc.
  unfold quad_text in Ht. cbn in Ht. rewrite Ht. change (dec_byte (z2b b')) with (print_dec (b2z (z2b b'))). by rewrite byte_list_z2b by lia.
Qed.

Lemma ending_complete q :
  length q = 4%nat -> cur ++ "."%byte :: r = join "."%byte (map dec_byte q) ->
  num_blocks s <= 6 -> pre <> [] \/ post <> None ->
  exists s', v6_ipv4_ending name quad (len text) s = Some (Some s') /\ written pre post q s'.
Proof using Hs Hquad.
  intros Hq Htext H6 Hne. assert (Hcur : cur <> []).
  { intros Hnil. rewrite Hnil in Htext. destruct q as [|q0 [|q1 q]]; [discriminate Hq..|].
    cbn [map join app] in Htext.
    destruct (dec_byte_cons q0) as (c & g & E & Hc). rewrite E in Htext. cbn [app] in Htext.
    apply (f_equal head) in Htext. cbn [head] in Htext. injection Htext as Htext.
    by rewrite <- Htext, is_char_refl in Hc. }
  rewrite ending_back, Htext by done.
  destruct (quad_complete quad q Hquad Hq) as (quad' & b & -> & Hst). cbn [mbind option_bind].
  cbn [negb orb Z.eqb Pos.eqb]. rewrite Hst. cbn [mbind option_bind].
  destruct (Z.ltb_spec (8 - num_blocks s) 2); [lia|].
  destruct (quad_finish _ _ _ _ q Hs Hq H6) as (out & -> & Hw). by eexists.
Qed.
End Ending.

(** ** The scan of an address that follows the grammar *)

Definition no_colon_head (r : bytes) : Prop :=
  match r with c :: _ => is_char c ":"%byte = false | [] => True end.
Lemma hex_head g r : hex_group g -> no_colon_head (g ++ r).
Proof.
  intros (Hne & Hok & _). destruct g as [|c g]; [done|]. cbn.
  apply hex_no_colon, Forall_cons_1 in Hok. apply Hok.
Qed.

Lemma scan_cur g pre post cur s :
  scanned pre post cur s -> digits_ok decode_hex_digit g = true -> hex_value (cur ++ g) <= UINT16_MAX ->
  exists s', scanned pre post (cur ++ g) s' /\
    forall r i, v6_scan (g ++ r) i s = v6_scan r (i + len g) s'.
Proof.
  revert cur s. induction g as [|c g IH]; intros cur s Hs Hok Hv.
  - exists s. rewrite app_nil_r. split; [done|]. intros. by rewrite (@len_nil byte), Z.add_0_r.
  - cbn in Hok. apply andb_prop in Hok as [Hc Hok]. apply Z.leb_le in Hc.
    replace (cur ++ c :: g) with ((cur ++ [c]) ++ g) in * by (by flat).
    assert (Hle : hex_value (cur ++ [c]) <= UINT16_MAX).
    { etransitivity; [|exact Hv]. unfold hex_value at 2. unfold digits_value. rewrite fold_left_app.
      apply (digits_value_ge 16 decode_hex_digit ltac:(lia) hex_digit_range g); [done|].
      apply hex_value_nonneg. rewrite digits_ok_app. cbn. destruct Hs as (_&_&_&_&_&(->&_)&_).
      by rewrite (proj2 (Z.leb_le _ _) Hc). }
    pose proof (digit_step pre post cur s c Hs) as Hstep.
    destruct (v6_digit c s) as [s1|] eqn:E.
    + destruct (IH _ _ Hstep Hok Hv) as (s' & Hs' & Hscan). exists s'. split; [done|].
      intros r i. cbn [app v6_scan]. destruct (hex_not_sep c Hc) as [-> ->].
      rewrite E, Hscan, len_cons. f_equal. lia.
    + destruct Hstep. split; [|done]. rewrite digits_ok_app. cbn. destruct Hs as (_&_&_&_&_&(->&_)&_).
      by rewrite (proj2 (Z.leb_le _ _) Hc).
Qed.

Definition pushes_pre (pre : list bytes) (post : option (list bytes)) (gs : list bytes) : list bytes :=
  match post with None => pre ++ gs | Some _ => pre end.
Definition pushes_post (post : option (list bytes)) (gs : list bytes) : option (list bytes) :=
  match post with None => None | Some post => Some (post ++ gs) end.

Lemma push_pushes pre post g gs :
  pushes_pre (push_pre pre post g) (push_post post g) gs = pushes_pre pre post (g :: gs)
  /\ pushes_post (push_post post g) gs = pushes_post post (g :: gs).
Proof. destruct post; cbn; by rewrite <- ?app_assoc. Qed.

Lemma scan_ended gs pre post s r i :
  scanned pre post [] s -> Forall hex_group gs -> len pre + len (default [] post) + len gs <= 7 ->
  0 <= i -> gs = [] \/ no_colon_head r ->
  exists s', scanned (pushes_pre pre post gs) (pushes_post post gs) [] s' /\
    v6_scan (ended ":"%byte gs ++ r) i s = v6_scan r (i + len (ended ":"%byte gs)) s'.
Proof.
  revert pre post s i. induction gs as [|g gs IH]; intros pre post s i Hs Hgs H7 Hi Hr.
  - exists s. split; [by destruct post; cbn; rewrite app_nil_r|].
    change (len (ended ":"%byte [])) with 0. by rewrite Z.add_0_r.
  - apply Forall_cons_1 in Hgs as [Hg Hgs]. pose proof Hg as (Hne & Hok & Hv).
    destruct Hr as [|Hr]; [done|]. rewrite len_cons in H7. pose_len.
    destruct (scan_cur g pre post [] s Hs Hok Hv) as (s1 & Hs1 & Hscan1). cbn [app] in Hs1.
    assert (Hpos : 0 < len g) by (destruct g; [done|rewrite len_cons; pose_len; lia]).
    assert (Hn1 : num_blocks s1 = len pre + len (default [] post)) by apply Hs1.
    pose proof (colon_step _ _ _ _ (i + len g) Hs1 ltac:(lia)) as Hcol.
    rewrite bool_decide_eq_false_2 in Hcol by done. cbn [orb] in Hcol.
    destruct (Z.eqb_spec (num_blocks s1) 7); [lia|]. destruct Hcol as (s2 & Hcol & Hs2).
    destruct (IH _ _ s2 (i + len g + 1) Hs2 Hgs) as (s' & Hs' & Hscan);
      [rewrite push_len; lia|lia|by right|].
    destruct (push_pushes pre post g gs) as [E1 E2]. rewrite E1, E2 in Hs'.
    exists s'. split; [done|]. unfold ended. cbn [map concat]. flat. rewrite Hscan1.
    cbn [v6_scan]. change (is_char ":"%byte "."%byte) with false. rewrite is_char_refl.
    assert (Hhead : no_colon_head (ended ":"%byte gs ++ r)).
    { destruct gs as [|h gs]; [done|]. apply Forall_cons_1 in Hgs as [Hh _].
      unfold ended. cbn [map concat]. flat. by apply hex_head. }
    fold (ended ":"%byte gs). rewrite len_app, len_cons.
    replace (i + (len g + (1 + len (ended ":"%byte gs))))
      with (i + len g + 1 + len (ended ":"%byte gs)) by lia.
    rewrite <- Hscan. unfold after_colon. rewrite Hcol. cbn [mbind option_bind].
    destruct (ended ":"%byte gs ++ r) as [|d k]; [done|]. cbn in Hhead. by rewrite Hhead.
Qed.

(** The groups before a [::]. *)
Lemma scan_front pre r s :
  scanned [] None [] s -> Forall hex_group pre -> len pre <= 7 ->
  exists s', scanned pre (Some []) [] s' /\
    v6_scan (join ":"%byte pre ++ ":"%byte :: ":"%byte :: r) 0 s
    = v6_scan r (len (join ":"%byte pre) + 2) s'.
Proof.
  intros Hs Hpre H7. destruct pre as [|g gs _] using rev_ind.
  { destruct (scanned_double0 s Hs) as (s1 & Hcol & Hs1). exists s1. split; [done|].
    cbn [join app v6_scan]. change (is_char ":"%byte "."%byte) with false.
    rewrite is_char_refl. unfold after_colon. by rewrite Hcol. }
  apply Forall_app in Hpre as [Hgs [Hg _]%Forall_cons_1]. pose proof Hg as (Hne & Hok & Hv).
  rewrite len_app in H7. change (len [g]) with 1 in H7. pose_len.
  destruct (scan_ended gs [] None s (g ++ ":"%byte :: ":"%byte :: r) 0 Hs Hgs) as (s1 & Hs1 & Hscan1);
    [cbn; change (len (@nil bytes)) with 0; lia|lia|right; by apply hex_head|].
  cbn [pushes_pre pushes_post app] in Hs1.
  destruct (scan_cur g gs None [] s1 Hs1 Hok Hv) as (s2 & Hs2 & Hscan2). cbn [app] in Hs2.
  assert (Hpos : 0 < len g) by (destruct g; [done|rewrite len_cons; pose_len; lia]).
  pose proof (double_step _ _ _ _ (len (ended ":"%byte gs) + len g) Hs2 ltac:(zlia)) as Hcol.
  assert (Hn2 : num_blocks s2 = len gs + 0) by apply Hs2.
  rewrite bool_decide_eq_false_2 in Hcol by done. destruct (Z.eqb_spec (num_blocks s2) 7); [lia|].
  cbn [orb] in Hcol. rewrite bool_decide_eq_false_2 in Hcol by (by intros [? [=]]).
  destruct Hcol as (s3 & Hcol & Hs3). exists s3. split; [done|].
  rewrite join_snoc, len_app. flat. rewrite Hscan1, Hscan2. cbn [v6_scan].
  change (is_char ":"%byte "."%byte) with false. rewrite is_char_refl. unfold after_colon.
  rewrite Z.add_0_l, Hcol. done.
Qed.

Lemma scan_complete pre post cur tl s :
  scanned [] None [] s ->
  Forall hex_group pre -> Forall hex_group (default [] post) ->
  len pre + len (default [] post) <= 7 ->
  digits_ok decode_hex_digit cur = true -> hex_value cur <= UINT16_MAX ->
  default [] post = [] \/ no_colon_head (cur ++ tl) -> (post = None -> no_colon_head (cur ++ tl)) ->
  exists s', scanned pre post cur s' /\
    v6_scan (scan_text pre post cur ++ tl) 0 s
    = v6_scan tl (len (scan_text pre post cur)) s'.
Proof.
  intros Hs Hpre Hpost H7 Hok Hv Hhead Hnone. pose_len.
  assert (Hgroups : exists s1, scanned pre post [] s1 /\
    v6_scan (scan_text pre post [] ++ cur ++ tl) 0 s
    = v6_scan (cur ++ tl) (len (scan_text pre post [])) s1).
  { destruct post as [post|]; cbn [scan_text] in *; rewrite app_nil_r; cbn [default from_option id] in *.
    - flat. destruct (scan_front pre (ended ":"%byte post ++ cur ++ tl) s Hs Hpre ltac:(lia))
        as (s1 & Hs1 & ->).
      destruct (scan_ended post pre (Some []) s1 (cur ++ tl) (len (join ":"%byte pre) + 2) Hs1 Hpost)
        as (s2 & Hs2 & ->); [cbn; change (len (@nil bytes)) with 0; lia|zlia|done|].
      exists s2. split; [done|]. rewrite len_app, !len_cons. f_equal. lia.
    - destruct (scan_ended pre [] None s (cur ++ tl) 0 Hs Hpre) as (s2 & Hs2 & ->);
        [cbn; change (len (@nil bytes)) with 0; lia|lia|by right; apply Hnone|].
      exists s2. split; [done|]. by rewrite Z.add_0_l. }
  destruct Hgroups as (s1 & Hs1 & Hscan).
  destruct (scan_cur cur pre post [] s1 Hs1 Hok Hv) as (s2 & Hs2 & Hscan2).
  exists s2. split; [done|].
  rewrite scan_text_cur, <- app_assoc, Hscan, Hscan2, len_app. done.
Qed.

(** ** The parser and the grammar *)

Section Parser.
Variables quad out_addr : bytes.
Hypothesis (Hquad : len quad = 4) (Hout : len out_addr = 16).

Lemma parse_scan name :
  ipaddr6_parse_ipv6_addr_bin quad out_addr name =
    (e ← v6_scan name 0 (mk_v6 0 (-1) 0 true out_addr);
     r ← match e with
         | ExitFail => Some None
         | ExitEnd s => v6_end s
         | ExitDot i s => v6_ipv4_ending name quad i s
         end;
     match r with None => Some None | Some s => v6_done s end).
Proof.
  unfold ipaddr6_parse_ipv6_addr_bin.
  pose proof (v6_loop_scan (S (length name)) [] name (mk_v6 0 (-1) 0 true out_addr) ltac:(lia)) as E.
  change (len (@nil byte)) with 0 in E. cbn [app] in E. by rewrite E.
Qed.

(** The form that has been read when the words are written. *)
Lemma written_form pre post l cur s s' :
  scanned pre post cur s -> written pre post (last_bytes l) s' ->
  match l with LGroup g => hex_group g | LQuad q => length q = 4%nat
             | LNone => post = Some [] end ->
  v6_done s' <> Some None ->
  let f := {| front := pre; rear := post; ending := l |} in
  form_wf f /\ v6_done s' = Some (Some (form_address f)).
Proof.
  intros Hs Hw Hl Hnf f. rewrite (done_spec _ _ _ _ Hw) in *.
  destruct Hw as (_ & Hn & H8 & _ & _).
  destruct Hs as (Hn0 & _ & _ & _ & [Hg1 Hg2]%Forall_app & _ & H7 & _ & _).
  assert (Hwords : form_words f = num_blocks s').
  { unfold form_words, rear_list, f. cbn. destruct l as [g|q|]; cbn in *;
      [change (len (group_bytes g)) with 2 in *|rewrite length_len in Hl
      |change (len (@nil byte)) with 0 in *]; zlia. }
  split.
  - split_and!; [done|done| |].
    + destruct l; cbn; [done..|]. split; [done|]. subst post. cbn in Hn0.
      change (len (@nil bytes)) with 0 in Hn0. lia.
    + rewrite Hwords. unfold f. cbn. destruct post; [done|]. cbn in Hnf.
      destruct (Z.eqb_spec (num_blocks s') 8); [done|]. by destruct Hnf.
  - destruct (bool_decide (post = None) && negb (num_blocks s' =? 8)); [done|].
    unfold form_address, rear_list, f. cbn [front rear ending]. cbv zeta.
    by rewrite !len_app, !len_groups.
Qed.

Lemma parse_sound name :
  exists r, ipaddr6_parse_ipv6_addr_bin quad out_addr name = Some r /\
    forall a, r = Some a -> exists f, form_wf f /\ ip6_string f = name /\ form_address f = a.
Proof using Hquad Hout.
  rewrite parse_scan.
  destruct (scan_sound name [] None [] _ (scanned_start out_addr Hout)) as (e & He & Hres).
  change (len (scan_text [] None [])) with 0 in He. rewrite He. cbn [mbind option_bind].
  change (scan_text [] None [] ++ name) with name in Hres.
  assert (Hfinish : forall pre post cur s s' l,
    scanned pre post cur s -> written pre post (last_bytes l) s' ->
    match l with LGroup g => hex_group g | LQuad q => length q = 4%nat
               | LNone => post = Some [] end ->
    ip6_string {| front := pre; rear := post; ending := l |} = name ->
    exists r, v6_done s' = Some r /\
      forall a, r = Some a -> exists f, form_wf f /\ ip6_string f = name /\ form_address f = a).
  { intros pre post cur s s' l Hs Hw Hl Hname.
    destruct (decide (v6_done s' = Some None)) as [E|E]; [by exists None|].
    destruct (written_form pre post l cur s s' Hs Hw Hl E) as [Hwf Hd].
    eexists. split; [done|]. intros a [= <-]. by eexists. }
  destruct e as [|s|i s]; cbn [mbind option_bind].
  - by exists None.
  - destruct Hres as (pre & post & cur & Hs & Htext).
    destruct (end_spec _ _ _ _ Hs) as (r & -> & Hr). cbn [mbind option_bind].
    destruct r as [s'|]; [|by exists None].
    destruct (bool_decide_reflect (cur = [])) as [Hcur|Hcur].
    + destruct Hr as [-> Hw]. apply (Hfinish _ _ _ _ s' LNone Hs Hw eq_refl).
      by rewrite <- Htext, Hcur.
    + apply (Hfinish _ _ _ _ s' (LGroup cur) Hs Hr); [|done].
      by destruct Hs as (_ & _ & _ & _ & _ & [Hok Hv] & _).
  - destruct Hres as (pre & post & cur & r & Hs & -> & Htext). rewrite <- Htext.
    destruct (ending_sound pre post cur r quad s Hs Hquad) as (res & -> & Hr). cbn [mbind option_bind].
    destruct res as [s'|]; [|by exists None].
    destruct (Hr s' eq_refl) as (q & Hq & Hjoin & Hw). rewrite Htext.
    apply (Hfinish _ _ _ _ s' (LQuad q) Hs Hw Hq). rewrite <- Htext.
    rewrite scan_text_cur. flat. rewrite Hjoin. unfold ip6_string, scan_text. cbn.
    destruct post; by flat.
Qed.

Lemma written_address f s' :
  form_wf f -> written (front f) (rear f) (last_bytes (ending f)) s' ->
  v6_done s' = Some (Some (form_address f)).
Proof.
  intros (_ & _ & Hend & Hsize) Hw. rewrite (done_spec _ _ _ _ Hw). destruct Hw as (_ & Hn & _).
  assert (Hwords : form_words f = num_blocks s').
  { unfold form_words, rear_list. destruct (ending f) as [g|q|]; cbn in *;
      [change (len (group_bytes g)) with 2 in *|rewrite length_len in Hend
      |change (len (@nil byte)) with 0 in *]; zlia. }
  assert (bool_decide (rear f = None) && negb (num_blocks s' =? 8) = false) as ->.
  { destruct (rear f); [done|]. cbn. by rewrite <- Hwords, Hsize. }
  unfold form_address, rear_list. cbv zeta. by rewrite !len_app, !len_groups.
Qed.

Lemma parse_complete f :
  form_wf f ->
  ipaddr6_parse_ipv6_addr_bin quad out_addr (ip6_string f) = Some (Some (form_address f)).
Proof using Hquad Hout.
  intros Hwf. pose proof Hwf as (Hpre & Hpost & Hend & Hsize). rewrite parse_scan.
  pose proof (scanned_start out_addr Hout) as Hs0.
  assert (Htext : ip6_string f = scan_text (front f) (rear f) (last_text (ending f))) by done.
  assert (H8 : form_words f <= 8) by (destruct (rear f); lia).
  unfold form_words, rear_list in *. set (pre := front f) in *. set (post := rear f) in *.
  destruct (ending f) as [g|q|] eqn:El; cbn [last_text last_bytes] in *.
  - destruct Hend as (Hne & Hok & Hv).
    assert (Hhead : no_colon_head (g ++ [])) by (by apply hex_head).
    destruct (scan_complete pre post g [] _ Hs0 Hpre Hpost ltac:(lia) Hok Hv ltac:(by right)
      ltac:(done)) as (s & Hs & Hscan).
    rewrite app_nil_r in Hscan. rewrite Htext, Hscan. cbn [v6_scan mbind option_bind].
    destruct (end_spec _ _ _ _ Hs) as (r & -> & Hr). cbn [mbind option_bind].
    destruct r as [s'|]; [|by destruct Hr]. rewrite bool_decide_eq_false_2 in Hr by done.
    apply written_address; [done|]. by rewrite El.
  - destruct q as [|q0 q]; [done|]. destruct (dec_byte_spec q0) as (Hok & Hv & Hne).
    assert (Hjoin : exists r, join "."%byte (map dec_byte (q0 :: q)) = dec_byte q0 ++ "."%byte :: r)
      by (destruct q; [done|by eexists]).
    destruct Hjoin as [r Hjoin].
    assert (Hhead : no_colon_head (dec_byte q0 ++ "."%byte :: r)) by (by apply hex_head).
    destruct (scan_complete pre post (dec_byte q0) ("."%byte :: r) _ Hs0 Hpre Hpost ltac:(lia) Hok Hv
      ltac:(by right) ltac:(done)) as (s & Hs & Hscan).
    replace (ip6_string f) with (scan_text pre post (dec_byte q0) ++ "."%byte :: r).
    2:{ rewrite Htext, !(scan_text_cur _ _ (dec_byte q0)), (scan_text_cur _ _ (join _ _)).
        unfold dec_byte in Hjoin at 1. rewrite Hjoin. by flat. }
    rewrite Hscan. cbn [v6_scan]. rewrite is_char_refl. cbn [mbind option_bind].
    assert (Hn : num_blocks s = len pre + len (default [] post)) by apply Hs.
    destruct (ending_complete pre post (dec_byte q0) r quad s Hs Hquad (q0 :: q) Hend)
      as (s' & -> & Hw); [by rewrite Hjoin|lia| |].
    { destruct post; [by right|]. left. intros E. rewrite E in Hsize. cbn in Hsize.
      change (len (@nil bytes)) with 0 in Hsize. lia. }
    cbn [mbind option_bind]. apply written_address; [done|]. by rewrite El.
  - destruct Hend as [Hrear H7]. fold post in Hrear.
    destruct (scan_complete pre post [] [] _ Hs0 Hpre Hpost) as (s & Hs & Hscan);
      [rewrite Hrear; change (len (default [] (Some (@nil bytes)))) with 0; lia|done|done
      |by left; rewrite Hrear|by rewrite Hrear|].
    rewrite app_nil_r in Hscan. rewrite Htext, Hscan. cbn [v6_scan mbind option_bind].
    destruct (end_spec _ _ _ _ Hs) as (r & -> & Hr). cbn [mbind option_bind].
    destruct r as [s'|]; [|by destruct Hr].
    cbn in Hr. destruct Hr as [_ Hw]. apply written_address; [done|]. rewrite El.
    fold pre. rewrite Hrear in Hw. fold post. by rewrite Hrear.
Qed.
End Parser.
End IPAddrProofs.
Import Checksum ParseNumberProofs IPAddrProofs.

(** C27: [ipaddr6_parse_ipv6_addr] is exact and safe: for every name, whatever the
    output and the local array held before, it ends without an access outside
    of the name, of the 16 bytes of the output or of the array, and it
    succeeds with an address if and only if the name has the form of an IPv6
    address that denotes it: groups of hexadecimal digits with 16-bit values
    between colons, at most one [::] for the groups left out, and optionally a
    dotted quad of decimal numbers without leading zeros at the end. *)
Theorem ipaddr6_parse_exact quad out_addr name :
  len quad = 4 -> len out_addr = 16 ->
  exists r, ipaddr6_parse_ipv6_addr_bin quad out_addr name = Some r /\
    forall a, r = Some a <-> exists f, form_wf f /\ ip6_string f = name /\ form_address f = a.
Proof.
  intros Hquad Hout. destruct (parse_sound quad out_addr Hquad Hout name) as (r & Hr & Hsound).
  exists r. split; [done|]. intros a. split; [apply Hsound|].
  intros (f & Hwf & <- & <-). rewrite (parse_complete quad out_addr Hquad Hout f Hwf) in Hr.
  by injection Hr.
Qed.

Module IPPrintProofs.

(** ** Printed IPv6 addresses *)

Definition word_ok (w : Z) : Prop := 0 <= w <= UINT16_MAX.
Definition word_bytes (w : Z) : bytes := [z2b (Z.shiftr w 8); z2b (Z.land w 0xFF)].

Lemma words_spec n addr :
  length addr = (2 * n)%nat ->
  Forall word_ok (words addr) /\ concat (map word_bytes (words addr)) = addr
  /\ length (words addr) = n.
Proof.
  revert addr. induction n as [|n IH]; intros addr Hl; [by destruct addr|].
  destruct addr as [|a [|b addr]]; [cbn in Hl; lia..|]. cbn in Hl. cbn [words map concat length].
  destruct (IH addr ltac:(lia)) as (H1 & H2 & H3). rewrite H2, H3.
  pose proof (b2z_range a) as Ha. pose proof (b2z_range b) as Hb.
  assert (E : Z.lor (Z.shiftl (b2z a) 8) (b2z b) = b2z a * 256 + b2z b).
  { rewrite Z.lor_comm, Z.shiftl_mul_pow2, lor_256 by lia. lia. }
  split_and!; [constructor; [unfold word_ok, UINT16_MAX; lia|done]| |lia].
  cbn [app]. unfold word_bytes. rewrite E. cbn [app].
  rewrite Z.shiftr_div_pow2 by lia. change 0xFF with (Z.ones 8). rewrite Z.land_ones by lia.
  change (2 ^ 8) with 256. rewrite Z.div_add_l, (Z.div_small (b2z b)), Z.add_0_r by lia.
  rewrite Z.add_comm, Z_mod_plus_full, Z.mod_small by lia.
  unfold z2b, b2z. by rewrite !byte.of_Z_unsigned.
Qed.

Lemma word_hex w :
  word_ok w ->
  hex_group (print_hex w) /\ group_bytes (print_hex w) = word_bytes w /\ 1 <= len (print_hex w) <= 4.
Proof.
  unfold word_ok, UINT16_MAX. intros Hw.
  destruct (print_hex_spec w ltac:(unfold UINT64_MAX; lia)) as (Hok & Hval & Hpos & Hlen).
  split_and!; [| |lia|apply Hlen; lia].
  - split_and!; [|done|unfold hex_value; rewrite Hval; unfold UINT16_MAX; lia].
    intros E. rewrite E, (@len_nil byte) in Hpos. lia.
  - unfold group_bytes, hex_value. by rewrite Hval.
Qed.

Lemma words_groups ws :
  Forall word_ok ws ->
  Forall hex_group (map print_hex ws)
  /\ groups_bytes (map print_hex ws) = concat (map word_bytes ws).
Proof.
  induction 1 as [|w ws Hw _ [IH1 IH2]]; [by split|]. destruct (word_hex w Hw) as (Hg & Hb & _).
  cbn [map]. split; [by constructor|]. unfold groups_bytes in *. cbn [map concat]. by rewrite Hb, IH2.
Qed.

(** The run that the printer looks for: a run of zero words within the address. *)
Definition zero_run (ws : list Z) (start n : Z) : Prop :=
  0 <= start /\ 0 <= n /\ start + n <= len ws
  /\ zslice start n ws = replicate (Z.to_nat n) 0.

Lemma zero_run_app ws k start n : zero_run ws start n -> zero_run (ws ++ k) start n.
Proof.
  intros (H1 & H2 & H3 & Hz). split_and!; [done..|zlia|]. by rewrite zslice_app_lt.
Qed.
Lemma zero_run_snoc ws start n :
  zero_run ws start n -> start + n = len ws -> zero_run (ws ++ [0]) start (n + 1).
Proof.
  intros (H1 & H2 & H3 & Hz) Hend. rewrite <- (zslice_app_lt _ _ _ [0]) in Hz by done.
  split_and!; [done|lia|rewrite len_app; change (len [0]) with 1; lia|].
  rewrite zslice_app, Hz by lia. rewrite Hend, zslice_app_r by done.
  rewrite Z2Nat.inj_add by lia. by rewrite replicate_add.
Qed.

Lemma largest_zeros_run ws :
  let '(start, n) := largest_zeros ws in zero_run ws start n.
Proof.
  unfold largest_zeros.
  cut (let '(i, (ls, ll), (cs, cl)) := fold_left zero_run_step ws (0, (0, 0), (0, 0)) in
       i = len ws /\ cs + cl = len ws /\ zero_run ws ls ll /\ zero_run ws cs cl).
  { destruct (fold_left _ _ _) as [[i [ls ll]] [cs cl]]. tauto. }
  induction ws as [|w ws IH] using rev_ind; [by split_and!|].
  rewrite fold_left_app. destruct (fold_left _ ws _) as [[i [ls ll]] [cs cl]]. cbn.
  destruct IH as (-> & Hc & Hl & Hr). rewrite len_app. change (len [w]) with 1.
  destruct (Z.eqb_spec w 0) as [->|Hw].
  - pose proof (zero_run_snoc _ _ _ Hr Hc). pose proof (zero_run_app _ [0] _ _ Hl).
    destruct (ll <? cl + 1); split_and!; done || lia.
  - split_and!; [lia|lia|by apply zero_run_app|]. pose_len. split_and!; [lia|lia| |].
    + rewrite len_app. change (len [w]) with 1. lia.
    + by rewrite zslice_0.
Qed.

Lemma prefixed_snoc ws w :
  concat (map (fun w => ":"%byte :: print_hex w) (ws ++ [w]))
  = ":"%byte :: ended ":"%byte (map print_hex ws) ++ print_hex w.
Proof.
  induction ws as [|v ws IH]; cbn [app map concat]; [by rewrite app_nil_r|].
  rewrite IH. unfold ended. cbn [map concat]. by flat.
Qed.
Lemma ended_join l :
  ended ":"%byte l ++ (if len l =? 0 then [":"%byte] else []) = join ":"%byte l ++ [":"%byte].
Proof.
  destruct l as [|g l _] using rev_ind; [done|]. rewrite ended_snoc, join_snoc, len_app.
  change (len [g]) with 1. destruct (Z.eqb_spec (len l + 1) 0); [zlia|]. by flat.
Qed.
Lemma ended_map ws :
  concat (map (fun w => print_hex w ++ [":"%byte]) ws) = ended ":"%byte (map print_hex ws).
Proof. unfold ended. by rewrite map_map. Qed.

Definition words_bytes (ws : list Z) : bytes := concat (map word_bytes ws).
Lemma len_words_bytes ws : len (words_bytes ws) = 2 * len ws.
Proof.
  induction ws as [|w ws IH]; [done|]. unfold words_bytes in *. cbn [map concat].
  rewrite len_app, IH, len_cons. change (len (word_bytes w)) with 2. lia.
Qed.
Lemma words_bytes_zero n : words_bytes (replicate n 0) = replicate (2 * n) x00.
Proof.
  induction n as [|n IH]; [done|]. unfold words_bytes in *. cbn [replicate map concat].
  rewrite IH. replace (2 * S n)%nat with (S (S (2 * n))) by lia. done.
Qed.
Lemma words_bytes_app ws vs : words_bytes (ws ++ vs) = words_bytes ws ++ words_bytes vs.
Proof. unfold words_bytes. by rewrite map_app, concat_app. Qed.

(** The form that is printed, with a [::] for [n] zero words. *)
Lemma compressed_form F A n :
  Forall word_ok F -> Forall word_ok A -> 2 <= n -> len F + n + len A = 8 ->
  exists f, form_wf f /\
    ip6_string f = ended ":"%byte (map print_hex F) ++ (if len F =? 0 then [":"%byte] else [])
      ++ concat (map (fun w => ":"%byte :: print_hex w) A) ++ (if len A =? 0 then [":"%byte] else [])
    /\ form_address f = words_bytes F ++ replicate (Z.to_nat (2 * n)) x00 ++ words_bytes A.
Proof.
  intros HF HA Hn H8. pose_len. destruct (words_groups F HF) as [HgF HbF].
  destruct A as [|w A _] using rev_ind.
  - change (len (@nil Z)) with 0 in *.
    exists {| front := map print_hex F; rear := Some []; ending := LNone |}. split; [|split].
    + split_and!; [done|by constructor|cbn; rewrite len_map; split; [done|lia]|].
      unfold form_words, rear_list. cbn. rewrite len_map. change (len (@nil bytes)) with 0. lia.
    + unfold ip6_string. cbn [front rear ending]. rewrite (app_assoc (ended _ _)).
      rewrite <- (len_map print_hex F), ended_join. cbn. by flat.
    + unfold form_address, rear_list. cbn [front rear ending].
      cbv zeta. rewrite len_groups, len_map. change (len _) with 0 at 2.
      rewrite HbF. do 3 f_equal. lia.
  - apply Forall_app in HA as [HA [Hw _]%Forall_cons_1]. rewrite len_app in *.
    change (len [w]) with 1 in *. destruct (words_groups A HA) as [HgA HbA].
    destruct (word_hex w Hw) as (Hg & Hb & _).
    exists {| front := map print_hex F; rear := Some (map print_hex A); ending := LGroup (print_hex w) |}.
    split; [|split].
    + split_and!; [done|done|done|].
      unfold form_words, rear_list. cbn. rewrite !len_map. lia.
    + unfold ip6_string. cbn [front rear ending last_text]. rewrite prefixed_snoc.
      destruct (Z.eqb_spec (len A + 1) 0); [zlia|]. cbv iota.
      rewrite app_nil_r, (app_assoc (ended _ (map print_hex F))).
      rewrite <- (len_map print_hex F), ended_join. by flat.
    + unfold form_address, rear_list. cbn [front rear ending last_bytes default from_option id].
      cbv zeta. rewrite HbF, HbA, Hb. fold (words_bytes F) (words_bytes A).
      rewrite len_app, !len_words_bytes, words_bytes_app.
      change (len (word_bytes w)) with 2. change (words_bytes [w]) with (word_bytes w ++ []).
      rewrite app_nil_r. do 3 f_equal. lia.
Qed.

(** The form that is printed without a [::]. *)
Lemma plain_form ws :
  Forall word_ok ws -> len ws = 8 ->
  exists f, form_wf f /\
    ip6_string f = print_words ws
    /\ form_address f = words_bytes ws.
Proof.
  intros Hws H8. destruct ws as [|w ws _] using rev_ind; [done|].
  apply Forall_app in Hws as [Hws [Hw _]%Forall_cons_1]. rewrite len_app in H8.
  change (len [w]) with 1 in H8. destruct (words_groups ws Hws) as [Hg Hb].
  destruct (word_hex w Hw) as (Hgw & Hbw & _).
  exists {| front := map print_hex ws; rear := None; ending := LGroup (print_hex w) |}. split; [|split].
  - split_and!; [done|by constructor|done|]. unfold form_words, rear_list. cbn. rewrite len_map.
    change (len (@nil bytes)) with 0. lia.
  - unfold ip6_string. cbn [front rear ending last_text]. destruct ws as [|v ws]; [zlia|].
    unfold print_words. cbn [app]. rewrite prefixed_snoc. unfold ended. cbn [map concat]. by flat.
  - unfold form_address, rear_list. cbn [front rear ending last_bytes default from_option].
    cbv zeta. rewrite Hb, Hbw. fold (words_bytes ws). change (groups_bytes []) with (@nil byte).
    cbn [app]. rewrite len_words_bytes, words_bytes_app. change (len (word_bytes w)) with 2.
    replace (16 - 2 * len ws - 2) with 0 by lia. done.
Qed.

Lemma print_form addr :
  len addr = 16 ->
  exists f, form_wf f /\ ip6_string f = ipaddr6_print_addr addr /\ form_address f = addr.
Proof.
  intros Hl. destruct (words_spec 8 addr) as (Hok & Hbytes & H8); [rewrite length_len; lia|].
  unfold ipaddr6_print_addr. set (ws := words addr) in *. rewrite length_len in H8.
  assert (len ws = 8) by (pose_len; lia). pose proof (largest_zeros_run ws) as Hrun.
  destruct (largest_zeros ws) as [st n]. destruct Hrun as (Hst & Hn & Hle & Hz).
  destruct (Z.ltb_spec 1 n).
  - set (F := take (Z.to_nat st) ws). set (A := drop (Z.to_nat (st + n)) ws).
    assert (HF : len F = st) by (unfold F; rewrite len_take by lia; lia).
    assert (HA : len A = 8 - (st + n)) by (unfold A; rewrite len_drop by lia; lia).
    assert (Hws : ws = F ++ replicate (Z.to_nat n) 0 ++ A).
    { rewrite <- Hz. unfold zslice, F, A. rewrite <- (take_drop (Z.to_nat st) ws) at 1. f_equal.
      rewrite <- (take_drop (Z.to_nat n) (drop _ ws)) at 1. f_equal. rewrite drop_drop. f_equal. lia. }
    destruct (compressed_form F A n) as (f & Hwf & Htext & Ha); [..|lia|lia|].
    { unfold F. by apply Forall_take. } { unfold A. by apply Forall_drop. }
    exists f. split; [done|]. rewrite Htext, Ha, ended_map, HF, HA. split.
    + replace (8 - (st + n) =? 0) with (st + n =? 8); [done|].
      destruct (Z.eqb_spec (st + n) 8), (Z.eqb_spec (8 - (st + n)) 0); lia.
    + rewrite <- Hbytes. fold (words_bytes ws). rewrite Hws, !words_bytes_app, words_bytes_zero.
      do 3 f_equal. lia.
  - destruct (plain_form ws Hok ltac:(lia)) as (f & Hwf & Htext & Ha). exists f.
    by rewrite Htext, Ha.
Qed.

(** At most four digits and a colon for each word. *)
Lemma len_ended_hex ws : Forall word_ok ws -> len (ended ":"%byte (map print_hex ws)) <= 5 * len ws.
Proof.
  induction 1 as [|w ws Hw _ IH]; [done|]. destruct (word_hex w Hw) as (_ & _ & Hl).
  unfold ended in *. cbn [map concat]. rewrite !len_app, (len_cons w). change (len [":"%byte]) with 1. lia.
Qed.
Lemma len_prefixed ws :
  Forall word_ok ws -> len (concat (map (fun w => ":"%byte :: print_hex w) ws)) <= 5 * len ws.
Proof.
  induction 1 as [|w ws Hw _ IH]; [done|]. destruct (word_hex w Hw) as (_ & _ & Hl).
  cbn [map concat]. rewrite !len_app, !len_cons. lia.
Qed.

Lemma print_words_len ws : Forall word_ok ws -> ws <> [] -> len (print_words ws) <= 5 * len ws - 1.
Proof.
  intros Hok Hne. destruct ws as [|w ws]; [done|]. cbn [print_words].
  apply Forall_cons_1 in Hok as [Hw Hok]. destruct (word_hex w Hw) as (_ & _ & Hlw).
  pose proof (len_prefixed ws Hok). rewrite len_app. autorewrite with len in *. lia.
Qed.

Lemma print_len addr : len addr = 16 -> len (ipaddr6_print_addr addr) <= 39.
Proof.
  intros Hl. destruct (words_spec 8 addr) as (Hok & _ & H8); [rewrite length_len; lia|].
  unfold ipaddr6_print_addr. set (ws := words addr) in *. rewrite length_len in H8.
  assert (len ws = 8) by (pose_len; lia). pose proof (largest_zeros_run ws) as Hrun.
  destruct (largest_zeros ws) as [st n]. destruct Hrun as (Hst & Hn & Hle & _).
  destruct (Z.ltb_spec 1 n).
  - rewrite ended_map, !len_app.
    pose proof (len_ended_hex (take (Z.to_nat st) ws) (Forall_take _ _ _ Hok)) as L1.
    pose proof (len_prefixed (drop (Z.to_nat (st + n)) ws) (Forall_drop _ _ _ Hok)) as L2.
    rewrite len_take in L1 by lia. rewrite len_drop in L2 by lia.
    destruct (st =? 0), (st + n =? 8); change (len [":"%byte]) with 1;
      change (len (@nil byte)) with 0; lia.
  - pose proof (print_words_len ws Hok ltac:(by intros ->)). lia.
Qed.

(** ** Addresses with a prefix length *)

(** A character that does not occur, because it is neither a digit nor a
    separator of the address. *)
Definition avoids (c : byte) (t : bytes) : Prop := Forall (fun d => is_char d c = false) t.
Section Avoids.
Variable (c : byte).
Hypothesis (Hdigit : decode_hex_digit c < 0) (Hcolon : is_char ":"%byte c = false)
  (Hdot : is_char "."%byte c = false).

Lemma hex_avoids g : digits_ok decode_hex_digit g = true -> avoids c g.
Proof using Hdigit.
  unfold digits_ok. rewrite forallb_forall. intros H. apply Forall_forall. intros d Hd.
  specialize (H d ltac:(by apply list_elem_of_In)). apply Z.leb_le in H.
  destruct (is_char d c) eqn:E; [|done]. apply is_char_spec in E as ->. lia.
Qed.
Lemma dec_byte_avoids b : avoids c (dec_byte b).
Proof using Hdigit. apply hex_avoids, dec_byte_spec. Qed.
Lemma avoids_concat {A} (f : A -> bytes) l : Forall (fun x => avoids c (f x)) l -> avoids c (concat (map f l)).
Proof using. induction 1 as [|x l Hx _ IH]; [constructor|]. by apply Forall_app. Qed.
Lemma dotted_avoids b : avoids c (dotted b).
Proof using Hdigit Hdot.
  destruct b as [|b0 [|b1 [|b2 [|b3 [|]]]]]; try constructor. cbn [dotted].
  repeat first [apply dec_byte_avoids | apply Forall_app; split | constructor; [done|]].
Qed.
Lemma word_avoids w : word_ok w -> avoids c (print_hex w).
Proof using Hdigit. intros Hw. apply hex_avoids. by destruct (word_hex w Hw) as ((_ & ? & _) & _). Qed.
Lemma prefixed_avoids ws :
  Forall word_ok ws -> avoids c (concat (map (fun w => ":"%byte :: print_hex w) ws)).
Proof using Hdigit Hcolon.
  intros Hws. apply avoids_concat. eapply Forall_impl; [exact Hws|].
  intros w Hwok. constructor; [done|by apply word_avoids].
Qed.
Lemma print_words_avoids ws : Forall word_ok ws -> avoids c (print_words ws).
Proof using Hdigit Hcolon.
  intros Hok. destruct ws as [|w ws]; [constructor|]. cbn [print_words].
  apply Forall_cons_1 in Hok as [Hwok Hok].
  apply Forall_app. split; [by apply word_avoids|by apply prefixed_avoids].
Qed.
Lemma print_avoids addr : len addr = 16 -> avoids c (ipaddr6_print_addr addr).
Proof using Hdigit Hcolon.
  intros Hl. destruct (words_spec 8 addr) as (Hok & _ & _); [rewrite length_len; lia|].
  unfold ipaddr6_print_addr. generalize dependent (words addr). intros ws Hok.
  destruct (largest_zeros ws) as [st n].
  assert (Hif : forall b : bool, avoids c (if b then [":"%byte] else []))
    by (intros []; [by constructor|constructor]).
  destruct (1 <? n); [|by apply print_words_avoids].
  repeat (apply Forall_app; split); try apply Hif.
  - apply avoids_concat. eapply Forall_impl; [apply (Forall_take _ _ _ Hok)|].
    intros w Hwok. apply Forall_app. split; [by apply word_avoids|by constructor].
  - by apply prefixed_avoids, Forall_drop.
Qed.
End Avoids.

(** ** IPv4 addresses *)

(** A field: one to three decimal digits. *)
Definition ipv4_field (f : bytes) (b : byte) : Prop :=
  1 <= len f <= 3 /\ digits_ok decode_decimal_digit f = true
  /\ digits_value 10 decode_decimal_digit f 0 = b2z b.

Definition no_dot (f : bytes) : Prop := Forall (fun c => is_char c "."%byte = false) f.
Lemma dec_no_dot f : digits_ok decode_decimal_digit f = true -> no_dot f.
Proof.
  unfold digits_ok. rewrite forallb_forall. intros H. apply Forall_forall. intros c Hc.
  specialize (H c ltac:(by apply list_elem_of_In)). by destruct c.
Qed.
Lemma dot_pos_dot f r : no_dot f -> dot_pos (f ++ "."%byte :: r) = len f.
Proof. induction 1 as [|c f Hc _ IH]; [done|]. cbn. by rewrite Hc, IH, len_cons. Qed.
Lemma dot_pos_end f : no_dot f -> dot_pos f = len f.
Proof. induction 1 as [|c f Hc _ IH]; [done|]. cbn. by rewrite Hc, IH, len_cons. Qed.
Lemma dot_split name :
  exists f, no_dot f /\ dot_pos name = len f /\ (name = f \/ exists r, name = f ++ "."%byte :: r).
Proof.
  induction name as [|c name (f & Hf & Hp & Hn)]; [exists []; split; [constructor|by split; [|left]]|].
  cbn [dot_pos]. destruct (is_char c "."%byte) eqn:E.
  - apply is_char_spec in E as ->. exists []. split; [constructor|]. split; [done|]. right. by exists name.
  - exists (c :: f). split; [by constructor|]. rewrite len_cons, Hp. split; [done|].
    destruct Hn as [->|[r ->]]; [by left|right; by exists r].
Qed.

Lemma ipv4_field_parse f b : ipv4_field f b -> parse_unsigned_integer_bin f = Some (b2z b).
Proof.
  intros ((H1 & _) & Hok & Hv). rewrite parse_unsigned_integer_exact. unfold number_of.
  rewrite Hok, Hv. pose proof (b2z_range b).
  destruct (Z.eqb_spec (len f) 0), (Z.leb_spec (b2z b) UINT64_MAX); unfold UINT64_MAX in *; try lia. done.
Qed.
Lemma ipv4_parse_field f d :
  1 <= len f <= 3 -> parse_unsigned_integer_bin f = Some d -> d <= 255 ->
  ipv4_field f (z2b d) /\ 0 <= d.
Proof.
  intros Hl Hp Hd. rewrite parse_unsigned_integer_exact in Hp. unfold number_of in Hp.
  destruct (len f =? 0); [done|]. destruct (digits_ok decode_decimal_digit f) eqn:Hok; [|done].
  destruct (_ <=? UINT64_MAX); [|done]. cbn in Hp. injection Hp as <-.
  pose proof (digits_value_range 10 _ ltac:(lia) decimal_digit_range f Hok) as [H0 _].
  split; [|done]. split_and!; [lia..|done|]. by rewrite byte_list_z2b by lia.
Qed.

(** The first field of any reading of the name is what precedes its first dot. *)
Lemma first_field name f g gs b bs :
  no_dot f -> dot_pos name = len f -> name = f \/ (exists r, name = f ++ "."%byte :: r) ->
  ipv4_field g b -> Forall2 ipv4_field gs bs -> name = join "."%byte (g :: gs) ->
  f = g /\ name = match gs with [] => f | _ => f ++ "."%byte :: join "."%byte gs end.
Proof.
  intros Hf Hpos Hname Hg Hgs Hn. pose proof (dec_no_dot g (proj1 (proj2 Hg))) as Hdot.
  assert (Hlen : dot_pos name = len g).
  { rewrite Hn. destruct gs; cbn [join]; [by apply dot_pos_end|by apply dot_pos_dot]. }
  assert (Hfg : f = g).
  { transitivity (take (Z.to_nat (dot_pos name)) name).
    - rewrite Hpos. destruct Hname as [->|[r ->]]; [|by rewrite take_len].
      by rewrite <- length_len, firstn_all.
    - rewrite Hlen, Hn. destruct gs; cbn [join]; [|by rewrite take_len].
      by rewrite <- length_len, firstn_all. }
  split; [done|]. rewrite Hn, Hfg. by destruct gs.
Qed.

(** The loop reads [k] fields from [name]. *)
Definition reads_fields (k : nat) (name out o : bytes) : Prop :=
  exists fs bs, Forall2 ipv4_field fs bs /\ length bs = k /\ name = join "."%byte fs /\ o = out ++ bs.
Lemma reads_first k name out o f :
  no_dot f -> dot_pos name = len f -> name = f \/ (exists r, name = f ++ "."%byte :: r) ->
  reads_fields (S k) name out o <->
  exists b, ipv4_field f b /\
    match k with
    | O => name = f /\ o = out ++ [b]
    | S _ => exists name', name = f ++ "."%byte :: name' /\ reads_fields k name' (out ++ [b]) o
    end.
Proof.
  intros Hf Hpos Hname. split.
  - intros (fs & bs & Hall & Hlen & Hn & ->). destruct Hall as [|g b fs bs Hg Hfs]; [done|].
    injection Hlen as Hlen. destruct (first_field _ _ _ _ _ _ Hf Hpos Hname Hg Hfs Hn) as [-> Hn'].
    exists b. split; [done|]. destruct Hfs as [|h c fs bs Hh Hfs]; cbn in Hlen; subst k; [done|].
    eexists. split; [exact Hn'|]. exists (h :: fs), (c :: bs). split_and!; [by constructor|done..|by flat].
  - intros (b & Hb & H). destruct k as [|k].
    + destruct H as [-> ->]. exists [f], [b].
      split_and!; [constructor; [done|constructor]|done..].
    + destruct H as (name' & -> & (fs & bs & Hfs & Hlen & -> & ->)).
      exists (f :: fs), (b :: bs). split_and!; [by constructor|cbn; lia| |by flat].
      by destruct Hfs.
Qed.

(** One round of the loop, after the tests on the dots. *)
Lemma field_step f (K : Z -> option (option bytes)) (P : byte -> bytes -> Prop) :
  (forall d, ipv4_field f (z2b d) -> exists r, K d = Some r /\ forall o, r = Some o <-> P (z2b d) o) ->
  exists r,
    (if (len f <? 1) || (3 <? len f) then Some None else
     match parse_unsigned_integer_bin f with
     | None => Some None
     | Some d => if 255 <? d then Some None else K d
     end) = Some r /\ forall o, r = Some o <-> exists b, ipv4_field f b /\ P b o.
Proof.
  intros HK. assert (Hnone : (forall b, ~ ipv4_field f b) ->
    forall o, @None bytes = Some o <-> exists b, ipv4_field f b /\ P b o).
  { intros Hno o. split; [done|]. intros (b & Hb & _). by destruct (Hno b). }
  destruct (Z.ltb_spec (len f) 1) as [H1|H1]; cbn [orb].
  { exists None. split; [done|]. apply Hnone. intros b ((? & _) & _). lia. }
  destruct (Z.ltb_spec 3 (len f)) as [H3|H3].
  { exists None. split; [done|]. apply Hnone. intros b ((_ & ?) & _). lia. }
  destruct (parse_unsigned_integer_bin f) as [d|] eqn:E.
  2:{ exists None. split; [done|]. apply Hnone. intros b Hb.
      by rewrite (ipv4_field_parse f b Hb) in E. }
  destruct (Z.ltb_spec 255 d) as [Hd|Hd].
  { exists None. split; [done|]. apply Hnone. intros b Hb. rewrite (ipv4_field_parse f b Hb) in E.
    injection E as <-. pose proof (b2z_range b). lia. }
  destruct (ipv4_parse_field f d ltac:(lia) E Hd) as [Hfield H0].
  destruct (HK d Hfield) as (r & -> & Hr). exists r. split; [done|]. intros o. rewrite Hr. split.
  - intros HP. by exists (z2b d).
  - intros (b & Hb & HP). rewrite (ipv4_field_parse f b Hb) in E. injection E as <-.
    unfold z2b, b2z in *. by rewrite byte.of_Z_unsigned in *.
Qed.

Lemma ipv4_loop_spec k name out :
  (k < 4)%nat ->
  exists r, ipv4_addr_loop (S k) name (3 - Z.of_nat k) out = Some r /\
    forall o, r = Some o <-> reads_fields (S k) name out o.
Proof.
  revert name out. induction k as [|k IH]; intros name out Hk;
    [cbn [ipv4_addr_loop]|remember (S k) as sk eqn:Esk; cbn [ipv4_addr_loop]];
    destruct (dot_split name) as (f & Hf & Hpos & Hname); rewrite Hpos;
    pose proof (fun k o => reads_first k name out o f Hf Hpos Hname) as Hfirst.
  - change (3 - Z.of_nat 0) with 3. change (3 <? 3) with false. change (3 =? 3) with true.
    rewrite andb_false_r, andb_true_r. cbn [orb]. destruct Hname as [->|[r ->]].
    + rewrite Z.ltb_irrefl.
      destruct (field_step f (fun d => Some (Some (out ++ [z2b d]))) (fun b o => o = out ++ [b]))
        as (r & Hr & Hiff).
      { intros d _. eexists. split; [done|]. intros o. naive_solver. }
      exists r. rewrite <- length_len, firstn_all. split; [done|]. intros o. rewrite Hiff, (Hfirst 0%nat o).
      naive_solver.
    + rewrite len_app, len_cons. destruct (Z.ltb_spec (len f) (len f + (1 + len r))); [|zlia].
      exists None. split; [done|]. intros o. rewrite (Hfirst 0%nat o). split; [done|].
      intros (b & _ & Hn & _). apply (f_equal len) in Hn. rewrite len_app, len_cons in Hn. zlia.
  - subst sk. destruct (Z.ltb_spec (3 - Z.of_nat (S k)) 3); [|lia].
    destruct (Z.eqb_spec (3 - Z.of_nat (S k)) 3); [lia|].
    rewrite andb_true_r, andb_false_r, orb_false_r. destruct Hname as [->|[r ->]].
    + rewrite Z.eqb_refl. exists None. split; [done|]. intros o. rewrite (Hfirst (S k) o). split; [done|].
      intros (b & _ & name' & Hn & _). apply (f_equal len) in Hn. rewrite len_app, len_cons in Hn. zlia.
    + rewrite len_app, len_cons. destruct (Z.eqb_spec (len f) (len f + (1 + len r))); [zlia|].
      destruct (field_step f
        (fun d => ipv4_addr_loop (S k) r (3 - Z.of_nat k) (out ++ [z2b d]))
        (fun b o => reads_fields (S k) r (out ++ [b]) o)) as (res & Hres & Hiff).
      { intros d _. apply IH. lia. }
      exists res. rewrite take_len, drop_sep.
      replace (3 - Z.of_nat (S k) + 1) with (3 - Z.of_nat k) by lia.
      split; [done|]. intros o. rewrite Hiff, (Hfirst (S k) o). split.
      * intros (b & Hb & Ho). exists b. split; [done|]. by exists r.
      * intros (b & Hb & name' & Hn & Ho). exists b. split; [done|].
        apply app_inv_head in Hn. by injection Hn as ->.
Qed.

Lemma dec_byte_field b : ipv4_field (dec_byte b) b.
Proof.
  pose proof (b2z_range b). unfold ipv4_field, dec_byte.
  destruct (print_dec_spec (b2z b)) as (Hok & Hv & Hpos & Hlen); [unfold UINT64_MAX; lia|].
  split_and!; [lia|apply Hlen; lia|done..].
Qed.
Lemma ipv4_loop_dotted b out :
  length b = 4%nat -> ipv4_addr_loop 4 (dotted b) 0 out = Some (Some (out ++ b)).
Proof.
  intros Hb. destruct (ipv4_loop_spec 3 (dotted b) out ltac:(lia)) as (r & Hr & Hiff).
  change (3 - Z.of_nat 3) with 0 in Hr. rewrite Hr. f_equal. apply Hiff.
  exists (map dec_byte b), b. destruct b as [|b0 [|b1 [|b2 [|b3 [|]]]]]; try done.
  split_and!; [|done..]. repeat (constructor; [apply dec_byte_field|]). constructor.
Qed.
Lemma dotted_len b : length b = 4%nat -> len (dotted b) <= 15.
Proof.
  intros Hb. destruct b as [|b0 [|b1 [|b2 [|b3 [|]]]]]; try done. cbn [dotted].
  destruct (dec_byte_field b0) as [[_ H0] _], (dec_byte_field b1) as [[_ H1] _],
    (dec_byte_field b2) as [[_ H2] _], (dec_byte_field b3) as [[_ H3] _].
  unfold dec_byte in *. repeat rewrite ?len_app, ?len_cons. lia.
Qed.
End IPPrintProofs.
Import IPPrintProofs.

(** Printing and parsing an IPv6 address: the text that [ipaddr6_print_addr]
    writes, the longest run of zero words shortened, is read back as the same
    address, and with a prefix length as well; with its terminating zero it
    fits in IPADDR6_PRINT_MAX characters. *)
Theorem ipaddr6_roundtrip quad out_addr addr prefix :
  len quad = 4 -> len out_addr = 16 -> len addr = 16 -> 0 <= prefix <= 128 ->
  ipaddr6_parse_ipv6_addr_bin quad out_addr (ipaddr6_print_addr addr) = Some (Some addr)
  /\ ipaddr6_parse_ipv6_ifaddr_bin quad out_addr (ipaddr6_print_ifaddr addr prefix)
     = Some (Some (addr, prefix))
  /\ len (ipaddr6_print_ifaddr addr prefix) + 1 <= IPADDR6_PRINT_MAX.
Proof.
  intros Hquad Hout Haddr Hp.
  assert (Hparse : ipaddr6_parse_ipv6_addr_bin quad out_addr (ipaddr6_print_addr addr)
    = Some (Some addr)).
  { destruct (print_form addr Haddr) as (f & Hwf & <- & Ha).
    rewrite (parse_complete quad out_addr Hquad Hout f Hwf). by rewrite Ha. }
  destruct (print_dec_spec prefix) as (_ & _ & _ & Hlen); [unfold UINT64_MAX; lia|].
  split; [done|split].
  - unfold ipaddr6_parse_ipv6_ifaddr_bin, ipaddr6_print_ifaddr.
    rewrite find_char_first by (by apply print_avoids). rewrite take_len, Hparse.
    cbn [mbind option_bind].
    rewrite drop_sep. unfold ipaddr6_parse_ipv6_prefix_bin.
    rewrite parse_print_dec by (unfold UINT64_MAX; lia). cbn [mbind option_bind].
    destruct (Z.ltb_spec 128 prefix); [lia|done].
  - unfold ipaddr6_print_ifaddr, IPADDR6_PRINT_MAX. rewrite len_app, len_cons.
    pose proof (print_len addr Haddr). pose proof (Hlen 3 ltac:(lia) ltac:(lia)). lia.
Qed.

(** [ipaddr_parse_ipv4_addr] is exact: it ends for every name, and succeeds
    with an address if and only if the name is four fields of one to three
    decimal digits between dots, with values up to 255, that are the bytes of
    the address in memory. *)
Theorem ipaddr_parse_exact name :
  exists r, ipaddr_parse_ipv4_addr_bin name = Some r /\
    forall a, r = Some a <->
      exists fs bs, Forall2 ipv4_field fs bs /\ length bs = 4%nat
        /\ name = join "."%byte fs /\ a = le_combine bs.
Proof.
  destruct (ipv4_loop_spec 3 name [] ltac:(lia)) as (r & Hr & Hiff).
  unfold ipaddr_parse_ipv4_addr_bin. change (3 - Z.of_nat 3) with 0 in Hr. rewrite Hr.
  eexists. split; [done|]. intros a. split.
  - destruct r as [o|]; [|done]. intros [= <-]. destruct (proj1 (Hiff o) eq_refl) as (fs & bs & ? & ? & ? & ->).
    by exists fs, bs.
  - intros (fs & bs & H1 & H2 & H3 & ->).
    rewrite (proj2 (Hiff bs)); [done|]. by exists fs, bs.
Qed.

(** Printing and parsing an IPv4 address, alone and with a prefix length: the
    text is read back, and with its terminating zero it fits in
    IPADDR_PRINT_MAX characters. *)
Theorem ipaddr_roundtrip addr prefix :
  0 <= addr < 2 ^ 32 -> 0 <= prefix <= 32 ->
  ipaddr_parse_ipv4_addr_bin (ipaddr_print_addr addr) = Some (Some addr)
  /\ ipaddr_parse_ipv4_ifaddr_bin (ipaddr_print_ifaddr addr prefix) = Some (Some (addr, prefix))
  /\ len (ipaddr_print_ifaddr addr prefix) + 1 <= IPADDR_PRINT_MAX.
Proof.
  intros Ha Hp. assert (H4 : length (le_split 4 addr) = 4%nat) by apply length_le_split.
  assert (Hparse : ipaddr_parse_ipv4_addr_bin (dotted (le_split 4 addr)) = Some (Some addr)).
  { unfold ipaddr_parse_ipv4_addr_bin. rewrite ipv4_loop_dotted by done. cbn [app mbind option_bind option_map].
    rewrite le_combine_split. do 2 f_equal. apply Z.mod_small. lia. }
  destruct (print_dec_spec prefix) as (_ & _ & _ & Hlen); [unfold UINT64_MAX; lia|].
  split; [exact Hparse|split].
  - unfold ipaddr_parse_ipv4_ifaddr_bin, ipaddr_print_ifaddr.
    rewrite find_char_first by (by apply dotted_avoids). rewrite take_len, Hparse.
    cbn [mbind option_bind]. rewrite drop_sep. unfold ipaddr_parse_ipv4_prefix_bin.
    rewrite parse_print_dec by (unfold UINT64_MAX; lia). cbn [mbind option_bind].
    destruct (Z.ltb_spec 32 prefix); [lia|done].
  - unfold ipaddr_print_ifaddr, IPADDR_PRINT_MAX. rewrite len_app, len_cons.
    pose proof (dotted_len _ H4). pose proof (Hlen 2 ltac:(lia) ltac:(lia)). lia.
Qed.

Module MaskProofs.

Lemma mask_loop_step w i :
  0 <= i < w -> Z.lor (mask_loop w (Z.to_nat i)) (Z.shiftl 1 (w - i - 1)) = mask_loop w (Z.to_nat (i + 1)).
Proof.
  intros Hi. replace (Z.to_nat (i + 1)) with (S (Z.to_nat i)) by lia. cbn [mask_loop].
  do 2 f_equal. lia.
Qed.

(** The search finds a number of leading ones only for a mask. *)
Lemma prefix_search_sound fuel w m i p :
  0 <= i -> i + Z.of_nat fuel <= w + 1 ->
  prefix_search fuel w m (mask_loop w (Z.to_nat i)) i = Some p ->
  m = mask_loop w (Z.to_nat p) /\ i <= p <= w.
Proof.
  revert i. induction fuel as [|fuel IH]; intros i Hi Hf; [done|]. cbn [prefix_search].
  destruct (Z.eqb_spec m (mask_loop w (Z.to_nat i))) as [->|]; [intros [= <-]; split; [done|lia]|].
  destruct (Z.ltb_spec i w).
  - rewrite mask_loop_step by lia. intros E. apply IH in E; [|lia..]. split; [tauto|lia].
  - by destruct fuel; [|lia].
Qed.

Lemma prefix_search_mask fuel w m p :
  Z.of_nat fuel <= w + 1 -> prefix_search fuel w m 0 0 = Some p ->
  m = mask_loop w (Z.to_nat p) /\ 0 <= p <= w.
Proof. intros Hf H. by apply (prefix_search_sound fuel w m 0). Qed.

Lemma in_seqZ n p : 0 <= p <= n -> In p (seqZ 0 (n + 1)).
Proof. intros. apply list_elem_of_In, elem_of_seqZ. lia. Qed.

Lemma mask32_spec p :
  0 <= p <= 32 ->
  prefix_search 33 32 (mask_loop 32 (Z.to_nat p)) 0 0 = Some p
  /\ ntoh32 (hton32 (mask_loop 32 (Z.to_nat p))) = mask_loop 32 (Z.to_nat p).
Proof.
  intros Hp%in_seqZ. assert (Hall : forallb (fun p =>
    bool_decide (prefix_search 33 32 (mask_loop 32 (Z.to_nat p)) 0 0 = Some p
      /\ ntoh32 (hton32 (mask_loop 32 (Z.to_nat p))) = mask_loop 32 (Z.to_nat p))) (seqZ 0 33) = true)
    by (by vm_compute).
  rewrite forallb_forall in Hall. by apply (Hall p), bool_decide_eq_true in Hp.
Qed.

(** The mask of [p] ones as bytes. *)
Definition mask_bytes (p : Z) : bytes :=
  replicate (Z.to_nat (p / 8)) xff
  ++ (if p mod 8 =? 0 then [] else [z2b (mask_loop 8 (Z.to_nat (p mod 8)))])
  ++ replicate (Z.to_nat (16 - (p + 7) / 8)) x00.

Lemma mask6_from_prefix p out :
  len out = 16 -> 0 <= p <= 128 -> ipaddr6_ipv6_mask_from_prefix p out = Some (mask_bytes p).
Proof.
  intros Hl Hp%in_seqZ.
  do 16 (destruct out as [|? out]; [revert Hl; autorewrite with len; pose_len; lia|]).
  destruct out; [|revert Hl; autorewrite with len; pose_len; lia]. clear Hl.
  cbn in Hp. repeat (destruct Hp as [<-|Hp]; [by vm_compute|]). done.
Qed.
Lemma mask6_to_prefix p : 0 <= p <= 128 -> ipaddr6_ipv6_prefix_from_mask (mask_bytes p) = Some p.
Proof. intros Hp%in_seqZ. cbn in Hp. repeat (destruct Hp as [<-|Hp]; [by vm_compute|]). done. Qed.

Lemma leading_ff_spec mask :
  exists r, mask = replicate (Z.to_nat (leading_ff mask)) xff ++ r /\ 0 <= leading_ff mask
    /\ match r with [] => True | c :: _ => b2z c <> 255 end.
Proof.
  induction mask as [|c mask (r & Hm & Hi & Hr)]; [by exists []|]. cbn [leading_ff].
  destruct (Z.eqb_spec (b2z c) 255) as [E|E]; [|by exists (c :: mask)].
  assert (c = xff) as -> by (by apply byte.unsigned_inj). exists r. split; [|split; [lia|done]].
  replace (Z.to_nat (1 + leading_ff mask)) with (S (Z.to_nat (leading_ff mask))) by lia.
  cbn. by rewrite <- Hm.
Qed.

Lemma zeros_spec l : forallb (fun c => b2z c =? 0) l = true -> l = replicate (length l) x00.
Proof.
  induction l as [|c l IH]; [done|]. cbn. intros [Hc%Z.eqb_eq Hl]%andb_prop.
  rewrite <- IH by done. f_equal. by apply byte.unsigned_inj.
Qed.

Lemma mask6_sound mask p :
  len mask = 16 -> ipaddr6_ipv6_prefix_from_mask mask = Some p -> mask = mask_bytes p /\ 0 <= p <= 128.
Proof.
  intros Hl. unfold ipaddr6_ipv6_prefix_from_mask.
  destruct (leading_ff_spec mask) as (r & Hm & Hi & Hr). set (i := leading_ff mask) in *.
  assert (Hlr : i + len r = 16) by (rewrite Hm, len_app, len_replicate in Hl; lia).
  destruct (Z.ltb_spec i 16) as [Hlt|Hge].
  - destruct r as [|c r]; [zlia|]. rewrite len_cons in Hlr.
    set (ones := replicate (Z.to_nat i) xff) in *.
    assert (Hlo : len ones = i) by (unfold ones; rewrite len_replicate; lia).
    rewrite Hm, <- Hlo, char_at_app, drop_sep. cbn [mbind option_bind].
    destruct (prefix_search 9 8 (b2z c) 0 0) as [j|] eqn:Ej; [|done]. cbn [mbind option_bind].
    destruct (forallb _ r) eqn:Hz; [|done]. intros [= <-].
    apply prefix_search_mask in Ej as [Hc Hj]; [|lia].
    assert (j <> 8) by (intros ->; by destruct Hr).
    unfold mask_bytes. rewrite Hlo.
    replace ((8 * i + j) / 8) with i by (apply Z.div_unique with j; lia).
    replace ((8 * i + j) mod 8) with j by (apply Z.mod_unique with i; lia).
    fold ones. rewrite (zeros_spec r Hz). split; [|lia]. f_equal. destruct (Z.eqb_spec j 0) as [->|Hj0].
    + assert (c = x00) as -> by (by apply byte.unsigned_inj). cbn [app].
      replace ((8 * i + 0 + 7) / 8) with i by (apply Z.div_unique with 7; lia).
      replace (Z.to_nat (16 - i)) with (S (length r)); [done|]. rewrite length_len. pose_len. lia.
    + replace ((8 * i + j + 7) / 8) with (i + 1) by (apply Z.div_unique with (j - 1); lia).
      rewrite <- Hc. cbn [app]. f_equal.
      * unfold z2b, b2z. by rewrite byte.of_Z_unsigned.
      * f_equal. rewrite length_len. lia.
  - intros [= <-]. assert (r = []) as -> by (apply len_zero_nil; pose_len; lia).
    change (len (@nil byte)) with 0 in Hlr. rewrite Hm, app_nil_r.
    assert (i = 16) as -> by lia. by split.
Qed.
End MaskProofs.
Import MaskProofs.

#[local] Opaque prefix_search.

(** Prefix lengths and network masks are inverse to each other, for IPv4 and
    for IPv6: every prefix length gives a mask that gives it back, and a mask
    from which a prefix length is found is the mask of that length (so
    everything else is refused). *)
Theorem netmask_prefix_inverse :
  (forall p, 0 <= p <= 32 -> ipaddr_ipv4_prefix_from_mask (ipaddr_ipv4_mask_from_prefix p) = Some p)
  /\ (forall m p, 0 <= m < 2 ^ 32 -> ipaddr_ipv4_prefix_from_mask m = Some p ->
        m = ipaddr_ipv4_mask_from_prefix p)
  /\ (forall p out, len out = 16 -> 0 <= p <= 128 -> exists m,
        ipaddr6_ipv6_mask_from_prefix p out = Some m /\ ipaddr6_ipv6_prefix_from_mask m = Some p)
  /\ (forall m p out, len m = 16 -> len out = 16 -> ipaddr6_ipv6_prefix_from_mask m = Some p ->
        ipaddr6_ipv6_mask_from_prefix p out = Some m).
Proof.
  split_and!.
  - intros p Hp. destruct (mask32_spec p Hp) as [H1 H2].
    unfold ipaddr_ipv4_prefix_from_mask, ipaddr_ipv4_mask_from_prefix. by rewrite H2.
  - intros m p Hm Hp. unfold ipaddr_ipv4_prefix_from_mask in Hp.
    destruct (prefix_search_mask 33 32 (ntoh32 m) p ltac:(lia) Hp) as [Hp' _].
    unfold ipaddr_ipv4_mask_from_prefix. rewrite <- Hp', hton32_ntoh32 by done. reflexivity.
  - intros p out Hl Hp. exists (mask_bytes p). split; [by apply mask6_from_prefix|by apply mask6_to_prefix].
  - intros m p out Hm Hl Hp. destruct (mask6_sound m p Hm Hp) as [-> Hr]. by apply mask6_from_prefix.
Qed.

Module IPAddrWitnesses.
Local Open Scope byte_scope.
Definition junk4 : bytes := replicate 4 x2a.
Definition junk16 : bytes := replicate 16 x2a.
(** [ff::1.2.3.4] *)
Definition demo_name : bytes := ["f"; "f"; ":"; ":"; "1"; "."; "2"; "."; "3"; "."; "4"].
Definition demo_addr : bytes :=
  [x00; xff; x00; x00; x00; x00; x00; x00; x00; x00; x00; x00; x01; x02; x03; x04].

Lemma ipaddr6_parse_exact_witness :
  len junk4 = 4%Z /\ len junk16 = 16%Z /\
  exists r, ipaddr6_parse_ipv6_addr_bin junk4 junk16 demo_name = Some r /\
    (r = Some demo_addr <->
     exists f, form_wf f /\ ip6_string f = demo_name /\ form_address f = demo_addr).
Proof.
  split; [done|]. split; [done|].
  destruct (ipaddr6_parse_exact junk4 junk16 demo_name ltac:(done) ltac:(done)) as (r & Hr & H).
  exists r. split; [exact Hr|apply H].
Defined.
Lemma ipaddr6_roundtrip_witness :
  ipaddr6_parse_ipv6_ifaddr_bin junk4 junk16 (ipaddr6_print_ifaddr demo_addr 64)
  = Some (Some (demo_addr, 64%Z)).
Proof. apply (ipaddr6_roundtrip junk4 junk16 demo_addr 64); done || lia. Defined.
Lemma ipaddr_roundtrip_witness :
  ipaddr_parse_ipv4_ifaddr_bin (ipaddr_print_ifaddr 0x0100000a 8) = Some (Some (0x0100000a%Z, 8%Z)).
Proof. apply (ipaddr_roundtrip 0x0100000a 8); lia. Defined.

(** Cases of [examples/ipaddr6_test.c]. *)
Example test_print : ipaddr6_print_addr
  [x20; x01; x0d; xb8; x00; x00; x00; x00; x00; x01; x00; x00; x00; x00; x00; x01]
  = ["2"; "0"; "0"; "1"; ":"; "d"; "b"; "8"; ":"; ":"; "1"; ":"; "0"; ":"; "0"; ":"; "1"].
Proof. by vm_compute. Qed.
Example test_parse : ipaddr6_parse_ipv6_addr_bin junk4 junk16 demo_name = Some (Some demo_addr).
Proof. by vm_compute. Qed.
Example test_parse_fails : map (ipaddr6_parse_ipv6_addr_bin junk4 junk16)
  [[]; [":"]; ["a"]; [":"; "b"]; ["b"; ":"]; [":"; ":"; ":"]; [":"; ":"; "a"; ":"; ":"; "b"];
   ["1"; "0"; "0"; "0"; "0"; ":"; ":"]; [":"; ":"; "1"; "."; "2"]; [":"; ":"; "0"; "1"; "."; "2"; "."; "3"; "."; "4"];
   ["1"; "."; "2"; "."; "3"; "."; "4"]] = replicate 11 (Some None).
Proof. by vm_compute. Qed.
(** A [::] may stand for no group at all. *)
Example test_parse_empty_gap : ipaddr6_parse_ipv6_addr_bin junk4 junk16
  [":"; ":"; "1"; ":"; "2"; ":"; "3"; ":"; "4"; ":"; "5"; ":"; "6"; ":"; "7"; ":"; "8"]
  = Some (Some [x00; x01; x00; x02; x00; x03; x00; x04; x00; x05; x00; x06; x00; x07; x00; x08]).
Proof. by vm_compute. Qed.
End IPAddrWitnesses.
