(* ===== verification/AddrText.v ===== *)
(** * Socket addresses as text

    The functions of [system/BAddr.h] that print and parse addresses.  The
    resolver [getaddrinfo] is a parameter; [strtol] is the function of the C
    library, in its decimal use.  A parser returns [None] when the code
    returns 0. *)
From S2P Require Import Prelude InetProto BAddr ParseNumber IPAddr.
From Stdlib Require Import Strings.Byte.
From Stdlib Require Strings.String.
Import Checksum InetProofs ParseNumberProofs IPAddrProofs IPPrintProofs.

(** The characters of a C string literal. *)
Definition chars (s : String.string) : bytes := String.list_byte_of_string s.

(** ** [strtol] with base 10, [atoi] *)

Definition is_space (c : byte) : bool := (b2z c =? 32) || ((9 <=? b2z c) && (b2z c <=? 13)).
Fixpoint skip_space (s : bytes) : bytes :=
  match s with
  | c :: rest => if is_space c then skip_space rest else s
  | [] => []
  end.
(** The digits at the start, and what follows. *)
Fixpoint span_digits (s : bytes) : bytes * bytes :=
  match s with
  | c :: rest =>
      if decode_decimal_digit c <? 0 then ([], s)
      else let '(d, r) := span_digits rest in (c :: d, r)
  | [] => ([], [])
  end.
(** The number and the string at [endptr].  Without digits [endptr] is the
    whole string.  The number is not limited to a [long]: see the callers. *)
Definition strtol (s : bytes) : Z * bytes :=
  let t := skip_space s in
  let '(sign, t) :=
    match t with
    | c :: rest => if is_char c "+"%byte then (1, rest) else if is_char c "-"%byte then (-1, rest) else (1, t)
    | [] => (1, t)
    end in
  match span_digits t with
  | ([], _) => (0, s)
  | (d, r) => (sign * digits_value 10 decode_decimal_digit d 0, r)
  end.

(** ** Printing *)

Definition BIPADDR_MAX_PRINT_LEN : Z := 40.
Definition BADDR_MAX_PRINT_LEN : Z := 120.

(** [%x] of the eight words read with [badvpn_read_be16], with colons. *)
Definition BIPAddr_Print (addr : BIPAddr) : bytes :=
  match addr with
  | BIPAddr_None => chars "(none)"
  | BIPAddr_IPv4 ip => dotted (le_split 4 ip)
  | BIPAddr_IPv6 ip => print_words (words ip)
  end.
Definition BAddr_Print (addr : BAddr) : bytes :=
  match addr with
  | BAddr_None => chars "(none)"
  | BAddr_IPv4 ip port => BIPAddr_Print (BIPAddr_IPv4 ip) ++ ":"%byte :: print_dec (ntoh16 port)
  | BAddr_IPv6 ip port => BIPAddr_Print (BIPAddr_IPv6 ip) ++ ":"%byte :: print_dec (ntoh16 port)
  end.

(** ** Parsing *)

Inductive family := AF_INET | AF_INET6.
#[export] Instance family_eq_dec : EqDecision family.
Proof. solve_decision. Defined.

(** [getaddrinfo] with the family and the flag AI_NUMERICHOST as hints: the
    bytes of the first address it finds, [None] when it fails. *)
Definition resolver : Type := family -> bool -> bytes -> option bytes.

Definition BADDR_MAX_ADDR_LEN : Z := 128.
Definition is_last (c : byte) (s : bytes) : bool :=
  match last s with Some d => is_char d c | None => false end.

Section Parse.
Context (getaddrinfo : resolver).

Definition BIPAddr_Resolve (str : bytes) (noresolve : bool) : option BIPAddr :=
  let '(fam, addr_start, addr_len) :=
    if (1 <=? len str) && (match head str with Some c => is_char c "["%byte | None => false end)
       && is_last "]"%byte str
    then (AF_INET6, 1, len str - 2) else (AF_INET, 0, len str) in
  if BADDR_MAX_ADDR_LEN <? addr_len then None else
  let addr_str := zslice addr_start addr_len str in
  addrs ← getaddrinfo fam noresolve addr_str;
  match fam with
  | AF_INET6 => Some (BIPAddr_IPv6 addrs)
  | AF_INET => Some (BIPAddr_IPv4 (le_combine addrs))
  end.

(** Where the address and the port are: the family, the start and the length
    of the address, the start of the port. *)
Definition split_addr (str : bytes) : option (family * Z * Z * Z) :=
  if match head str with Some c => is_char c "["%byte | None => false end then
    i ← find_char_loop (drop 1 str) "]"%byte 1;
    if len str <=? i + 1 then None else
    c ← char_at str (i + 1);
    if negb (is_char c ":"%byte) then None else
    Some (AF_INET6, 1, i - 1, i + 2)
  else
    i ← find_char_loop str ":"%byte 0;
    Some (AF_INET, 0, i, i + 1).

(** [strtol] gets at most 5 characters, so the number is in the range of a [long]. *)
Definition parse_port (port_str : bytes) : option Z :=
  let '(conv_res, err) := strtol port_str in
  if (len port_str =? 0) || negb (len err =? 0) then None else
  if (conv_res <? 0) || (UINT16_MAX <? conv_res) then None else
  Some (hton16 (to_u16 conv_res)).

(** [name]: the length of the caller's buffer, if it is not NULL; an [int]
    compared with a [size_t]. *)
Definition BAddr_Parse2 `{Abi} (str : bytes) (name : option Z) (noresolve : bool)
    : option (BAddr * option bytes) :=
  if (len str <? 1) || (1000 <? len str) then None else
  '(fam, addr_start, addr_len, port_start) ← split_addr str;
  let port_len := len str - port_start in
  if 128 <=? addr_len then None else
  let addr_str := zslice addr_start addr_len str in
  if 6 <=? port_len then None else
  let port_str := zslice port_start port_len str in
  port ← parse_port port_str;
  addrs ← getaddrinfo fam noresolve addr_str;
  let addr := match fam with
              | AF_INET6 => BAddr_IPv6 addrs port
              | AF_INET => BAddr_IPv4 (le_combine addrs) port
              end in
  match name with
  | None => Some (addr, None)
  | Some name_len => if to_size name_len <=? len addr_str then None else Some (addr, Some addr_str)
  end.
End Parse.

Module AddrTextProofs.

Lemma span_digits_all d :
  digits_ok decode_decimal_digit d = true -> span_digits d = (d, []).
Proof.
  induction d as [|c d IH]; [done|]. cbn. intros [Hc Hd]%andb_prop.
  destruct (Z.ltb_spec (decode_decimal_digit c) 0); [lia|]. by rewrite IH.
Qed.
Lemma digit_plain c :
  0 <= decode_decimal_digit c ->
  is_space c = false /\ is_char c "+"%byte = false /\ is_char c "-"%byte = false.
Proof. by destruct c. Qed.

(** [strtol] reads a printed number, all of it. *)
Lemma strtol_print x : 0 <= x <= UINT64_MAX -> strtol (print_dec x) = (x, []).
Proof.
  intros Hx. destruct (print_dec_spec x Hx) as (Hok & Hv & Hpos & _). cbn beta in Hv.
  destruct (print_dec x) as [|c d]; [rewrite (@len_nil byte) in Hpos; lia|].
  pose proof Hok as Hok'. cbn in Hok'. apply andb_prop in Hok' as [Hc _]. apply Z.leb_le in Hc.
  destruct (digit_plain c Hc) as (H1 & H2 & H3). unfold strtol. cbn [skip_space].
  rewrite H1, H2, H3, span_digits_all by done. rewrite Hv. f_equal. lia.
Qed.

Lemma parse_port_print port :
  0 <= port < 2 ^ 16 -> parse_port (print_dec (ntoh16 port)) = Some port /\ len (print_dec (ntoh16 port)) <= 5.
Proof.
  intros Hp. pose proof (hton16_range port) as Hr. change (hton16 port) with (ntoh16 port) in Hr.
  destruct (print_dec_spec (ntoh16 port)) as (_ & _ & Hpos & Hlen); [unfold UINT64_MAX; lia|].
  split; [|apply Hlen; lia]. unfold parse_port. rewrite strtol_print by (unfold UINT64_MAX; lia).
  destruct (Z.eqb_spec (len (print_dec (ntoh16 port))) 0); [lia|]. change (len (@nil byte)) with 0.
  cbn [orb negb Z.eqb]. destruct (Z.ltb_spec (ntoh16 port) 0); [lia|].
  destruct (Z.ltb_spec UINT16_MAX (ntoh16 port)); [unfold UINT16_MAX in *; lia|]. cbn [orb].
  rewrite to_u16_small by lia. by rewrite hton16_ntoh16 by lia.
Qed.

Lemma find_char_loop_first t c r i :
  avoids c t -> find_char_loop (t ++ c :: r) c i = Some (i + len t).
Proof.
  revert i. induction t as [|d t IH]; intros i Ht; cbn [app find_char_loop].
  - rewrite Z.eqb_refl, (@len_nil byte). f_equal. lia.
  - apply Forall_cons_1 in Ht as [Hd Ht]. unfold is_char in Hd. rewrite Hd, IH, len_cons by done. f_equal. lia.
Qed.

(** The host and the port of a text in one of the two formats. *)
Definition addr_text (fam : family) (host port : bytes) : bytes :=
  match fam with
  | AF_INET => host ++ ":"%byte :: port
  | AF_INET6 => "["%byte :: host ++ "]"%byte :: ":"%byte :: port
  end.
Definition host_ok (fam : family) (host : bytes) : Prop :=
  match fam with
  | AF_INET => avoids ":"%byte host /\ head host <> Some "["%byte
  | AF_INET6 => avoids "]"%byte host
  end.
Definition make_addr (fam : family) (ip : bytes) (port : Z) : BAddr :=
  match fam with
  | AF_INET => BAddr_IPv4 (le_combine ip) port
  | AF_INET6 => BAddr_IPv6 ip port
  end.

Lemma split_text fam host port :
  host_ok fam host ->
  exists start pstart, split_addr (addr_text fam host port) = Some (fam, start, len host, pstart)
    /\ zslice start (len host) (addr_text fam host port) = host
    /\ pstart = len (addr_text fam host port) - len port
    /\ zslice pstart (len port) (addr_text fam host port) = port.
Proof.
  unfold split_addr. destruct fam; cbn [host_ok addr_text]; intros Hhost.
  - destruct Hhost as [Hav Hhd].
    assert (match head (host ++ ":"%byte :: port) with Some c => is_char c "["%byte | None => false end = false) as ->.
    { destruct host as [|c host]; [done|]. cbn in *. destruct (is_char c "["%byte) eqn:E; [|done].
      apply is_char_spec in E as ->. done. }
    rewrite find_char_loop_first by done. cbn [mbind option_bind].
    exists 0, (len host + 1). rewrite Z.add_0_l. split; [done|]. split; [by apply zslice_app_l|].
    rewrite len_app, len_cons. split; [lia|].
    replace (host ++ ":"%byte :: port) with ((host ++ [":"%byte]) ++ port) by (by rewrite <- app_assoc).
    rewrite zslice_app_r by (by rewrite len_app). by apply zslice_all.
  - cbn [head]. rewrite is_char_refl. rewrite skipn_cons, drop_0. rewrite find_char_loop_first by done.
    cbn [mbind option_bind]. rewrite len_cons, len_app, !len_cons. pose_len.
    destruct (Z.leb_spec (1 + (len host + (1 + (1 + len port)))) (1 + len host + 1)); [lia|].
    replace (char_at _ (1 + len host + 1)) with (Some ":"%byte).
    2:{ replace (1 + len host + 1) with (len ("["%byte :: host ++ ["]"%byte]))
          by (rewrite len_cons, len_app; change (len [_]) with 1; lia).
        replace ("["%byte :: host ++ "]"%byte :: ":"%byte :: port)
          with (("["%byte :: host ++ ["]"%byte]) ++ ":"%byte :: port) by (by flat).
        by rewrite char_at_app. }
    cbn [mbind option_bind]. rewrite is_char_refl. cbn [negb].
    exists 1, (1 + len host + 2). split; [do 3 f_equal; lia|]. split; [|split; [lia|]].
    + change ("["%byte :: host ++ "]"%byte :: ":"%byte :: port)
        with (["["%byte] ++ host ++ "]"%byte :: ":"%byte :: port).
      rewrite zslice_app_r by done. by apply zslice_app_l.
    + replace ("["%byte :: host ++ "]"%byte :: ":"%byte :: port)
        with (("["%byte :: host ++ ["]"; ":"]%byte) ++ port) by (by flat).
      rewrite zslice_app_r by (rewrite len_cons, len_app; change (len [_; _]) with 2; lia).
      by apply zslice_all.
Qed.

(** Parsing a text in one of the formats. *)
Lemma parse_text `{Abi} (getaddrinfo : resolver) fam host p port ip name noresolve :
  host_ok fam host -> len host < 128 -> len p <= 5 -> parse_port p = Some port ->
  getaddrinfo fam noresolve host = Some ip ->
  (match name with None => True | Some n => len host < to_size n end) ->
  BAddr_Parse2 getaddrinfo (addr_text fam host p) name noresolve
  = Some (make_addr fam ip port, match name with None => None | Some _ => Some host end).
Proof.
  intros Hhost Hlen Hplen Hport Hres Hname. unfold BAddr_Parse2.
  destruct (split_text fam host p Hhost) as (start & pstart & Hsplit & Hh & Hps & Hp).
  assert (Hl : len host + len p + 1 <= len (addr_text fam host p) <= len host + len p + 3).
  { destruct fam; cbn [addr_text]; rewrite ?len_cons, len_app, !len_cons; lia. }
  pose_len. destruct (Z.ltb_spec (len (addr_text fam host p)) 1); [lia|].
  destruct (Z.ltb_spec 1000 (len (addr_text fam host p))); [lia|]. cbn [orb].
  rewrite Hsplit. cbn [mbind option_bind].
  replace (len (addr_text fam host p) - pstart) with (len p) by lia. rewrite Hh, Hp, Hport.
  destruct (Z.leb_spec 128 (len host)); [lia|]. destruct (Z.leb_spec 6 (len p)); [lia|].
  cbn [mbind option_bind]. rewrite Hres. cbn [mbind option_bind]. destruct name as [n|].
  - destruct (Z.leb_spec (to_size n) (len host)); [lia|]. by destruct fam.
  - by destruct fam.
Qed.
End AddrTextProofs.
Import AddrTextProofs.

(** Printing and parsing socket addresses, with a resolver that reads numeric
    addresses: the text of an IPv4 address is read back, and so is an IPv6
    address and port in the documented format with brackets. *)
Theorem baddr_text_roundtrip `{Abi} (getaddrinfo : resolver) noresolve :
  (forall b, length b = 4%nat -> getaddrinfo AF_INET noresolve (dotted b) = Some b) ->
  (forall b, length b = 16%nat -> getaddrinfo AF_INET6 noresolve (print_words (words b)) = Some b) ->
  forall a, addr_wf a ->
  match a with
  | BAddr_None => True
  | BAddr_IPv4 _ _ => BAddr_Parse2 getaddrinfo (BAddr_Print a) None noresolve = Some (a, None)
  | BAddr_IPv6 ip port =>
      BAddr_Parse2 getaddrinfo
        (chars "[" ++ BIPAddr_Print (BIPAddr_IPv6 ip) ++ chars "]:" ++ print_dec (ntoh16 port))
        None noresolve = Some (a, None)
  end.
Proof.
  intros H4 H6 a Ha. destruct a as [|ip port|ip port]; [done|..]; destruct Ha as [Hip Hport];
    destruct (parse_port_print port Hport) as [Hp Hpl].
  - assert (Hl : length (le_split 4 ip) = 4%nat) by apply length_le_split.
    pose proof (dotted_len _ Hl).
    change (BAddr_Print (BAddr_IPv4 ip port))
      with (addr_text AF_INET (dotted (le_split 4 ip)) (print_dec (ntoh16 port))).
    rewrite (parse_text getaddrinfo AF_INET _ _ port (le_split 4 ip) None noresolve); try done; try lia.
    + cbn. rewrite le_combine_split. do 3 f_equal. apply Z.mod_small. lia.
    + split; [by apply dotted_avoids|].
      intros E. assert (Hav : avoids "["%byte (dotted (le_split 4 ip))) by (by apply dotted_avoids).
      destruct (dotted (le_split 4 ip)) as [|c l]; [done|]. injection E as ->.
      apply Forall_cons_1 in Hav as [Hav _]. by rewrite is_char_refl in Hav.
    + by apply H4.
  - destruct (words_spec 8 ip Hip) as (Hok & _ & H8).
    pose proof (print_words_len (words ip) Hok ltac:(by intros E; rewrite E in H8)) as Hl.
    rewrite length_len in H8.
    change (chars "[" ++ BIPAddr_Print (BIPAddr_IPv6 ip) ++ chars "]:" ++ print_dec (ntoh16 port))
      with (addr_text AF_INET6 (print_words (words ip)) (print_dec (ntoh16 port))).
    rewrite (parse_text getaddrinfo AF_INET6 _ _ port ip None noresolve); try done; try lia.
    + by apply print_words_avoids.
    + by apply H6.
Qed.

(** The buffers that the callers give are large enough for the text and its
    terminating zero. *)
Theorem baddr_print_fits a :
  addr_wf a ->
  len (BIPAddr_Print (BAddr_GetIPAddr a)) + 1 <= BIPADDR_MAX_PRINT_LEN
  /\ len (BAddr_Print a) + 1 <= BADDR_MAX_PRINT_LEN.
Proof.
  unfold BIPADDR_MAX_PRINT_LEN, BADDR_MAX_PRINT_LEN.
  destruct a as [|ip port|ip port]; intros Ha; [by split|..]; destruct Ha as [Hip Hport];
    destruct (parse_port_print port Hport) as [_ Hpl]; cbn [BAddr_GetIPAddr BAddr_Print BIPAddr_Print];
    rewrite len_app, len_cons.
  - pose proof (dotted_len _ (length_le_split 4 ip)). lia.
  - destruct (words_spec 8 ip Hip) as (Hok & _ & H8).
    pose proof (print_words_len (words ip) Hok ltac:(by intros E; rewrite E in H8)) as Hl.
    rewrite length_len in H8. pose_len. lia.
Qed.

Module AddrTextWitnesses.
(** A resolver for numeric addresses: the parsers of [misc/]. *)
Definition numeric_resolver : resolver := fun fam _ host =>
  match fam with
  | AF_INET => match ipaddr_parse_ipv4_addr_bin host with Some (Some a) => Some (le_split 4 a) | _ => None end
  | AF_INET6 =>
      match ipaddr6_parse_ipv6_addr_bin (replicate 4 x00) (replicate 16 x00) host with
      | Some r => r | None => None end
  end.
Lemma numeric_resolver_v4 b : length b = 4%nat -> numeric_resolver AF_INET true (dotted b) = Some b.
Proof.
  intros Hb. unfold numeric_resolver, ipaddr_parse_ipv4_addr_bin. rewrite ipv4_loop_dotted by done.
  cbn [app mbind option_bind option_map]. f_equal. by apply split_le_combine'.
Qed.
Lemma numeric_resolver_v6 b :
  length b = 16%nat -> numeric_resolver AF_INET6 true (print_words (words b)) = Some b.
Proof.
  intros Hb. destruct (words_spec 8 b Hb) as (Hok & Hbytes & H8). unfold numeric_resolver.
  destruct (plain_form (words b) Hok) as (f & Hwf & <- & Ha).
  { rewrite length_len in H8. pose_len. lia. }
  rewrite (parse_complete (replicate 4 x00) (replicate 16 x00) ltac:(done) ltac:(done) f Hwf).
  rewrite Ha. unfold words_bytes. by rewrite Hbytes.
Qed.

Definition demo_v6 : bytes := [x20; x01; x0d; xb8; x00; x00; x00; x00; x00; x00; x00; x00; x00; x00; x00; x01].
Lemma baddr_text_roundtrip_witness :
  BAddr_Parse2 (H := abi64) numeric_resolver
    (chars "[" ++ BIPAddr_Print (BIPAddr_IPv6 demo_v6) ++ chars "]:" ++ print_dec (ntoh16 0x3804))
    None true = Some (BAddr_IPv6 demo_v6 0x3804, None).
Proof.
  apply (baddr_text_roundtrip (H := abi64) numeric_resolver true numeric_resolver_v4 numeric_resolver_v6
    (BAddr_IPv6 demo_v6 0x3804)). split; [done|lia].
Defined.
Lemma baddr_print_fits_witness : len (BAddr_Print (BAddr_IPv6 demo_v6 0x3804)) + 1 <= BADDR_MAX_PRINT_LEN.
Proof. apply (baddr_print_fits (BAddr_IPv6 demo_v6 0x3804)). split; [done|lia]. Defined.

(** What the formats are: a port with a sign or spaces passes, brackets are needed. *)
Example parse_plain : BAddr_Parse2 (H := abi64) numeric_resolver (chars "127.0.0.1:1080") None true
  = Some (BAddr_IPv4 0x0100007f 0x3804, None).
Proof. by vm_compute. Qed.
Example parse_signed_port : BAddr_Parse2 (H := abi64) numeric_resolver (chars "127.0.0.1: +80") None true
  = Some (BAddr_IPv4 0x0100007f 0x5000, None).
Proof. by vm_compute. Qed.
Example parse_no_brackets : BAddr_Parse2 (H := abi64) numeric_resolver
  (BAddr_Print (BAddr_IPv6 demo_v6 0x3804)) None true = None.
Proof. by vm_compute. Qed.
End AddrTextWitnesses.
