(* ===== verification/Options.v ===== *)
(** * The command line and its addresses

    [parse_arguments] and [process_arguments] of [tun2socks/tun2socks.c] with
    [misc/loglevel.h], [misc/read_file.h] and the lookup of a log channel by
    its name ([base/BLog.h]).  The names of the log channels, which a script
    generates, the files and the resolver are parameters.  [Some None] is the
    return value 0, [None] undefined behaviour: a NULL string that is read, a
    number given to [atoi] that is no [int]. *)
From S2P Require Import Prelude InetProto BAddr SocksClient ParseNumber IPAddr AddrText.
From Stdlib Require Import Strings.Byte.

(** ** Helpers of the C library and of [misc/] *)

(** [!strcmp(a, b)] *)
Fixpoint streq (a b : bytes) : bool :=
  match a, b with
  | [], [] => true
  | c :: a, d :: b => is_char c d && streq a b
  | _, _ => false
  end.

(** [None]: the number is not an [int]. *)
Definition atoi (s : bytes) : option Z :=
  let n := (strtol s).1 in
  if (- INT_MAX - 1 <=? n) && (n <=? INT_MAX) then Some n else None.

Definition BLOG_ERROR : Z := 1.
Definition BLOG_WARNING : Z := 2.
Definition BLOG_NOTICE : Z := 3.
Definition BLOG_INFO : Z := 4.
Definition BLOG_DEBUG : Z := 5.

(** A number out of the range of a [long], which [strtol] would replace by
    LONG_MAX or LONG_MIN, is refused either way. *)
Definition parse_loglevel (str : bytes) : Z :=
  if streq str (chars "none") then 0 else
  if streq str (chars "error") then BLOG_ERROR else
  if streq str (chars "warning") then BLOG_WARNING else
  if streq str (chars "notice") then BLOG_NOTICE else
  if streq str (chars "info") then BLOG_INFO else
  if streq str (chars "debug") then BLOG_DEBUG else
  let '(res, endptr) := strtol str in
  if negb (len str =? 0) && (len endptr =? 0) && (0 <=? res) && (res <=? BLOG_DEBUG) then res else -1.

(** [blog_channel_list]: the names of the channels. *)
Fixpoint channel_loop (channels : list bytes) (name : bytes) (i : Z) : Z :=
  match channels with
  | [] => -1
  | c :: channels => if streq c name then i else channel_loop channels name (i + 1)
  end.
Definition BLogGlobal_GetChannelByName (channels : list bytes) (name : bytes) : Z :=
  channel_loop channels name 0.

(** ** [parse_arguments] *)

Inductive logger_kind := LOGGER_STDOUT | LOGGER_SYSLOG.

(** A [char *] that may be NULL is an option. *)
Record options := mk_options {
  help : bool;
  version : bool;
  logger : logger_kind;
  logger_syslog_facility : bytes;
  logger_syslog_ident : bytes;
  loglevel : Z;
  loglevels : list Z;
  netif_ipaddr : option bytes;
  netif_netmask : option bytes;
  netif_ip6addr : option bytes;
  socks_server_addr : option bytes;
  username : option bytes;
  password : option bytes;
  password_file : option bytes;
  append_source_to_username : bool;
  udpgw_remote_server_addr : option bytes;
  udpgw_max_connections : Z;
  udpgw_connection_buffer_size : Z;
  udpgw_transparent_dns : bool;
  tun_fd : Z;
  tun_mtu : Z;
  fake_proc : bool;
  pid : option bytes;
  dnsgw : option bytes;
}.
#[export] Instance options_eta : Eta options := fun o =>
  mk_options (help o) (version o) (logger o) (logger_syslog_facility o) (logger_syslog_ident o)
    (loglevel o) (loglevels o) (netif_ipaddr o) (netif_netmask o) (netif_ip6addr o)
    (socks_server_addr o) (username o) (password o) (password_file o)
    (append_source_to_username o) (udpgw_remote_server_addr o) (udpgw_max_connections o)
    (udpgw_connection_buffer_size o) (udpgw_transparent_dns o) (tun_fd o) (tun_mtu o)
    (fake_proc o) (pid o) (dnsgw o).

Definition DEFAULT_UDPGW_MAX_CONNECTIONS : Z := 256.
Definition DEFAULT_UDPGW_CONNECTION_BUFFER_SIZE : Z := 8.

Section Parse.
Context (channels : list bytes).
Abbreviation BLOG_NUM_CHANNELS := (length channels).

(** [options.dnsgw] is not set: the global structure starts with zeros. *)
Definition initial_options (argv0 : bytes) : options :=
  {| help := false; version := false; logger := LOGGER_STDOUT;
     logger_syslog_facility := chars "daemon"; logger_syslog_ident := argv0;
     loglevel := -1; loglevels := replicate BLOG_NUM_CHANNELS (-1);
     netif_ipaddr := None; netif_netmask := None; netif_ip6addr := None;
     socks_server_addr := None; username := None; password := None; password_file := None;
     append_source_to_username := false; udpgw_remote_server_addr := None;
     udpgw_max_connections := DEFAULT_UDPGW_MAX_CONNECTIONS;
     udpgw_connection_buffer_size := DEFAULT_UDPGW_CONNECTION_BUFFER_SIZE;
     udpgw_transparent_dns := false; tun_fd := -1; tun_mtu := 1500; fake_proc := false;
     pid := None; dnsgw := None |}.

(** One round of the loop: [return 0], the undefined [atoi], or the options
    and the arguments that are left. *)
Inductive round :=
  | Refused
  | Undefined
  | Next (o : options) (rest : list bytes).

Definition one_argument (rest : list bytes) (k : bytes -> list bytes -> round) : round :=
  match rest with [] => Refused | a :: rest => k a rest end.
(** [if ((options.x = atoi(argv[i + 1])) <= 0)] *)
Definition positive (rest : list bytes) (k : Z -> options) : round :=
  one_argument rest (fun a rest =>
    match atoi a with
    | None => Undefined
    | Some n => if n <=? 0 then Refused else Next (k n) rest
    end).
Definition string_option (rest : list bytes) (k : bytes -> options) : round :=
  one_argument rest (fun a rest => Next (k a) rest).

Definition parse_one (arg : bytes) (rest : list bytes) (o : options) : round :=
  if streq arg (chars "--help") then Next (o <| help := true |>) rest else
  if streq arg (chars "--version") then Next (o <| version := true |>) rest else
  if streq arg (chars "--logger") then
    one_argument rest (fun arg2 rest =>
      if streq arg2 (chars "stdout") then Next (o <| logger := LOGGER_STDOUT |>) rest else
      if streq arg2 (chars "syslog") then Next (o <| logger := LOGGER_SYSLOG |>) rest else Refused) else
  if streq arg (chars "--syslog-facility") then
    string_option rest (fun a => o <| logger_syslog_facility := a |>) else
  if streq arg (chars "--syslog-ident") then
    string_option rest (fun a => o <| logger_syslog_ident := a |>) else
  if streq arg (chars "--loglevel") then
    one_argument rest (fun a rest =>
      let l := parse_loglevel a in
      if l <? 0 then Refused else Next (o <| loglevel := l |>) rest) else
  if streq arg (chars "--channel-loglevel") then
    match rest with
    | a :: b :: rest =>
        let channel := BLogGlobal_GetChannelByName channels a in
        if channel <? 0 then Refused else
        let l := parse_loglevel b in
        if l <? 0 then Refused else
        Next (o <| loglevels := <[Z.to_nat channel := l]> (loglevels o) |>) rest
    | _ => Refused
    end else
  if streq arg (chars "--fake-proc") then Next (o <| fake_proc := true |>) rest else
  if streq arg (chars "--tunfd") then positive rest (fun n => o <| tun_fd := n |>) else
  if streq arg (chars "--tunmtu") then positive rest (fun n => o <| tun_mtu := n |>) else
  if streq arg (chars "--dnsgw") then string_option rest (fun a => o <| dnsgw := Some a |>) else
  if streq arg (chars "--pid") then string_option rest (fun a => o <| pid := Some a |>) else
  if streq arg (chars "--netif-ipaddr") then
    string_option rest (fun a => o <| netif_ipaddr := Some a |>) else
  if streq arg (chars "--netif-netmask") then
    string_option rest (fun a => o <| netif_netmask := Some a |>) else
  if streq arg (chars "--netif-ip6addr") then
    string_option rest (fun a => o <| netif_ip6addr := Some a |>) else
  if streq arg (chars "--socks-server-addr") then
    string_option rest (fun a => o <| socks_server_addr := Some a |>) else
  if streq arg (chars "--username") then string_option rest (fun a => o <| username := Some a |>) else
  if streq arg (chars "--password") then string_option rest (fun a => o <| password := Some a |>) else
  if streq arg (chars "--password-file") then
    string_option rest (fun a => o <| password_file := Some a |>) else
  if streq arg (chars "--append-source-to-username") then
    Next (o <| append_source_to_username := true |>) rest else
  if streq arg (chars "--udpgw-remote-server-addr") then
    string_option rest (fun a => o <| udpgw_remote_server_addr := Some a |>) else
  if streq arg (chars "--udpgw-max-connections") then
    positive rest (fun n => o <| udpgw_max_connections := n |>) else
  if streq arg (chars "--udpgw-connection-buffer-size") then
    positive rest (fun n => o <| udpgw_connection_buffer_size := n |>) else
  if streq arg (chars "--udpgw-transparent-dns") then
    Next (o <| udpgw_transparent_dns := true |>) rest else
  Refused.

(** Every round takes an argument: as much fuel as there are is enough. *)
Fixpoint parse_loop (fuel : nat) (args : list bytes) (o : options) : option (option options) :=
  match args, fuel with
  | [], _ => Some (Some o)
  | _, O => None
  | arg :: rest, S fuel =>
      match parse_one arg rest o with
      | Refused => Some None
      | Undefined => None
      | Next o rest => parse_loop fuel rest o
      end
  end.

(** The tests after the loop. *)
Definition is_set (s : option bytes) : bool := match s with Some _ => true | None => false end.
Definition check_options (o : options) : bool :=
  if help o || version o then true else
  if negb (is_set (netif_ipaddr o)) then false else
  if negb (is_set (netif_netmask o)) then false else
  if negb (is_set (socks_server_addr o)) then false else
  if is_set (username o) then
    if negb (is_set (password o)) && negb (is_set (password_file o)) then false else
    if is_set (password o) && is_set (password_file o) then false else true
  else true.

Definition parse_arguments (argv : list bytes) : option (option options) :=
  match argv with
  | [] => Some None
  | argv0 :: args =>
      o ← parse_loop (length args) args (initial_options argv0);
      match o with
      | None => Some None
      | Some o => if check_options o then Some (Some o) else Some None
      end
  end.
End Parse.

(** ** [read_file] *)

(** The environment: the contents of a file that can be opened, how many bytes
    [fread] delivers of what is left when so many are asked for, and whether
    an allocation of so many bytes succeeds. *)
Record files := mk_files {
  contents : bytes -> option bytes;
  fread : bytes -> Z -> Z;
  malloc_ok : Z -> bool;
}.
(** [fread] delivers no more than is left and no more than is asked for. *)
Definition files_wf (fs : files) : Prop :=
  forall rest n, 0 <= n -> 0 <= fread fs rest n <= n /\ fread fs rest n <= len rest.

Section Process.
Context `{Abi} (fs : files) (getaddrinfo : resolver).

(** The loop: [buf] is what has been read, in a buffer of [buf_size] bytes. *)
Fixpoint read_loop (fuel : nat) (rest buf : bytes) (buf_size : Z) : option (option bytes) :=
  match fuel with
  | O => None
  | S fuel =>
      let grown :=
        if len buf =? buf_size then
          if SIZE_MAX / buf_size <? 2 then None else
          let newsize := 2 * buf_size in
          if malloc_ok fs newsize then Some newsize else None
        else Some buf_size in
      match grown with
      | None => Some None
      | Some buf_size =>
          let n := fread fs rest (buf_size - len buf) in
          if n =? 0 then if len rest =? 0 then Some (Some buf) else Some None else
          read_loop fuel (drop (Z.to_nat n) rest) (buf ++ take (Z.to_nat n) rest) buf_size
      end
  end.
Definition read_file (file : bytes) : option (option bytes) :=
  match contents fs file with
  | None => Some None
  | Some data => if malloc_ok fs 128 then read_loop (S (length data)) data [] 128 else Some None
  end.

(** ** [process_arguments] *)

(** The global variables it sets. *)
Record addresses := mk_addresses {
  a_netif_ipaddr : BIPAddr;
  a_netif_netmask : BIPAddr;
  a_netif_ip6addr : bytes;
  a_socks_server_addr : BAddr;
  socks_auth_info : list BSocksClient_auth_info;
  password_file_contents : option bytes;
  a_udpgw_remote_server_addr : BAddr;
  a_dnsgw : BAddr;
}.

(** [if (!f(...)) return 0;] *)
Definition check {A B} (x : option A) (k : A -> option (option B)) : option (option B) :=
  match x with None => Some None | Some a => k a end.
Definition is_ipv4 (a : BIPAddr) : bool := match a with BIPAddr_IPv4 _ => true | _ => false end.

Definition resolve_ipv4 (s : option bytes) (k : BIPAddr -> option (option addresses))
    : option (option addresses) :=
  s ← s;
  check (BIPAddr_Resolve getaddrinfo s false) (fun a => if is_ipv4 a then k a else Some None).

(** An address that is parsed if the option is given. *)
Definition optional_addr (s : option bytes) (k : BAddr -> option (option addresses))
    : option (option addresses) :=
  match s with
  | None => k BAddr_None
  | Some s => check (BAddr_Parse2 getaddrinfo s None false) (fun r => k r.1)
  end.

Definition auth_infos (o : options)
    (k : list BSocksClient_auth_info -> option bytes -> option (option addresses))
    : option (option addresses) :=
  match username o with
  | None => k [BSocksClient_auth_none] None
  | Some user =>
      match password o with
      | Some p => k [BSocksClient_auth_none; BSocksClient_auth_password user p] None
      | None =>
          file ← password_file o;
          data ← read_file file;
          check data (fun data =>
            k [BSocksClient_auth_none; BSocksClient_auth_password user data] (Some data))
      end
  end.

(** [quad]: the uninitialised array of the IPv6 parser. *)
Definition process_arguments (quad : bytes) (o : options) : option (option addresses) :=
  resolve_ipv4 (netif_ipaddr o) (fun ipaddr =>
  resolve_ipv4 (netif_netmask o) (fun netmask =>
  ip6 ← match netif_ip6addr o with
        | None => Some (Some (replicate 16 x00))
        | Some s => ipaddr6_parse_ipv6_addr_bin quad (replicate 16 x00) s
        end;
  check ip6 (fun ip6 =>
  server ← socks_server_addr o;
  check (BAddr_Parse2 getaddrinfo server None false) (fun server =>
  auth_infos o (fun infos contents =>
  optional_addr (udpgw_remote_server_addr o) (fun udpgw =>
  optional_addr (dnsgw o) (fun dns =>
    if is_set (dnsgw o) && negb (is_ipv4 (BAddr_GetIPAddr dns)) then Some None else
    Some (Some (mk_addresses ipaddr netmask ip6 server.1 infos contents udpgw dns))))))))).
End Process.

Module OptionsProofs.
Import Checksum IPAddrProofs.

Lemma streq_spec a b : streq a b = true <-> a = b.
Proof.
  revert b. induction a as [|c a IH]; intros [|d b]; cbn; try by split.
  rewrite andb_true_iff, is_char_spec, IH. split; [by intros [-> ->]|by intros [= -> ->]].
Qed.

(** ** The options of a command line *)

Inductive flag := FHelp | FVersion | FFakeProc | FAppendSource | FTransparentDns.
Inductive str_key :=
  | KFacility | KIdent | KDnsgw | KPid | KIpaddr | KNetmask | KIp6addr | KServer
  | KUsername | KPassword | KPasswordFile | KUdpgw.
Inductive num_key := NFd | NMtu | NConnections | NBuffer.
Inductive opt :=
  | OFlag (f : flag)
  | OStr (k : str_key) (v : bytes)
  | ONum (k : num_key) (v : bytes)
  | OLogger (l : logger_kind)
  | OLevel (v : bytes)
  | OChannel (c v : bytes).

Definition flag_name (f : flag) : bytes :=
  match f with
  | FHelp => chars "--help" | FVersion => chars "--version" | FFakeProc => chars "--fake-proc"
  | FAppendSource => chars "--append-source-to-username"
  | FTransparentDns => chars "--udpgw-transparent-dns"
  end.
Definition str_name (k : str_key) : bytes :=
  match k with
  | KFacility => chars "--syslog-facility" | KIdent => chars "--syslog-ident"
  | KDnsgw => chars "--dnsgw" | KPid => chars "--pid"
  | KIpaddr => chars "--netif-ipaddr" | KNetmask => chars "--netif-netmask"
  | KIp6addr => chars "--netif-ip6addr" | KServer => chars "--socks-server-addr"
  | KUsername => chars "--username" | KPassword => chars "--password"
  | KPasswordFile => chars "--password-file" | KUdpgw => chars "--udpgw-remote-server-addr"
  end.
Definition num_name (k : num_key) : bytes :=
  match k with
  | NFd => chars "--tunfd" | NMtu => chars "--tunmtu"
  | NConnections => chars "--udpgw-max-connections"
  | NBuffer => chars "--udpgw-connection-buffer-size"
  end.
Definition render (x : opt) : list bytes :=
  match x with
  | OFlag f => [flag_name f]
  | OStr k v => [str_name k; v]
  | ONum k v => [num_name k; v]
  | OLogger l => [chars "--logger"; match l with LOGGER_STDOUT => chars "stdout" | _ => chars "syslog" end]
  | OLevel v => [chars "--loglevel"; v]
  | OChannel c v => [chars "--channel-loglevel"; c; v]
  end.

Definition set_flag (f : flag) (o : options) : options :=
  match f with
  | FHelp => o <| help := true |>
  | FVersion => o <| version := true |>
  | FFakeProc => o <| fake_proc := true |>
  | FAppendSource => o <| append_source_to_username := true |>
  | FTransparentDns => o <| udpgw_transparent_dns := true |>
  end.
Definition set_str (k : str_key) (v : bytes) (o : options) : options :=
  match k with
  | KFacility => o <| logger_syslog_facility := v |>
  | KIdent => o <| logger_syslog_ident := v |>
  | KDnsgw => o <| dnsgw := Some v |>
  | KPid => o <| pid := Some v |>
  | KIpaddr => o <| netif_ipaddr := Some v |>
  | KNetmask => o <| netif_netmask := Some v |>
  | KIp6addr => o <| netif_ip6addr := Some v |>
  | KServer => o <| socks_server_addr := Some v |>
  | KUsername => o <| username := Some v |>
  | KPassword => o <| password := Some v |>
  | KPasswordFile => o <| password_file := Some v |>
  | KUdpgw => o <| udpgw_remote_server_addr := Some v |>
  end.
Definition set_num (k : num_key) (n : Z) (o : options) : options :=
  match k with
  | NFd => o <| tun_fd := n |>
  | NMtu => o <| tun_mtu := n |>
  | NConnections => o <| udpgw_max_connections := n |>
  | NBuffer => o <| udpgw_connection_buffer_size := n |>
  end.

Section Exact.
Variable (channels : list bytes).

(** Which options are accepted, and what they set. *)
Definition opt_valid (x : opt) : Prop :=
  match x with
  | OFlag _ | OStr _ _ | OLogger _ => True
  | ONum _ v => exists n, atoi v = Some n /\ 0 < n
  | OLevel v => 0 <= parse_loglevel v
  | OChannel c v => 0 <= BLogGlobal_GetChannelByName channels c /\ 0 <= parse_loglevel v
  end.
Definition apply_opt (o : options) (x : opt) : options :=
  match x with
  | OFlag f => set_flag f o
  | OStr k v => set_str k v o
  | ONum k v => set_num k (default 0 (atoi v)) o
  | OLogger l => o <| logger := l |>
  | OLevel v => o <| loglevel := parse_loglevel v |>
  | OChannel c v =>
      o <| loglevels := <[Z.to_nat (BLogGlobal_GetChannelByName channels c) := parse_loglevel v]>
                          (loglevels o) |>
  end.

Lemma parse_one_num k v rest o :
  parse_one channels (num_name k) (v :: rest) o = positive (v :: rest) (fun n => set_num k n o).
Proof. by destruct k. Qed.
Lemma parse_one_str k v rest o : parse_one channels (str_name k) (v :: rest) o = Next (set_str k v o) rest.
Proof. by destruct k. Qed.
Lemma parse_one_flag f rest o : parse_one channels (flag_name f) rest o = Next (set_flag f o) rest.
Proof. by destruct f. Qed.

Lemma parse_one_complete x arg args rest o :
  opt_valid x -> render x = arg :: args -> parse_one channels arg (args ++ rest) o = Next (apply_opt o x) rest.
Proof.
  destruct x as [f|k v|k v|l|v|c v]; cbn [render opt_valid apply_opt]; intros Hv [= <- <-].
  - apply parse_one_flag.
  - apply parse_one_str.
  - cbn [app]. rewrite parse_one_num. destruct Hv as (n & Hn & Hpos). unfold positive, one_argument.
    rewrite Hn. cbn [default from_option id]. by destruct (Z.leb_spec n 0); [lia|].
  - by destruct l.
  - change (parse_one channels (chars "--loglevel") ([v] ++ rest) o)
      with (if parse_loglevel v <? 0 then Refused else Next (o <| loglevel := parse_loglevel v |>) rest).
    by destruct (Z.ltb_spec (parse_loglevel v) 0); [lia|].
  - destruct Hv as [Hc Hv].
    change (parse_one channels (chars "--channel-loglevel") ([c; v] ++ rest) o)
      with (let channel := BLogGlobal_GetChannelByName channels c in
            if channel <? 0 then Refused else
            let l := parse_loglevel v in
            if l <? 0 then Refused else
            Next (o <| loglevels := <[Z.to_nat channel := l]> (loglevels o) |>) rest).
    cbv zeta. destruct (Z.ltb_spec (BLogGlobal_GetChannelByName channels c) 0); [lia|].
    by destruct (Z.ltb_spec (parse_loglevel v) 0); [lia|].
Qed.

(** What a round that goes on has read. *)
Definition reads_opt (arg : bytes) (rest : list bytes) (o : options) (r : round) : Prop :=
  match r with
  | Next o' rest' => exists x, opt_valid x /\ arg :: rest = render x ++ rest' /\ o' = apply_opt o x
  | Undefined => exists a, a ∈ rest /\ atoi a = None
  | Refused => True
  end.
Lemma reads_flag f rest o : reads_opt (flag_name f) rest o (Next (set_flag f o) rest).
Proof. by exists (OFlag f). Qed.
Lemma reads_str k rest o : reads_opt (str_name k) rest o (string_option rest (fun a => set_str k a o)).
Proof. destruct rest as [|a rest]; [done|]. by exists (OStr k a). Qed.
Lemma reads_num k rest o : reads_opt (num_name k) rest o (positive rest (fun n => set_num k n o)).
Proof.
  destruct rest as [|a rest]; [done|]. unfold positive, one_argument.
  destruct (atoi a) as [n|] eqn:E; [|exists a; split; [set_solver|done]].
  destruct (Z.leb_spec n 0); [done|].
  exists (ONum k a). split; [by exists n|]. split; [done|]. cbn. by rewrite E.
Qed.

Lemma parse_one_sound arg rest o : reads_opt arg rest o (parse_one channels arg rest o).
Proof.
  unfold parse_one.
  repeat match goal with
  | |- reads_opt _ _ _ (if streq arg ?n then _ else _) =>
      destruct (streq arg n) eqn:E; [apply streq_spec in E as ->|clear E]
  end; try done.
  1: apply (reads_flag FHelp). 1: apply (reads_flag FVersion).
  1: { destruct rest as [|a rest]; [done|]. cbn [one_argument].
       destruct (streq a _) eqn:E; [apply streq_spec in E as ->; by exists (OLogger LOGGER_STDOUT)|].
       destruct (streq a _) eqn:E' in |- *; [|done].
       apply streq_spec in E' as ->. by exists (OLogger LOGGER_SYSLOG). }
  1: apply (reads_str KFacility). 1: apply (reads_str KIdent).
  1: { destruct rest as [|a rest]; [done|]. cbn [one_argument].
       destruct (Z.ltb_spec (parse_loglevel a) 0); [done|]. by exists (OLevel a). }
  1: { destruct rest as [|a [|b rest]]; [done..|].
       destruct (Z.ltb_spec (BLogGlobal_GetChannelByName channels a) 0); [done|]. cbv zeta.
       destruct (Z.ltb_spec (parse_loglevel b) 0); [done|]. by exists (OChannel a b). }
  1: apply (reads_flag FFakeProc). 1: apply (reads_num NFd). 1: apply (reads_num NMtu).
  1: apply (reads_str KDnsgw). 1: apply (reads_str KPid). 1: apply (reads_str KIpaddr).
  1: apply (reads_str KNetmask). 1: apply (reads_str KIp6addr). 1: apply (reads_str KServer).
  1: apply (reads_str KUsername). 1: apply (reads_str KPassword). 1: apply (reads_str KPasswordFile).
  1: apply (reads_flag FAppendSource). 1: apply (reads_str KUdpgw).
  1: apply (reads_num NConnections). 1: apply (reads_num NBuffer).
  apply (reads_flag FTransparentDns).
Qed.

(** The loop reads a list of options. *)
Definition render_all (l : list opt) : list bytes := concat (map render l).

Lemma render_cons x : exists arg args, render x = arg :: args.
Proof. destruct x; by do 2 eexists. Qed.

Lemma parse_loop_complete l fuel o :
  Forall opt_valid l -> (length (render_all l) <= fuel)%nat ->
  parse_loop channels fuel (render_all l) o = Some (Some (fold_left apply_opt l o)).
Proof.
  intros Hl. revert fuel o. induction Hl as [|x l Hx _ IH]; intros fuel o Hf; [by destruct fuel|].
  unfold render_all in *. cbn [map concat] in *. destruct (render_cons x) as (arg & args & E).
  rewrite E, length_app in *. cbn [app length] in *. destruct fuel as [|fuel]; [lia|].
  cbn [parse_loop]. rewrite (parse_one_complete x arg args _ o Hx E). apply IH. lia.
Qed.

Lemma parse_loop_sound fuel args o :
  (length args <= fuel)%nat ->
  match parse_loop channels fuel args o with
  | Some (Some o') =>
      exists l, Forall opt_valid l /\ args = render_all l /\ o' = fold_left apply_opt l o
  | Some None => True
  | None => exists a, a ∈ args /\ atoi a = None
  end.
Proof.
  revert args o. induction fuel as [|fuel IH]; intros [|arg rest] o Hf; cbn in Hf; try lia.
  1, 2: by exists [].
  cbn [parse_loop]. pose proof (parse_one_sound arg rest o) as Hone.
  destruct (parse_one channels arg rest o) as [| |o1 rest1] eqn:E; [done| |].
  - destruct Hone as (a & Ha & Hat). exists a. split; [set_solver|done].
  - destruct Hone as (x & Hx & Hargs & ->). destruct (render_cons x) as (a & as' & Hr).
    assert (Hl : (length rest1 <= fuel)%nat).
    { apply (f_equal length) in Hargs. rewrite Hr, length_app in Hargs. cbn in Hargs. lia. }
    specialize (IH rest1 (apply_opt o x) Hl).
    destruct (parse_loop channels fuel rest1 (apply_opt o x)) as [[o'|]|]; [|done|].
    + destruct IH as (l & Hv & -> & ->). exists (x :: l). split; [by constructor|]. by rewrite Hargs.
    + destruct IH as (b & Hb & Hat). exists b. split; [|done]. rewrite Hargs. set_solver.
Qed.

(** Which options must be given. *)
Definition options_complete (o : options) : Prop :=
  help o = true \/ version o = true \/
  is_Some (netif_ipaddr o) /\ is_Some (netif_netmask o) /\ is_Some (socks_server_addr o)
  /\ (is_Some (username o) -> (is_Some (password o) <-> password_file o = None)).
Lemma check_options_spec o : check_options o = true <-> options_complete o.
Proof.
  unfold check_options, options_complete, is_set.
  destruct (help o), (version o), (netif_ipaddr o), (netif_netmask o), (socks_server_addr o),
    (username o), (password o), (password_file o); cbn; unfold is_Some; naive_solver.
Qed.

(** The numbers are in their range. *)
Definition numbers_ok (o : options) : Prop :=
  0 < tun_mtu o <= INT_MAX /\ 0 < udpgw_connection_buffer_size o <= INT_MAX.
Lemma apply_numbers_ok x o : opt_valid x -> numbers_ok o -> numbers_ok (apply_opt o x).
Proof.
  unfold numbers_ok. destruct x as [[]|[] v|k v| | |]; cbn; try done. intros (n & Hn & Hp) Ho. rewrite Hn. cbn.
  assert (n <= INT_MAX) by (unfold atoi in Hn; destruct (_ && _) eqn:E; [injection Hn as <-; lia|done]).
  destruct k; cbn; lia.
Qed.
Lemma parsed_numbers_ok argv o : parse_arguments channels argv = Some (Some o) -> numbers_ok o.
Proof.
  destruct argv as [|argv0 args]; [done|]. unfold parse_arguments. intros Hp.
  pose proof (parse_loop_sound (length args) args (initial_options channels argv0) ltac:(lia)) as Hs.
  destruct (parse_loop _ _ _ _) as [[o'|]|]; [|done..]. cbn in Hp. destruct (check_options o'); [|done]. injection Hp as ->.
  destruct Hs as (l & Hv & _ & ->).
  assert (H0 : numbers_ok (initial_options channels argv0)) by (split; cbn; unfold DEFAULT_UDPGW_CONNECTION_BUFFER_SIZE, INT_MAX; lia).
  revert H0. generalize (initial_options channels argv0). induction Hv as [|x l Hx _ IH]; intros o H0; cbn; [done|].
  by apply IH, apply_numbers_ok.
Qed.
End Exact.
End OptionsProofs.
Import OptionsProofs.

(** C26: [parse_arguments] is exact: it accepts a command line with the options [o]
    if and only if the arguments are a sequence of known options, each with its
    arguments valid, [o] is the result of setting them one after the other over
    the defaults (so the last one counts), and the options that are required
    are there: the network interface, the SOCKS server, and a password or a
    password file, not both, for a user name. It has no undefined behaviour
    when every argument has a number that [atoi] can represent. *)
Theorem parse_arguments_exact channels argv0 args :
  (forall o, parse_arguments channels (argv0 :: args) = Some (Some o) <->
     exists l, Forall (opt_valid channels) l /\ args = render_all l
       /\ o = fold_left (apply_opt channels) l (initial_options channels argv0)
       /\ options_complete o)
  /\ (parse_arguments channels (argv0 :: args) = None -> exists a, a ∈ args /\ atoi a = None).
Proof.
  unfold parse_arguments.
  pose proof (parse_loop_sound channels (length args) args (initial_options channels argv0)
    ltac:(lia)) as Hsound. split.
  - intros o. split.
    + destruct (parse_loop _ _ _ _) as [[o'|]|]; [|done..]. cbn [mbind option_bind].
      destruct (check_options o') eqn:Hc; [|done]. intros [= <-].
      destruct Hsound as (l & Hv & Hargs & Ho). exists l. by rewrite <- check_options_spec.
    + intros (l & Hv & -> & -> & Hc).
      rewrite parse_loop_complete by done. cbn [mbind option_bind].
      by rewrite (proj2 (check_options_spec _) Hc).
  - destruct (parse_loop _ _ _ _) as [[o'|]|]; [|done|done]. cbn. by destruct (check_options o').
Qed.

Module ProcessProofs.
Import Checksum IPAddrProofs.

Section Files.
Context `{Abi} (fs : files) (Hfs : files_wf fs).

(** The loop ends, and gives the file or nothing. *)
Lemma read_loop_spec fuel rest buf buf_size :
  (length rest < fuel)%nat -> len buf <= buf_size -> 0 < buf_size ->
  exists r, read_loop fs fuel rest buf buf_size = Some r /\ forall d, r = Some d -> d = buf ++ rest.
Proof using Hfs.
  revert rest buf buf_size. induction fuel as [|fuel IH]; intros rest buf buf_size Hf Hb Hs; [lia|].
  cbn [read_loop].
  assert (Hgo : forall size, len buf < size ->
    exists r, (let n := fread fs rest (size - len buf) in
       if n =? 0 then if len rest =? 0 then Some (Some buf) else Some None else
       read_loop fs fuel (drop (Z.to_nat n) rest) (buf ++ take (Z.to_nat n) rest) size) = Some r
      /\ forall d, r = Some d -> d = buf ++ rest).
  { intros size Hsize. cbv zeta. destruct (Hfs rest (size - len buf) ltac:(lia)) as [H1 H2].
    set (n := fread fs rest (size - len buf)) in *. destruct (Z.eqb_spec n 0) as [E|E].
    - destruct (Z.eqb_spec (len rest) 0) as [Hr|]; [|by exists None].
      exists (Some buf). split; [done|]. intros d [= <-]. by rewrite (len_zero_nil rest Hr), app_nil_r.
    - destruct (IH (drop (Z.to_nat n) rest) (buf ++ take (Z.to_nat n) rest) size) as (r & -> & Hr).
      + rewrite length_drop. rewrite length_len in *. lia.
      + rewrite len_app, len_take by lia. lia.
      + pose_len. lia.
      + exists r. split; [done|]. intros d Hd. rewrite (Hr d Hd), <- app_assoc. f_equal. apply take_drop. }
  destruct (Z.eqb_spec (len buf) buf_size) as [E|E]; [|apply Hgo; lia].
  destruct (SIZE_MAX / buf_size <? 2); [by exists None|].
  destruct (malloc_ok fs (2 * buf_size)); [|by exists None]. apply Hgo. lia.
Qed.

Lemma read_file_spec file :
  exists r, read_file fs file = Some r /\ forall d, r = Some d -> contents fs file = Some d.
Proof using Hfs.
  unfold read_file. destruct (contents fs file) as [data|]; [|by exists None].
  destruct (malloc_ok fs 128); [|by exists None].
  destruct (read_loop_spec (S (length data)) data [] 128) as (r & -> & Hr);
    [lia|change (len (@nil byte)) with 0; lia|lia|].
  exists r. split; [done|]. intros d Hd. by rewrite (Hr d Hd).
Qed.

(** With memory and a file that can be read, the whole file is read. *)
Lemma read_loop_succeeds fuel rest buf buf_size :
  (forall n, malloc_ok fs n = true) ->
  (forall rest n, 0 < n -> rest <> [] -> 0 < fread fs rest n) ->
  (length rest < fuel)%nat -> len buf <= buf_size -> 0 < buf_size -> 2 * buf_size <= SIZE_MAX ->
  4 * (len buf + len rest) <= SIZE_MAX ->
  read_loop fs fuel rest buf buf_size = Some (Some (buf ++ rest)).
Proof using Hfs.
  intros Hm Hprog. revert rest buf buf_size.
  induction fuel as [|fuel IH]; intros rest buf buf_size Hf Hb Hs Hmax Hmax'; [lia|]. cbn [read_loop].
  assert (Hgo : forall size, len buf < size -> 2 * size <= SIZE_MAX ->
    (let n := fread fs rest (size - len buf) in
       if n =? 0 then if len rest =? 0 then Some (Some buf) else Some None else
       read_loop fs fuel (drop (Z.to_nat n) rest) (buf ++ take (Z.to_nat n) rest) size)
    = Some (Some (buf ++ rest))).
  { intros size Hsize H2s. cbv zeta. destruct (Hfs rest (size - len buf) ltac:(lia)) as [H1 H2].
    pose proof (Hprog rest (size - len buf) ltac:(lia)) as H3.
    set (n := fread fs rest (size - len buf)) in *. destruct (Z.eqb_spec n 0) as [E|E].
    - assert (rest = []) as -> by (destruct rest; [done|]; specialize (H3 ltac:(done)); lia).
      by rewrite app_nil_r.
    - rewrite IH; [by rewrite <- app_assoc, take_drop|..].
      + rewrite length_drop. rewrite length_len in *. lia.
      + rewrite len_app, len_take by lia. lia.
      + pose_len. lia.
      + lia.
      + rewrite len_app, len_take, len_drop by lia. lia. }
  destruct (Z.eqb_spec (len buf) buf_size) as [E|E]; [|by apply Hgo; lia].
  assert (2 <= SIZE_MAX / buf_size) by (apply Z.div_le_lower_bound; lia).
  destruct (Z.ltb_spec (SIZE_MAX / buf_size) 2); [lia|]. rewrite Hm. pose_len. apply Hgo; lia.
Qed.
End Files.

Section Process.
Context `{Abi} (fs : files) (Hfs : files_wf fs) (getaddrinfo : resolver) (quad : bytes).
Hypothesis Hquad : len quad = 4.

(** A result that is not undefined, and a success that has a property. *)
Definition checked {A} (x : option (option A)) (P : A -> Prop) : Prop :=
  exists r, x = Some r /\ forall a, r = Some a -> P a.
Lemma checked_refuse {A} (P : A -> Prop) : checked (Some None) P.
Proof. by exists None. Qed.
Lemma checked_check {A B} (x : option A) (k : A -> option (option B)) P :
  (forall a, x = Some a -> checked (k a) P) -> checked (check x k) P.
Proof. destruct x as [a|]; intros H'; [by apply H'|apply checked_refuse]. Qed.

Lemma checked_resolve s k P :
  is_Some s -> (forall ip, checked (k (BIPAddr_IPv4 ip)) P) -> checked (resolve_ipv4 getaddrinfo s k) P.
Proof.
  intros [a ->] Hk. unfold resolve_ipv4. cbn [mbind option_bind]. apply checked_check.
  intros [|ip|ip] _; cbn [is_ipv4]; [apply checked_refuse|apply Hk|apply checked_refuse].
Qed.
Lemma parsed_address str name_len noresolve a name :
  BAddr_Parse2 getaddrinfo str name_len noresolve = Some (a, name) -> BAddr_IsInvalid a = false.
Proof using.
  unfold BAddr_Parse2. intros E.
  repeat first [progress simplify_option_eq | destruct (split_addr _) as [[[[[] ?] ?] ?]|] | case_match]; done.
Qed.
Lemma checked_optional s k P :
  (forall a, (is_Some s -> BAddr_IsInvalid a = false) -> checked (k a) P) -> checked (optional_addr getaddrinfo s k) P.
Proof.
  intros Hk. destruct s as [s|]; cbn [optional_addr]; [|by apply Hk; intros []].
  apply checked_check. intros [a name] Ha. apply Hk. intros _. by eapply parsed_address.
Qed.

(** The authentication methods that are offered to the SOCKS server. *)
Definition auth_ok (o : options) (infos : list BSocksClient_auth_info) (kept : option bytes) : Prop :=
  match username o with
  | None => infos = [BSocksClient_auth_none] /\ kept = None
  | Some user =>
      exists pw, infos = [BSocksClient_auth_none; BSocksClient_auth_password user pw] /\
        match password o with
        | Some p => pw = p /\ kept = None
        | None => kept = Some pw /\ exists file, password_file o = Some file /\ contents fs file = Some pw
        end
  end.
Lemma checked_auth o k P :
  (is_Some (username o) -> is_Some (password o) <-> password_file o = None) ->
  (forall infos kept, auth_ok o infos kept -> checked (k infos kept) P) ->
  checked (auth_infos fs o k) P.
Proof using Hfs.
  intros Hpw Hk. unfold auth_infos, auth_ok in *. destruct (username o) as [user|]; [|by apply Hk].
  specialize (Hpw ltac:(by eexists)). destruct (password o) as [p|] eqn:Ep.
  - apply Hk. by exists p.
  - destruct (password_file o) as [file|] eqn:Ef.
    2:{ destruct (proj2 Hpw eq_refl) as [? [=]]. }
    cbn [mbind option_bind]. destruct (read_file_spec fs Hfs file) as (r & -> & Hr).
    cbn [mbind option_bind]. apply checked_check. intros data ->. apply Hk. exists data.
    split; [done|]. split; [done|]. exists file. split; [done|by apply Hr].
Qed.
End Process.
End ProcessProofs.
Import IPAddrProofs ProcessProofs.

(** Start-up: with the options that [parse_arguments] returns, and neither
    [--help] nor [--version], [process_arguments] reads no NULL string and
    nothing out of bounds. When it succeeds the interface has an IPv4 address and an IPv4
    netmask, the DNS gateway, if it is given, is an IPv4 address, the servers
    have addresses, and the methods offered to the SOCKS server are no authentication and, with a user
    name, that name with the password given or the contents of the file. *)
Theorem arguments_processed `{Abi} fs getaddrinfo quad channels argv o :
  files_wf fs -> len quad = 4 ->
  parse_arguments channels argv = Some (Some o) -> help o = false -> version o = false ->
  exists r, process_arguments fs getaddrinfo quad o = Some r /\
    forall a, r = Some a ->
      is_ipv4 (a_netif_ipaddr a) = true /\ is_ipv4 (a_netif_netmask a) = true
      /\ (is_Some (dnsgw o) -> is_ipv4 (BAddr_GetIPAddr (a_dnsgw a)) = true)
      /\ BAddr_IsInvalid (a_socks_server_addr a) = false
      /\ (is_Some (udpgw_remote_server_addr o) -> BAddr_IsInvalid (a_udpgw_remote_server_addr a) = false)
      /\ auth_ok fs o (socks_auth_info a) (password_file_contents a).
Proof.
  intros Hfs Hquad Hparse Hhelp Hversion.
  assert (Hc : options_complete o).
  { unfold parse_arguments in Hparse. destruct argv as [|argv0 args]; [done|].
    destruct (parse_loop _ _ _ _) as [[o'|]|]; [|done..]. cbn in Hparse.
    destruct (check_options o') eqn:E; [|done]. injection Hparse as ->. by apply check_options_spec. }
  destruct Hc as [Hc|[Hc|(Hip & Hmask & Hserver & Hpw)]]; [congruence..|].
  change (checked (process_arguments fs getaddrinfo quad o) (fun a =>
      is_ipv4 (a_netif_ipaddr a) = true /\ is_ipv4 (a_netif_netmask a) = true
      /\ (is_Some (dnsgw o) -> is_ipv4 (BAddr_GetIPAddr (a_dnsgw a)) = true)
      /\ BAddr_IsInvalid (a_socks_server_addr a) = false
      /\ (is_Some (udpgw_remote_server_addr o) -> BAddr_IsInvalid (a_udpgw_remote_server_addr a) = false)
      /\ auth_ok fs o (socks_auth_info a) (password_file_contents a))).
  unfold process_arguments. apply checked_resolve; [done|]. intros ip.
  apply checked_resolve; [done|]. intros mask.
  assert (Hip6 : exists ip6, match netif_ip6addr o with
      | None => Some (Some (replicate 16 x00))
      | Some s => ipaddr6_parse_ipv6_addr_bin quad (replicate 16 x00) s
      end = Some ip6).
  { destruct (netif_ip6addr o) as [s|]; [|by eexists].
    destruct (parse_sound quad (replicate 16 x00) Hquad ltac:(done) s) as (r & -> & _). by eexists. }
  destruct Hip6 as [ip6 ->]. cbn [mbind option_bind]. apply checked_check. intros a6 _.
  destruct Hserver as [server ->]. cbn [mbind option_bind]. apply checked_check. intros [sa name] Hsa.
  apply checked_auth; [done|done|]. intros infos kept Hauth.
  apply checked_optional. intros udpgw Hudpgw. apply checked_optional. intros dns Hdns.
  destruct (is_set (dnsgw o) && negb (is_ipv4 (BAddr_GetIPAddr dns))) eqn:E; [apply checked_refuse|].
  eexists. split; [done|]. intros a [= <-]. cbn. split_and!; [done|done| |by eapply parsed_address|done..].
  intros [s Hs]. rewrite Hs in E. cbn in E. by destruct (is_ipv4 _).
Qed.

(** [read_file] returns the contents of the file, however [fread] divides it,
    when the allocations succeed. *)
Theorem read_file_reads `{Abi} fs file data :
  files_wf fs -> (forall n, malloc_ok fs n = true) ->
  (forall rest n, 0 < n -> rest <> [] -> 0 < fread fs rest n) ->
  contents fs file = Some data -> 4 * len data <= SIZE_MAX ->
  read_file fs file = Some (Some data).
Proof.
  intros Hfs Hm Hprog Hc Hmax. unfold read_file. rewrite Hc, Hm.
  pose proof size_max_ge. rewrite (read_loop_succeeds fs Hfs); try done; try lia.
Qed.

Module OptionsWitnesses.
Import AddrTextWitnesses.
(** The command line of [SocksVpnService.groovy]. *)
Definition app_args : list bytes :=
  map chars ["--netif-ipaddr"; "26.26.26.2"; "--netif-netmask"; "255.255.255.0";
             "--socks-server-addr"; "127.0.0.1:1080"; "--tunfd"; "42"; "--tunmtu"; "1500";
             "--loglevel"; "3"; "--pid"; "tun2socks.pid"; "--dnsgw"; "26.26.26.1:8091"]%string.
Definition demo_channels : list bytes := map chars ["tun2socks"; "BReactor"]%string.
Definition app_opts : list opt :=
  [OStr KIpaddr (chars "26.26.26.2"); OStr KNetmask (chars "255.255.255.0");
   OStr KServer (chars "127.0.0.1:1080"); ONum NFd (chars "42"); ONum NMtu (chars "1500");
   OLevel (chars "3"); OStr KPid (chars "tun2socks.pid"); OStr KDnsgw (chars "26.26.26.1:8091")].
Definition app_options : options :=
  fold_left (apply_opt demo_channels) app_opts (initial_options demo_channels (chars "tun2socks")).

Lemma parse_arguments_exact_witness :
  parse_arguments demo_channels (chars "tun2socks" :: app_args) = Some (Some app_options).
Proof.
  apply (parse_arguments_exact demo_channels (chars "tun2socks") app_args). exists app_opts.
  split; [|split; [done|split; [done|]]].
  - repeat constructor; try (vm_compute; discriminate).
    + exists 42. by split.
    + exists 1500. by split.
  - right. right. split_and!; by (eexists || intros [? ?]).
Defined.

(** A file system with one file, read three bytes at a time. *)
Definition demo_files : files :=
  mk_files (fun _ => Some (chars "secret")) (fun rest n => Z.min 3 (Z.min n (len rest))) (fun _ => true).
Lemma demo_files_wf : files_wf demo_files.
Proof. intros rest n Hn. cbn. pose_len. lia. Qed.

Lemma arguments_processed_witness :
  exists r, process_arguments (H := abi64) demo_files numeric_resolver (replicate 4 x00) app_options = Some r
    /\ forall a, r = Some a -> is_ipv4 (a_netif_ipaddr a) = true.
Proof.
  destruct (arguments_processed (H := abi64) demo_files numeric_resolver (replicate 4 x00) demo_channels
    (chars "tun2socks" :: app_args) app_options demo_files_wf ltac:(done) ltac:(by vm_compute)
    ltac:(done) ltac:(done)) as (r & Hr & Ha).
  exists r. split; [exact Hr|]. intros a E. by apply Ha.
Defined.
Example app_addresses :
  process_arguments (H := abi64) demo_files numeric_resolver (replicate 4 x00) app_options
  = Some (Some (mk_addresses (BIPAddr_IPv4 0x021a1a1a) (BIPAddr_IPv4 0x00ffffff) (replicate 16 x00)
      (BAddr_IPv4 0x0100007f 0x3804) [BSocksClient_auth_none] None BAddr_None
      (BAddr_IPv4 0x011a1a1a 0x9b1f))).
Proof. by vm_compute. Qed.
Lemma read_file_reads_witness :
  read_file (H := abi64) demo_files (chars "password.txt") = Some (Some (chars "secret")).
Proof.
  apply (read_file_reads (H := abi64)); [apply demo_files_wf|done| |done|by vm_compute].
  intros rest n Hn Hr. cbn. destruct rest as [|c rest]; [done|]. rewrite len_cons. pose_len. lia.
Defined.
End OptionsWitnesses.
