(* ===== verification/FlowInterfaces.v ===== *)
(** * The interfaces between flow components

    [flow/PacketPassInterface.[ch]], [flow/PacketRecvInterface.[ch]],
    [flow/StreamPassInterface.[ch]], [flow/StreamRecvInterface.[ch]]: how two
    neighbours pass packets or a stream.  A call across an interface is not
    direct: it sets a job, which calls the handler of the other side.

    An interface is a part of the state of a larger component: a [port] tells
    which part, and names the jobs of the interface.  The group of pending jobs
    is the stack that [BPending] was shown to be.  What a callback does is up
    to the component: the functions that a job runs return what they pass to it. *)
From S2P Require Import Prelude.

(** ** Jobs *)

Inductive job_kind := Operation | Requestcancel | Done.
#[export] Instance job_kind_eq_dec : EqDecision job_kind.
Proof. solve_decision. Defined.

(** The states, [PPI_STATE_NONE] to [PPI_STATE_DONE_PENDING] and so on. *)
Inductive if_state := STATE_NONE | STATE_OPERATION_PENDING | STATE_BUSY | STATE_DONE_PENDING.
#[export] Instance if_state_eq_dec : EqDecision if_state.
Proof. solve_decision. Defined.

(** Interfaces of a component have names of type [Id]. *)
Class Jobs (St Id : Type) := { jobs : St -> list (Id * job_kind); set_jobs : list (Id * job_kind) -> St -> St }.

Record port (St Id I : Type) := mk_port { port_id : Id; port_get : St -> I; port_set : I -> St -> St }.
Arguments mk_port {St Id I}. Arguments port_id {St Id I}. Arguments port_get {St Id I}. Arguments port_set {St Id I}.

(** ** Interfaces

    [D] is what a data pointer is seen as: its contents, when these do not
    change while it is passed, or an address. *)

Record PacketPassInterface (D : Type) := mk_ppi {
  ppi_mtu : Z;
  ppi_has_requestcancel : bool; (* handler_requestcancel *)
  ppi_has_done : bool; (* handler_done *)
  ppi_data : option D; (* job_operation_data *)
  ppi_len : Z; (* job_operation_len *)
  ppi_state : if_state;
  ppi_cancel_requested : bool }.
Arguments mk_ppi {D}. Arguments ppi_mtu {D}. Arguments ppi_has_requestcancel {D}. Arguments ppi_has_done {D}.
Arguments ppi_data {D}. Arguments ppi_len {D}. Arguments ppi_state {D}. Arguments ppi_cancel_requested {D}.
#[export] Instance ppi_eta D : Eta (PacketPassInterface D) := fun r =>
  mk_ppi (ppi_mtu r) (ppi_has_requestcancel r) (ppi_has_done r) (ppi_data r) (ppi_len r) (ppi_state r)
    (ppi_cancel_requested r).

Record PacketRecvInterface (D : Type) := mk_pri {
  pri_mtu : Z;
  pri_has_done : bool;
  pri_data : option D;
  pri_done_len : Z; (* job_done_len *)
  pri_state : if_state }.
Arguments mk_pri {D}. Arguments pri_mtu {D}. Arguments pri_has_done {D}. Arguments pri_data {D}.
Arguments pri_done_len {D}. Arguments pri_state {D}.
#[export] Instance pri_eta D : Eta (PacketRecvInterface D) := fun r =>
  mk_pri (pri_mtu r) (pri_has_done r) (pri_data r) (pri_done_len r) (pri_state r).

(** A stream interface for passing; that for receiving is the same, as its
    source says. *)
Record StreamPassInterface (D : Type) := mk_spi {
  spi_has_done : bool;
  spi_data : option D;
  spi_len : Z;
  spi_done_len : Z;
  spi_state : if_state }.
Arguments mk_spi {D}. Arguments spi_has_done {D}. Arguments spi_data {D}. Arguments spi_len {D}.
Arguments spi_done_len {D}. Arguments spi_state {D}.
#[export] Instance spi_eta D : Eta (StreamPassInterface D) := fun r =>
  mk_spi (spi_has_done r) (spi_data r) (spi_len r) (spi_done_len r) (spi_state r).

Section interfaces.
Context {St Out Id D : Type} `{EqDecision Id} {group : Jobs St Id}.
Abbreviation hdl := (handler St Out).
Abbreviation ppi := (port St Id (PacketPassInterface D)).
Abbreviation pri := (port St Id (PacketRecvInterface D)).
Abbreviation spi := (port St Id (StreamPassInterface D)).

Definition unset (j : Id * job_kind) (l : list (Id * job_kind)) : list (Id * job_kind) := filter (fun k => k <> j) l.
Definition BPending_Set (j : Id * job_kind) : hdl unit := modify (fun s => set_jobs (j :: unset j (jobs s)) s).
Definition BPending_Unset (j : Id * job_kind) : hdl unit := modify (fun s => set_jobs (unset j (jobs s)) s).

Definition get_if {I} (p : port St Id I) : hdl I := gets (port_get p).
Definition set_if {I} (p : port St Id I) (i : I) : hdl unit := modify (port_set p i).
Definition in_state (i st : if_state) : hdl unit := ASSERT (bool_decide (i = st)).

(** *** [PacketPassInterface] *)

Definition PacketPassInterface_Init (p : ppi) (mtu : Z) : hdl unit :=
  ASSERT (0 <=? mtu);;
  set_if p (mk_ppi mtu false false None 0 STATE_NONE false).

Definition PacketPassInterface_Free (p : ppi) : hdl unit :=
  BPending_Unset (port_id p, Done);;
  BPending_Unset (port_id p, Requestcancel);;
  BPending_Unset (port_id p, Operation).

Definition PacketPassInterface_EnableCancel (p : ppi) : hdl unit :=
  i ← get_if p;
  ASSERT (negb (ppi_has_requestcancel i));;
  ASSERT (negb (ppi_has_done i));;
  set_if p (i <| ppi_has_requestcancel := true |>).

Definition PacketPassInterface_Done (p : ppi) : hdl unit :=
  i ← get_if p;
  in_state (ppi_state i) STATE_BUSY;;
  BPending_Unset (port_id p, Requestcancel);;
  BPending_Set (port_id p, Done);;
  i ← get_if p;
  set_if p (i <| ppi_state := STATE_DONE_PENDING |>).

Definition PacketPassInterface_GetMTU (p : ppi) : hdl Z := i ← get_if p; mret (ppi_mtu i).

Definition PacketPassInterface_Sender_Init (p : ppi) : hdl unit :=
  i ← get_if p;
  ASSERT (negb (ppi_has_done i));;
  set_if p (i <| ppi_has_done := true |>).

Definition PacketPassInterface_Sender_Send (p : ppi) (data : option D) (data_len : Z) : hdl unit :=
  i ← get_if p;
  ASSERT (0 <=? data_len);;
  ASSERT (data_len <=? ppi_mtu i);;
  ASSERT (negb (0 <? data_len) || match data with Some _ => true | None => false end);;
  in_state (ppi_state i) STATE_NONE;;
  ASSERT (ppi_has_done i);;
  set_if p (i <| ppi_data := data |> <| ppi_len := data_len |>);;
  BPending_Set (port_id p, Operation);;
  i ← get_if p;
  set_if p (i <| ppi_state := STATE_OPERATION_PENDING |> <| ppi_cancel_requested := false |>).

Definition PacketPassInterface_Sender_RequestCancel (p : ppi) : hdl unit :=
  i ← get_if p;
  ASSERT (negb (bool_decide (ppi_state i = STATE_NONE)));;
  ASSERT (ppi_has_requestcancel i);;
  if ppi_cancel_requested i then mret tt else
  set_if p (i <| ppi_cancel_requested := true |>);;
  match ppi_state i with
  | STATE_OPERATION_PENDING =>
      BPending_Unset (port_id p, Operation);;
      BPending_Set (port_id p, Done);;
      i ← get_if p;
      set_if p (i <| ppi_state := STATE_DONE_PENDING |>)
  | STATE_BUSY => BPending_Set (port_id p, Requestcancel)
  | _ => mret tt
  end.

Definition PacketPassInterface_HasCancel (p : ppi) : hdl bool := i ← get_if p; mret (ppi_has_requestcancel i).

(** What is passed to [handler_operation]. *)
Definition _PacketPassInterface_job_operation (p : ppi) : hdl (option D * Z) :=
  i ← get_if p;
  in_state (ppi_state i) STATE_OPERATION_PENDING;;
  set_if p (i <| ppi_state := STATE_BUSY |>);;
  mret (ppi_data i, ppi_len i).
Definition _PacketPassInterface_job_requestcancel (p : ppi) : hdl unit :=
  i ← get_if p;
  in_state (ppi_state i) STATE_BUSY;;
  ASSERT (ppi_cancel_requested i);;
  ASSERT (ppi_has_requestcancel i).
Definition _PacketPassInterface_job_done (p : ppi) : hdl unit :=
  i ← get_if p;
  in_state (ppi_state i) STATE_DONE_PENDING;;
  set_if p (i <| ppi_state := STATE_NONE |>).

(** *** [PacketRecvInterface] *)

Definition PacketRecvInterface_Init (p : pri) (mtu : Z) : hdl unit :=
  ASSERT (0 <=? mtu);;
  set_if p (mk_pri mtu false None 0 STATE_NONE).

Definition PacketRecvInterface_Free (p : pri) : hdl unit :=
  BPending_Unset (port_id p, Done);;
  BPending_Unset (port_id p, Operation).

Definition PacketRecvInterface_Done (p : pri) (data_len : Z) : hdl unit :=
  i ← get_if p;
  ASSERT (0 <=? data_len);;
  ASSERT (data_len <=? pri_mtu i);;
  in_state (pri_state i) STATE_BUSY;;
  set_if p (i <| pri_done_len := data_len |>);;
  BPending_Set (port_id p, Done);;
  i ← get_if p;
  set_if p (i <| pri_state := STATE_DONE_PENDING |>).

Definition PacketRecvInterface_GetMTU (p : pri) : hdl Z := i ← get_if p; mret (pri_mtu i).

Definition PacketRecvInterface_Receiver_Init (p : pri) : hdl unit :=
  i ← get_if p;
  ASSERT (negb (pri_has_done i));;
  set_if p (i <| pri_has_done := true |>).

Definition PacketRecvInterface_Receiver_Recv (p : pri) (data : option D) : hdl unit :=
  i ← get_if p;
  ASSERT (negb (0 <? pri_mtu i) || match data with Some _ => true | None => false end);;
  in_state (pri_state i) STATE_NONE;;
  ASSERT (pri_has_done i);;
  set_if p (i <| pri_data := data |>);;
  BPending_Set (port_id p, Operation);;
  i ← get_if p;
  set_if p (i <| pri_state := STATE_OPERATION_PENDING |>).

Definition _PacketRecvInterface_job_operation (p : pri) : hdl (option D) :=
  i ← get_if p;
  in_state (pri_state i) STATE_OPERATION_PENDING;;
  set_if p (i <| pri_state := STATE_BUSY |>);;
  mret (pri_data i).
Definition _PacketRecvInterface_job_done (p : pri) : hdl Z :=
  i ← get_if p;
  in_state (pri_state i) STATE_DONE_PENDING;;
  set_if p (i <| pri_state := STATE_NONE |>);;
  mret (pri_done_len i).

(** *** [StreamPassInterface] *)

Definition StreamPassInterface_Init (p : spi) : hdl unit := set_if p (mk_spi false None 0 0 STATE_NONE).

Definition StreamPassInterface_Free (p : spi) : hdl unit :=
  BPending_Unset (port_id p, Done);;
  BPending_Unset (port_id p, Operation).

Definition StreamPassInterface_Done (p : spi) (data_len : Z) : hdl unit :=
  i ← get_if p;
  in_state (spi_state i) STATE_BUSY;;
  ASSERT (0 <? data_len);;
  ASSERT (data_len <=? spi_len i);;
  set_if p (i <| spi_done_len := data_len |>);;
  BPending_Set (port_id p, Done);;
  i ← get_if p;
  set_if p (i <| spi_state := STATE_DONE_PENDING |>).

Definition StreamPassInterface_Sender_Init (p : spi) : hdl unit :=
  i ← get_if p;
  ASSERT (negb (spi_has_done i));;
  set_if p (i <| spi_has_done := true |>).

Definition StreamPassInterface_Sender_Send (p : spi) (data : option D) (data_len : Z) : hdl unit :=
  i ← get_if p;
  ASSERT (0 <? data_len);;
  ASSERT (match data with Some _ => true | None => false end);;
  in_state (spi_state i) STATE_NONE;;
  ASSERT (spi_has_done i);;
  set_if p (i <| spi_data := data |> <| spi_len := data_len |>);;
  BPending_Set (port_id p, Operation);;
  i ← get_if p;
  set_if p (i <| spi_state := STATE_OPERATION_PENDING |>).

Definition _StreamPassInterface_job_operation (p : spi) : hdl (option D * Z) :=
  i ← get_if p;
  in_state (spi_state i) STATE_OPERATION_PENDING;;
  set_if p (i <| spi_state := STATE_BUSY |>);;
  mret (spi_data i, spi_len i).
Definition _StreamPassInterface_job_done (p : spi) : hdl Z :=
  i ← get_if p;
  in_state (spi_state i) STATE_DONE_PENDING;;
  set_if p (i <| spi_state := STATE_NONE |>);;
  mret (spi_done_len i).

(** *** [StreamRecvInterface] *)

Definition StreamRecvInterface_Init : spi -> hdl unit := StreamPassInterface_Init.
Definition StreamRecvInterface_Free : spi -> hdl unit := StreamPassInterface_Free.
Definition StreamRecvInterface_Done : spi -> Z -> hdl unit := StreamPassInterface_Done.
Definition StreamRecvInterface_Receiver_Init : spi -> hdl unit := StreamPassInterface_Sender_Init.
Definition StreamRecvInterface_Receiver_Recv : spi -> option D -> Z -> hdl unit := StreamPassInterface_Sender_Send.
Definition _StreamRecvInterface_job_operation : spi -> hdl (option D * Z) := _StreamPassInterface_job_operation.
Definition _StreamRecvInterface_job_done : spi -> hdl Z := _StreamPassInterface_job_done.
End interfaces.

(** ** Running handlers that use interfaces

    [flow_steps] runs a handler on a state whose fields are known, through the
    functions that the database [flow] tells to unfold. *)
Create HintDb flow.
#[export] Hint Unfold BPending_Set BPending_Unset get_if set_if in_state
  PacketPassInterface_Init PacketPassInterface_Free PacketPassInterface_Done PacketPassInterface_GetMTU
  PacketPassInterface_HasCancel PacketPassInterface_Sender_Init PacketPassInterface_Sender_Send
  _PacketPassInterface_job_operation _PacketPassInterface_job_done
  PacketRecvInterface_Init PacketRecvInterface_Free PacketRecvInterface_Done PacketRecvInterface_GetMTU
  PacketRecvInterface_Receiver_Init PacketRecvInterface_Receiver_Recv
  _PacketRecvInterface_job_operation _PacketRecvInterface_job_done
  StreamPassInterface_Init StreamPassInterface_Free StreamPassInterface_Done StreamPassInterface_Sender_Init
  StreamPassInterface_Sender_Send _StreamPassInterface_job_operation _StreamPassInterface_job_done : flow.

Lemma keeps_gets {St Out A E} (f : St -> E) (g : St -> A) : keeps f (gets (Out := Out) g).
Proof. by intros s a s' l [= <- <- <-]. Qed.
#[export] Hint Resolve keeps_gets : keeps.

(** The tests of the code. *)
Ltac flow_test :=
  first [done | by rewrite orb_true_r | zlia | by apply bool_decide_true | by destruct (0 <? _)].
Ltac flow_steps := repeat (autounfold with flow; cbn;
  lazymatch goal with
  | |- wp (ASSERT _) _ _ => apply wp_assert; [flow_test|]
  | |- wp (of_option (Some _)) _ _ => eapply wp_of_option; [reflexivity|]
  | _ => hstep
  end; cbn).
