(* ===== verification/ProtoFlow.v ===== *)
(** * Framing in front of the fair queue

    [flow/PacketProtoFlow.c] and [flow/BufferWriter.c]: the writer that a
    connection of the udpgw client puts its packets in, the encoder of
    [PacketProto] and the [PacketBuffer] of [ChunkBuffer], composed through
    their interfaces and jobs as [PacketProtoFlow_Init] does, in front of the
    input of the fair queue.  All three work in place, on the memory of the
    packet buffer: the user writes a packet behind the room for its header, and
    the queue reads it from where it was encoded.  Pointers are offsets. *)
From S2P Require Import Prelude FlowInterfaces.
From S2P Require PacketProto ChunkBuffer.
Import ChunkBuffer.ChunkBuffer2.

Abbreviation PACKETPROTO_MAXPAYLOAD := PacketProto.PACKETPROTO_MAXPAYLOAD.
Abbreviation PACKETPROTO_ENCLEN := PacketProto.PACKETPROTO_ENCLEN.
Abbreviation encode := PacketProto.encode.
Abbreviation pktbuf := ChunkBuffer.PacketBuffer.pktbuf.
Abbreviation buf := ChunkBuffer.PacketBuffer.buf.
Abbreviation input_mtu := ChunkBuffer.PacketBuffer.input_mtu.

#[export] Existing Instance ChunkBuffer.PacketBuffer.pktbuf_eta.

(** ** State *)

Inductive iface := Writer_output | Encoder_output | Queue_input.
#[export] Instance iface_eq_dec : EqDecision iface.
Proof. solve_decision. Defined.

Record BufferWriter := mk_writer {
  recv_interface : PacketRecvInterface Z;
  out_have : bool;
  out : option Z;
  d_mtu : Z;
  d_writing : bool }.
#[export] Instance writer_eta : Eta BufferWriter := fun r =>
  mk_writer (recv_interface r) (out_have r) (out r) (d_mtu r) (d_writing r).

(** [output_packet] and [encoder_output] are the fields of the encoder. *)
Record PacketProtoFlow := mk_flow {
  pending : list (iface * job_kind);
  ainput : BufferWriter;
  output_packet : option Z;
  encoder_output : PacketRecvInterface Z;
  buffer : pktbuf;
  queue_input : PacketPassInterface Z }.
#[export] Instance flow_eta : Eta PacketProtoFlow := fun r =>
  mk_flow (pending r) (ainput r) (output_packet r) (encoder_output r) (buffer r) (queue_input r).
#[export] Instance flow_jobs : Jobs PacketProtoFlow iface := {|
  jobs := pending; set_jobs l s := s <| pending := l |> |}.

Definition writer_port : port PacketProtoFlow iface (PacketRecvInterface Z) :=
  mk_port Writer_output (fun s => recv_interface (ainput s))
    (fun i s => s <| ainput := ainput s <| recv_interface := i |> |>).
Definition encoder_port : port PacketProtoFlow iface (PacketRecvInterface Z) :=
  mk_port Encoder_output encoder_output (fun i s => s <| encoder_output := i |>).
Definition queue_port : port PacketProtoFlow iface (PacketPassInterface Z) :=
  mk_port Queue_input queue_input (fun i s => s <| queue_input := i |>).

(** The answer to the user, the packets it has written, and those that the queue
    is given and has finished with. *)
Inductive out_call :=
  | Started (ok : bool)
  | Accepted (p : bytes)
  | Handed (p : bytes)
  | Taken (p : bytes)
  | Buffer_freed.
Definition hdl := handler PacketProtoFlow out_call.

Definition set_writer (f : BufferWriter -> BufferWriter) : hdl unit := modify (fun s => s <| ainput := f (ainput s) |>).
Definition memory (s : PacketProtoFlow) : bytes := mem (buf (buffer s)).
Definition set_memory (m : bytes) (s : PacketProtoFlow) : PacketProtoFlow :=
  s <| buffer := buffer s <| ChunkBuffer.PacketBuffer.buf := buf (buffer s) <| mem := m |> |> |>.

(** ** [BufferWriter.c] *)

Module BufferWriter.
Definition output_handler_recv (data : option Z) : hdl unit :=
  o ← gets ainput;
  ASSERT (negb (out_have o));;
  set_writer (fun o => o <| out_have := true |> <| out := data |>).

Definition BufferWriter_Init (mtu : Z) : hdl unit :=
  ASSERT (0 <=? mtu);;
  PacketRecvInterface_Init writer_port mtu;;
  set_writer (fun o => o <| out_have := false |>);;
  set_writer (fun o => o <| d_mtu := mtu |> <| d_writing := false |>).

Definition BufferWriter_Free : hdl unit := PacketRecvInterface_Free writer_port.

(** The result, and what is stored in [*buf]. *)
Definition BufferWriter_StartPacket : hdl (bool * option Z) :=
  o ← gets ainput;
  ASSERT (negb (d_writing o));;
  if negb (out_have o) then mret (false, None) else
  set_writer (fun o => o <| d_writing := true |>);;
  mret (true, out o).

Definition BufferWriter_EndPacket (n : Z) : hdl unit :=
  o ← gets ainput;
  ASSERT (0 <=? n);;
  ASSERT (n <=? d_mtu o);;
  ASSERT (out_have o);;
  ASSERT (d_writing o);;
  set_writer (fun o => o <| out_have := false |>);;
  PacketRecvInterface_Done writer_port n;;
  set_writer (fun o => o <| d_writing := false |>).
End BufferWriter.
Import BufferWriter.

(** ** The encoder and the buffer, with their interfaces

    A handler of theirs makes its calls last. *)

Fixpoint perform {O} (f : O -> hdl unit) (l : list O) : hdl unit :=
  match l with [] => mret tt | o :: l => f o;; perform f l end.

Definition encoder_call (o : PacketProto.PacketProtoEncoder.out) : hdl unit :=
  match o with
  | PacketProto.PacketProtoEncoder.Receiver_Recv data => PacketRecvInterface_Receiver_Recv writer_port (Some data)
  | PacketProto.PacketProtoEncoder.Done n => PacketRecvInterface_Done encoder_port n
  end.
Definition the_encoder (s : PacketProtoFlow) : PacketProto.PacketProtoEncoder.encoder :=
  PacketProto.PacketProtoEncoder.mk_encoder (pri_mtu (recv_interface (ainput s))) (output_packet s) (memory s).
Definition put_encoder (e : PacketProto.PacketProtoEncoder.encoder) (s : PacketProtoFlow) : PacketProtoFlow :=
  set_memory (PacketProto.PacketProtoEncoder.mem e) s <| output_packet := PacketProto.PacketProtoEncoder.output_packet e |>.
Definition on_encoder (h : handler PacketProto.PacketProtoEncoder.encoder PacketProto.PacketProtoEncoder.out unit) : hdl unit :=
  fun s => match h (the_encoder s) with
           | Some (_, e, l) => perform encoder_call l (put_encoder e s)
           | None => None
           end.

Definition buffer_call (o : ChunkBuffer.PacketBuffer.out) : hdl unit :=
  match o with
  | ChunkBuffer.PacketBuffer.Receiver_Recv data => PacketRecvInterface_Receiver_Recv encoder_port data
  | ChunkBuffer.PacketBuffer.Sender_Send data n => PacketPassInterface_Sender_Send queue_port data n
  end.
Definition on_buffer (h : handler pktbuf ChunkBuffer.PacketBuffer.out unit) : hdl unit :=
  fun s => match h (buffer s) with
           | Some (_, b, l) => perform buffer_call l (s <| buffer := b |>)
           | None => None
           end.

Definition PacketProtoEncoder_Init : hdl unit :=
  mtu ← PacketRecvInterface_GetMTU writer_port;
  e ← of_option (PacketProto.PacketProtoEncoder.PacketProtoEncoder_Init mtu);
  PacketRecvInterface_Receiver_Init writer_port;;
  PacketRecvInterface_Init encoder_port (PacketProto.PacketProtoEncoder.output_mtu e);;
  modify (fun s => s <| output_packet := PacketProto.PacketProtoEncoder.output_packet e |>).
Definition PacketProtoEncoder_Free : hdl unit := PacketRecvInterface_Free encoder_port.

Definition PacketBuffer_Init (num_packets : Z) (BAlloc : Z -> option bytes) : hdl bool :=
  mtu_out ← PacketPassInterface_GetMTU queue_port;
  mtu_in ← PacketRecvInterface_GetMTU encoder_port;
  PacketRecvInterface_Receiver_Init encoder_port;;
  PacketPassInterface_Sender_Init queue_port;;
  x ← of_option (ChunkBuffer.PacketBuffer.PacketBuffer_Init mtu_in mtu_out num_packets BAlloc);
  match x with
  | None => mret false
  | Some (b, l) => modify (fun s => s <| buffer := b |>);; perform buffer_call l;; mret true
  end.
Definition PacketBuffer_Free : hdl unit := call Buffer_freed.

(** ** [PacketProtoFlow.c] *)

Definition PacketProtoFlow_Init (mtu num_packets : Z) (BAlloc : Z -> option bytes) : hdl bool :=
  ASSERT (0 <=? mtu);;
  ASSERT (mtu <=? PACKETPROTO_MAXPAYLOAD);;
  ASSERT (0 <? num_packets);;
  output_mtu ← PacketPassInterface_GetMTU queue_port;
  ASSERT (PACKETPROTO_ENCLEN mtu <=? output_mtu);;
  BufferWriter_Init mtu;;
  PacketProtoEncoder_Init;;
  b ← PacketBuffer_Init num_packets BAlloc;
  if negb b then
    PacketProtoEncoder_Free;;
    BufferWriter_Free;;
    mret false
  else mret true.

Definition PacketProtoFlow_Free : hdl unit :=
  PacketBuffer_Free;;
  PacketProtoEncoder_Free;;
  BufferWriter_Free.

(** ** Events

    Those of the user of the writer, the jobs, and the queue that has finished
    with a packet. *)
Inductive event := Start_packet | End_packet (p : bytes) | Execute_job | Queue_done.

(** The user has written [p] where it was told to. *)
Definition end_packet (p : bytes) : hdl unit :=
  o ← gets ainput;
  d ← of_option (out o);
  m ← gets memory;
  m ← of_option (store d p m);
  modify (set_memory m);;
  call (Accepted p);;
  BufferWriter_EndPacket (len p).

Definition read_packet (data : option Z) (n : Z) : hdl bytes :=
  d ← of_option data;
  m ← gets memory;
  of_option (load d n m).

Definition dispatch (j : iface * job_kind) : hdl unit :=
  match j with
  | (Writer_output, Operation) => data ← _PacketRecvInterface_job_operation writer_port; output_handler_recv data
  | (Writer_output, Done) =>
      n ← _PacketRecvInterface_job_done writer_port;
      on_encoder (PacketProto.PacketProtoEncoder.input_handler_done n)
  | (Encoder_output, Operation) =>
      data ← _PacketRecvInterface_job_operation encoder_port;
      data ← of_option data; (* the [ASSERT] of the handler *)
      on_encoder (PacketProto.PacketProtoEncoder.output_handler_recv data)
  | (Encoder_output, Done) =>
      n ← _PacketRecvInterface_job_done encoder_port;
      on_buffer (ChunkBuffer.PacketBuffer.input_handler_done n)
  | (Queue_input, Operation) =>
      '(data, n) ← _PacketPassInterface_job_operation queue_port;
      p ← read_packet data n;
      call (Handed p)
  | (Queue_input, Done) =>
      _PacketPassInterface_job_done queue_port;;
      on_buffer ChunkBuffer.PacketBuffer.output_handler_done
  | _ => ASSERT false
  end.
Definition execute_job : hdl unit :=
  l ← gets pending;
  match l with
  | [] => ASSERT false
  | j :: l => modify (fun s => s <| pending := l |>);; dispatch j
  end.

Definition exec (e : event) : hdl unit :=
  match e with
  | Start_packet => '(ok, _) ← BufferWriter_StartPacket; call (Started ok)
  | End_packet p => end_packet p
  | Execute_job => execute_job
  | Queue_done =>
      i ← gets queue_input;
      p ← read_packet (ppi_data i) (ppi_len i);
      call (Taken p);;
      PacketPassInterface_Done queue_port
  end.

Definition event_ok (s : PacketProtoFlow) (e : event) : bool :=
  match e with
  | Start_packet => negb (d_writing (ainput s))
  | End_packet p => d_writing (ainput s) && (len p <=? d_mtu (ainput s))
  | Execute_job => negb (bool_decide (pending s = []))
  | Queue_done => bool_decide (ppi_state (queue_input s) = STATE_BUSY)
  end.

Fixpoint run (evs : list event) : hdl unit :=
  match evs with [] => mret tt | e :: evs => exec e;; run evs end.
Fixpoint legal (evs : list event) (s : PacketProtoFlow) : bool :=
  match evs with
  | [] => true
  | e :: evs => event_ok s e && match exec e s with Some (_, s', _) => legal evs s' | None => true end
  end.

(** [connection_init] and [connection_free] of [udpgw_client/UdpGwClient.c]: the
    flow of the queue, of which [queue_mtu] is the MTU, is there first. *)
Definition connection_flow_init (queue_mtu mtu num_packets : Z) (BAlloc : Z -> option bytes) : hdl bool :=
  PacketPassInterface_Init queue_port queue_mtu;;
  b ← PacketProtoFlow_Init mtu num_packets BAlloc;
  if negb b then PacketPassInterface_Free queue_port;; mret false else mret true.
Definition connection_flow_free : hdl unit :=
  PacketProtoFlow_Free;;
  PacketPassInterface_Free queue_port.

Definition raw_flow : PacketProtoFlow :=
  mk_flow [] (mk_writer (mk_pri 0 false None 0 STATE_NONE) false None 0 false) None (mk_pri 0 false None 0 STATE_NONE)
    (ChunkBuffer.PacketBuffer.mk_pktbuf (mk_chunkbuf [] 0 0 0 0 0 None 0 None 0) 0)
    (mk_ppi 0 false false None 0 STATE_NONE false).

Definition accepted (l : list out_call) : list bytes := omap (fun o => match o with Accepted p => Some p | _ => None end) l.
Definition handed (l : list out_call) : list bytes := omap (fun o => match o with Handed p => Some p | _ => None end) l.
Definition taken (l : list out_call) : list bytes := omap (fun o => match o with Taken p => Some p | _ => None end) l.

(** ** Where packets are

    On the side of the writer, where the next packet goes, at [d]; on the side
    of the queue, the packets that are in the buffer. *)
Inductive write_stage :=
  | No_room
  | Encoder_asked (d : Z)
  | Writer_asked (d : Z)
  | Writable (d : Z)
  | Written (d : Z) (p : bytes)
  | Encoded (d : Z) (p : bytes).
Inductive read_stage := Nothing | Passing | Reading | Finished.

Definition write_jobs (r : write_stage) : list (iface * job_kind) :=
  match r with
  | No_room | Writable _ => []
  | Encoder_asked _ => [(Encoder_output, Operation)]
  | Writer_asked _ => [(Writer_output, Operation)]
  | Written _ _ => [(Writer_output, Done)]
  | Encoded _ _ => [(Encoder_output, Done)]
  end.
Definition read_jobs (t : read_stage) : list (iface * job_kind) :=
  match t with
  | Nothing | Reading => []
  | Passing => [(Queue_input, Operation)]
  | Finished => [(Queue_input, Done)]
  end.

(** The packet that is not in the buffer yet, and the one the queue holds. *)
Definition coding (r : write_stage) : list bytes :=
  match r with Written _ p | Encoded _ p => [encode p] | _ => [] end.
Definition held (t : read_stage) (q : list bytes) : list bytes :=
  match t with Reading | Finished => take 1 q | _ => [] end.
Definition finished (t : read_stage) (q : list bytes) : list bytes :=
  match t with Finished => take 1 q | _ => [] end.

Section invariant.
Context (mtu num : Z).

Definition area (b : chunkbuf) (r : write_stage) : Prop :=
  match r with
  | No_room => input_avail b < 2 + mtu
  | Encoder_asked d | Writer_asked d | Writable d => input_dest b = Some d /\ 2 + mtu <= input_avail b
  | Written d p => (input_dest b = Some d /\ 2 + mtu <= input_avail b) /\ len p <= mtu /\
      zslice (d + 2) (len p) (mem b) = p
  | Encoded d p => (input_dest b = Some d /\ 2 + mtu <= input_avail b) /\ len p <= mtu /\
      zslice d (2 + len p) (mem b) = encode p
  end.

Definition writer_at (o : BufferWriter) (r : write_stage) : Prop :=
  pri_mtu (recv_interface o) = mtu /\ pri_has_done (recv_interface o) = true /\ d_mtu o = mtu /\
  out_have o = (match r with Writable _ => true | _ => false end) /\
  (d_writing o = true -> exists d, r = Writable d) /\
  match r with
  | Writer_asked d => pri_state (recv_interface o) = STATE_OPERATION_PENDING /\ pri_data (recv_interface o) = Some (d + 2)
  | Writable d => pri_state (recv_interface o) = STATE_BUSY /\ out o = Some (d + 2)
  | Written _ p => pri_state (recv_interface o) = STATE_DONE_PENDING /\ pri_done_len (recv_interface o) = len p
  | _ => pri_state (recv_interface o) = STATE_NONE
  end.

Definition encoder_at (i : PacketRecvInterface Z) (packet : option Z) (r : write_stage) : Prop :=
  pri_mtu i = 2 + mtu /\ pri_has_done i = true /\
  match r with
  | No_room => pri_state i = STATE_NONE /\ packet = None
  | Encoder_asked d => pri_state i = STATE_OPERATION_PENDING /\ pri_data i = Some d /\ packet = None
  | Writer_asked d | Writable d | Written d _ => pri_state i = STATE_BUSY /\ packet = Some d
  | Encoded _ p => pri_state i = STATE_DONE_PENDING /\ pri_done_len i = 2 + len p /\ packet = None
  end.

Definition queue_at (i : PacketPassInterface Z) (b : chunkbuf) (q : list bytes) (t : read_stage) : Prop :=
  2 + mtu <= ppi_mtu i /\ ppi_has_done i = true /\
  match t with
  | Nothing => q = [] /\ ppi_state i = STATE_NONE
  | Passing => ppi_state i = STATE_OPERATION_PENDING /\
      exists p q', q = p :: q' /\ ppi_data i = Some (4 * (start b + 1)) /\ ppi_len i = len p
  | Reading => ppi_state i = STATE_BUSY /\
      exists p q', q = p :: q' /\ ppi_data i = Some (4 * (start b + 1)) /\ ppi_len i = len p
  | Finished => ppi_state i = STATE_DONE_PENDING /\ q <> []
  end.

Record core (s : PacketProtoFlow) (q : list bytes) (r : write_stage) (t : read_stage) : Prop := {
  i_repr : ChunkBuffer.ChunkBuffer2Proofs.repr (buf (buffer s)) q;
  i_size : ChunkBuffer.ChunkBuffer2.mtu (buf (buffer s)) = ChunkBuffer.bdivide_up (2 + mtu) 4 /\
    (1 + ChunkBuffer.ChunkBuffer2.mtu (buf (buffer s))) * (num + 1) <= size (buf (buffer s)) /\ input_mtu (buffer s) = 2 + mtu;
  i_fit : Forall (fun p => len p <= 2 + mtu) q;
  i_area : area (buf (buffer s)) r;
  i_writer : writer_at (ainput s) r;
  i_encoder : encoder_at (encoder_output s) (output_packet s) r;
  i_queue : queue_at (queue_input s) (buf (buffer s)) q t }.
Definition inv (s : PacketProtoFlow) (q : list bytes) (r : write_stage) (t : read_stage) : Prop :=
  (pending s = write_jobs r ++ read_jobs t \/ pending s = read_jobs t ++ write_jobs r) /\ core s q r t.

Definition trace_ok (q : list bytes) (r : write_stage) (t : read_stage) (l : list out_call) : Prop :=
  exists gone, encode <$> accepted l = gone ++ q ++ coding r /\
    handed l = gone ++ held t q /\ taken l = gone ++ finished t q.

(** Jobs that can still run before something comes from outside. *)
Definition weight (r : write_stage) (t : read_stage) : nat :=
  match r with
  | No_room | Writable _ => 0 | Writer_asked _ => 1 | Encoder_asked _ => 2 | Encoded _ _ => 4 | Written _ _ => 5
  end + match t with Nothing | Reading => 0 | Passing => 1 | Finished => 4 end.
End invariant.

Module ProtoFlowProofs.
Import ChunkBuffer.ChunkBuffer2Proofs.
#[local] Arguments Z.add : simpl never.
#[local] Arguments Z.mul : simpl never.
#[export] Hint Unfold execute_job dispatch end_packet read_packet set_writer output_handler_recv
  BufferWriter_StartPacket BufferWriter_EndPacket
  PacketProto.PacketProtoEncoder.output_handler_recv PacketProto.PacketProtoEncoder.input_handler_done
  PacketProto.PacketProtoEncoder.output_mtu PacketProto.PACKETPROTO_ENCLEN PacketProto.sizeof_packetproto_header : flow.

Lemma wp_on_encoder h s Q :
  wp h (the_encoder s) (fun _ e l => wp (perform encoder_call l) (put_encoder e s) Q) -> wp (on_encoder h) s Q.
Proof. unfold on_encoder, wp. by destruct (h (the_encoder s)) as [[[??]?]|]. Qed.
Lemma wp_on_buffer h s Q :
  wp h (buffer s) (fun _ b l => wp (perform buffer_call l) (s <| buffer := b |>) Q) -> wp (on_buffer h) s Q.
Proof. unfold on_buffer, wp. by destruct (h (buffer s)) as [[[??]?]|]. Qed.

Lemma encode_stored d (p m m' : bytes) : 0 <= d -> zslice (d + 2) (len p) m = p ->
  store d (le_split 2 (len p)) m = Some m' -> zslice d (2 + len p) m' = encode p.
Proof.
  intros Hd Hp Hst. rewrite zslice_app by zlia. unfold encode, PacketProto.encode. f_equal.
  - eapply zslice_store_same; [exact Hst|by rewrite len_split].
  - by erewrite zslice_store_after; [|exact Hst|rewrite len_split].
Qed.
Lemma len_encoded_packet p : len (encode p) = 2 + len p.
Proof. unfold encode, PacketProto.encode. by rewrite len_app, len_split. Qed.

Section proofs.
Context (mtu num : Z).
Hypotheses (Hmtu : 0 <= mtu) (Hnum : 0 < num).
Abbreviation inv := (inv mtu num).
Abbreviation core := (core mtu num).

(** A step of the flow, and what it adds to the trace. *)
Definition steps (s : PacketProtoFlow) (q : list bytes) (r : write_stage) (t : read_stage) (n : nat) (h : hdl unit) : Prop :=
  wp h s (fun _ s' o => exists q' r' t', inv s' q' r' t' /\ (weight r' t' < n)%nat /\
    forall l, trace_ok q r t l -> trace_ok q' r' t' (l ++ o)).

Lemma steps_intro s q r t n h :
  wp h s (fun _ s' o => exists q' r' t', inv s' q' r' t' /\ (weight r' t' < n)%nat /\ exists p, 
    q ++ coding r ++ (encode <$> accepted o) = p ++ q' ++ coding r' /\
    held t q ++ handed o = p ++ held t' q' /\ finished t q ++ taken o = p ++ finished t' q') ->
  steps s q r t n h.
Proof.
  intros H. eapply wp_mono; [exact H|]. intros _ s' o (q' & r' & t' & Hi & Hw & p & Ha & Hh & Ht).
  exists q', r', t'. split; [done|]. split; [done|]. intros l (g & Ea & Eh & Et). exists (g ++ p).
  unfold trace_ok, accepted, handed, taken in *. rewrite !omap_app, fmap_app, Ea, Eh, Et, <- !app_assoc.
  rewrite Ha, Hh, Ht. done.
Qed.

Ltac explode s :=
  destruct s as [l [[p1 p2 p3 p4 p5] h o dm w] op [e1 e2 e3 e4 e5] [c im] [i1 i2 i3 i4 i5 i6 i7]].
Ltac known H := destruct H as [Hr Hs Hf Ha Hw He Hq]; cbn in *; unfold writer_at, encoder_at, queue_at in *; cbn in *;
  destruct_and?; subst.

Ltac next q r t := exists q, r, t; split; [split; [|split]; cbn; unfold writer_at, encoder_at, queue_at; cbn; split_and?; try done|split].
Ltac trace_is p := exists p; cbn; by rewrite ?app_nil_r.

Ltac step_done t := solve [eauto | cbn; lia | trace_is (@nil bytes) | by destruct t; cbn; auto |
  let E := fresh in intros E; match goal with H : _ -> exists _, _ |- _ => by destruct (H E) end].

Lemma start_step s q r t : inv s q r t -> d_writing (ainput s) = false -> steps s q r t (S (weight r t)) (exec Start_packet).
Proof.
  intros [Hj Hi] Hwr. apply steps_intro. explode s. known Hi. cbn [exec].
  flow_steps; next q r t; try trace_is (@nil bytes); try lia; destruct r; try done; eauto.
Qed.

Lemma end_step s q r t p : inv s q r t -> d_writing (ainput s) = true -> len p <= d_mtu (ainput s) ->
  steps s q r t 10 (exec (End_packet p)).
Proof.
  intros [Hj Hi] Hwr Hp. apply steps_intro. explode s. known Hi.
  match goal with H : true = true -> _ |- _ => destruct (H eq_refl) as [d ->] end. cbn in *. destruct_and?. subst.
  destruct (input_room_bytes _ _ d Hr) as [Hd Hd']; [done|].
  destruct (store_Some (d + 2) p (mem c)) as [m Hst]; [lia..|]. cbn [exec]. flow_steps.
  eapply wp_of_option; [exact Hst|]. flow_steps.
  next q (Written d p) t.
  - destruct t, Hj as [-> | ->]; cbn; auto.
  - eapply repr_write_at; [done..| | |exact Hst]; lia.
  - by eapply zslice_store_same.
  - destruct t; cbn; lia.
  - destruct t; trace_is (@nil bytes).
Qed.

Lemma writer_op_step s q d t : core s q (Writer_asked d) t -> pending s = read_jobs t ->
  steps s q (Writer_asked d) t (weight (Writer_asked d) t) (dispatch (Writer_output, Operation)).
Proof.
  intros Hi Hj. apply steps_intro. explode s. known Hi. flow_steps.
  next q (Writable d) t; step_done t.
Qed.

Lemma encoder_op_step s q d t : core s q (Encoder_asked d) t -> pending s = read_jobs t ->
  steps s q (Encoder_asked d) t (weight (Encoder_asked d) t) (dispatch (Encoder_output, Operation)).
Proof.
  intros Hi Hj. apply steps_intro. explode s. known Hi. flow_steps.
  apply wp_on_encoder. cbn. flow_steps.
  next q (Writer_asked d) t; try step_done t; by destruct c.
Qed.

Lemma writer_done_step s q d p t : core s q (Written d p) t -> pending s = read_jobs t ->
  steps s q (Written d p) t (weight (Written d p) t) (dispatch (Writer_output, Done)).
Proof.
  intros Hi Hj. apply steps_intro. explode s. known Hi. flow_steps.
  apply wp_on_encoder. destruct (input_room_bytes _ _ d Hr) as [Hd Hd']; [done|].
  destruct (store_Some d (le_split 2 (len p)) (mem c)) as [m Hst]; [lia|rewrite len_split; lia|].
  flow_steps. eapply wp_of_option; [exact Hst|]. flow_steps.
  next q (Encoded d p) t; try step_done t.
  - eapply repr_write; [done..| |exact Hst]. rewrite len_split. lia.
  - by eapply encode_stored.
Qed.

(** The calls of the buffer start the two sides again. *)
Lemma room_cases c q : repr c q ->
  (exists d, 2 + mtu <= input_avail c /\ input_dest c = Some d) \/ input_avail c < 2 + mtu.
Proof using Hmtu.
  intros Hr. destruct (Z.le_gt_cases (2 + mtu) (input_avail c)) as [H|H]; [left|by right].
  destruct (ChunkBuffer.PacketBufferProofs.avail_dest _ _ (2 + mtu) Hr) as [d Hd]; [lia|eauto].
Qed.

Lemma queue_snoc i c c' q t x : queue_at mtu i c q t -> q <> [] -> start c' = start c ->
  queue_at mtu i c' (q ++ [x]) t /\ held t (q ++ [x]) = held t q /\ finished t (q ++ [x]) = finished t q.
Proof using. destruct q as [|p q]; [done|]. unfold queue_at. intros H _ ->. by destruct t; naive_solver. Qed.

Lemma encoder_done_step s q d p t : core s q (Encoded d p) t -> pending s = read_jobs t ->
  steps s q (Encoded d p) t (weight (Encoded d p) t) (dispatch (Encoder_output, Done)).
Proof.
  intros Hi Hj. apply steps_intro. explode s. known Hi. flow_steps. apply wp_on_buffer. rewrite <- len_encoded_packet in *.
  assert (Hl : len (encode p) <= 2 + mtu) by (rewrite len_encoded_packet; lia).
  eapply wp_mono; [apply (ChunkBuffer.PacketBufferProofs.input_handler_done_spec _ q d (encode p)); cbn; (done || lia)|].
  intros _ [c' im] l (Hr' & Hs1 & Hs2 & Hs3 & Hs4 & ->). cbn in *. subst.
  assert (Ho := r_out _ _ Hr'). assert (Hfit : Forall (fun p => len p <= 2 + mtu) (q ++ [encode p])).
  { apply Forall_app. by rewrite Forall_singleton. }
  assert (Hpass : if bool_decide (q = []) then q = [] /\ t = Nothing else True) .
  { case_bool_decide; [|done]. split; [done|]. destruct t; try done; subst; naive_solver. }
  destruct (room_cases _ _ Hr') as [(d' & Ha & Hd')|Ha];
    [replace (2 + mtu <=? _) with true by lia; rewrite Hd'|replace (2 + mtu <=? _) with false by lia];
    (case_bool_decide; [destruct Hpass as [-> ->]; cbn in Ho; injection Ho as -> ->; destruct_and?; subst i6|
      clear Hpass; destruct (queue_snoc (mk_ppi i1 i2 true i4 i5 i6 i7) c c' q t (encode p)) as ((_ & _ & Hq') & Eh & Ef);
      [by unfold queue_at|done..|]]);
    flow_steps.
  - next [encode p] (Encoder_asked d') Passing; try step_done t; naive_solver.
  - next (q ++ [encode p]) (Encoder_asked d') t; step_done t.
  - next [encode p] No_room Passing; try step_done t; naive_solver.
  - next (q ++ [encode p]) No_room t; step_done t.
Qed.

Ltac known_packet := match goal with H : exists p q', _ |- _ => destruct H as (p & q' & -> & -> & ->) end.

Lemma queue_op_step s q r : core s q r Passing -> pending s = write_jobs r ->
  steps s q r Passing (weight r Passing) (dispatch (Queue_input, Operation)).
Proof.
  intros Hi Hj. apply steps_intro. explode s. known Hi. known_packet. assert (Hl := ChunkBuffer.PacketBufferProofs.head_load _ _ _ Hr).
  flow_steps. eapply wp_of_option; [exact Hl|]. flow_steps.
  next (p :: q') r Reading; try step_done Reading. unfold weight. lia.
Qed.

Lemma queue_done_step s q r : core s q r Reading -> pending s = write_jobs r ->
  steps s q r Reading 10 (exec Queue_done).
Proof.
  intros Hi Hj. apply steps_intro. explode s. known Hi. known_packet. assert (Hl := ChunkBuffer.PacketBufferProofs.head_load _ _ _ Hr).
  cbn [exec]. flow_steps. eapply wp_of_option; [exact Hl|]. flow_steps.
  next (p :: q') r Finished; try step_done r. unfold weight. destruct r; lia.
Qed.

Lemma area_kept c c' r : area mtu c r -> mem c' = mem c ->
  (forall d, input_dest c = Some d -> input_dest c' = Some d /\ input_avail c <= input_avail c') ->
  r = No_room \/ 2 + mtu <= input_avail c /\ area mtu c' r.
Proof using.
  intros Ha Hm Hd. destruct r as [|d|d|d|d p|d p]; [by left|right..]; cbn in *; rewrite ?Hm;
    destruct_and?; destruct (Hd d) as [-> ?]; try done; split_and?; (done || lia).
Qed.

Lemma queue_free_step s q r : core s q r Finished -> pending s = write_jobs r ->
  steps s q r Finished (weight r Finished) (dispatch (Queue_input, Done)).
Proof.
  intros Hi Hj. apply steps_intro. explode s. known Hi. destruct q as [|p q]; [done|]. flow_steps. apply wp_on_buffer.
  eapply wp_mono; [by apply (ChunkBuffer.PacketBufferProofs.output_handler_done_spec _ p q)|].
  intros _ [c' im] l (Hr' & Hm & Hs1 & Hs2 & Hs3 & Hd & ->). cbn in *. subst.
  assert (Ho := r_out _ _ Hr'). inversion_clear Hf as [|?? Hfp Hfq].
  destruct (area_kept _ _ _ Ha Hm Hd) as [->|[Hge Ha']]; [cbn in *; destruct_and?; subst|];
    [replace (input_avail c <? 2 + mtu) with true by lia; destruct (room_cases _ _ Hr') as [(d' & Hav & Hd')|Hav];
      [replace (2 + mtu <=? _) with true by lia; rewrite Hd'|replace (2 + mtu <=? _) with false by lia]
    |replace (input_avail c <? 2 + mtu) with false by lia]; cbn;
    (destruct q as [|p1 q]; cbn in Ho; injection Ho as Hod Hoa; rewrite ?Hod, ?Hoa, ?bool_decide_eq_true_2, ?bool_decide_eq_false_2 by done;
      [|inversion_clear Hfq]); flow_steps.
  - next (@nil bytes) (Encoder_asked d') Nothing; try step_done r; trace_is [p].
  - next (p1 :: q) (Encoder_asked d') Passing; try step_done r; try trace_is [p]; naive_solver.
  - next (@nil bytes) No_room Nothing; try step_done r; trace_is [p].
  - next (p1 :: q) No_room Passing; try step_done r; try trace_is [p]; naive_solver.
  - next (@nil bytes) r Nothing; try step_done r; try trace_is [p].
  - next (p1 :: q) r Passing; try step_done r; try trace_is [p].
Qed.

Lemma steps_weaken s q r t n n' h : (n <= n')%nat -> steps s q r t n h -> steps s q r t n' h.
Proof using.
  intros Hn H. eapply wp_mono; [exact H|]. intros _ s' o (q' & r' & t' & Hi & Hw & Ht).
  exists q', r', t'. split_and!; [done|lia|done].
Qed.
Lemma steps_job s q r t n j l : pending s = j :: l -> steps (s <| pending := l |>) q r t n (dispatch j) ->
  steps s q r t n (exec Execute_job).
Proof using. intros Hj H. unfold steps. cbn [exec]. unfold execute_job. hstep. hstep. rewrite Hj. hstep. hstep. exact H. Qed.
Lemma core_pending s q r t l : core s q r t -> core (s <| pending := l |>) q r t.
Proof using. intros []. by split. Qed.

Lemma job_step s q r t : inv s q r t -> pending s <> [] -> steps s q r t (weight r t) (exec Execute_job).
Proof.
  intros [Hj Hc] Hp.
  assert (Hs : forall l, core (s <| pending := l |>) q r t) by (intros; by apply core_pending).
  destruct r, t, Hj as [Hj|Hj]; cbn in Hj; try done; (eapply steps_job; [exact Hj|]);
    first [by apply encoder_op_step|by apply writer_op_step|by apply writer_done_step|by apply encoder_done_step
          |by apply queue_op_step|by apply queue_free_step].
Qed.

Lemma flow_event_step s q r t e : inv s q r t -> event_ok s e = true -> steps s q r t 10 (exec e).
Proof.
  intros Hi He. assert (Hw : (weight r t < 10)%nat) by (unfold weight; destruct r, t; lia).
  destruct e as [|p| |]; cbn in He.
  - eapply steps_weaken; [|apply start_step; [done|]]; [lia|by destruct (d_writing _)].
  - apply andb_true_iff in He as [Hd Hl]. apply end_step; [done..|lia].
  - eapply steps_weaken; [|apply job_step; [done|]]; [lia|]. destruct (pending s); [by vm_compute in He|done].
  - apply bool_decide_eq_true_1 in He. destruct Hi as [Hj Hc]. assert (Hq := i_queue _ _ _ _ _ _ Hc). destruct Hq as (_ & _ & Hq).
    destruct t; destruct Hq as [? ?]; try congruence. apply queue_done_step; [done|]. cbn in Hj. rewrite app_nil_r in Hj. tauto.
Qed.

Lemma flow_run evs : forall s q r t l, inv s q r t -> legal evs s = true -> trace_ok q r t l ->
  exists s' o q' r' t', run evs s = Some (tt, s', o) /\ inv s' q' r' t' /\ trace_ok q' r' t' (l ++ o).
Proof.
  induction evs as [|e evs IH]; intros s q r t l Hi Hl Ht; cbn [run legal] in *.
  { exists s, [], q, r, t. by rewrite app_nil_r. }
  apply andb_true_iff in Hl as [He Hl]. assert (Hw := flow_event_step _ _ _ _ _ Hi He).
  apply wp_spec in Hw as ([] & s1 & o & Ex & q1 & r1 & t1 & Hi1 & _ & Ht1). rewrite Ex in Hl.
  destruct (IH s1 q1 r1 t1 (l ++ o) Hi1 Hl (Ht1 _ Ht)) as (s2 & o2 & q2 & r2 & t2 & Er & Hi2 & Ht2).
  exists s2, (o ++ o2), q2, r2, t2. split_and!; [|done|by rewrite app_assoc].
  apply wp_eq. apply wp_bind, wp_spec. eexists _, _, _. split; [exact Ex|].
  apply wp_spec. eexists _, _, _. by split; [exact Er|].
Qed.

(** The jobs end. *)
Lemma flow_settles n : forall s q r t, inv s q r t -> (weight r t < n)%nat ->
  exists k s' o, (k < n)%nat /\ run (repeat Execute_job k) s = Some (tt, s', o) /\ pending s' = [].
Proof.
  induction n as [|n IH]; intros s q r t Hi Hn; [lia|].
  destruct (pending s) as [|j l] eqn:Hp; [exists 0%nat, s, []; split_and!; [lia|done|done]|].
  assert (Hw := job_step s q r t Hi ltac:(congruence)).
  apply wp_spec in Hw as ([] & s1 & o & Ex & q1 & r1 & t1 & Hi1 & Hlt & _).
  destruct (IH s1 q1 r1 t1 Hi1 ltac:(lia)) as (k & s2 & o2 & Hk & Er & Hp2).
  exists (S k), s2, (o ++ o2). split_and!; [lia| |done]. cbn [repeat run].
  apply wp_eq. apply wp_bind, wp_spec. eexists _, _, _. split; [exact Ex|].
  apply wp_spec. eexists _, _, _. by split; [exact Er|].
Qed.

Lemma flow_free_step s q r t : inv s q r t ->
  wp connection_flow_free s (fun _ s' o => o = [Buffer_freed] /\ pending s' = []).
Proof.
  intros [Hj _]. explode s. cbn in Hj. unfold connection_flow_free, PacketProtoFlow_Free, PacketBuffer_Free,
    PacketProtoEncoder_Free, BufferWriter_Free. flow_steps. split; [done|]. by destruct r, t, Hj as [-> | ->].
Qed.

Lemma init_flow qmtu BAlloc : mtu <= PACKETPROTO_MAXPAYLOAD -> PACKETPROTO_ENCLEN mtu <= qmtu ->
  (forall n b, BAlloc n = Some b -> len b = n) ->
  4 * ((1 + ChunkBuffer.bdivide_up (2 + mtu) 4) * (num + 1)) <= INT_MAX ->
  wp (connection_flow_init qmtu mtu num BAlloc) raw_flow (fun b s o => o = [] /\
    if b then exists d, inv s [] (Encoder_asked d) Nothing else pending s = []).
Proof.
  intros Hmax Hq HB Hsz. change (PACKETPROTO_ENCLEN mtu) with (2 + mtu) in Hq.
  unfold connection_flow_init, PacketProtoFlow_Init, BufferWriter_Init, PacketProtoEncoder_Init, PacketBuffer_Init, raw_flow.
  flow_steps. eapply wp_of_option; [unfold PacketProto.PacketProtoEncoder.PacketProtoEncoder_Init; by replace (_ <=? _) with true by lia|].
  flow_steps.
  destruct (ChunkBuffer.PacketBufferProofs.PacketBuffer_Init_ok (2 + mtu) qmtu num BAlloc) as [E|(c & d & E & Hr & Hc & Hm & Hd & Hav)];
    [lia|lia|lia|done|done|..]; (eapply wp_of_option; [exact E|]); flow_steps; [done|].
  split; [done|]. exists d. split; [by left|]. split; cbn; unfold writer_at, encoder_at, queue_at; cbn; split_and?; try done.
  rewrite Hm. lia.
Qed.
End proofs.
End ProtoFlowProofs.

Section proto_flow_properties.
Import ProtoFlowProofs.
Context (qmtu mtu num : Z) (BAlloc : Z -> option bytes) (s0 : PacketProtoFlow).
Hypotheses (Hmtu : 0 <= mtu <= PACKETPROTO_MAXPAYLOAD) (Hnum : 0 < num) (Hqmtu : PACKETPROTO_ENCLEN mtu <= qmtu).
Hypotheses (HB : forall n b, BAlloc n = Some b -> len b = n)
  (Hsize : 4 * ((1 + ChunkBuffer.bdivide_up (PACKETPROTO_ENCLEN mtu) 4) * (num + 1)) <= INT_MAX).

(** Setting up fails only as it reports, and leaves nothing behind then. *)
Theorem connection_flow_init_total : exists b s l, connection_flow_init qmtu mtu num BAlloc raw_flow = Some (b, s, l) /\
  l = [] /\ (b = false -> pending s = []).
Proof using Hmtu Hnum Hqmtu HB Hsize.
  assert (Hi := init_flow mtu num (proj1 Hmtu) Hnum qmtu BAlloc (proj2 Hmtu) Hqmtu HB Hsize).
  apply wp_spec in Hi as (b & s & l & E & -> & H). exists b, s, []. split_and!; [done|done|by intros ->].
Qed.

Hypothesis Hinit : connection_flow_init qmtu mtu num BAlloc raw_flow = Some (true, s0, []).

Lemma flow_reached evs : legal evs s0 = true ->
  exists s l q r t, run evs s0 = Some (tt, s, l) /\ inv mtu num s q r t /\ trace_ok q r t l.
Proof using All.
  intros Hl. assert (Hi := init_flow mtu num (proj1 Hmtu) Hnum qmtu BAlloc (proj2 Hmtu) Hqmtu HB Hsize).
  unfold wp in Hi. rewrite Hinit in Hi. destruct Hi as (_ & d & Hi).
  apply (flow_run mtu num (proj1 Hmtu) evs s0 _ _ _ [] Hi Hl). by exists [].
Qed.

(** C37: From [PacketProtoFlow_Init] on, for every order of the user, the jobs
    and the queue, no assertion fails and nothing outside of the buffer is
    touched; the queue is handed exactly the packets that the user has written,
    each behind its header as [PacketProto] encodes it, in order, each once; a
    packet stays where and as it was handed until the queue has finished with
    it, whatever is written behind it meanwhile; and at any moment all can be
    freed, which leaves no job behind and frees the buffer once. *)
Theorem proto_flow_fifo evs : legal evs s0 = true ->
  exists s l, run evs s0 = Some (tt, s, l) /\
    handed l `prefix_of` (encode <$> accepted l) /\
    (handed l = taken l /\ ppi_state (queue_input s) <> STATE_BUSY \/
     exists p d, handed l = taken l ++ [p] /\ ppi_state (queue_input s) = STATE_BUSY /\
       ppi_data (queue_input s) = Some d /\ load d (ppi_len (queue_input s)) (memory s) = Some p) /\
    exists s', connection_flow_free s = Some (tt, s', [Buffer_freed]) /\ pending s' = [].
Proof using All.
  intros Hl. destruct (flow_reached evs Hl) as (s & l & q & r & t & Hr & Hi & g & Ha & Hh & Ht).
  exists s, l. split; [done|]. assert (Hc := proj2 Hi). assert (Hq := i_queue _ _ _ _ _ _ Hc). destruct Hq as (_ & _ & Hq).
  rewrite Ha, Hh, Ht. split_and!.
  - apply prefix_app. apply prefix_app_r. destruct t; cbn; try apply prefix_nil; apply prefix_take.
  - destruct t; cbn; [left..| |left]; try (split; [done|]; intros E; rewrite E in Hq; by destruct Hq).
    right. destruct Hq as (Hb & p & q' & -> & Hd & Hn). rewrite app_nil_r. exists p, (4 * (start (buf (buffer s)) + 1)).
    split_and!; [done..|]. rewrite Hn. eapply ChunkBuffer.PacketBufferProofs.head_load, Hc.
  - assert (Hf := flow_free_step mtu num s q r t Hi). apply wp_spec in Hf as ([] & s' & o & E & -> & Hp). by exists s'.
Qed.

(** C38: The flow does not stall: at most nine jobs run before it waits for the
    user or the queue; then the user can write a packet, unless [num] packets
    wait to be sent; and as long as a packet waits, the queue has one. *)
Theorem proto_flow_progress evs : legal evs s0 = true ->
  exists s l, run evs s0 = Some (tt, s, l) /\
    (exists k s' l', (k <= 9)%nat /\ run (repeat Execute_job k) s = Some (tt, s', l') /\ pending s' = []) /\
    (pending s = [] ->
      (d_writing (ainput s) = false -> len (accepted l) < len (taken l) + num ->
        exists s', exec Start_packet s = Some (tt, s', [Started true])) /\
      (len (taken l) < len (accepted l) -> ppi_state (queue_input s) = STATE_BUSY)).
Proof using All.
  intros Hl. destruct (flow_reached evs Hl) as (s & l & q & r & t & Hr & Hi & g & Ha & Hh & Ht).
  exists s, l. split; [done|]. split.
  { destruct (flow_settles mtu num (proj1 Hmtu) 10 s q r t Hi) as (k & s' & o & Hk & E & Hp);
      [unfold weight; destruct r, t; lia|]. exists k, s', o. split_and!; [lia|done..]. }
  intros Hp. destruct Hi as [Hj Hc]. rewrite Hp in Hj.
  assert (Hla : len (accepted l) = len g + (len q + len (coding r))) by (rewrite <- !len_app, <- Ha; by rewrite len_map).
  assert (Hlt : len (taken l) = len g + len (finished t q)) by (by rewrite Ht, len_app).
  assert (Ht' : t = Nothing \/ t = Reading) by (destruct t, Hj as [Hj|Hj]; destruct r; auto; done).
  assert (Hq := i_queue _ _ _ _ _ _ Hc). destruct Hq as (_ & _ & Hq). split.
  - intros Hd Hlt'. assert (Ho : out_have (ainput s) = true).
    { destruct (i_writer _ _ _ _ _ _ Hc) as (_ & _ & _ & -> & _). destruct r; try done; try (by destruct Ht' as [-> | ->], Hj).
      exfalso. destruct (i_size _ _ _ _ _ _ Hc) as (Hm & Hs & _). assert (Ha' := i_area _ _ _ _ _ _ Hc). cbn in Ha'.
      destruct (ChunkBuffer.ChunkBuffer2Proofs.capacity _ q (2 + mtu) num (i_repr _ _ _ _ _ _ Hc) Hm) as [Hav _]; [lia|done|apply Hc| |lia].
      pose_len. cbn in Hla. destruct Ht' as [-> | ->]; cbn in Hlt; lia. }
    destruct s as [pl [ri h o dm w] op ei b qi]. cbn in *. subst. by eexists.
  - intros Hlt'. destruct Ht' as [-> | ->]; [|by destruct Hq]. destruct Hq as [-> _]. cbn in Hla, Hlt.
    assert (len (coding r) = 0) by (by destruct r; try done; destruct Hj). lia.
Qed.
End proto_flow_properties.

Module ProtoFlowWitnesses.
Definition demo_start : PacketProtoFlow :=
  match connection_flow_init 8 6 2 zero_malloc raw_flow with Some (_, s, _) => s | None => raw_flow end.
Definition job := Execute_job.
(** Two packets, of which the queue takes the first while the second is
    written; the buffer is full until it has finished. *)
Definition demo : list event :=
  [job; job; Start_packet; End_packet [Byte.x61; Byte.x62]; job; job; job; job; job; Start_packet;
   End_packet [Byte.x63]; job; job; Queue_done; job; job].
Example demo_framed : (fun x => (accepted x.2, handed x.2, taken x.2)) <$> run demo demo_start
  = Some ([[Byte.x61; Byte.x62]; [Byte.x63]], [[Byte.x02; Byte.x00; Byte.x61; Byte.x62]; [Byte.x01; Byte.x00; Byte.x63]],
          [[Byte.x02; Byte.x00; Byte.x61; Byte.x62]]).
Proof. vm_compute. reflexivity. Qed.

Lemma proto_flow_fifo_witness : exists s l, run demo demo_start = Some (tt, s, l) /\
  handed l `prefix_of` (encode <$> accepted l) /\
  (handed l = taken l /\ ppi_state (queue_input s) <> STATE_BUSY \/
   exists p d, handed l = taken l ++ [p] /\ ppi_state (queue_input s) = STATE_BUSY /\
     ppi_data (queue_input s) = Some d /\ load d (ppi_len (queue_input s)) (memory s) = Some p) /\
  exists s', connection_flow_free s = Some (tt, s', [Buffer_freed]) /\ pending s' = [].
Proof.
  apply (proto_flow_fifo 8 6 2 zero_malloc demo_start).
  - split; vm_compute; discriminate.
  - done.
  - vm_compute. discriminate.
  - exact zero_malloc_len.
  - vm_compute. discriminate.
  - vm_compute. reflexivity.
  - vm_compute. reflexivity.
Defined.

Lemma proto_flow_progress_witness : exists s l, run (take 13 demo) demo_start = Some (tt, s, l) /\
  (exists k s' l', (k <= 9)%nat /\ run (repeat Execute_job k) s = Some (tt, s', l') /\ pending s' = []) /\
  (pending s = [] ->
    (d_writing (ainput s) = false -> len (accepted l) < len (taken l) + 2 ->
      exists s', exec Start_packet s = Some (tt, s', [Started true])) /\
    (len (taken l) < len (accepted l) -> ppi_state (queue_input s) = STATE_BUSY)).
Proof.
  apply (proto_flow_progress 8 6 2 zero_malloc demo_start).
  - split; vm_compute; discriminate.
  - done.
  - vm_compute. discriminate.
  - exact zero_malloc_len.
  - vm_compute. discriminate.
  - vm_compute. reflexivity.
  - vm_compute. reflexivity.
Defined.
End ProtoFlowWitnesses.
