(* ===== verification/SendChain.v ===== *)
(** * From the fair queue to the stream of the udpgw server

    The components through which the udpgw client sends, and how they are
    composed: [flowextra/PacketPassInactivityMonitor.c],
    [flow/PacketPassConnector.c] and [flow/PacketStreamSender.c], between the
    output of the fair queue and the stream interface of the connection to the
    server.  The connector keeps a packet while there is no connection; a
    packet that was not sent completely when a connection ends is sent again,
    from its start, on the next one ([UdpGwClient_ConnectServer],
    [UdpGwClient_DisconnectServer]).

    A data pointer is seen as the contents of the packet, which belongs to a
    flow of the queue and does not change until the packet is done. *)
From S2P Require Import Prelude FlowInterfaces.

(** ** State *)

Inductive iface := Monitor_input | Connector_input | Sender_input | Stream.
#[export] Instance iface_eq_dec : EqDecision iface.
Proof. solve_decision. Defined.

Record PacketPassConnector := mk_connector {
  input_mtu : Z; (* of the input *)
  con_in_len : Z;
  con_in : option bytes;
  output : bool }. (* there is one *)
#[export] Instance connector_eta : Eta PacketPassConnector := fun r =>
  mk_connector (input_mtu r) (con_in_len r) (con_in r) (output r).

Record PacketStreamSender := mk_sender { in_len : Z; in_ : option bytes; in_used : Z }.
#[export] Instance sender_eta : Eta PacketStreamSender := fun r => mk_sender (in_len r) (in_ r) (in_used r).

(** The timer of the monitor is set or not; when it expires is an event. *)
Record chain := mk_chain {
  pending : list (iface * job_kind);
  monitor_if : PacketPassInterface bytes;
  timer_running : bool;
  connector_if : PacketPassInterface bytes;
  connector : PacketPassConnector;
  sender_if : PacketPassInterface bytes;
  sender : PacketStreamSender;
  stream_if : StreamPassInterface bytes }.
#[export] Instance chain_eta : Eta chain := fun r =>
  mk_chain (pending r) (monitor_if r) (timer_running r) (connector_if r) (connector r) (sender_if r) (sender r)
    (stream_if r).
#[export] Instance chain_jobs : Jobs chain iface := {|
  jobs := pending; set_jobs l s := s <| pending := l |> |}.

Definition monitor_port : port chain iface (PacketPassInterface bytes) :=
  mk_port Monitor_input monitor_if (fun i s => s <| monitor_if := i |>).
Definition connector_port : port chain iface (PacketPassInterface bytes) :=
  mk_port Connector_input connector_if (fun i s => s <| connector_if := i |>).
Definition sender_port : port chain iface (PacketPassInterface bytes) :=
  mk_port Sender_input sender_if (fun i s => s <| sender_if := i |>).
Definition stream_port : port chain iface (StreamPassInterface bytes) :=
  mk_port Stream stream_if (fun i s => s <| stream_if := i |>).

(** Calls out of the chain: of the queue's handler, of the monitor's user, and
    of the provider of the stream. *)
Inductive out :=
  | Queue_done
  | Inactivity
  | Stream_send (data : option bytes) (data_len : Z).
Definition hdl := handler chain out.

Definition BReactor_SetTimer : hdl unit := modify (fun s => s <| timer_running := true |>).
Definition BReactor_RemoveTimer : hdl unit := modify (fun s => s <| timer_running := false |>).

(** ** [PacketStreamSender.c] *)

Module PacketStreamSender.
Definition send_data : hdl unit :=
  s ← gets sender;
  ASSERT (0 <=? in_len s);;
  if in_used s <? in_len s then
    StreamPassInterface_Sender_Send stream_port (drop (Z.to_nat (in_used s)) <$> in_ s) (in_len s - in_used s)
  else
    modify (fun o => o <| sender := (s <| in_len := -1 |>) |>);;
    PacketPassInterface_Done sender_port.

Definition input_handler_send (data : option bytes) (data_len : Z) : hdl unit :=
  s ← gets sender;
  ASSERT (in_len s =? -1);;
  ASSERT (0 <=? data_len);;
  modify (fun o => o <| sender := mk_sender data_len data 0 |>);;
  send_data.

Definition output_handler_done (data_len : Z) : hdl unit :=
  s ← gets sender;
  ASSERT (0 <=? in_len s);;
  ASSERT (0 <? data_len);;
  ASSERT (data_len <=? in_len s - in_used s);;
  modify (fun o => o <| sender := (s <| in_used := in_used s + data_len |>) |>);;
  send_data.

Definition PacketStreamSender_Init (mtu : Z) : hdl unit :=
  ASSERT (0 <=? mtu);;
  PacketPassInterface_Init sender_port mtu;;
  StreamPassInterface_Sender_Init stream_port;;
  modify (fun o => o <| sender := (sender o <| in_len := -1 |>) |>).

Definition PacketStreamSender_Free : hdl unit := PacketPassInterface_Free sender_port.
End PacketStreamSender.

(** ** [PacketPassConnector.c] *)

Module PacketPassConnector.
Definition input_handler_send (data : option bytes) (data_len : Z) : hdl unit :=
  c ← gets connector;
  ASSERT (0 <=? data_len);;
  ASSERT (data_len <=? input_mtu c);;
  ASSERT (con_in_len c =? -1);;
  let c := c <| con_in_len := data_len |> <| con_in := data |> in
  modify (fun o => o <| connector := c |>);;
  if output c then PacketPassInterface_Sender_Send sender_port (con_in c) (con_in_len c) else mret tt.

Definition output_handler_done : hdl unit :=
  c ← gets connector;
  ASSERT (0 <=? con_in_len c);;
  ASSERT (output c);;
  modify (fun o => o <| connector := (c <| con_in_len := -1 |>) |>);;
  PacketPassInterface_Done connector_port.

Definition PacketPassConnector_Init (mtu : Z) : hdl unit :=
  ASSERT (0 <=? mtu);;
  modify (fun o => o <| connector := (connector o <| input_mtu := mtu |>) |>);;
  PacketPassInterface_Init connector_port mtu;;
  modify (fun o => o <| connector := (connector o <| con_in_len := -1 |> <| output := false |>) |>).

Definition PacketPassConnector_Free : hdl unit := PacketPassInterface_Free connector_port.

(** The output is the input of the sender. *)
Definition PacketPassConnector_ConnectOutput : hdl unit :=
  c ← gets connector;
  ASSERT (negb (output c));;
  mtu ← PacketPassInterface_GetMTU sender_port;
  ASSERT (input_mtu c <=? mtu);;
  modify (fun o => o <| connector := (c <| output := true |>) |>);;
  PacketPassInterface_Sender_Init sender_port;;
  if 0 <=? con_in_len c then PacketPassInterface_Sender_Send sender_port (con_in c) (con_in_len c) else mret tt.

Definition PacketPassConnector_DisconnectOutput : hdl unit :=
  c ← gets connector;
  ASSERT (output c);;
  modify (fun o => o <| connector := (c <| output := false |>) |>).
End PacketPassConnector.

(** ** [PacketPassInactivityMonitor.c] *)

Module PacketPassInactivityMonitor.
Definition input_handler_send (data : option bytes) (data_len : Z) : hdl unit :=
  PacketPassInterface_Sender_Send connector_port data data_len;;
  BReactor_RemoveTimer.
Definition input_handler_requestcancel : hdl unit := PacketPassInterface_Sender_RequestCancel connector_port.
Definition output_handler_done : hdl unit :=
  BReactor_SetTimer;;
  PacketPassInterface_Done monitor_port.
Definition timer_handler : hdl unit :=
  BReactor_SetTimer;;
  call Inactivity.

Definition PacketPassInactivityMonitor_Init : hdl unit :=
  mtu ← PacketPassInterface_GetMTU connector_port;
  PacketPassInterface_Init monitor_port mtu;;
  has_cancel ← PacketPassInterface_HasCancel connector_port;
  (if has_cancel : bool then PacketPassInterface_EnableCancel monitor_port else mret tt);;
  PacketPassInterface_Sender_Init connector_port;;
  BReactor_SetTimer.
Definition PacketPassInactivityMonitor_Free : hdl unit :=
  BReactor_RemoveTimer;;
  PacketPassInterface_Free monitor_port.
(** [BReactor_SetTimerAfter(o->reactor, &o->timer, 0)] *)
Definition PacketPassInactivityMonitor_Force : hdl unit := BReactor_SetTimer.
End PacketPassInactivityMonitor.

(** ** The chain *)

(** [UdpGwClient_Init]; the queue is the user of the monitor. *)
Definition chain_Init (pp_mtu : Z) : hdl unit :=
  PacketPassConnector.PacketPassConnector_Init pp_mtu;;
  PacketPassInactivityMonitor.PacketPassInactivityMonitor_Init;;
  PacketPassInterface_Sender_Init monitor_port.

(** The sending side of [UdpGwClient_ConnectServer], on a new connection. *)
Definition ConnectServer (pp_mtu : Z) : hdl unit :=
  StreamPassInterface_Init stream_port;;
  PacketStreamSender.PacketStreamSender_Init pp_mtu;;
  PacketPassConnector.PacketPassConnector_ConnectOutput.

(** That of [free_server]; the connection is freed after it. *)
Definition free_server : hdl unit :=
  PacketPassConnector.PacketPassConnector_DisconnectOutput;;
  PacketStreamSender.PacketStreamSender_Free;;
  StreamPassInterface_Free stream_port.

(** That of [UdpGwClient_Free] without a server. *)
Definition chain_Free : hdl unit :=
  PacketPassInactivityMonitor.PacketPassInactivityMonitor_Free;;
  PacketPassConnector.PacketPassConnector_Free.

(** What each job calls. *)
Definition dispatch (j : iface * job_kind) : hdl unit :=
  match j with
  | (Monitor_input, Operation) =>
      '(data, n) ← _PacketPassInterface_job_operation monitor_port;
      PacketPassInactivityMonitor.input_handler_send data n
  | (Monitor_input, Requestcancel) =>
      _PacketPassInterface_job_requestcancel monitor_port;;
      PacketPassInactivityMonitor.input_handler_requestcancel
  | (Monitor_input, Done) => _PacketPassInterface_job_done monitor_port;; call Queue_done
  | (Connector_input, Operation) =>
      '(data, n) ← _PacketPassInterface_job_operation connector_port;
      PacketPassConnector.input_handler_send data n
  | (Connector_input, Done) =>
      _PacketPassInterface_job_done connector_port;;
      PacketPassInactivityMonitor.output_handler_done
  | (Sender_input, Operation) =>
      '(data, n) ← _PacketPassInterface_job_operation sender_port;
      PacketStreamSender.input_handler_send data n
  | (Sender_input, Done) =>
      _PacketPassInterface_job_done sender_port;;
      PacketPassConnector.output_handler_done
  | (Stream, Operation) =>
      '(data, n) ← _StreamPassInterface_job_operation stream_port;
      call (Stream_send data n)
  | (Stream, Done) =>
      n ← _StreamPassInterface_job_done stream_port;
      PacketStreamSender.output_handler_done n
  | (_, Requestcancel) => ASSERT false
  end.

Definition execute_job : hdl unit :=
  l ← gets pending;
  match l with
  | [] => ASSERT false
  | j :: l => modify (fun s => s <| pending := l |>);; dispatch j
  end.

Inductive event :=
  | Queue_send (data : bytes)
  | Execute_job
  | Stream_accepts (n : Z)
  | Timer_expires
  | Connect
  | Disconnect.

Section run.
Context (pp_mtu : Z).

Definition exec (e : event) : hdl unit :=
  match e with
  | Queue_send data => PacketPassInterface_Sender_Send monitor_port (Some data) (len data)
  | Execute_job => execute_job
  | Stream_accepts n => StreamPassInterface_Done stream_port n
  | Timer_expires =>
      BReactor_RemoveTimer;;
      PacketPassInactivityMonitor.timer_handler
  | Connect => ConnectServer pp_mtu
  | Disconnect => free_server
  end.

(** The queue sends one packet at a time, the connection accepts bytes it was
    given. *)
Definition event_ok (s : chain) (e : event) : bool :=
  match e with
  | Queue_send data => bool_decide (ppi_state (monitor_if s) = STATE_NONE) && (len data <=? pp_mtu)
  | Execute_job => negb (bool_decide (pending s = []))
  | Stream_accepts n =>
      output (connector s) && bool_decide (spi_state (stream_if s) = STATE_BUSY) &&
        (0 <? n) && (n <=? spi_len (stream_if s))
  | Timer_expires => timer_running s
  | Connect => negb (output (connector s))
  | Disconnect => output (connector s)
  end.

(** What is seen from outside: the packets the queue has sent, the number of
    those it was told are done, and for each connection, the last one first, the
    bytes it has accepted. *)
Record history := mk_history { packets : list bytes; finished : nat; conns : list bytes }.
Definition observe (s : chain) (e : event) (o : list out) (h : history) : history :=
  let ps := match e with Queue_send data => packets h ++ [data] | _ => packets h end in
  let k := match o with [Queue_done] => S (finished h) | _ => finished h end in
  let cs := match e with
            | Connect => [] :: conns h
            | Stream_accepts n =>
                match conns h with
                | c :: cs => (c ++ take (Z.to_nat n) (default [] (spi_data (stream_if s)))) :: cs
                | [] => []
                end
            | _ => conns h
            end in
  mk_history ps k cs.

(** [None]: something has gone wrong. *)
Fixpoint run (evs : list event) (s : chain) (h : history) : option (chain * history) :=
  match evs with
  | [] => Some (s, h)
  | e :: evs =>
      match exec e s with
      | Some (_, s', o) => run evs s' (observe s e o h)
      | None => None
      end
  end.
Fixpoint legal (evs : list event) (s : chain) : bool :=
  match evs with
  | [] => true
  | e :: evs => event_ok s e && match exec e s with Some (_, s', _) => legal evs s' | None => true end
  end.
End run.

(** Memory before it is initialised. *)
Definition raw_if : PacketPassInterface bytes := mk_ppi 0 false false None 0 STATE_NONE false.
Definition raw_chain : chain :=
  mk_chain [] raw_if false raw_if (mk_connector 0 0 None false) raw_if (mk_sender 0 None 0)
    (mk_spi false None 0 0 STATE_NONE).
Definition started (pp_mtu : Z) : chain :=
  match chain_Init pp_mtu raw_chain with Some (_, s, _) => s | None => raw_chain end.
Definition no_history : history := mk_history [] 0 [].

(** ** Where the packet is *)

(** At each stage exactly one job is pending, except at [Idle], [Held] and
    [Stream_busy], where none is. *)
Inductive stage :=
  | Idle
  | Monitor_op (d : bytes)
  | Connector_op (d : bytes)
  | Held (d : bytes) (* no connection *)
  | Sender_op (d : bytes)
  | Stream_op (d : bytes) (u : Z) (* [u] bytes are accepted *)
  | Stream_busy (d : bytes) (u : Z)
  | Stream_done (d : bytes) (u n : Z)
  | Sender_done (d : bytes)
  | Connector_done (d : bytes)
  | Monitor_done (d : bytes).

Definition job_of (st : stage) : list (iface * job_kind) :=
  match st with
  | Idle | Held _ | Stream_busy _ _ => []
  | Monitor_op _ => [(Monitor_input, Operation)]
  | Connector_op _ => [(Connector_input, Operation)]
  | Sender_op _ => [(Sender_input, Operation)]
  | Stream_op _ _ => [(Stream, Operation)]
  | Stream_done _ _ _ => [(Stream, Done)]
  | Sender_done _ => [(Sender_input, Done)]
  | Connector_done _ => [(Connector_input, Done)]
  | Monitor_done _ => [(Monitor_input, Done)]
  end.
Definition monitor_state (st : stage) : if_state :=
  match st with
  | Idle => STATE_NONE
  | Monitor_op _ => STATE_OPERATION_PENDING
  | Monitor_done _ => STATE_DONE_PENDING
  | _ => STATE_BUSY
  end.
Definition connector_state (st : stage) : if_state :=
  match st with
  | Idle | Monitor_op _ | Monitor_done _ => STATE_NONE
  | Connector_op _ => STATE_OPERATION_PENDING
  | Connector_done _ => STATE_DONE_PENDING
  | _ => STATE_BUSY
  end.
Definition sender_state (st : stage) : if_state :=
  match st with
  | Sender_op _ => STATE_OPERATION_PENDING
  | Stream_op _ _ | Stream_busy _ _ | Stream_done _ _ _ => STATE_BUSY
  | Sender_done _ => STATE_DONE_PENDING
  | _ => STATE_NONE
  end.
Definition stream_state (st : stage) : if_state :=
  match st with
  | Stream_op _ _ => STATE_OPERATION_PENDING
  | Stream_busy _ _ => STATE_BUSY
  | Stream_done _ _ _ => STATE_DONE_PENDING
  | _ => STATE_NONE
  end.
Definition packet (st : stage) : option bytes :=
  match st with
  | Idle => None
  | Monitor_op d | Connector_op d | Held d | Sender_op d | Stream_op d _ | Stream_busy d _
  | Stream_done d _ _ | Sender_done d | Connector_done d | Monitor_done d => Some d
  end.
(** Bytes of the packet that the connection has accepted. *)
Definition accepted (st : stage) : bytes :=
  match st with
  | Stream_op d u | Stream_busy d u => take (Z.to_nat u) d
  | Stream_done d u n => take (Z.to_nat (u + n)) d
  | Sender_done d => d
  | _ => []
  end.

Section invariant.
Context (pp_mtu : Z).

Definition ppi_ok (i : PacketPassInterface bytes) (st : if_state) (d : option bytes) : Prop :=
  ppi_mtu i = pp_mtu /\ ppi_has_requestcancel i = false /\ ppi_has_done i = true /\ ppi_state i = st /\
  (st = STATE_OPERATION_PENDING -> ppi_data i = d /\ ppi_len i = len (default [] d)).

Definition stage_ok (st : stage) (connected : bool) : Prop :=
  len (default [] (packet st)) <= pp_mtu /\
  match st with
  | Stream_op d u | Stream_busy d u => 0 <= u < len d
  | Stream_done d u n => 0 <= u /\ 0 < n /\ u + n <= len d
  | _ => True
  end /\
  match st with
  | Held _ => connected = false
  | Sender_op _ | Stream_op _ _ | Stream_busy _ _ | Stream_done _ _ _ | Sender_done _ => connected = true
  | _ => True
  end.

Definition sender_ok (st : stage) (s : PacketStreamSender) (i : StreamPassInterface bytes) : Prop :=
  spi_has_done i = true /\ spi_state i = stream_state st /\
  match st with
  | Stream_op d u | Stream_busy d u =>
      s = mk_sender (len d) (Some d) u /\ spi_data i = Some (drop (Z.to_nat u) d) /\ spi_len i = len d - u
  | Stream_done d u n => s = mk_sender (len d) (Some d) u /\ spi_done_len i = n
  | _ => in_len s = -1
  end.

Record at_stage (s : chain) (st : stage) : Prop := {
  at_jobs : pending s = job_of st;
  at_timer : timer_running s = negb (bool_decide (monitor_state st = STATE_BUSY));
  at_monitor : ppi_ok (monitor_if s) (monitor_state st) (packet st);
  at_connector : ppi_ok (connector_if s) (connector_state st) (packet st);
  at_con : input_mtu (connector s) = pp_mtu /\
    if bool_decide (connector_state st = STATE_BUSY)
    then con_in (connector s) = packet st /\ con_in_len (connector s) = len (default [] (packet st))
    else con_in_len (connector s) = -1;
  at_sender : output (connector s) = true ->
    ppi_ok (sender_if s) (sender_state st) (packet st) /\ sender_ok st (sender s) (stream_if s);
  at_ok : stage_ok st (output (connector s)) }.

(** What an event does to the stage. *)
Definition send_next (d : bytes) (u : Z) : stage := if u <? len d then Stream_op d u else Sender_done d.
Definition stage_next (connected : bool) (st : stage) (e : event) : stage :=
  match e, st with
  | Queue_send d, _ => Monitor_op d
  | Execute_job, Monitor_op d => Connector_op d
  | Execute_job, Connector_op d => if connected then Sender_op d else Held d
  | Execute_job, Sender_op d => send_next d 0
  | Execute_job, Stream_op d u => Stream_busy d u
  | Execute_job, Stream_done d u n => send_next d (u + n)
  | Execute_job, Sender_done d => Connector_done d
  | Execute_job, Connector_done d => Monitor_done d
  | Execute_job, Monitor_done _ => Idle
  | Stream_accepts n, Stream_busy d u => Stream_done d u n
  | Connect, Held d => Sender_op d
  | Disconnect, (Sender_op d | Stream_op d _ | Stream_busy d _ | Stream_done d _ _ | Sender_done d) => Held d
  | _, _ => st
  end.
Definition stage_out (st : stage) (e : event) : list out :=
  match e, st with
  | Execute_job, Stream_op d u => [Stream_send (Some (drop (Z.to_nat u) d)) (len d - u)]
  | Execute_job, Monitor_done _ => [Queue_done]
  | Timer_expires, _ => [Inactivity]
  | _, _ => []
  end.
End invariant.

(** *** What the connections carry

    Of the packets [ps], [k] are sent: each connection, the last one first, has
    carried whole packets in order from the first one that the connections
    before it had not sent completely, and then a beginning of the next one. *)
Fixpoint carried (ps : list bytes) (k : nat) (cs : list bytes) : Prop :=
  match cs with
  | [] => k = 0%nat
  | c :: cs => exists k0 part, (k0 <= k)%nat /\ c = List.concat (take (k - k0) (drop k0 ps)) ++ part /\
      part `prefix_of` default [] (ps !! k) /\ carried ps k0 cs
  end.

(** How many jobs and acceptances are left for a packet, at most. *)
Definition work (st : stage) : Z :=
  match st with
  | Idle => 0
  | Held _ => 1
  | Monitor_done _ => 2
  | Connector_done _ => 3
  | Sender_done _ => 4
  | Stream_done d u n => 3 * (len d - u - n) + 6
  | Stream_busy d u => 3 * (len d - u) + 4
  | Stream_op d u => 3 * (len d - u) + 5
  | Sender_op d => 3 * len d + 6
  | Connector_op d => 3 * len d + 7
  | Monitor_op d => 3 * len d + 8
  end.

Module SendChainProofs.
#[export] Hint Unfold execute_job dispatch ConnectServer free_server BReactor_SetTimer BReactor_RemoveTimer
  PacketStreamSender.send_data PacketStreamSender.input_handler_send PacketStreamSender.output_handler_done
  PacketStreamSender.PacketStreamSender_Init PacketStreamSender.PacketStreamSender_Free
  PacketPassConnector.input_handler_send PacketPassConnector.output_handler_done
  PacketPassConnector.PacketPassConnector_ConnectOutput PacketPassConnector.PacketPassConnector_DisconnectOutput
  PacketPassInactivityMonitor.input_handler_send PacketPassInactivityMonitor.output_handler_done
  PacketPassInactivityMonitor.timer_handler : flow.

Ltac stage_done :=
  split_and!; [done| |done]; split; unfold ppi_ok, sender_ok, stage_ok; cbn; intros;
    repeat match goal with |- _ /\ _ => split end; first [done | zlia | idtac].

Section proofs.
Context (pp_mtu : Z) (Hmtu : 0 <= pp_mtu).

Lemma exec_stage s st e : at_stage pp_mtu s st -> event_ok pp_mtu s e = true ->
  wp (exec pp_mtu e) s (fun _ s' o => o = stage_out st e /\
    at_stage pp_mtu s' (stage_next (output (connector s)) st e) /\
    output (connector s') = match e with Connect => true | Disconnect => false | _ => output (connector s) end).
Proof.
  destruct s as [l mi tm ci [mtu cl cd outp] si [sl sd su] ti].
  destruct mi as [m1 m2 m3 m4 m5 m6 m7], ci as [c1 c2 c3 c4 c5 c6 c7], si as [s1 s2 s3 s4 s5 s6 s7], ti as [t1 t2 t3 t4 t5].
  intros [H1 H2 H3 H4 H5 H6 H7] He. unfold ppi_ok, sender_ok, stage_ok in *. cbn in *. destruct_and?. subst.
  destruct e, st, outp; cbn in *; try done; try (specialize (H6 eq_refl)); destruct_and?; subst; cbn [exec];
    repeat match goal with
           | H : context [bool_decide (?x = ?x)] |- _ => rewrite (bool_decide_true (x = x)) in H by done
           | H : context [bool_decide (?x = ?y)] |- _ => rewrite (bool_decide_false (x = y)) in H by done
           | H : ?x = ?x -> _ |- _ => specialize (H eq_refl)
           end; destruct_and?; simplify_eq.
  all: flow_steps; try lia; unfold send_next; cbn in *;
    repeat match goal with H : (_ <? _) = _ |- _ => rewrite H end; try (stage_done; fail).
Qed.

Lemma started_ok : at_stage pp_mtu (started pp_mtu) Idle /\ output (connector (started pp_mtu)) = false.
Proof.
  assert (H : wp (chain_Init pp_mtu) raw_chain (fun _ s _ => at_stage pp_mtu s Idle /\ output (connector s) = false)).
  { unfold chain_Init, PacketPassConnector.PacketPassConnector_Init,
      PacketPassInactivityMonitor.PacketPassInactivityMonitor_Init.
    flow_steps; try lia. split; [|done]. split; unfold ppi_ok, sender_ok, stage_ok; cbn; intros;
      repeat match goal with |- _ /\ _ => split end; first [done | zlia]. }
  unfold started. apply wp_spec in H as ([] & s & o & -> & H). done.
Qed.

(** *** What the connections carry *)

Lemma carried_snoc ps d k cs : (k <= length ps)%nat -> carried ps k cs -> carried (ps ++ [d]) k cs.
Proof.
  revert k. induction cs as [|c cs IH]; intros k Hk; [done|]. intros (k0 & part & Hk0 & -> & Hp & Hc).
  exists k0, part. split_and!; [done| | |apply IH; [lia|done]].
  - rewrite drop_app_le by lia. rewrite take_app_le by (rewrite length_drop; lia). done.
  - destruct (decide (k = length ps)) as [->|].
    + rewrite lookup_ge_None_2 in Hp by lia. cbn in Hp. apply prefix_nil_inv in Hp as ->. apply prefix_nil.
    + by rewrite lookup_app_l by lia.
Qed.

Lemma carries_packet (ps : list bytes) k k0 (d : bytes) : (k0 <= k)%nat -> ps !! k = Some d ->
  List.concat (take (S k - k0) (drop k0 ps)) = List.concat (take (k - k0) (drop k0 ps)) ++ d.
Proof.
  intros Hk Hd. replace (S k - k0)%nat with (S (k - k0)) by lia.
  rewrite (take_S_r _ _ d), List.concat_app; [by cbn; rewrite app_nil_r|].
  rewrite lookup_drop. by replace (k0 + (k - k0))%nat with k by lia.
Qed.

Lemma accepted_next d u : 0 <= u <= len d -> accepted (send_next d u) = take (Z.to_nat u) d.
Proof.
  intros Hu. unfold send_next. destruct (u <? len d) eqn:E; [done|]. cbn. rewrite take_ge; [done|rewrite length_len; zlia].
Qed.
Lemma accepted_prefix st : accepted st `prefix_of` default [] (packet st).
Proof. destruct st; cbn; try apply prefix_nil; try done; apply prefix_take.
Qed.

(** The packets that are past the connector. *)
Definition past (st : stage) (h : history) : nat :=
  match st with Connector_done _ | Monitor_done _ => S (finished h) | _ => finished h end.
Definition history_ok (st : stage) (connected : bool) (h : history) : Prop :=
  match packet st with
  | None => length (packets h) = finished h
  | Some d => length (packets h) = S (finished h) /\ packets h !! finished h = Some d
  end /\
  if connected then
    match conns h with
    | c :: cs => exists k0, (k0 <= past st h)%nat /\
        c = List.concat (take (past st h - k0) (drop k0 (packets h))) ++ accepted st /\ carried (packets h) k0 cs
    | [] => False
    end
  else carried (packets h) (past st h) (conns h).

Lemma past_range st conn h : history_ok st conn h ->
  (finished h <= past st h <= length (packets h))%nat /\ (length (packets h) <= S (finished h))%nat.
Proof. intros [H _]. destruct st; cbn in *; destruct_and?; lia. Qed.

Lemma history_carried st conn h : history_ok st conn h ->
  carried (packets h) (past st h) (conns h).
Proof.
  intros Hh. assert (Hp := accepted_prefix st). destruct Hh as [H1 H2]. destruct conn; [|done].
  destruct (conns h) as [|c cs]; [done|]. destruct H2 as (k0 & Hk0 & -> & Hc). exists k0, (accepted st).
  split_and!; [done|done| |done]. destruct st; cbn in *; try apply prefix_nil; destruct H1 as [_ ->]; exact Hp.
Qed.

Definition connected_after (e : event) (conn : bool) : bool :=
  match e with Connect => true | Disconnect => false | _ => conn end.

Lemma segment_snoc (ps : list bytes) d k k0 : (k0 <= k <= length ps)%nat ->
  take (k - k0) (drop k0 (ps ++ [d])) = take (k - k0) (drop k0 ps).
Proof. intros. rewrite drop_app_le by lia. by rewrite take_app_le by (rewrite length_drop; lia). Qed.

Lemma history_queue s h d : at_stage pp_mtu s Idle -> history_ok Idle (output (connector s)) h ->
  history_ok (Monitor_op d) (output (connector s)) (observe s (Queue_send d) [] h).
Proof.
  intros Hs [Hl Hc]. cbn in Hl. unfold history_ok. cbn. split.
  - rewrite length_app, Hl, list_lookup_middle by lia. cbn. split; [lia|done].
  - destruct (output _).
    + destruct (conns h) as [|c cs]; [done|]. destruct Hc as (k0 & Hk0 & -> & Hc). cbn in *.
      exists k0. split_and!; [done|by rewrite segment_snoc by lia|apply carried_snoc; [lia|done]].
    + apply carried_snoc; [cbn; lia|done].
Qed.

Lemma history_job s st h : at_stage pp_mtu s st -> job_of st <> [] -> history_ok st (output (connector s)) h ->
  history_ok (stage_next (output (connector s)) st Execute_job) (output (connector s))
    (observe s Execute_job (stage_out st Execute_job) h).
Proof.
  intros Hs Hj [Hl Hc]. assert (Hst := at_ok _ _ _ Hs). unfold history_ok. destruct (output _) eqn:Eo.
  - destruct (conns h) as [|c cs] eqn:Ec; [done|]. destruct Hc as (k0 & Hk0 & Ehead & Hc).
    destruct Hst as (_ & Hu & Hconn).
    assert (Hpk : packet (stage_next true st Execute_job) = match st with Monitor_done _ => None | _ => packet st end).
    { destruct st; cbn; try done; unfold send_next; by destruct (_ <? _). }
    assert (Hpast : past (stage_next true st Execute_job) h = match st with
      | Monitor_done _ => finished h | Sender_done _ => S (finished h) | _ => past st h end).
    { destruct st; cbn; try done; unfold send_next; by destruct (_ <? _). }
    rewrite Hpk. destruct st as [|d|d|d|d|d u|d u|d u n|d|d|d]; try done; cbn in Hl, Hk0, Hc, Hu, Ehead |- *;
      rewrite ?Ec; (split; [tauto || lia|]); exists k0.
    + done.
    + done.
    + pose proof (len_nonneg d). rewrite accepted_next by lia. unfold send_next; destruct (_ <? _); done.
    + done.
    + rewrite accepted_next by lia. unfold send_next; destruct (_ <? _); done.
    + split_and!; [lia| |done]. rewrite app_nil_r, (carries_packet _ _ _ d) by tauto. done.
    + done.
    + done.
  - destruct Hst as (_ & _ & Hconn). destruct st; try done; cbn in *; (split; [tauto || lia|done]).
Qed.

Lemma history_accepts s st h n : at_stage pp_mtu s st -> event_ok pp_mtu s (Stream_accepts n) = true ->
  history_ok st (output (connector s)) h ->
  history_ok (stage_next (output (connector s)) st (Stream_accepts n)) (output (connector s))
    (observe s (Stream_accepts n) [] h).
Proof.
  intros Hs He [Hl Hc]. cbn in He. rewrite !andb_true_iff in He. destruct He as [[[Eo Hb] Hn] Hn1].
  apply bool_decide_eq_true_1 in Hb.
  destruct (at_sender _ _ _ Hs Eo) as [_ (_ & Hb' & Hd)]. rewrite Hb in Hb'.
  assert (Hst := at_ok _ _ _ Hs). rewrite Eo in *.
  destruct st as [|d|d|d|d|d u|d u|d u n'|d|d|d]; try done. destruct Hd as (_ & Hd & Hlen), Hst as (_ & Hu & _).
  unfold history_ok. cbn. split; [done|]. destruct (conns h) as [|c cs]; [done|].
  destruct Hc as (k0 & Hk0 & -> & Hc). exists k0. split_and!; [done| |done].
  rewrite <- app_assoc, Hd. cbn. rewrite Z2Nat.inj_add by lia. by rewrite take_take_drop.
Qed.

Lemma history_step s st h e : at_stage pp_mtu s st -> event_ok pp_mtu s e = true ->
  history_ok st (output (connector s)) h ->
  history_ok (stage_next (output (connector s)) st e)
    (match e with Connect => true | Disconnect => false | _ => output (connector s) end)
    (observe s e (stage_out st e) h).
Proof.
  intros Hs He Hh. destruct e.
  - cbn in He. apply andb_true_iff in He as [He _]. apply bool_decide_eq_true_1 in He.
    destruct (at_monitor _ _ _ Hs) as (_ & _ & _ & Hm & _). rewrite Hm in He.
    destruct st; try done. by apply history_queue.
  - apply history_job; [done| |done]. cbn in He. rewrite (at_jobs _ _ _ Hs) in He. by destruct st.
  - assert (stage_out st (Stream_accepts n) = []) as -> by done. by apply history_accepts.
  - replace (observe _ _ _ h) with h; [by destruct st|]. by destruct h, st.
  - cbn in He. apply negb_true_iff in He. rewrite He in *. assert (Hst := at_ok _ _ _ Hs). rewrite He in Hst.
    destruct Hst as (_ & _ & Hconn). destruct Hh as [Hl Hc].
    destruct st; try done; (split; [exact Hl|]); cbn in *; (eexists; split_and!; [done| |exact Hc]);
      by rewrite Nat.sub_diag.
  - cbn in He. rewrite He in *. apply history_carried in Hh as Hc. destruct Hh as [Hl _].
    destruct st; (split; [exact Hl|exact Hc]).
Qed.

Lemma run_stages evs : forall s st h, at_stage pp_mtu s st -> legal pp_mtu evs s = true ->
  history_ok st (output (connector s)) h ->
  exists s' h' st', run pp_mtu evs s h = Some (s', h') /\ at_stage pp_mtu s' st' /\
    history_ok st' (output (connector s')) h'.
Proof.
  induction evs as [|e evs IH]; intros s st h Hs Hl Hh; cbn in *; [by exists s, h, st|].
  apply andb_true_iff in Hl as [He Hl]. assert (Hw := exec_stage _ _ _ Hs He).
  apply wp_spec in Hw as ([] & s' & o & Ex & -> & Hs' & Ho). rewrite Ex in *.
  eapply IH; [exact Hs'|done|]. rewrite Ho. by apply history_step.
Qed.
Lemma run_started evs : legal pp_mtu evs (started pp_mtu) = true ->
  exists s h st, run pp_mtu evs (started pp_mtu) no_history = Some (s, h) /\ at_stage pp_mtu s st /\
    history_ok st (output (connector s)) h.
Proof.
  intros Hl. destruct started_ok as [Hs Ho]. eapply run_stages; [exact Hs|done|]. by rewrite Ho.
Qed.

(** Jobs and acceptances make progress. *)
Lemma work_nonneg st conn : stage_ok pp_mtu st conn -> 0 <= work st <= 3 * pp_mtu + 8.
Proof. intros (Hl & Hu & _). destruct st; cbn in *; zlia. Qed.
Lemma work_decreases s st e : at_stage pp_mtu s st -> event_ok pp_mtu s e = true ->
  match e with Execute_job | Stream_accepts _ => True | _ => False end ->
  work (stage_next (output (connector s)) st e) < work st.
Proof.
  intros Hs He Hk. assert (Hst := at_ok _ _ _ Hs). destruct Hst as (_ & Hu & _). destruct e; try done; cbn in He.
  - rewrite (at_jobs _ _ _ Hs) in He. destruct st as [|d|d|d|d|d u|d u|d u n'|d|d|d]; try done; cbn in *; try lia;
      try (destruct (output _); cbn; zlia); unfold send_next; destruct (_ <? _) eqn:E; cbn; zlia.
  - rewrite !andb_true_iff in He. destruct He as [[[Eo Hb] Hn] Hn1]. apply bool_decide_eq_true_1 in Hb.
    destruct (at_sender _ _ _ Hs Eo) as [_ (_ & Hb' & Hd)]. rewrite Hb in Hb'. destruct st; try done. cbn. lia.
Qed.
End proofs.
End SendChainProofs.

Section send_chain_properties.
Import SendChainProofs.
Context (pp_mtu : Z) (Hmtu : 0 <= pp_mtu).

(** C31: The stream to the udpgw server is made of whole packets: whatever the
    queue sends, in whatever pieces the connections accept it, and whenever a
    connection ends and a new one begins, no assertion in the chain of
    components fails; each connection accepts, in order, the packets from the
    first one that the connections before it had not sent completely, and at the
    end a beginning of the next one, so that a packet cut off by the end of a
    connection is sent again from its start; the queue is told that a packet is
    done once it is sent, and not before; and the timer of the monitor runs
    exactly when no packet is on its way. *)
Theorem send_chain_streams evs : legal pp_mtu evs (started pp_mtu) = true ->
  exists s h k, run pp_mtu evs (started pp_mtu) no_history = Some (s, h) /\
    (finished h <= k <= length (packets h))%nat /\ (length (packets h) <= S (finished h))%nat /\
    carried (packets h) k (conns h) /\
    (timer_running s = true <-> ppi_state (monitor_if s) <> STATE_BUSY) /\
    (ppi_state (monitor_if s) = STATE_NONE -> length (packets h) = finished h).
Proof using All.
  intros Hl. destruct (run_started pp_mtu Hmtu evs Hl) as (s & h & st & Hr & Hs & Hh).
  exists s, h, (past st h). destruct (past_range _ _ _ Hh) as [Hk Hf].
  destruct (at_monitor _ _ _ Hs) as (_ & _ & _ & Hm & _).
  split_and!; [done|lia|lia|done|by eapply history_carried|..].
  - rewrite (at_timer _ _ _ Hs), Hm, negb_true_iff, bool_decide_eq_false. done.
  - rewrite Hm. destruct Hh as [Hh _]. by destruct st.
Qed.

(** C32: The chain does not stall: after any events, if no job is pending then
    the queue may send the next packet, or the packet waits for a connection to
    be made, or for the present one to accept some of the bytes it was given;
    and jobs and acceptances lead there, at most three for each byte of a packet
    and eight more. *)
Theorem send_chain_progress evs : legal pp_mtu evs (started pp_mtu) = true ->
  exists s h, run pp_mtu evs (started pp_mtu) no_history = Some (s, h) /\
    (pending s <> [] \/ ppi_state (monitor_if s) = STATE_NONE \/ output (connector s) = false \/
     spi_state (stream_if s) = STATE_BUSY /\ 0 < spi_len (stream_if s)) /\
    forall es, Forall (fun e => match e with Execute_job | Stream_accepts _ => True | _ => False end) es ->
      legal pp_mtu es s = true -> len es <= 3 * pp_mtu + 8.
Proof using All.
  intros Hl. destruct (run_started pp_mtu Hmtu evs Hl) as (s & h & st & Hr & Hs & Hh). exists s, h. split_and!; [done|..].
  - destruct (at_monitor _ _ _ Hs) as (_ & _ & _ & Hm & _). rewrite (at_jobs _ _ _ Hs), Hm.
    assert (Hst := at_ok _ _ _ Hs). destruct Hst as (_ & Hu & Hconn). destruct st; cbn; try (left; done); try tauto.
    destruct (at_sender _ _ _ Hs Hconn) as [_ (_ & Hb & Hd)]. destruct Hd as (_ & _ & ->). cbn in Hb. right. right. right.
    split; [done|]. cbn in Hu. lia.
  - intros es Hes Hle. clear Hl Hr Hh. assert (Hw := work_nonneg pp_mtu Hmtu st _ (at_ok _ _ _ Hs)).
    enough (len es <= work st) by lia. revert s st Hs Hle Hw. induction Hes as [|e es He Hes IH]; intros s st Hs Hle Hw.
    { zlia. }
    cbn in Hle. apply andb_true_iff in Hle as [Hok Hle]. assert (Hx := exec_stage pp_mtu Hmtu _ _ _ Hs Hok).
    apply wp_spec in Hx as ([] & s' & o & Ex & _ & Hs' & _). rewrite Ex in Hle.
    assert (Hd := work_decreases pp_mtu s st e Hs Hok He).
    assert (Hn := work_nonneg pp_mtu Hmtu _ _ (at_ok _ _ _ Hs')).
    specialize (IH s' _ Hs' Hle Hn). rewrite len_cons. lia.
Qed.
End send_chain_properties.

Module SendChainWitnesses.
(** A packet cut off by the end of a connection, an empty one, and a third that
    waits for the connection to go on. *)
Definition demo_packet : bytes := [Byte.x01; Byte.x02; Byte.x03].
Definition demo_events : list event :=
  [Queue_send demo_packet; Execute_job; Execute_job; Connect; Execute_job; Execute_job; Stream_accepts 2;
   Execute_job; Execute_job; Disconnect; Connect; Execute_job; Execute_job; Stream_accepts 2;
   Execute_job; Execute_job; Stream_accepts 1; Execute_job; Execute_job; Execute_job; Execute_job;
   Queue_send [Byte.x04]; Execute_job; Execute_job; Execute_job; Execute_job].
Example demo_resent :
  (fun x => (finished x.2, conns x.2)) <$> run 8 demo_events (started 8) no_history =
  Some (1%nat, [[Byte.x01; Byte.x02; Byte.x03]; [Byte.x01; Byte.x02]]).
Proof. reflexivity. Qed.

Lemma send_chain_streams_witness : exists s h k, run 8 demo_events (started 8) no_history = Some (s, h) /\
  (finished h <= k <= length (packets h))%nat /\ (length (packets h) <= S (finished h))%nat /\
  carried (packets h) k (conns h) /\
  (timer_running s = true <-> ppi_state (monitor_if s) <> STATE_BUSY) /\
  (ppi_state (monitor_if s) = STATE_NONE -> length (packets h) = finished h).
Proof. apply (send_chain_streams 8 ltac:(lia) demo_events). reflexivity. Defined.
Lemma send_chain_progress_witness : exists s h, run 8 demo_events (started 8) no_history = Some (s, h) /\
  (pending s <> [] \/ ppi_state (monitor_if s) = STATE_NONE \/ output (connector s) = false \/
   spi_state (stream_if s) = STATE_BUSY /\ 0 < spi_len (stream_if s)) /\
  forall es, Forall (fun e => match e with Execute_job | Stream_accepts _ => True | _ => False end) es ->
    legal 8 es s = true -> len es <= 3 * 8 + 8.
Proof. apply (send_chain_progress 8 ltac:(lia) demo_events). reflexivity. Defined.
End SendChainWitnesses.
