(* ===== verification/DeviceRead.v ===== *)
(** * Reading from the device

    [tuntap/BTap.c] as it is built for Android, with the file descriptor that
    the VPN service gives, [flow/SinglePacketBuffer.c], and the interface
    [device_read_interface] of [tun2socks/tun2socks.c], composed as [main] does:
    frames are read into the one buffer and passed, from there, to
    [device_read_handler_send], where [DevicePackets] begins.  The buffer is an
    object in memory, to which the interfaces pass pointers.

    What [read] answers is an argument of the events that call it. *)
From S2P Require Import Prelude FlowInterfaces.
From S2P Require Reactor.

Abbreviation ptr := nat.
Abbreviation BREACTOR_READ := Reactor.BREACTOR_READ.

(** ** State *)

Inductive iface := Tap_output | Read_interface | Lwip_init.
#[export] Instance iface_eq_dec : EqDecision iface.
Proof. solve_decision. Defined.

(** [fd_events]: what the reactor waits for on the descriptor, which is
    registered when there is something here. *)
Record BTap := mk_tap {
  frame_mtu : Z;
  output_packet : option ptr;
  close_fd : bool;
  poll_events : Z;
  fd_events : option Z;
  tap_errors : nat }. (* calls of [handler_error] *)
#[export] Instance tap_eta : Eta BTap := fun r =>
  mk_tap (frame_mtu r) (output_packet r) (close_fd r) (poll_events r) (fd_events r) (tap_errors r).

Record reading := mk_reading {
  pending : list (iface * job_kind);
  device : BTap;
  tap_output : PacketRecvInterface ptr;
  device_read_interface : PacketPassInterface ptr;
  device_read_buffer : option ptr; (* [buf] *)
  memory : gmap ptr bytes }.
#[export] Instance reading_eta : Eta reading := fun r =>
  mk_reading (pending r) (device r) (tap_output r) (device_read_interface r) (device_read_buffer r) (memory r).
#[export] Instance reading_jobs : Jobs reading iface := {|
  jobs := pending; set_jobs l s := s <| pending := l |> |}.
Definition tap_port : port reading iface (PacketRecvInterface ptr) :=
  mk_port Tap_output tap_output (fun i s => s <| tap_output := i |>).
Definition read_port : port reading iface (PacketPassInterface ptr) :=
  mk_port Read_interface device_read_interface (fun i s => s <| device_read_interface := i |>).

Inductive out :=
  | Handler_error
  | Lwip_init_handler
  | Device_packet (data : bytes) (* what [device_read_handler_send] goes on with *)
  | Sys_read (data : bytes) (* a frame that [read] has returned *)
  | Sys_error (* [read] has failed, not because it would have to wait *)
  | Write (data : bytes)
  | Close.
Definition hdl := handler reading out.

Definition set_device (f : BTap -> BTap) : hdl unit := modify (fun o => o <| device := f (device o) |>).

(** ** The system *)

Inductive answer := Read (data : bytes) | Would_block | Read_error.

(** [read(fd, p, n)]: the bytes read, or -1 with what [errno] says. *)
Definition read (r : answer) (p : ptr) (n : Z) : hdl Z :=
  match r with
  | Read data =>
      o ← get;
      mem ← of_option (memory o !! p);
      mem ← of_option (store 0 data mem);
      modify (fun o => o <| memory := <[p := mem]> (memory o) |>);;
      call (Sys_read data);;
      mret (len data)
  | Would_block => mret (-1)
  | Read_error => call Sys_error;; mret (-1)
  end.
Definition again (r : answer) : bool := match r with Would_block => true | _ => false end.

Definition BReactor_SetFileDescriptorEvents : hdl unit :=
  d ← gets device;
  ASSERT (match fd_events d with Some _ => true | None => false end);;
  set_device (fun d => d <| fd_events := Some (poll_events d) |>).

(** ** [BTap.c] *)

(** With [NDEBUG], as the program is built, [DEBUGERROR] is just the call. *)
Definition report_error : hdl unit :=
  set_device (fun d => d <| tap_errors := S (tap_errors d) |>);;
  call Handler_error.

Definition fd_handler (r : answer) (events : Z) : hdl unit :=
  if negb (Z.land events BREACTOR_READ =? 0) then
    d ← gets device;
    p ← of_option (output_packet d);
    bytes ← read r p (frame_mtu d);
    if bytes <? 0 then
      if again r then mret tt else report_error
    else
      ASSERT (bytes <=? frame_mtu d);;
      set_device (fun d => d <| output_packet := None |>);;
      set_device (fun d => d <| poll_events := Z.land (poll_events d) (Z.lnot BREACTOR_READ) |>);;
      BReactor_SetFileDescriptorEvents;;
      PacketRecvInterface_Done tap_port bytes
  else mret tt.

Definition output_handler_recv (r : answer) (data : option ptr) : hdl unit :=
  d ← gets device;
  p ← of_option data;
  ASSERT (match output_packet d with Some _ => false | None => true end);;
  bytes ← read r p (frame_mtu d);
  if bytes <? 0 then
    if again r then
      set_device (fun d => d <| output_packet := Some p |>);;
      set_device (fun d => d <| poll_events := Z.lor (poll_events d) BREACTOR_READ |>);;
      BReactor_SetFileDescriptorEvents
    else report_error
  else
    ASSERT (bytes <=? frame_mtu d);;
    PacketRecvInterface_Done tap_port bytes.

(** The case [BTAP_INIT_FD]. *)
Definition init_fd (fd mtu : Z) : hdl unit :=
  ASSERT (0 <=? fd);;
  ASSERT (0 <=? mtu);;
  set_device (fun d => d <| close_fd := false |> <| frame_mtu := mtu |>).

(** Whether [fcntl] and [BReactor_AddFileDescriptor] succeed is given. *)
Definition BTap_Init2 (fcntl_ok add_ok : bool) (fd mtu : Z) : hdl bool :=
  init_fd fd mtu;;
  d ← gets device;
  let fail1 := if close_fd d then call Close;; mret false else mret false in
  if negb fcntl_ok then fail1 else
  if negb add_ok then fail1 else
  set_device (fun d => d <| fd_events := Some 0 |> <| poll_events := 0 |>);;
  PacketRecvInterface_Init tap_port (frame_mtu d);;
  set_device (fun d => d <| output_packet := None |>);;
  mret true.

Definition BTap_Free : hdl unit :=
  PacketRecvInterface_Free tap_port;;
  set_device (fun d => d <| fd_events := None |>);;
  d ← gets device;
  if close_fd d then call Close else mret tt.

Definition BTap_GetMTU : hdl Z := d ← gets device; mret (frame_mtu d).

(** Whatever [write] returns. *)
Definition BTap_Send (data : bytes) : hdl unit :=
  d ← gets device;
  ASSERT (len data <=? frame_mtu d);;
  call (Write data).

(** ** [SinglePacketBuffer.c] *)

Module SinglePacketBuffer.
Definition input_handler_done (in_len : Z) : hdl unit :=
  buf ← gets device_read_buffer; PacketPassInterface_Sender_Send read_port buf in_len.
Definition output_handler_done : hdl unit :=
  buf ← gets device_read_buffer; PacketRecvInterface_Receiver_Recv tap_port buf.

(** [block]: what [BAlloc] returns, and its contents. *)
Definition SinglePacketBuffer_Init (block : option (ptr * bytes)) : hdl bool :=
  out_mtu ← PacketPassInterface_GetMTU read_port;
  in_mtu ← PacketRecvInterface_GetMTU tap_port;
  ASSERT (in_mtu <=? out_mtu);;
  PacketRecvInterface_Receiver_Init tap_port;;
  PacketPassInterface_Sender_Init read_port;;
  match block with
  | None => mret false
  | Some (p, raw) =>
      modify (fun o => o <| memory := <[p := raw]> (memory o) |> <| device_read_buffer := Some p |>);;
      PacketRecvInterface_Receiver_Recv tap_port (Some p);;
      mret true
  end.
Definition SinglePacketBuffer_Free : hdl unit :=
  buf ← gets device_read_buffer;
  p ← of_option buf;
  modify (fun o => o <| memory := delete p (memory o) |> <| device_read_buffer := None |>).
End SinglePacketBuffer.

(** ** Of [tun2socks.c] *)

(** The data is that of the frame as long as the handler runs. *)
Definition device_read_handler_send (data : option ptr) (data_len : Z) : hdl unit :=
  ASSERT (0 <=? data_len);;
  PacketPassInterface_Done read_port;;
  o ← get;
  p ← of_option data;
  mem ← of_option (memory o !! p);
  data ← of_option (load 0 data_len mem);
  call (Device_packet data).

Definition set_lwip_init_job : hdl unit := BPending_Set (Lwip_init, Operation).

(** The part of [main] that sets up reading, with the labels it jumps to, and
    the job that initialises lwIP. *)
Definition main_init (fcntl_ok add_ok : bool) (fd mtu : Z) (block : option (ptr * bytes)) : hdl bool :=
  b ← BTap_Init2 fcntl_ok add_ok fd mtu;
  if negb b then mret false else
  mtu ← BTap_GetMTU;
  PacketPassInterface_Init read_port mtu;;
  b ← SinglePacketBuffer.SinglePacketBuffer_Init block;
  if negb b then
    PacketPassInterface_Free read_port;;
    BTap_Free;;
    mret false
  else
    set_lwip_init_job;;
    mret true.

Definition main_free : hdl unit :=
  BPending_Unset (Lwip_init, Operation);;
  SinglePacketBuffer.SinglePacketBuffer_Free;;
  PacketPassInterface_Free read_port;;
  BTap_Free.

Definition dispatch (r : answer) (j : iface * job_kind) : hdl unit :=
  match j with
  | (Lwip_init, Operation) => call Lwip_init_handler
  | (Tap_output, Operation) => data ← _PacketRecvInterface_job_operation tap_port; output_handler_recv r data
  | (Tap_output, Done) => n ← _PacketRecvInterface_job_done tap_port; SinglePacketBuffer.input_handler_done n
  | (Read_interface, Operation) =>
      '(data, n) ← _PacketPassInterface_job_operation read_port; device_read_handler_send data n
  | (Read_interface, Done) => _PacketPassInterface_job_done read_port;; SinglePacketBuffer.output_handler_done
  | _ => ASSERT false
  end.
Definition execute_job (r : answer) : hdl unit :=
  l ← gets pending;
  match l with
  | [] => ASSERT false
  | j :: l => modify (fun s => s <| pending := l |>);; dispatch r j
  end.

Inductive event := Execute_job (r : answer) | Fd_event (events : Z) (r : answer).
Definition exec (e : event) : hdl unit :=
  match e with
  | Execute_job r => execute_job r
  | Fd_event events r => fd_handler r events
  end.

Definition answer_ok (mtu : Z) (r : answer) : bool :=
  match r with Read data => len data <=? mtu | _ => true end.
(** [read] returns no more than it is asked for; the reactor reports what is
    waited for, errors and hang-ups. *)
Definition event_ok (s : reading) (e : event) : bool :=
  match e with
  | Execute_job r => negb (bool_decide (pending s = [])) && answer_ok (frame_mtu (device s)) r
  | Fd_event events r =>
      match fd_events (device s) with
      | Some w => Z.land (Z.land events BREACTOR_READ) (Z.lnot w) =? 0
      | None => false
      end && answer_ok (frame_mtu (device s)) r
  end.

Fixpoint run (evs : list event) : hdl unit :=
  match evs with [] => mret tt | e :: evs => exec e;; run evs end.
Fixpoint legal (evs : list event) (s : reading) : bool :=
  match evs with
  | [] => true
  | e :: evs => event_ok s e && match exec e s with Some (_, s', _) => legal evs s' | None => true end
  end.

(** What was read and what has reached [device_read_handler_send]. *)
Definition frames (l : list out) : list bytes := omap (fun o => match o with Sys_read d => Some d | _ => None end) l.
Definition delivered (l : list out) : list bytes := omap (fun o => match o with Device_packet d => Some d | _ => None end) l.
(** The calls of [handler_error], and the failures of [read]. *)
Definition errors (l : list out) : list unit := omap (fun o => match o with Handler_error => Some tt | _ => None end) l.
Definition failures (l : list out) : list unit := omap (fun o => match o with Sys_error => Some tt | _ => None end) l.

(** Memory before [main]. *)
Definition raw_reading : reading :=
  mk_reading [] (mk_tap 0 None false 0 None 0) (mk_pri 0 false None 0 STATE_NONE)
    (mk_ppi 0 false false None 0 STATE_NONE false) None ∅.

(** ** Where the frame is *)

Inductive stage :=
  | First (* lwIP is not initialised *)
  | Recv_op
  | Waiting (* for the descriptor to be readable *)
  | Recv_done (d : bytes)
  | Pass_op (d : bytes)
  | Pass_done
  | Failed (* the job to read found an error *).

Definition job_of (st : stage) : list (iface * job_kind) :=
  match st with
  | First => [(Lwip_init, Operation); (Tap_output, Operation)]
  | Recv_op => [(Tap_output, Operation)]
  | Waiting | Failed => []
  | Recv_done _ => [(Tap_output, Done)]
  | Pass_op _ => [(Read_interface, Operation)]
  | Pass_done => [(Read_interface, Done)]
  end.
Definition tap_state (st : stage) : if_state :=
  match st with
  | First | Recv_op => STATE_OPERATION_PENDING
  | Waiting | Failed => STATE_BUSY
  | Recv_done _ => STATE_DONE_PENDING
  | _ => STATE_NONE
  end.
Definition read_state (st : stage) : if_state :=
  match st with
  | Pass_op _ => STATE_OPERATION_PENDING
  | Pass_done => STATE_DONE_PENDING
  | _ => STATE_NONE
  end.
Definition in_flight (st : stage) : list bytes :=
  match st with Recv_done d | Pass_op d => [d] | _ => [] end.

Section invariant.
Context (mtu : Z) (buf : ptr).

(** With the interfaces, what is in the buffer, and that the descriptor is
    waited for only when a frame can be taken. *)
Record at_stage (s : reading) (st : stage) : Prop := {
  at_jobs : pending s = job_of st;
  at_device : frame_mtu (device s) = mtu /\ close_fd (device s) = false /\
    match st with
    | Waiting => output_packet (device s) = Some buf /\
        poll_events (device s) = BREACTOR_READ /\ fd_events (device s) = Some BREACTOR_READ
    | _ => output_packet (device s) = None /\
        poll_events (device s) = 0 /\ fd_events (device s) = Some 0
    end;
  at_tap : pri_mtu (tap_output s) = mtu /\ pri_has_done (tap_output s) = true /\ pri_state (tap_output s) = tap_state st /\
    match st with
    | First | Recv_op => pri_data (tap_output s) = Some buf
    | Recv_done d => pri_done_len (tap_output s) = len d
    | _ => True
    end;
  at_read : ppi_mtu (device_read_interface s) = mtu /\ ppi_has_done (device_read_interface s) = true /\
    ppi_state (device_read_interface s) = read_state st /\
    match st with
    | Pass_op d => ppi_data (device_read_interface s) = Some buf /\ ppi_len (device_read_interface s) = len d
    | _ => True
    end;
  at_buffer : device_read_buffer s = Some buf /\ exists mem, memory s !! buf = Some mem /\ len mem = mtu /\
    match st with Recv_done d | Pass_op d => load 0 (len d) mem = Some d | _ => True end }.

(** [n]: the errors counted. *)
Definition trace_ok (n : nat) (st : stage) (l : list out) : Prop :=
  frames l = delivered l ++ in_flight st /\
  (match st with First => l = [] | _ => head l = Some Lwip_init_handler end) /\
  length (errors l) = n /\ length (failures l) = n /\ (st = Failed -> n <> 0%nat).
End invariant.

Module DeviceReadProofs.
#[export] Hint Unfold execute_job dispatch fd_handler output_handler_recv report_error set_device
  BReactor_SetFileDescriptorEvents init_fd BTap_Init2 set_lwip_init_job BTap_GetMTU device_read_handler_send
  SinglePacketBuffer.input_handler_done SinglePacketBuffer.output_handler_done
  SinglePacketBuffer.SinglePacketBuffer_Init main_init : flow.

Section proofs.
Context (mtu : Z) (buf : ptr).
Hypothesis Hmtu : 0 <= mtu.

Lemma wp_read r p n s mem (Q : Z -> reading -> list out -> Prop) :
  memory s !! p = Some mem -> answer_ok (len mem) r = true ->
  match r with
  | Read d => forall mem', len mem' = len mem -> load 0 (len d) mem' = Some d ->
      Q (len d) (s <| memory := <[p := mem']> (memory s) |>) [Sys_read d]
  | Would_block => Q (-1) s []
  | Read_error => Q (-1) s [Sys_error]
  end -> wp (read r p n) s Q.
Proof using.
  intros Hm Hr HQ. destruct r as [d| |]; cbn [read]; [|hstep; done|hstep; hstep; hstep; done]. cbn in Hr.
  hstep. hstep. hstep. eapply wp_of_option; [exact Hm|]. hstep.
  destruct (store_Some 0 d mem) as [mem' Hst]; [zlia|zlia|]. eapply wp_of_option; [exact Hst|].
  do 5 hstep. apply HQ; [by eapply len_store|].
  rewrite load_Some; [f_equal; by eapply zslice_store_same|lia|zlia|]. rewrite (len_store _ _ _ _ Hst). zlia.
Qed.

Lemma load_bound off n (m d : bytes) : load off n m = Some d -> off + n <= len m.
Proof using. unfold load. destruct (in_range off n m) eqn:E; [|done]. apply in_range_true in E. lia. Qed.

(** What a step adds to the trace. *)
Lemma trace_step n st st' o : in_flight st ++ frames o = delivered o ++ in_flight st' ->
  st <> First -> st' <> First -> length (errors o) = length (failures o) -> (st' = Failed -> st = Failed \/ errors o <> []) ->
  forall l, trace_ok n st l -> trace_ok (length (errors o) + n) st' (l ++ o).
Proof using.
  intros Ho H1 H2 He H3 l (Hf & Hh & Hl & Hl' & Hn). unfold trace_ok, frames, delivered, errors, failures in *.
  rewrite !omap_app, Hf, !length_app, He. split_and!; [| |lia..|].
  - by rewrite <- !app_assoc, Ho.
  - destruct st'; try done; destruct st; try done; by destruct l.
  - intros E. destruct (H3 E) as [E'|E']; [specialize (Hn E'); lia|]. intros Hz. apply E', length_zero_iff_nil. lia.
Qed.

(** Which handler outside a step calls, and at which stages. *)
Definition step_calls (st st' : stage) (o : list out) : Prop :=
  match o with
  | [] | [Sys_read _] | [Sys_error; Handler_error] => st = First <-> st' = First
  | [Lwip_init_handler] => st = First /\ st' = Recv_op
  | [Device_packet _] => st <> First /\ st' <> First
  | _ => False
  end.

Ltac reading_done := split; cbn; repeat match goal with |- _ /\ _ => split end; try done; eauto.
Ltac next st := exists st; split; [reading_done|split; [done|]].

Lemma read_exec_stage s st e : at_stage mtu buf s st -> event_ok s e = true ->
  wp (exec e) s (fun _ s' o => exists st', at_stage mtu buf s' st' /\ step_calls st st' o /\
    forall l, trace_ok (tap_errors (device s)) st l -> trace_ok (tap_errors (device s')) st' (l ++ o)).
Proof using All.
  destruct s as [l [m1 m2 m3 m4 m5 m6] [p1 p2 p3 p4 p5] [i1 i2 i3 i4 i5 i6 i7] b mem].
  intros [H1 H2 H3 H4 H5] He. cbn in *.
  destruct H5 as [-> (bm & Hbm & Hlen & Hd)]. destruct_and?. subst.
  unfold event_ok in He. cbn in He. destruct e as [r|ev r]; cbn [exec].
  - destruct st; try done; cbn in *; destruct_and?; simplify_eq.
    + flow_steps. next Recv_op. intros l (Hf & -> & He1 & He2 & _). by split_and!.
    + flow_steps. eapply wp_read; [done|done|]. destruct r as [d| |].
      * intros mem' Hlen' Hload. cbn in He. flow_steps; [zlia|]. next (Recv_done d).
        { eexists. split_and!; [by rewrite lookup_insert_eq|done|done]. }
        by apply (trace_step m6); try done; auto.
      * flow_steps. next Waiting. by apply (trace_step m6); try done; auto.
      * flow_steps. next Failed. apply (trace_step m6); try done. by right.
    + apply load_bound in Hd as Hd'. flow_steps. next (Pass_op d). by apply (trace_step m6); try done; auto.
    + flow_steps. eapply wp_of_option; [done|]. hstep. eapply wp_of_option; [done|]. flow_steps.
      next Pass_done. apply (trace_step m6); try done; auto.
    + flow_steps. next Recv_op. by apply (trace_step m6); try done; auto.
  - apply andb_true_iff in He as [He Hr].
    assert (Hidle : m5 = Some 0 -> Z.land ev BREACTOR_READ = 0).
    { intros ->. change (Z.lnot 0) with (-1) in He. rewrite Z.land_m1_r in He. lia. }
    destruct st as [| | |d|d| |]; cbn in *; destruct_and?; simplify_eq; autounfold with flow.
    3: { apply wp_if; intros Eev; [|by hstep; exists Waiting; split; [reading_done|split; [done|]]; intros l Hl; rewrite app_nil_r].
      flow_steps. eapply wp_read; [done|done|]. destruct r as [d| |].
      - intros mem' Hlen' Hload. cbn in Hr. flow_steps; [zlia|]. next (Recv_done d).
        { eexists. split_and!; [by rewrite lookup_insert_eq|done|done]. }
        by apply (trace_step m6); try done; auto.
      - flow_steps. next Waiting. by apply (trace_step m6); try done; auto.
      - flow_steps. next Waiting. by apply (trace_step m6); try done; auto. }
    all: rewrite Hidle by done; cbn [Z.eqb negb]; hstep.
    1: exists First. 2: exists Recv_op. 3: exists (Recv_done d). 4: exists (Pass_op d). 5: exists Pass_done. 6: exists Failed.
    all: split; [reading_done|split; [done|]]; intros l Hl; by rewrite app_nil_r.
Qed.

Lemma read_run_stages evs : forall s st l, at_stage mtu buf s st -> legal evs s = true -> trace_ok (tap_errors (device s)) st l ->
  exists s' o st', run evs s = Some (tt, s', o) /\ at_stage mtu buf s' st' /\ trace_ok (tap_errors (device s')) st' (l ++ o).
Proof using All.
  induction evs as [|e evs IH]; intros s st l Hs Hl Ht; cbn [run legal] in *.
  { exists s, [], st. by rewrite app_nil_r. }
  apply andb_true_iff in Hl as [He Hl]. assert (Hw := read_exec_stage _ _ _ Hs He).
  apply wp_spec in Hw as ([] & s1 & o & Ex & st1 & Hs1 & _ & Ht1). rewrite Ex in Hl.
  destruct (IH s1 st1 (l ++ o) Hs1 Hl (Ht1 _ Ht)) as (s2 & o2 & st2 & Er & Hs2 & Ht2).
  exists s2, (o ++ o2), st2. split_and!; [|done|by rewrite app_assoc].
  apply wp_eq. apply wp_bind, wp_spec. eexists _, _, _. split; [exact Ex|].
  apply wp_spec. eexists _, _, _. by split; [exact Er|].
Qed.

Lemma init_stage fd raw : 0 <= fd -> len raw = mtu ->
  wp (main_init true true fd mtu (Some (buf, raw))) raw_reading (fun b s o => b = true /\ o = [] /\ at_stage mtu buf s First /\ tap_errors (device s) = 0%nat).
Proof using All.
  intros Hfd Hraw. unfold raw_reading. flow_steps. split_and!; [done|done| |done]. reading_done.
  exists raw. split_and!; [by rewrite lookup_insert_eq|done|done].
Qed.
Lemma free_stage s st : at_stage mtu buf s st ->
  wp main_free s (fun _ s' o => o = [] /\ pending s' = [] /\ memory s' = delete buf (memory s) /\
    fd_events (device s') = None /\ device_read_buffer s' = None).
Proof using.
  destruct s as [l [m1 m2 m3 m4 m5 m6] [p1 p2 p3 p4 p5] [i1 i2 i3 i4 i5 i6 i7] b mem].
  intros [H1 H2 H3 H4 [H5 _]]. cbn in *. destruct_and?. subst. unfold main_free, BTap_Free, SinglePacketBuffer.SinglePacketBuffer_Free.
  flow_steps. split_and!; try done. by destruct st.
Qed.
End proofs.
End DeviceReadProofs.

Section device_read_properties.
Import DeviceReadProofs.
Context (mtu fd : Z) (buf : ptr) (raw : bytes) (s0 : reading).
Hypotheses (Hmtu : 0 <= mtu) (Hraw : len raw = mtu).
Hypothesis Hinit : main_init true true fd mtu (Some (buf, raw)) raw_reading = Some (true, s0, []).

End device_read_properties.

Module DeviceReadWitnesses.
Definition demo_mtu : Z := 20.
Definition demo_start : reading :=
  match main_init true true 5 demo_mtu (Some (3%nat, replicate 20 Byte.x00)) raw_reading with
  | Some (_, s, _) => s
  | None => raw_reading
  end.
Definition job := Execute_job Would_block.
(** One frame at once, nothing, an error, another frame when the descriptor is
    readable, another error. *)
Definition demo_events : list event :=
  [job; Execute_job (Read [Byte.x45; Byte.x01]); job; job; job; Execute_job Would_block;
   Fd_event BREACTOR_READ Read_error; Fd_event BREACTOR_READ (Read [Byte.x46]); job; job; job; Execute_job Read_error].
Example demo_delivered :
  (fun x => (delivered x.2, errors x.2)) <$> run demo_events demo_start = Some ([[Byte.x45; Byte.x01]; [Byte.x46]], [tt; tt]).
Proof. reflexivity. Qed.

End DeviceReadWitnesses.
