(* ===== verification/BConnection.v ===== *)
(** * Connections

    [system/BConnection_unix.c]: a stream connection on a socket.  It sends what
    is asked through a [StreamPassInterface] and receives through a
    [StreamRecvInterface]; both sides work at once, wait for the descriptor when
    the system has no room or no data, and are bounded by limits of the reactor.

    What [read] and [write] answer is an argument of the events that call them.
    Data that is sent is seen as its contents, a buffer that is received into as
    an address in memory. *)
From S2P Require Import Prelude FlowInterfaces.
From S2P Require Reactor.

Abbreviation BREACTOR_READ := Reactor.BREACTOR_READ.
Abbreviation BREACTOR_WRITE := Reactor.BREACTOR_WRITE.
Abbreviation BREACTOR_ERROR := Reactor.BREACTOR_ERROR.
Abbreviation BREACTOR_HUP := Reactor.BREACTOR_HUP.
Abbreviation has_bit := Reactor.has_bit.
Abbreviation BReactorLimit := Reactor.BReactorLimit.
Abbreviation addr := (nat * Z)%type.

Definition BCONNECTION_SEND_LIMIT : Z := 2.
Definition BCONNECTION_RECV_LIMIT : Z := 2.
Definition BCONNECTION_EVENT_ERROR : Z := 1.
Definition BCONNECTION_EVENT_RECVCLOSED : Z := 2.

(** ** State *)

(** The interfaces, and the jobs [send.job] and [recv.job]. *)
Inductive iface := Send_iface | Send_job | Recv_iface | Recv_job.
#[export] Instance iface_eq_dec : EqDecision iface.
Proof. solve_decision. Defined.

Inductive send_state := SEND_STATE_NOT_INITED | SEND_STATE_READY | SEND_STATE_BUSY.
#[export] Instance send_state_eq_dec : EqDecision send_state.
Proof. solve_decision. Defined.
Inductive recv_state :=
  RECV_STATE_NOT_INITED | RECV_STATE_READY | RECV_STATE_BUSY | RECV_STATE_INITED_CLOSED | RECV_STATE_NOT_INITED_CLOSED.
#[export] Instance recv_state_eq_dec : EqDecision recv_state.
Proof. solve_decision. Defined.

Record send_part := mk_send {
  send_limit : BReactorLimit;
  send_if : StreamPassInterface bytes;
  send_busy_data : option bytes;
  send_busy_data_len : Z;
  send_st : send_state }.
#[export] Instance send_eta : Eta send_part := fun r =>
  mk_send (send_limit r) (send_if r) (send_busy_data r) (send_busy_data_len r) (send_st r).
Record recv_part := mk_recv {
  recv_limit : BReactorLimit;
  recv_if : StreamPassInterface addr;
  recv_busy_data : option addr;
  recv_busy_data_avail : Z;
  recv_st : recv_state }.
#[export] Instance recv_eta : Eta recv_part := fun r =>
  mk_recv (recv_limit r) (recv_if r) (recv_busy_data r) (recv_busy_data_avail r) (recv_st r).

(** [fd_events]: what the reactor waits for on the descriptor, which is
    registered when there is something here. *)
Record BConnection := mk_con {
  pending : list (iface * job_kind);
  has_handler : bool;
  close_fd : bool;
  is_hupd : bool;
  fd_events : option Z;
  wait_events : Z;
  send : send_part;
  recv : recv_part;
  con_errors : nat; (* calls of the handler with an error *)
  memory : gmap nat bytes }.
#[export] Instance con_eta : Eta BConnection := fun r =>
  mk_con (pending r) (has_handler r) (close_fd r) (is_hupd r) (fd_events r) (wait_events r) (send r) (recv r)
    (con_errors r) (memory r).
#[export] Instance con_jobs : Jobs BConnection iface := {|
  jobs := pending; set_jobs l s := s <| pending := l |> |}.
Definition send_port : port BConnection iface (StreamPassInterface bytes) :=
  mk_port Send_iface (fun s => send_if (send s)) (fun i s => s <| send := send s <| send_if := i |> |>).
Definition recv_port : port BConnection iface (StreamPassInterface addr) :=
  mk_port Recv_iface (fun s => recv_if (recv s)) (fun i s => s <| recv := recv s <| recv_if := i |> |>).

Inductive out :=
  | Handler (event : Z)
  | Send_done (n : Z)
  | Recv_done (n : Z)
  | Sys_write (data : bytes) (* what the system has taken *)
  | Sys_read (p : addr) (data : bytes)
  | Sys_refused (again : bool) (* an operation has failed; or would have to wait *)
  | Sys_close.
Definition hdl := handler BConnection out.

Definition set_send (f : send_part -> send_part) : hdl unit := modify (fun o => o <| send := f (send o) |>).
Definition set_recv (f : recv_part -> recv_part) : hdl unit := modify (fun o => o <| recv := f (recv o) |>).

(** ** The system *)

Inductive result (A : Type) := Ret (a : A) | Would_block | Sys_error.
Arguments Ret {A} a. Arguments Would_block {A}. Arguments Sys_error {A}.
Record answer := mk_answer { on_write : result Z; on_read : result bytes }.

Definition again {A} (r : result A) : bool := match r with Would_block => true | _ => false end.
Definition write (r : result Z) (data : option bytes) : hdl Z :=
  match r with
  | Ret n =>
      d ← of_option data;
      w ← of_option (load 0 n d);
      call (Sys_write w);;
      mret n
  | _ => call (Sys_refused (again r));; mret (-1)
  end.
Definition read (r : result bytes) (p : option addr) : hdl Z :=
  match r with
  | Ret data =>
      p ← of_option p;
      o ← get;
      mem ← of_option (memory o !! p.1);
      mem ← of_option (store p.2 data mem);
      modify (fun o => o <| memory := <[p.1 := mem]> (memory o) |>);;
      call (Sys_read p data);;
      mret (len data)
  | _ => call (Sys_refused (again r));; mret (-1)
  end.

Definition BReactor_SetFileDescriptorEvents : hdl unit :=
  o ← get;
  _ ← of_option (fd_events o);
  modify (fun o => o <| fd_events := Some (wait_events o) |>).
Definition BReactor_RemoveFileDescriptor : hdl unit :=
  o ← get;
  _ ← of_option (fd_events o);
  modify (fun o => o <| fd_events := None |>).
Definition BReactorLimit_Increment (l : BReactorLimit) (set : BReactorLimit -> hdl unit) : hdl bool :=
  if Reactor.limit l <=? Reactor.count l then mret false
  else set (Reactor.mk_limit (Reactor.limit l) (Reactor.count l + 1));; mret true.

(** ** [BConnection_unix.c] *)

Definition connection_report_error : hdl unit :=
  o ← get;
  ASSERT (bool_decide (con_errors o = 0%nat));;
  ASSERT (has_handler o);;
  modify (fun o => o <| con_errors := S (con_errors o) |>);;
  call (Handler BCONNECTION_EVENT_ERROR).

Definition wait_for (bit : Z) : hdl unit :=
  modify (fun o => o <| wait_events := Z.lor (wait_events o) bit |>);;
  BReactor_SetFileDescriptorEvents.

Definition connection_send (r : answer) : hdl unit :=
  o ← get;
  ASSERT (bool_decide (con_errors o = 0%nat));;
  ASSERT (bool_decide (send_st (send o) = SEND_STATE_BUSY));;
  go ← (if is_hupd o then mret true
        else BReactorLimit_Increment (send_limit (send o)) (fun l => set_send (fun p => p <| send_limit := l |>)));
  if negb go then wait_for BREACTOR_WRITE else
  bytes ← write (on_write r) (send_busy_data (send o));
  if bytes <? 0 then
    if negb (is_hupd o) && again (on_write r) then wait_for BREACTOR_WRITE else connection_report_error
  else
    ASSERT (0 <? bytes);;
    ASSERT (bytes <=? send_busy_data_len (send o));;
    set_send (fun p => p <| send_st := SEND_STATE_READY |>);;
    StreamPassInterface_Done send_port bytes.

Definition connection_recv (r : answer) : hdl unit :=
  o ← get;
  ASSERT (bool_decide (con_errors o = 0%nat));;
  ASSERT (bool_decide (recv_st (recv o) = RECV_STATE_BUSY));;
  go ← (if is_hupd o then mret true
        else BReactorLimit_Increment (recv_limit (recv o)) (fun l => set_recv (fun p => p <| recv_limit := l |>)));
  if negb go then wait_for BREACTOR_READ else
  bytes ← read (on_read r) (recv_busy_data (recv o));
  if bytes <? 0 then
    if negb (is_hupd o) && again (on_read r) then wait_for BREACTOR_READ else connection_report_error
  else if bytes =? 0 then
    set_recv (fun p => p <| recv_st := RECV_STATE_INITED_CLOSED |>);;
    ASSERT (has_handler o);;
    call (Handler BCONNECTION_EVENT_RECVCLOSED)
  else
    ASSERT (bytes <=? recv_busy_data_avail (recv o));;
    set_recv (fun p => p <| recv_st := RECV_STATE_READY |>);;
    StreamRecvInterface_Done recv_port bytes.

Definition connection_fd_handler (events : Z) (r : answer) : hdl unit :=
  o ← get;
  ASSERT (bool_decide (con_errors o = 0%nat));;
  ASSERT (negb (is_hupd o));;
  modify (fun o => o <| wait_events := Z.land (wait_events o) (Z.lnot events) |>);;
  BReactor_SetFileDescriptorEvents;;
  (if has_bit events BREACTOR_HUP then
     BReactor_RemoveFileDescriptor;;
     modify (fun o => o <| is_hupd := true |>)
   else mret tt);;
  o ← get;
  let sending := bool_decide (send_st (send o) = SEND_STATE_BUSY) in
  let receiving := bool_decide (recv_st (recv o) = RECV_STATE_BUSY) in
  let bad := has_bit events (Z.lor BREACTOR_ERROR BREACTOR_HUP) in
  have_send ← (if has_bit events BREACTOR_WRITE || bad && sending then ASSERT sending;; mret true else mret false);
  have_recv ← (if has_bit events BREACTOR_READ || bad && receiving then ASSERT receiving;; mret true else mret false);
  if have_send : bool then
    (if have_recv : bool then BPending_Set (Recv_job, Operation) else mret tt);;
    connection_send r
  else if have_recv : bool then connection_recv r
  else if negb (is_hupd o) then connection_report_error
  else mret tt.

Definition connection_send_job_handler (r : answer) : hdl unit :=
  o ← get;
  ASSERT (bool_decide (send_st (send o) = SEND_STATE_BUSY));;
  connection_send r.
Definition connection_recv_job_handler (r : answer) : hdl unit :=
  o ← get;
  ASSERT (bool_decide (recv_st (recv o) = RECV_STATE_BUSY));;
  connection_recv r.

Definition connection_send_if_handler_send (r : answer) (data : option bytes) (data_len : Z) : hdl unit :=
  o ← get;
  ASSERT (bool_decide (con_errors o = 0%nat));;
  ASSERT (bool_decide (send_st (send o) = SEND_STATE_READY));;
  ASSERT (0 <? data_len);;
  set_send (fun p => p <| send_busy_data := data |> <| send_busy_data_len := data_len |> <| send_st := SEND_STATE_BUSY |>);;
  connection_send r.
Definition connection_recv_if_handler_recv (r : answer) (data : option addr) (data_avail : Z) : hdl unit :=
  o ← get;
  ASSERT (bool_decide (con_errors o = 0%nat));;
  ASSERT (bool_decide (recv_st (recv o) = RECV_STATE_READY));;
  ASSERT (0 <? data_avail);;
  set_recv (fun p => p <| recv_busy_data := data |> <| recv_busy_data_avail := data_avail |> <| recv_st := RECV_STATE_BUSY |>);;
  connection_recv r.

(** [BConnection_Init] once it has the descriptor, which it is to close or not. *)
Definition connection_init (close add_ok : bool) : hdl bool :=
  modify (fun o => o <| close_fd := close |> <| has_handler := true |> <| is_hupd := false |>);;
  if negb add_ok then
    (if close then call Sys_close else mret tt);;
    mret false
  else
    modify (fun o => o <| fd_events := Some 0 |> <| wait_events := 0 |>);;
    set_send (fun p => p <| send_limit := Reactor.mk_limit BCONNECTION_SEND_LIMIT 0 |>);;
    set_recv (fun p => p <| recv_limit := Reactor.mk_limit BCONNECTION_RECV_LIMIT 0 |>);;
    set_send (fun p => p <| send_st := SEND_STATE_NOT_INITED |>);;
    set_recv (fun p => p <| recv_st := RECV_STATE_NOT_INITED |>);;
    modify (fun o => o <| con_errors := 0%nat |>);;
    mret true.

Definition BConnection_Free : hdl unit :=
  o ← get;
  ASSERT (bool_decide (send_st (send o) = SEND_STATE_NOT_INITED));;
  ASSERT (bool_decide (recv_st (recv o) = RECV_STATE_NOT_INITED) ||
          bool_decide (recv_st (recv o) = RECV_STATE_NOT_INITED_CLOSED));;
  (if negb (is_hupd o) then BReactor_RemoveFileDescriptor else mret tt);;
  if close_fd o then call Sys_close else mret tt.

Definition BConnection_SetHandlers (handler : bool) : hdl unit := modify (fun o => o <| has_handler := handler |>).

Definition BConnection_SendAsync_Init : hdl unit :=
  o ← get;
  ASSERT (bool_decide (con_errors o = 0%nat));;
  ASSERT (bool_decide (send_st (send o) = SEND_STATE_NOT_INITED));;
  StreamPassInterface_Init send_port;;
  set_send (fun p => p <| send_st := SEND_STATE_READY |>).

Definition stop_waiting (bit : Z) : hdl unit :=
  o ← get;
  if negb (is_hupd o) then
    modify (fun o => o <| wait_events := Z.land (wait_events o) (Z.lnot bit) |>);;
    BReactor_SetFileDescriptorEvents
  else mret tt.

Definition BConnection_SendAsync_Free : hdl unit :=
  o ← get;
  ASSERT (bool_decide (send_st (send o) = SEND_STATE_READY) || bool_decide (send_st (send o) = SEND_STATE_BUSY));;
  stop_waiting BREACTOR_WRITE;;
  BPending_Unset (Send_job, Operation);;
  StreamPassInterface_Free send_port;;
  set_send (fun p => p <| send_st := SEND_STATE_NOT_INITED |>).

Definition BConnection_RecvAsync_Init : hdl unit :=
  o ← get;
  ASSERT (bool_decide (con_errors o = 0%nat));;
  ASSERT (bool_decide (recv_st (recv o) = RECV_STATE_NOT_INITED));;
  StreamRecvInterface_Init recv_port;;
  set_recv (fun p => p <| recv_st := RECV_STATE_READY |>).

Definition BConnection_RecvAsync_Free : hdl unit :=
  o ← get;
  ASSERT (bool_decide (recv_st (recv o) = RECV_STATE_READY) || bool_decide (recv_st (recv o) = RECV_STATE_BUSY) ||
          bool_decide (recv_st (recv o) = RECV_STATE_INITED_CLOSED));;
  stop_waiting BREACTOR_READ;;
  BPending_Unset (Recv_job, Operation);;
  StreamRecvInterface_Free recv_port;;
  set_recv (fun p => p <| recv_st := RECV_STATE_NOT_INITED |>).

(** ** Events *)

Definition dispatch (r : answer) (j : iface * job_kind) : hdl unit :=
  match j with
  | (Send_iface, Operation) =>
      '(data, n) ← _StreamPassInterface_job_operation send_port; connection_send_if_handler_send r data n
  | (Send_iface, Done) => n ← _StreamPassInterface_job_done send_port; call (Send_done n)
  | (Recv_iface, Operation) =>
      '(data, n) ← _StreamRecvInterface_job_operation recv_port; connection_recv_if_handler_recv r data n
  | (Recv_iface, Done) => n ← _StreamRecvInterface_job_done recv_port; call (Recv_done n)
  | (Send_job, Operation) => connection_send_job_handler r
  | (Recv_job, Operation) => connection_recv_job_handler r
  | _ => ASSERT false
  end.
Definition execute_job (r : answer) : hdl unit :=
  l ← gets pending;
  match l with
  | [] => ASSERT false
  | j :: l => modify (fun s => s <| pending := l |>);; dispatch r j
  end.

(** Those of the user, who is the user of the interfaces too, then those of the
    reactor. *)
Inductive event :=
  | Set_handlers (handler : bool)
  | Send_init
  | Send_free
  | Recv_init
  | Recv_free
  | Send (data : bytes)
  | Receive (p : addr) (avail : Z)
  | Execute_job (r : answer)
  | Fd_event (events : Z) (r : answer)
  | Reset_limits.

Definition exec (e : event) : hdl unit :=
  match e with
  | Set_handlers h => BConnection_SetHandlers h
  | Send_init => BConnection_SendAsync_Init;; StreamPassInterface_Sender_Init send_port
  | Send_free => BConnection_SendAsync_Free
  | Recv_init => BConnection_RecvAsync_Init;; StreamRecvInterface_Receiver_Init recv_port
  | Recv_free => BConnection_RecvAsync_Free
  | Send data => StreamPassInterface_Sender_Send send_port (Some data) (len data)
  | Receive p avail => StreamRecvInterface_Receiver_Recv recv_port (Some p) avail
  | Execute_job r => execute_job r
  | Fd_event events r => connection_fd_handler events r
  | Reset_limits =>
      set_send (fun p => p <| send_limit := Reactor.mk_limit (Reactor.limit (send_limit p)) 0 |>);;
      set_recv (fun p => p <| recv_limit := Reactor.mk_limit (Reactor.limit (recv_limit p)) 0 |>)
  end.

(** What the system may answer: a positive number of the bytes asked for, some
    of the bytes there is room for or none at the end; and no success of an
    operation that is still waited for, which is so when the descriptor is
    reported to be in error and not to be ready. *)
Definition answer_ok (s : BConnection) (hupd : bool) (wait : Z) (r : answer) : bool :=
  match on_write r with
  | Ret n => (0 <? n) && (n <=? spi_len (send_if (send s))) && (hupd || negb (has_bit wait BREACTOR_WRITE))
  | _ => true
  end &&
  match on_read r with
  | Ret d => (len d <=? spi_len (recv_if (recv s))) && (hupd || negb (has_bit wait BREACTOR_READ))
  | _ => true
  end.
(** The reactor runs jobs first, and reports what is waited for, errors and
    hang-ups; it resets limits before it waits. *)
Definition system_ok (s : BConnection) (e : event) : bool :=
  match e with
  | Execute_job r =>
      negb (bool_decide (pending s = [])) && has_handler s && bool_decide (con_errors s = 0%nat) &&
        answer_ok s (is_hupd s) (wait_events s) r
  | Fd_event ev r =>
      bool_decide (pending s = []) && has_handler s && bool_decide (con_errors s = 0%nat) &&
        match fd_events s with
        | Some w => (Z.land ev (Z.lnot (Z.lor w (Z.lor BREACTOR_ERROR BREACTOR_HUP))) =? 0) &&
            answer_ok s (has_bit ev BREACTOR_HUP) (Z.land w (Z.lnot ev)) r
        | None => false
        end
  | Reset_limits => bool_decide (pending s = [])
  | _ => true
  end.

(** ** What a connection is to its user

    The contract of [BConnection.h] as a machine: what the user may do, and what
    happens to it.  An interface that was freed while it was busy is [Gone], as
    is that for receiving after the end of the stream.  [hung]: the descriptor was
    reported to be hung up. *)
Inductive send_op := Send_off | Send_idle | Send_asked (data : bytes) | Send_written (n : Z) | Send_gone.
Inductive recv_op :=
  Recv_off | Recv_idle | Recv_asked (p : addr) (avail : Z) | Recv_got (n : Z) | Recv_closed | Recv_gone.
Record contract := mk_contract { sending : send_op; receiving : recv_op; failed : bool; mem : gmap nat bytes; hung : bool }.
#[export] Instance contract_eta : Eta contract := fun r =>
  mk_contract (sending r) (receiving r) (failed r) (mem r) (hung r).

Definition room (m : gmap nat bytes) (p : addr) (n : Z) : bool :=
  match m !! p.1 with Some b => in_range p.2 n b | None => false end.

Definition contract_in (c : contract) (e : event) : option contract :=
  match e, sending c, receiving c with
  | Send_init, Send_off, _ => if failed c then None else Some (c <| sending := Send_idle |>)
  | Send_free, Send_idle, _ => Some (c <| sending := Send_off |>)
  | Send_free, (Send_asked _ | Send_written _), _ => Some (c <| sending := Send_gone |>)
  | Send data, Send_idle, _ =>
      if failed c || (len data =? 0) then None else Some (c <| sending := Send_asked data |>)
  | Recv_init, _, Recv_off => if failed c then None else Some (c <| receiving := Recv_idle |>)
  | Recv_free, _, Recv_idle => Some (c <| receiving := Recv_off |>)
  | Recv_free, _, (Recv_asked _ _ | Recv_got _ | Recv_closed) => Some (c <| receiving := Recv_gone |>)
  | Receive p n, _, Recv_idle =>
      if failed c || negb (0 <? n) || negb (room (mem c) p n) then None
      else Some (c <| receiving := Recv_asked p n |>)
  | Fd_event ev _, _, _ => Some (c <| hung := hung c || has_bit ev BREACTOR_HUP |>)
  | (Set_handlers _ | Execute_job _ | Reset_limits), _, _ => Some c
  | _, _, _ => None
  end.
Definition contract_out (c : contract) (o : out) : option contract :=
  if failed c then None else
  match o, sending c, receiving c with
  | Sys_write w, Send_asked data, _ =>
      if (0 <? len w) && bool_decide (w `prefix_of` data) then Some (c <| sending := Send_written (len w) |>) else None
  | Send_done n, Send_written m, _ => if n =? m then Some (c <| sending := Send_idle |>) else None
  | Sys_read p w, _, Recv_asked q n =>
      if bool_decide (p = q) && (len w <=? n) then
        b ← mem c !! p.1;
        b ← store p.2 w b;
        Some (c <| mem := <[p.1 := b]> (mem c) |> <| receiving := if len w =? 0 then Recv_closed else Recv_got (len w) |>)
      else None
  | Recv_done n, _, Recv_got m => if n =? m then Some (c <| receiving := Recv_idle |>) else None
  | Handler e, _, _ =>
      if e =? BCONNECTION_EVENT_ERROR then Some (c <| failed := true |>)
      else match receiving c with Recv_closed => Some c | _ => None end
  | Sys_refused _, _, _ => Some c
  | _, _, _ => None
  end.
Fixpoint contract_outs (c : contract) (l : list out) : option contract :=
  match l with [] => Some c | o :: l => c ← contract_out c o; contract_outs c l end.

(** What the user has to be told, and when: the end of the stream, the failure of an
    operation, which after a hang-up includes that it would have to wait, and an
    event of the descriptor that calls neither side. *)
Definition cause (hung : bool) (o : out) : option Z :=
  match o with
  | Sys_read _ [] => Some BCONNECTION_EVENT_RECVCLOSED
  | Sys_refused again => if again && negb hung then None else Some BCONNECTION_EVENT_ERROR
  | _ => None
  end.
Definition calls_none (c : contract) (e : event) : bool :=
  match e with
  | Fd_event ev _ =>
      let asked := match sending c, receiving c with Send_asked _, _ | _, Recv_asked _ _ => true | _, _ => false end in
      negb (has_bit ev BREACTOR_HUP || has_bit ev BREACTOR_WRITE || has_bit ev BREACTOR_READ ||
            has_bit ev BREACTOR_ERROR && asked)
  | _ => false
  end.
Definition reports (l : list out) : list Z := omap (fun o => match o with Handler e => Some e | _ => None end) l.
Definition owed (c : contract) (e : event) (hung : bool) (l : list out) : list Z :=
  (if calls_none c e then [BCONNECTION_EVENT_ERROR] else []) ++ omap (cause hung) l.
Definition contract_step (c : contract) (e : event) (l : list out) : option contract :=
  c1 ← contract_in c e;
  if bool_decide (reports l = owed c e (hung c1) l) then contract_outs c1 l else None.

(** An event of the connection and what the contract says of it. *)
Definition both (e : event) (x : BConnection * contract) : option (BConnection * contract) :=
  '(_, s, o) ← exec e x.1;
  c ← contract_step x.2 e o;
  Some (s, c).
Fixpoint run (evs : list event) (x : BConnection * contract) : option (BConnection * contract) :=
  match evs with [] => Some x | e :: evs => x ← both e x; run evs x end.
(** The user keeps the contract, the system answers as it is documented. *)
Fixpoint legal (evs : list event) (x : BConnection * contract) : bool :=
  match evs with
  | [] => true
  | e :: evs =>
      bool_decide (is_Some (contract_in x.2 e)) && system_ok x.1 e &&
        match both e x with Some x => legal evs x | None => true end
  end.

(** Memory before it is initialised, but for what the user's pointers point to. *)
Definition raw_con (m : gmap nat bytes) : BConnection :=
  mk_con [] false false false None 0
    (mk_send (Reactor.mk_limit 0 0) (mk_spi false None 0 0 STATE_NONE) None 0 SEND_STATE_NOT_INITED)
    (mk_recv (Reactor.mk_limit 0 0) (mk_spi false None 0 0 STATE_NONE) None 0 RECV_STATE_NOT_INITED) 0 m.
Definition start (close : bool) (m : gmap nat bytes) : BConnection * contract :=
  (match connection_init close true (raw_con m) with Some (_, s, _) => s | None => raw_con m end,
   mk_contract Send_off Recv_off false m false).
(** Freeing what is left, as the interface tells the user to. *)
Definition teardown (c : contract) : hdl unit :=
  match sending c with Send_off | Send_gone => mret tt | _ => BConnection_SendAsync_Free end;;
  match receiving c with Recv_off | Recv_gone => mret tt | _ => BConnection_RecvAsync_Free end;;
  BConnection_Free.

(** ** The relation between the two *)

Definition on_send (j : iface * job_kind) : bool := match j.1 with Send_iface | Send_job => true | _ => false end.
Definition send_js (s : BConnection) : list (iface * job_kind) := filter (fun j => on_send j = true) (pending s).
Definition recv_js (s : BConnection) : list (iface * job_kind) := filter (fun j => on_send j = false) (pending s).
Definition waits (s : BConnection) (bit : Z) : bool := negb (is_hupd s) && has_bit (wait_events s) bit.

#[global] Arguments send_js : simpl never. #[global] Arguments recv_js : simpl never.
#[global] Arguments waits : simpl never.

(** Given the jobs of the side and whether it waits for the descriptor. *)
Definition send_rel (p : send_part) (js : list (iface * job_kind)) (w failed : bool) (op : send_op) : Prop :=
  let i := send_if p in
  match op with
  | Send_off | Send_gone => send_st p = SEND_STATE_NOT_INITED /\ js = [] /\ w = false
  | Send_idle =>
      send_st p = SEND_STATE_READY /\ spi_has_done i = true /\ spi_state i = STATE_NONE /\ js = [] /\ w = false
  | Send_asked d =>
      spi_has_done i = true /\ 0 < len d /\ spi_len i = len d /\
      (send_st p = SEND_STATE_READY /\ spi_state i = STATE_OPERATION_PENDING /\ spi_data i = Some d /\
         js = [(Send_iface, Operation)] /\ w = false \/
       send_st p = SEND_STATE_BUSY /\ spi_state i = STATE_BUSY /\ send_busy_data p = Some d /\
         send_busy_data_len p = len d /\ js = [] /\ (failed = true \/ w = true))
  | Send_written n =>
      send_st p = SEND_STATE_READY /\ spi_has_done i = true /\ spi_state i = STATE_DONE_PENDING /\
      spi_done_len i = n /\ js = [(Send_iface, Done)] /\ w = false
  end.
Definition recv_rel (p : recv_part) (m : gmap nat bytes) (js : list (iface * job_kind)) (w failed : bool)
    (op : recv_op) : Prop :=
  let i := recv_if p in
  match op with
  | Recv_off | Recv_gone => recv_st p = RECV_STATE_NOT_INITED /\ js = [] /\ w = false
  | Recv_idle =>
      recv_st p = RECV_STATE_READY /\ spi_has_done i = true /\ spi_state i = STATE_NONE /\ js = [] /\ w = false
  | Recv_asked a n =>
      spi_has_done i = true /\ 0 < n /\ spi_len i = n /\ room m a n = true /\
      (recv_st p = RECV_STATE_READY /\ spi_state i = STATE_OPERATION_PENDING /\ spi_data i = Some a /\
         js = [(Recv_iface, Operation)] /\ w = false \/
       recv_st p = RECV_STATE_BUSY /\ spi_state i = STATE_BUSY /\ recv_busy_data p = Some a /\
         recv_busy_data_avail p = n /\
         (js = [(Recv_job, Operation)] \/ js = [] /\ (failed = true \/ w = true)))
  | Recv_got n =>
      recv_st p = RECV_STATE_READY /\ spi_has_done i = true /\ spi_state i = STATE_DONE_PENDING /\
      spi_done_len i = n /\ js = [(Recv_iface, Done)] /\ w = false
  | Recv_closed => recv_st p = RECV_STATE_INITED_CLOSED /\ js = [] /\ w = false
  end.

Record related (s : BConnection) (c : contract) : Prop := {
  r_errors : con_errors s = if failed c then 1%nat else 0%nat;
  r_fd : fd_events s = if is_hupd s then None else Some (wait_events s);
  r_memory : memory s = mem c;
  r_hung : hung c = is_hupd s;
  r_send : send_rel (send s) (send_js s) (waits s BREACTOR_WRITE) (failed c) (sending c);
  r_recv : recv_rel (recv s) (mem c) (recv_js s) (waits s BREACTOR_READ) (failed c) (receiving c) }.

Module ConnectionProofs.
#[export] Hint Unfold BReactor_SetFileDescriptorEvents BReactor_RemoveFileDescriptor BReactorLimit_Increment
  connection_report_error wait_for set_send set_recv stop_waiting
  BConnection_SetHandlers BConnection_SendAsync_Init BConnection_SendAsync_Free BConnection_RecvAsync_Init
  BConnection_RecvAsync_Free BConnection_Free StreamRecvInterface_Init StreamRecvInterface_Free
  StreamRecvInterface_Done StreamRecvInterface_Receiver_Init StreamRecvInterface_Receiver_Recv
  _StreamRecvInterface_job_operation _StreamRecvInterface_job_done
  connection_send_if_handler_send connection_recv_if_handler_recv connection_send_job_handler
  connection_recv_job_handler : flow.

(** *** Bits *)

Ltac bits := unfold BREACTOR_READ, BREACTOR_WRITE, BREACTOR_ERROR, BREACTOR_HUP;
  rewrite ?Reactor.ReactorProofs.has_bit_testbit by done;
  rewrite ?Z.land_spec, ?Z.lnot_spec, ?Z.lor_spec, ?Z.shiftl_1_l, ?Z.pow2_bits_eqb by done.
Lemma has_lor w : has_bit (Z.lor w BREACTOR_WRITE) BREACTOR_WRITE = true /\
  has_bit (Z.lor w BREACTOR_READ) BREACTOR_READ = true /\
  has_bit (Z.lor w BREACTOR_WRITE) BREACTOR_READ = has_bit w BREACTOR_READ /\
  has_bit (Z.lor w BREACTOR_READ) BREACTOR_WRITE = has_bit w BREACTOR_WRITE.
Proof. bits. cbn. rewrite !orb_true_r, !orb_false_r. done. Qed.
Lemma has_clear w ev :
  has_bit (Z.land w (Z.lnot ev)) BREACTOR_WRITE = has_bit w BREACTOR_WRITE && negb (has_bit ev BREACTOR_WRITE) /\
  has_bit (Z.land w (Z.lnot ev)) BREACTOR_READ = has_bit w BREACTOR_READ && negb (has_bit ev BREACTOR_READ).
Proof. bits. done. Qed.
Lemma has_bad ev : has_bit ev (Z.lor BREACTOR_ERROR BREACTOR_HUP) = has_bit ev BREACTOR_ERROR || has_bit ev BREACTOR_HUP.
Proof.
  unfold Reactor.has_bit. rewrite Z.land_lor_distr_r.
  destruct (Z.land ev BREACTOR_ERROR =? 0) eqn:E, (Z.land ev BREACTOR_HUP =? 0) eqn:H; cbn.
  all: apply Z.eqb_eq in E || apply Z.eqb_neq in E; apply Z.eqb_eq in H || apply Z.eqb_neq in H.
  - by rewrite E, H.
  - apply negb_true_iff, Z.eqb_neq. rewrite Z.lor_eq_0_iff. lia.
  - apply negb_true_iff, Z.eqb_neq. rewrite Z.lor_eq_0_iff. lia.
  - apply negb_true_iff, Z.eqb_neq. rewrite Z.lor_eq_0_iff. lia.
Qed.
Lemma reported_waited w ev : Z.land ev (Z.lnot (Z.lor w (Z.lor BREACTOR_ERROR BREACTOR_HUP))) = 0 ->
  (has_bit ev BREACTOR_WRITE = true -> has_bit w BREACTOR_WRITE = true) /\
  (has_bit ev BREACTOR_READ = true -> has_bit w BREACTOR_READ = true).
Proof.
  intros H0. split; intros Hev; destruct (has_bit w _) eqn:Hw; [done| |done|].
  - apply (f_equal (fun z => Z.testbit z 1)) in H0. rewrite Z.bits_0 in H0. revert H0 Hev Hw. bits. intros Hb Hev Hw. by rewrite Hev, Hw in Hb.
  - apply (f_equal (fun z => Z.testbit z 0)) in H0. rewrite Z.bits_0 in H0. revert H0 Hev Hw. bits. intros Hb Hev Hw. by rewrite Hev, Hw in Hb.
Qed.

(** *** Jobs *)

#[local] Arguments unset : simpl never.
Ltac sides := unfold send_js, recv_js, waits; cbn [pending send recv is_hupd wait_events].

Lemma jobs_send j l : on_send j = true ->
  filter (fun j => on_send j = true) (j :: unset j l) = j :: unset j (filter (fun j => on_send j = true) l) /\
  filter (fun j => on_send j = false) (j :: unset j l) = filter (fun j => on_send j = false) l /\
  filter (fun j => on_send j = true) (unset j l) = unset j (filter (fun j => on_send j = true) l) /\
  filter (fun j => on_send j = false) (unset j l) = filter (fun j => on_send j = false) l.
Proof.
  intros Hj. unfold unset. rewrite filter_cons_True, filter_cons_False by congruence.
  rewrite !list_filter_filter. split_and!; try f_equal; apply list_filter_iff; intros k; try tauto.
  all: split; [tauto|]; intros Hk; split; [done|]; congruence.
Qed.
Lemma jobs_recv j l : on_send j = false ->
  filter (fun j => on_send j = false) (j :: unset j l) = j :: unset j (filter (fun j => on_send j = false) l) /\
  filter (fun j => on_send j = true) (j :: unset j l) = filter (fun j => on_send j = true) l /\
  filter (fun j => on_send j = false) (unset j l) = unset j (filter (fun j => on_send j = false) l) /\
  filter (fun j => on_send j = true) (unset j l) = filter (fun j => on_send j = true) l.
Proof.
  intros Hj. unfold unset. rewrite filter_cons_True, filter_cons_False by congruence.
  rewrite !list_filter_filter. split_and!; try f_equal; apply list_filter_iff; intros k; try tauto.
  all: split; [tauto|]; intros Hk; split; [done|]; congruence.
Qed.

(** *** Sending and receiving *)

Lemma contract_outs_cons c o l c1 : contract_outs c [o] = Some c1 -> contract_outs c (o :: l) = contract_outs c1 l.
Proof. cbn. destruct (contract_out c o); [|done]. cbn. by intros [= ->]. Qed.
#[local] Arguments contract_outs : simpl never.

(** What is given of an answer when an operation is tried. *)
Definition write_ok (s : BConnection) (n : Z) (r : result Z) : Prop :=
  match r with Ret k => 0 < k <= n /\ waits s BREACTOR_WRITE = false | _ => True end.
Definition read_ok (s : BConnection) (n : Z) (r : result bytes) : Prop :=
  match r with Ret d => len d <= n /\ waits s BREACTOR_READ = false | _ => True end.

(** [n]: how much work the jobs may have more than before. *)
Definition weight (j : iface * job_kind) : Z := match j.2 with Operation => 2 | _ => 1 end.
Definition work (l : list (iface * job_kind)) : Z := foldr (fun j k => weight j + k) 0 l.
Definition simulates (s : BConnection) (c : contract) (n : Z) (pre : list Z) (h : hdl unit) : Prop :=
  wp h s (fun _ s' o => work (pending s') <= work (pending s) + n /\
    exists c', contract_outs c o = Some c' /\ related s' c' /\ reports o = pre ++ omap (cause (hung c)) o).
Lemma work_cons j l : work (j :: l) = weight j + work l.
Proof. done. Qed.
Lemma weight_range j : 1 <= weight j <= 2.
Proof. unfold weight. destruct j.2; lia. Qed.
#[local] Arguments work : simpl never.
Lemma work_unset j l : work (unset j l) <= work l.
Proof.
  unfold unset. induction l as [|k l IH]; [done|]. destruct (decide (k = j)) as [E|E].
  - rewrite filter_cons_False, work_cons by tauto. pose proof (weight_range k). lia.
  - rewrite filter_cons_True, !work_cons by done. lia.
Qed.
Lemma work_set j l : work (j :: unset j l) <= work l + weight j.
Proof. pose proof (work_unset j l). rewrite work_cons. lia. Qed.
Ltac weigh := cbn [pending]; first [lia | etrans; [apply work_set|]; cbn; lia].

Lemma send_fail p js w op : send_rel p js w false op -> send_rel p js w true op.
Proof. destruct op; cbn; tauto. Qed.
Lemma recv_fail p m js w op : recv_rel p m js w false op -> recv_rel p m js w true op.
Proof. destruct op; cbn; tauto. Qed.

Lemma wp_increment g l set s (Q : bool -> BConnection -> list out -> Prop) : g = negb (is_hupd s) ->
  (forall b s', (exists l, s' = set l s) \/ s' = s -> (b = false -> g = true) -> Q b s' []) ->
  wp (if is_hupd s then mret true else BReactorLimit_Increment l (fun l => modify (set l))) s Q.
Proof.
  intros -> HQ. unfold BReactorLimit_Increment. destruct (is_hupd s).
  - hstep. apply HQ; [by right|done].
  - apply wp_if; intros _.
    + hstep. apply HQ; [by right|done].
    + hstep. hstep. hstep. apply HQ; [left; eauto|done].
Qed.

Lemma simulates_send s c d r :
  failed c = false -> has_handler s = true -> con_errors s = 0%nat ->
  fd_events s = (if is_hupd s then None else Some (wait_events s)) -> memory s = mem c -> hung c = is_hupd s ->
  sending c = Send_asked d -> 0 < len d ->
  send_st (send s) = SEND_STATE_BUSY -> spi_has_done (send_if (send s)) = true ->
  spi_state (send_if (send s)) = STATE_BUSY -> spi_len (send_if (send s)) = len d ->
  send_busy_data (send s) = Some d -> send_busy_data_len (send s) = len d -> send_js s = [] ->
  recv_rel (recv s) (mem c) (recv_js s) (waits s BREACTOR_READ) false (receiving c) ->
  write_ok s (len d) (on_write r) -> simulates s c 1 [] (connection_send r).
Proof.
  intros Hf Hh He Hfd Hm Hhu Hc Hd S1 S2 S3 S4 S5 S6 Hjs Hr Hok.
  destruct c as [cs cr cf cm ch]. cbn in Hf, Hm, Hc, Hr. subst cf cs.
  destruct s as [l hh cl hu fd w [sl [i1 i2 i3 i4 i5] sd sn ss] rp ne mm]. cbn in *. subst ch. subst.
  unfold send_js, recv_js, waits in *. cbn in *.
  destruct (has_lor w) as (L1 & _ & L3 & _).
  destruct (jobs_send (Send_iface, Done) l eq_refl) as (J1 & J2 & _).
  unfold simulates, connection_send. hstep. hstep. hstep. hstep; [done|]. hstep. hstep; [done|]. hstep.
  unfold set_send. eapply (wp_increment _ sl (fun l o => o <| send := send o <| send_limit := l |> |>)); [done|]. cbn. intros b s' Hs' Hb.
  assert (exists sl', s' = {| pending := l; has_handler := true; close_fd := cl; is_hupd := hu; fd_events := if hu then None else Some w;
    wait_events := w; send := mk_send sl' (mk_spi true i2 (len d) i4 STATE_BUSY) (Some d) (len d) SEND_STATE_BUSY; recv := rp; con_errors := 0; memory := cm |}) as [sl' ->].
  { destruct Hs' as [[l' ->]| ->]; eauto. }
  clear Hs'.
  assert (Hwait : forall sl', hu = false -> related {| pending := l; has_handler := true; close_fd := cl; is_hupd := hu;
    fd_events := Some (Z.lor w BREACTOR_WRITE); wait_events := Z.lor w BREACTOR_WRITE;
    send := mk_send sl' (mk_spi true i2 (len d) i4 STATE_BUSY) (Some d) (len d) SEND_STATE_BUSY;
    recv := rp; con_errors := 0; memory := cm |} (mk_contract (Send_asked d) cr false cm hu)).
  { intros sl'' ->. split; cbn; try done; sides.
    - split_and!; [done..|]. right. rewrite L1. split_and!; [done..|]. by right.
    - by rewrite L3. }
  apply wp_if; intros Eb.
  { apply negb_true_iff in Eb. specialize (Hb Eb). apply negb_true_iff in Hb. subst hu. flow_steps. split; [weigh|]. eexists. split; [done|]. split; [by apply Hwait|done]. }
  destruct (on_write r) as [n| |]; cbn [write again].
  - destruct Hok as [Hn Hw]. cbn in Hw. hstep. hstep. eapply wp_of_option; [done|]. hstep.
    eapply wp_of_option; [apply load_Some; lia|]. flow_steps; try lia. unfold set_send. flow_steps; try lia.
    split; [weigh|]. eexists. split; [|split; [|done]].
    + unfold contract_outs. cbn. rewrite len_zslice by lia.
      rewrite bool_decide_true by apply (prefix_take d (Z.to_nat n)). rewrite (proj2 (Z.ltb_lt _ _)) by lia. cbn. done.
    + split; cbn; try done; sides.
      * rewrite J1, Hjs. split_and!; done.
      * by rewrite J2.
  - destruct hu; flow_steps; try done.
    + split; [weigh|]. eexists. split; [done|]. split; [|done]. split; cbn; try done; [|by apply recv_fail].
      split_and!; [done..|]. right. split_and!; [done..|]. by left.
    + split; [weigh|]. eexists. split; [done|]. split; [by apply Hwait|done].
  - flow_steps; try done; [by rewrite andb_false_r in *|]. split; [weigh|]. eexists. split; [done|]. split; [|done].
    split; cbn; try done; [|by apply recv_fail]. split_and!; [done..|]. right. split_and!; [done..|]. by left.
Qed.

Lemma simulates_recv s c a n r :
  failed c = false -> has_handler s = true -> con_errors s = 0%nat ->
  fd_events s = (if is_hupd s then None else Some (wait_events s)) -> memory s = mem c -> hung c = is_hupd s ->
  receiving c = Recv_asked a n -> 0 < n -> room (mem c) a n = true ->
  recv_st (recv s) = RECV_STATE_BUSY -> spi_has_done (recv_if (recv s)) = true ->
  spi_state (recv_if (recv s)) = STATE_BUSY -> spi_len (recv_if (recv s)) = n ->
  recv_busy_data (recv s) = Some a -> recv_busy_data_avail (recv s) = n -> recv_js s = [] ->
  send_rel (send s) (send_js s) (waits s BREACTOR_WRITE) false (sending c) ->
  read_ok s n (on_read r) -> simulates s c 1 [] (connection_recv r).
Proof.
  intros Hf Hh He Hfd Hm Hhu Hc Hd Hroom S1 S2 S3 S4 S5 S6 Hjs Hr Hok.
  destruct c as [cs cr cf cm ch]. cbn in Hf, Hm, Hc, Hr, Hroom. subst cf cr.
  destruct s as [l hh cl hu fd w sp [rl [i1 i2 i3 i4 i5] rd rn rs] ne mm]. cbn in *. subst ch. subst.
  unfold send_js, recv_js, waits in *. cbn in *.
  destruct (has_lor w) as (_ & L2 & _ & L4).
  destruct (jobs_recv (Recv_iface, Done) l eq_refl) as (J1 & J2 & _).
  unfold simulates, connection_recv. hstep. hstep. hstep. hstep; [done|]. hstep. hstep; [done|]. hstep.
  unfold set_recv. eapply (wp_increment _ rl (fun l o => o <| recv := recv o <| recv_limit := l |> |>)); [done|]. cbn. intros b s' Hs' Hb.
  assert (exists rl', s' = {| pending := l; has_handler := true; close_fd := cl; is_hupd := hu; fd_events := if hu then None else Some w;
    wait_events := w; send := sp; recv := mk_recv rl' (mk_spi true i2 n i4 STATE_BUSY) (Some a) n RECV_STATE_BUSY; con_errors := 0; memory := cm |}) as [rl' ->].
  { destruct Hs' as [[l' ->]| ->]; eauto. }
  clear Hs'.
  assert (Hwait : forall rl', hu = false -> related {| pending := l; has_handler := true; close_fd := cl; is_hupd := hu;
    fd_events := Some (Z.lor w BREACTOR_READ); wait_events := Z.lor w BREACTOR_READ;
    send := sp; recv := mk_recv rl' (mk_spi true i2 n i4 STATE_BUSY) (Some a) n RECV_STATE_BUSY; con_errors := 0; memory := cm |}
    (mk_contract cs (Recv_asked a n) false cm hu)).
  { intros rl'' ->. split; cbn; try done; sides.
    - by rewrite L4.
    - split_and!; [done..|]. right. rewrite L2. split_and!; [done..|]. right. split; [done|]. by right. }
  apply wp_if; intros Eb.
  { apply negb_true_iff in Eb. specialize (Hb Eb). apply negb_true_iff in Hb. subst hu. flow_steps.
    split; [weigh|]. eexists. split; [done|]. split; [by apply Hwait|done]. }
  assert (Hfail : forall rl', related {| pending := l; has_handler := true; close_fd := cl; is_hupd := hu;
    fd_events := if hu then None else Some w; wait_events := w;
    send := sp; recv := mk_recv rl' (mk_spi true i2 n i4 STATE_BUSY) (Some a) n RECV_STATE_BUSY; con_errors := 1; memory := cm |}
    (mk_contract cs (Recv_asked a n) true cm hu)).
  { intros rl''. split; cbn; try done; [by apply send_fail|].
    split_and!; [done..|]. right. split_and!; [done..|]. right. split; [done|]. by left. }
  destruct (on_read r) as [d| |]; cbn [read again].
  - destruct Hok as [Hn Hw]. cbn in Hw. unfold room in Hroom. destruct (cm !! a.1) as [mem0|] eqn:Ea; [|done].
    apply in_range_true in Hroom. destruct (store_Some a.2 d mem0) as [mem1 Hst]; [zlia..|].
    assert (Hout : contract_outs (mk_contract cs (Recv_asked a n) false cm hu) [Sys_read a d] = Some (mk_contract cs
      (if len d =? 0 then Recv_closed else Recv_got (len d)) false (<[a.1 := mem1]> cm) hu)).
    { unfold contract_outs. cbn. rewrite bool_decide_true, (proj2 (Z.leb_le _ _)) by done. cbn. rewrite Ea. cbn. by rewrite Hst. }
    hstep. hstep. eapply wp_of_option; [done|]. hstep. hstep. hstep. eapply wp_of_option; [exact Ea|].
    hstep. eapply wp_of_option; [exact Hst|]. flow_steps; try zlia.
    + split; [weigh|]. eexists. rewrite (contract_outs_cons _ _ _ _ Hout). rewrite (proj2 (Z.eqb_eq _ _)) by lia. split; [done|].
      split; [split; cbn; try done|]. by destruct d.
    + split; [weigh|]. eexists. split; [exact Hout|]. rewrite (proj2 (Z.eqb_neq _ _)) by zlia. split; [split; cbn; try done; sides|by destruct d].
      * by rewrite J2.
      * rewrite J1, Hjs. done.
  - destruct hu; flow_steps; try done; (split; [weigh|]; eexists; split; [done|]; split; [|done]); [apply Hfail|by apply Hwait].
  - flow_steps; try done; [by rewrite andb_false_r in *|]. split; [weigh|]. eexists. split; [done|]. split; [apply Hfail|done].
Qed.

(** *** The user *)

Ltac rel_cases := repeat match goal with
  | H : _ /\ _ |- _ => destruct H
  | H : _ \/ _ |- _ => destruct H
  | H : False |- _ => destruct H
  end; simplify_eq.
Ltac rel_jobs := repeat match goal with H : filter _ _ = _ |- _ => rewrite H end.

Definition user_event (e : event) : Prop :=
  match e with Execute_job _ | Fd_event _ _ | Reset_limits => False | _ => True end.

Lemma simulates_free_send s c : related s c -> match sending c with Send_off | Send_gone => False | _ => True end ->
  forall op, op = Send_off \/ op = Send_gone ->
  wp BConnection_SendAsync_Free s (fun _ s' o => o = [] /\ related s' (c <| sending := op |>)).
Proof.
  intros Hr Hc op Hop. destruct c as [cs cr cf cm ch]. cbn in Hc.
  destruct s as [l hh cl hu fd w [sl [i1 i2 i3 i4 i5] sd sn ss] rp ne mm]. destruct Hr as [R1 R2 R3 Rh R4 R5].
  cbn in *. subst. unfold send_js, recv_js, waits in *. cbn in *.
  destruct (has_clear w BREACTOR_WRITE) as [W1 W2].
  assert (Hss : ss = SEND_STATE_READY \/ ss = SEND_STATE_BUSY) by (destruct cs; cbn in R4; naive_solver).
  assert (Hjs : unset (Send_iface, Operation) (unset (Send_iface, Done) (unset (Send_job, Operation)
    (filter (fun j => on_send j = true) l))) = []).
  { clear Hop. destruct cs; cbn in R4; rel_cases; by rel_jobs. }
  assert (Hsides : forall l', l' = unset (Send_iface, Operation) (unset (Send_iface, Done) (unset (Send_job, Operation) l)) ->
    filter (fun j => on_send j = true) l' = [] /\
    filter (fun j => on_send j = false) l' = filter (fun j => on_send j = false) l).
  { intros l' ->. assert (HU := fun j Hj l => proj2 (proj2 (jobs_send j l Hj))).
    destruct (HU (Send_iface, Operation) eq_refl (unset (Send_iface, Done) (unset (Send_job, Operation) l))) as [-> ->].
    destruct (HU (Send_iface, Done) eq_refl (unset (Send_job, Operation) l)) as [-> ->].
    by destruct (HU (Send_job, Operation) eq_refl l) as [-> ->]. }
  destruct (Hsides _ eq_refl) as [J1 J2].
  unfold BConnection_SendAsync_Free, stop_waiting. hstep. hstep. hstep. hstep.
  { destruct Hss as [-> | ->]; done. }
  hstep. hstep. hstep. apply wp_if; intros Hu; cbn in Hu; destruct hu; try done; flow_steps; (split; [done|]).
  - split; cbn; try done; sides.
    + destruct Hop as [-> | ->]; cbn; rewrite J1, W1, andb_false_r; done.
    + by rewrite J2, W2, andb_true_r.
  - split; cbn; try done; sides; [|by rewrite J2]. destruct Hop as [-> | ->]; cbn; by rewrite J1.
Qed.

Lemma simulates_free_recv s c : related s c -> match receiving c with Recv_off | Recv_gone => False | _ => True end ->
  forall op, op = Recv_off \/ op = Recv_gone ->
  wp BConnection_RecvAsync_Free s (fun _ s' o => o = [] /\ related s' (c <| receiving := op |>)).
Proof.
  intros Hr Hc op Hop. destruct c as [cs cr cf cm ch]. cbn in Hc.
  destruct s as [l hh cl hu fd w sp [rl [i1 i2 i3 i4 i5] rd rn rs] ne mm]. destruct Hr as [R1 R2 R3 Rh R4 R5].
  cbn in *. subst. unfold send_js, recv_js, waits in *. cbn in *.
  destruct (has_clear w BREACTOR_READ) as [W1 W2].
  assert (Hrs : rs = RECV_STATE_READY \/ rs = RECV_STATE_BUSY \/ rs = RECV_STATE_INITED_CLOSED)
    by (clear Hop; destruct cr; cbn in R5; rel_cases; auto).
  assert (Hjs : unset (Recv_iface, Operation) (unset (Recv_iface, Done) (unset (Recv_job, Operation)
    (filter (fun j => on_send j = false) l))) = []).
  { clear Hop. destruct cr; cbn in R5; rel_cases; by rel_jobs. }
  assert (Hsides : forall l', l' = unset (Recv_iface, Operation) (unset (Recv_iface, Done) (unset (Recv_job, Operation) l)) ->
    filter (fun j => on_send j = false) l' = [] /\
    filter (fun j => on_send j = true) l' = filter (fun j => on_send j = true) l).
  { intros l' ->. assert (HU := fun j Hj l => proj2 (proj2 (jobs_recv j l Hj))).
    destruct (HU (Recv_iface, Operation) eq_refl (unset (Recv_iface, Done) (unset (Recv_job, Operation) l))) as [-> ->].
    destruct (HU (Recv_iface, Done) eq_refl (unset (Recv_job, Operation) l)) as [-> ->].
    by destruct (HU (Recv_job, Operation) eq_refl l) as [-> ->]. }
  destruct (Hsides _ eq_refl) as [J1 J2].
  unfold BConnection_RecvAsync_Free, stop_waiting. hstep. hstep. hstep. hstep.
  { by destruct Hrs as [-> | [-> | ->]]. }
  hstep. hstep. hstep. apply wp_if; intros Hu; cbn in Hu; destruct hu; try done; flow_steps; (split; [done|]).
  - split; cbn; try done; sides.
    + by rewrite J2, W1, andb_true_r.
    + destruct Hop as [-> | ->]; cbn; rewrite J1, W2, andb_false_r; done.
  - split; cbn; try done; sides; [by rewrite J2|]. destruct Hop as [-> | ->]; cbn; by rewrite J1.
Qed.

Lemma simulates_user s c e c1 : related s c -> user_event e -> contract_in c e = Some c1 ->
  wp (exec e) s (fun _ s' o => o = [] /\ related s' c1).
Proof.
  intros Hr He Hc. destruct e; try done; cbn [exec].
  3: { destruct c as [cs cr cf cm ch]. destruct cs; try done; cbn in Hc; simplify_eq;
    by apply (simulates_free_send _ (mk_contract _ _ _ _ _) Hr); auto. }
  4: { destruct c as [cs cr cf cm ch]. destruct cr, cs; try done; cbn in Hc; simplify_eq;
    by apply (simulates_free_recv _ (mk_contract _ _ _ _ _) Hr); auto. }
  all: destruct s as [l hh cl hu fd w [sl [i1 i2 i3 i4 i5] sd sn ss] [rl [k1 k2 k3 k4 k5] rd rn rs] ne mm];
    destruct c as [cs cr cf cm ch], Hr as [R1 R2 R3 Rh R4 R5]; cbn in *; subst; unfold send_js, recv_js, waits in *; cbn in R4, R5.
  - simplify_eq. flow_steps. split; [done|]. by split.
  - destruct cs; try done. destruct cf; simplify_eq. cbn in R4. rel_cases. flow_steps. by do 2 split.
  - destruct cr; try (destruct cs; done). destruct cf; [by destruct cs|].
    assert (c1 = mk_contract cs Recv_idle false cm hu) as -> by (destruct cs; congruence).
    cbn in R5. rel_cases. flow_steps. by do 2 split.
  - destruct cs; try done. destruct cf; [done|]. destruct (len data =? 0) eqn:Hd; [done|]. cbn in Hc. simplify_eq.
    cbn in R4. rel_cases. flow_steps; try zlia. split; [done|].
    destruct (jobs_send (Send_iface, Operation) l eq_refl) as (J1 & J2 & _).
    split; cbn; try done; sides; rewrite ?J1, ?J2; [|done]. rel_jobs.
    split_and!; [done|zlia|done|]. by left.
  - destruct cr; try (destruct cs; done). destruct cf; [by destruct cs|]. cbn in Hc.
    destruct (0 <? avail) eqn:Ha, (room cm p avail) eqn:Hm; try (by destruct cs).
    assert (c1 = mk_contract cs (Recv_asked p avail) false cm hu) as -> by (destruct cs; cbn in Hc; congruence).
    cbn in R5. rel_cases. flow_steps; try done. split; [done|].
    destruct (jobs_recv (Recv_iface, Operation) l eq_refl) as (J1 & J2 & _).
    split; cbn; try done; sides; rewrite ?J1, ?J2; [done|]. rel_jobs.
    split_and!; [done|lia|done|done|]. by left.
Qed.

(** *** The reactor *)

Lemma answer_write s n r hu w : answer_ok s hu w r = true -> spi_len (send_if (send s)) = n ->
  forall s1, waits s1 BREACTOR_WRITE = negb hu && has_bit w BREACTOR_WRITE -> write_ok s1 n (on_write r).
Proof.
  unfold answer_ok, write_ok. intros [H _]%andb_true_iff <- s1 ->. destruct (on_write r); [|done..].
  split_andb. split; [lia|]. by destruct hu, (has_bit w _).
Qed.
Lemma answer_read s n r hu w : answer_ok s hu w r = true -> spi_len (recv_if (recv s)) = n ->
  forall s1, waits s1 BREACTOR_READ = negb hu && has_bit w BREACTOR_READ -> read_ok s1 n (on_read r).
Proof.
  unfold answer_ok, read_ok. intros [_ H]%andb_true_iff <- s1 ->. destruct (on_read r); [|done..].
  split_andb. split; [lia|]. by destruct hu, (has_bit w _).
Qed.

Lemma simulates_job s c r : related s c -> system_ok s (Execute_job r) = true -> simulates s c (-1) [] (execute_job r).
Proof.
  intros Hr Hok. cbn in Hok. rewrite !andb_true_iff in Hok. destruct Hok as [[[Hp Hh] He] Ha].
  apply bool_decide_eq_true_1 in He. apply negb_true_iff, bool_decide_eq_false_1 in Hp.
  assert (AW := fun n => answer_write _ n _ _ _ Ha). assert (AR := fun n => answer_read _ n _ _ _ Ha). clear Ha.
  destruct s as [l hh cl hu fd w [sl [i1 i2 i3 i4 i5] sd sn ss] [rl [k1 k2 k3 k4 k5] rd rn rs] ne mm].
  destruct c as [cs cr cf cm ch], Hr as [R1 R2 R3 Rh R4 R5]. cbn in *. subst. destruct cf; [done|].
  unfold send_js, recv_js, waits in R4, R5. cbn in R4, R5.
  destruct l as [|[id k] l]; [done|]. unfold simulates, execute_job. hstep. hstep. cbn. hstep. hstep.
  destruct id.
  - rewrite filter_cons_True in R4 by done. rewrite filter_cons_False in R5 by done.
    destruct cs as [| |d|n|]; cbn in R4; rel_cases; cbn [dispatch].
    + unfold _StreamPassInterface_job_operation. flow_steps; try zlia.
      eapply wp_mono; [eapply (simulates_send _ (mk_contract (Send_asked d) cr false cm hu) d)|]; cbn; try done.
      { by apply AW. }
      intros [] s' o [Hw1 Hw2]. split; [rewrite work_cons; cbn in *; lia|exact Hw2].
    + unfold _StreamPassInterface_job_done. flow_steps. split; [rewrite work_cons; cbn; lia|]. eexists. split; [unfold contract_outs; cbn; by rewrite Z.eqb_refl|].
      by split.
  - rewrite filter_cons_True in R4 by done. destruct cs; cbn in R4; rel_cases.
  - rewrite filter_cons_False in R4 by done. rewrite filter_cons_True in R5 by done.
    destruct cr as [| |a n|n| |]; cbn in R5; rel_cases; cbn [dispatch].
    + flow_steps; try lia.
      eapply wp_mono; [eapply (simulates_recv _ (mk_contract cs (Recv_asked a n) false cm hu) a n)|]; cbn; try done.
      { by apply AR. }
      intros [] s' o [Hw1 Hw2]. split; [rewrite work_cons; cbn in *; lia|exact Hw2].
    + flow_steps. split; [rewrite work_cons; cbn; lia|]. eexists. split; [unfold contract_outs; cbn; by rewrite Z.eqb_refl|]. by split.
  - rewrite filter_cons_False in R4 by done. rewrite filter_cons_True in R5 by done.
    destruct cr as [| |a n|n| |]; cbn in R5; rel_cases; cbn [dispatch].
    flow_steps. eapply wp_mono; [eapply (simulates_recv _ (mk_contract cs (Recv_asked a n) false cm hu) a n)|]; cbn; try done.
    { by apply AR. }
    intros [] s' o [Hw1 Hw2]. split; [rewrite work_cons; cbn in *; lia|exact Hw2].
Qed.

Lemma send_keep p js w w' f op : send_rel p js w f op ->
  (send_st p = SEND_STATE_BUSY -> w = true -> w' = true) -> (w' = true -> w = true) -> send_rel p js w' f op.
Proof.
  intros H H1 H2. assert (w = false -> w' = false) by (intros ->; destruct w'; [by rewrite H2|done]).
  destruct op; cbn in *; tauto.
Qed.
Lemma recv_keep p m js w w' f op : recv_rel p m js w f op ->
  (recv_st p = RECV_STATE_BUSY -> w = true -> w' = true) -> (w' = true -> w = true) -> recv_rel p m js w' f op.
Proof.
  intros H H1 H2. assert (w = false -> w' = false) by (intros ->; destruct w'; [by rewrite H2|done]).
  destruct op; cbn in *; tauto.
Qed.

Lemma wp_flag (b a : bool) s (Q : bool -> BConnection -> list out -> Prop) : (b = true -> a = true) -> Q b s [] ->
  wp (if b then ASSERT a;; mret true else mret false) s Q.
Proof. destruct b; intros Ha HQ; [|by apply wp_ret]. rewrite Ha by done. by flow_steps. Qed.

(** A side that is not called keeps what it had. *)
Lemma kept_bit (hup bad ev w busy : bool) : ev || (bad || hup) && busy = false ->
  (busy = true -> w = true -> negb hup && (w && negb ev) = true) /\ (negb hup && (w && negb ev) = true -> w = true).
Proof. destruct hup, bad, ev, w, busy; auto. Qed.

(** An event calls none of the two exactly if both are left alone without a hang-up. *)
Lemma calls_some (hup ws rs bad sb rb : bool) : (ws || (bad || hup) && sb) || (rs || (bad || hup) && rb) = true ->
  negb (hup || ws || rs || bad && (sb || rb)) = false.
Proof. by destruct hup, ws, rs, bad, sb, rb. Qed.
Lemma calls_nothing (hup ws rs bad sb rb : bool) : ws || (bad || hup) && sb = false -> rs || (bad || hup) && rb = false ->
  negb (hup || ws || rs || bad && (sb || rb)) = negb hup.
Proof. by destruct hup, ws, rs, bad, sb, rb. Qed.

#[local] Arguments calls_none : simpl never.
Lemma simulates_fd s c ev r : related s c -> system_ok s (Fd_event ev r) = true ->
  simulates s (c <| hung := hung c || has_bit ev BREACTOR_HUP |>) 3
    (if calls_none c (Fd_event ev r) then [BCONNECTION_EVENT_ERROR] else []) (connection_fd_handler ev r).
Proof.
  intros Hr Hok. cbn in Hok. rewrite !andb_true_iff in Hok. destruct Hok as [[[Hp Hh] He] Ha].
  apply bool_decide_eq_true_1 in He. apply bool_decide_eq_true_1 in Hp.
  destruct s as [l hh cl hu fd w sp rp ne mm].
  destruct c as [cs cr cf cm ch], Hr as [R1 R2 R3 Rh R4 R5]. cbn in *. subst. destruct cf; [done|]. destruct hu; [done|].
  unfold send_js, recv_js, waits in R4, R5. cbn in R4, R5.
  apply andb_true_iff in Ha as [Hev Ha]. apply Z.eqb_eq in Hev. destruct (reported_waited _ _ Hev) as [Ew Er].
  destruct (has_clear w ev) as [W1 W2].
  set (w' := Z.land w (Z.lnot ev)) in *. set (hup := has_bit ev BREACTOR_HUP) in *.
  set (s1 := {| pending := []; has_handler := true; close_fd := cl; is_hupd := hup;
    fd_events := if hup then None else Some w'; wait_events := w'; send := sp; recv := rp; con_errors := 0; memory := cm |}).
  assert (AW := fun n => answer_write _ n _ _ _ Ha). assert (AR := fun n => answer_read _ n _ _ _ Ha). clear Ha.
  unfold simulates, connection_fd_handler. hstep. hstep. hstep. hstep; [done|]. hstep. hstep; [done|]. hstep. hstep. cbn.
  hstep. unfold BReactor_SetFileDescriptorEvents. hstep. hstep. hstep. eapply wp_of_option; [done|]. hstep. cbn. hstep.
  apply wp_mono with (P := fun _ s' o => s' = s1 /\ o = []).
  { subst s1 hup. destruct (has_bit ev BREACTOR_HUP) eqn:Eh; flow_steps; try done. }
  intros [] s' o [-> ->]. hstep. hstep. rewrite has_bad.
  assert (Sw : has_bit w BREACTOR_WRITE = true -> send_st sp = SEND_STATE_BUSY)
    by (clear - R4; intros E; rewrite E in R4; destruct cs; cbn in R4; rel_cases; done).
  assert (Rw : has_bit w BREACTOR_READ = true -> recv_st rp = RECV_STATE_BUSY)
    by (clear - R5; intros E; rewrite E in R5; destruct cr; cbn in R5; rel_cases; done).
  assert (AW' : forall s2, waits s2 BREACTOR_WRITE = negb hup && has_bit w' BREACTOR_WRITE -> write_ok s2 (spi_len (send_if sp)) (on_write r))
    by (intros; by apply AW).
  assert (AR' : forall s2, waits s2 BREACTOR_READ = negb hup && has_bit w' BREACTOR_READ -> read_ok s2 (spi_len (recv_if rp)) (on_read r))
    by (intros; by apply AR).
  assert (AS : bool_decide (send_st sp = SEND_STATE_BUSY) = match cs with Send_asked _ => true | _ => false end)
    by (clear - R4; destruct cs; cbn in R4; rel_cases; (apply bool_decide_eq_true_2 || apply bool_decide_eq_false_2); congruence).
  assert (AR2 : bool_decide (recv_st rp = RECV_STATE_BUSY) = match cr with Recv_asked _ _ => true | _ => false end)
    by (clear - R5; destruct cr; cbn in R5; rel_cases; (apply bool_decide_eq_true_2 || apply bool_decide_eq_false_2); congruence).
  assert (HN : calls_none (mk_contract cs cr false cm false) (Fd_event ev r) = negb (hup || has_bit ev BREACTOR_WRITE ||
      has_bit ev BREACTOR_READ || has_bit ev BREACTOR_ERROR &&
      (bool_decide (send_st sp = SEND_STATE_BUSY) || bool_decide (recv_st rp = RECV_STATE_BUSY)))).
  { rewrite AS, AR2. unfold calls_none. cbn. fold hup. f_equal. by destruct cs, cr, (has_bit ev BREACTOR_ERROR), hup. }
  rewrite HN. clear AW AR Hev He AS AR2 HN.
  assert (BS : forall b, has_bit ev BREACTOR_WRITE || b && bool_decide (send_st sp = SEND_STATE_BUSY) = true -> send_st sp = SEND_STATE_BUSY).
  { intros b [H|[_ H%bool_decide_eq_true_1]%andb_true_iff]%orb_true_iff; auto. }
  assert (BR : forall b, has_bit ev BREACTOR_READ || b && bool_decide (recv_st rp = RECV_STATE_BUSY) = true -> recv_st rp = RECV_STATE_BUSY).
  { intros b [H|[_ H%bool_decide_eq_true_1]%andb_true_iff]%orb_true_iff; auto. }
  hstep. apply wp_flag; [intros H; apply bool_decide_eq_true_2; by eapply BS|].
  hstep. apply wp_flag; [intros H; apply bool_decide_eq_true_2; by eapply BR|].
  fold hup. subst s1; cbn [send recv].
  set (bad := has_bit ev BREACTOR_ERROR) in *.
  assert (KS : has_bit ev BREACTOR_WRITE || (bad || hup) && bool_decide (send_st sp = SEND_STATE_BUSY) = false ->
    send_rel sp [] (negb hup && has_bit w' BREACTOR_WRITE) false cs).
  { intros K. destruct (kept_bit _ _ _ (has_bit w BREACTOR_WRITE) _ K) as [K1 K2]. rewrite W1. eapply send_keep; [exact R4| |done]. intros E. apply K1. by apply bool_decide_eq_true_2. }
  assert (KR : has_bit ev BREACTOR_READ || (bad || hup) && bool_decide (recv_st rp = RECV_STATE_BUSY) = false ->
    recv_rel rp cm [] (negb hup && has_bit w' BREACTOR_READ) false cr).
  { intros K. destruct (kept_bit _ _ _ (has_bit w BREACTOR_READ) _ K) as [K1 K2]. rewrite W2. eapply recv_keep; [exact R5| |done]. intros E. apply K1. by apply bool_decide_eq_true_2. }
  assert (C1 := calls_some hup (has_bit ev BREACTOR_WRITE) (has_bit ev BREACTOR_READ) bad
    (bool_decide (send_st sp = SEND_STATE_BUSY)) (bool_decide (recv_st rp = RECV_STATE_BUSY))).
  assert (C2 := calls_nothing hup (has_bit ev BREACTOR_WRITE) (has_bit ev BREACTOR_READ) bad
    (bool_decide (send_st sp = SEND_STATE_BUSY)) (bool_decide (recv_st rp = RECV_STATE_BUSY))).
  set (N := negb (hup || _ || _ || _)) in *. clearbody N.
  destruct (has_bit ev BREACTOR_WRITE || _) eqn:Es.
  - rewrite (C1 eq_refl). specialize (BS _ Es). destruct cs as [| |d|n|]; cbn in R4; rel_cases; try congruence.
    destruct sp as [sl [i1 i2 i3 i4 i5] sd sn ss]. cbn in *. subst.
    destruct (has_bit ev BREACTOR_READ || _) eqn:Er'.
    + specialize (BR _ Er'). destruct cr as [| |a n|n| |]; cbn in R5; rel_cases; try congruence.
      destruct rp as [rl [k1 k2 k3 k4 k5] rd rn rs]. cbn in *. subst.
      flow_steps. eapply wp_mono; [eapply (simulates_send _ (mk_contract (Send_asked d) (Recv_asked a k3) false cm hup) d)|]; cbn; try done.
      * sides. split_and!; [done..|]. right. split_and!; [done..|]. by left.
      * by apply AW'.
    + flow_steps. eapply wp_mono; [eapply (simulates_send _ (mk_contract (Send_asked d) cr false cm hup) d)|]; cbn; try done.
      * by apply KR.
      * by apply AW'.
      * intros [] s' o [Hw1 Hw2]. split; [cbn in *; lia|exact Hw2].
  - destruct (has_bit ev BREACTOR_READ || _) eqn:Er'.
    + rewrite (C1 eq_refl). specialize (BR _ Er'). destruct cr as [| |a n|n| |]; cbn in R5; rel_cases; try congruence.
      destruct rp as [rl [k1 k2 k3 k4 k5] rd rn rs]. cbn in *. subst.
      eapply wp_mono; [eapply (simulates_recv _ (mk_contract cs (Recv_asked a k3) false cm hup) a k3)|]; cbn; try done.
      * by apply KS.
      * by apply AR'.
      * intros [] s' o [Hw1 Hw2]. split; [cbn in *; lia|exact Hw2].
    + specialize (KS eq_refl). specialize (KR eq_refl). rewrite (C2 eq_refl eq_refl). clear C1 C2. cbn [is_hupd]. destruct hup.
      * cbn [negb]. hstep. split; [weigh|]. eexists. split; [done|]. split; [by split|done].
      * cbn [negb]. flow_steps. split; [weigh|]. eexists. split; [done|]. split; [|done]. split; cbn; try done; [by apply send_fail|by apply recv_fail].
Qed.

(** What an event of the reactor makes of the contract before anything happens. *)
Definition entered (c : contract) (e : event) : contract :=
  match e with Fd_event ev _ => c <| hung := hung c || has_bit ev BREACTOR_HUP |> | _ => c end.
Lemma contract_in_system c e : match e with Execute_job _ | Fd_event _ _ | Reset_limits => True | _ => False end ->
  contract_in c e = Some (entered c e).
Proof. by destruct e, c as [[] [] ? ? ?]. Qed.

Lemma simulates_event s c e : related s c -> is_Some (contract_in c e) -> system_ok s e = true ->
  exists s' c', both e (s, c) = Some (s', c') /\ related s' c' /\
    (forall r, e = Execute_job r -> work (pending s') < work (pending s)).
Proof.
  intros Hr [c1 Hc] Hs. assert (Hd : user_event e \/ match e with Execute_job _ | Fd_event _ _ | Reset_limits => True | _ => False end)
    by (destruct e; cbn; auto). unfold both, contract_step. cbn [fst snd]. rewrite Hc.
  destruct Hd as [Hu|Hu].
  - assert (H := simulates_user _ _ _ _ Hr Hu Hc). apply wp_spec in H as ([] & s' & o & -> & -> & Hr').
    exists s', c1. split_and!; [by destruct e|done|]. intros r ->. done.
  - rewrite contract_in_system in Hc by done. injection Hc as <-.
    assert (H : exists n, simulates s (entered c e) n (if calls_none c e then [BCONNECTION_EVENT_ERROR] else []) (exec e) /\
      forall r, e = Execute_job r -> n = -1).
    { destruct e; try done; cbn [exec].
      - eexists. split; [by apply simulates_job|done].
      - eexists. split; [by apply simulates_fd|done].
      - exists 0. split; [|done]. destruct s as [l hh cl hu fd w [sl si sd sn ss] [rl ri rd rn rs] ne mm], Hr.
        unfold simulates. flow_steps. split; [weigh|]. exists c. split; [done|]. split; [by split|done]. }
    destruct H as (n & H & Hn). apply wp_spec in H as ([] & s' & o & -> & Hw & c' & Ho & Hr' & Hp).
    exists s', c'. split_and!; [|done|].
    + cbn. unfold owed. by rewrite bool_decide_true, Ho by exact Hp.
    + intros r Hx. rewrite (Hn _ Hx) in Hw. lia.
Qed.

Lemma run_related evs : forall s c, related s c -> legal evs (s, c) = true ->
  exists s' c', run evs (s, c) = Some (s', c') /\ related s' c'.
Proof.
  induction evs as [|e evs IH]; intros s c Hr Hl; [by exists s, c|]. cbn [run legal] in *. rewrite !andb_true_iff in Hl.
  destruct Hl as [[Hc%bool_decide_eq_true_1 Hs] Hl]. cbn in Hc, Hs.
  destruct (simulates_event s c e Hr Hc Hs) as (s' & c' & Hb & Hr' & _). rewrite Hb in *. by apply IH.
Qed.

Lemma start_related close m : related (start close m).1 (start close m).2.
Proof. unfold start. cbn. by split. Qed.

(** *** Freeing *)

Lemma exec_keeps_close e : keeps close_fd (exec e).
Proof.
  assert (HS : forall r, keeps close_fd (connection_send r)).
  { intros r. unfold connection_send, write. repeat (autounfold with flow; solve_keeps). }
  assert (HR : forall r, keeps close_fd (connection_recv r)).
  { intros r. unfold connection_recv, read. repeat (autounfold with flow; solve_keeps). }
  destruct e; cbn [exec]; unfold execute_job, connection_fd_handler, dispatch;
    repeat (autounfold with flow; solve_keeps; try apply HS; try apply HR).
Qed.
Lemma run_keeps_close evs : forall x y, run evs x = Some y -> close_fd y.1 = close_fd x.1.
Proof.
  induction evs as [|e evs IH]; intros [s c] y Hr; cbn in Hr; [by simplify_eq|].
  destruct (both e (s, c)) as [[s1 c1]|] eqn:E; [|done]. rewrite (IH _ _ Hr). cbn.
  unfold both in E. cbn in E. destruct (exec e s) as [[[[] s2] o]|] eqn:Ex; [|done]. cbn in E.
  destruct (contract_step c e o); [|done]. cbn in E. simplify_eq.
  by eapply exec_keeps_close.
Qed.

Lemma no_jobs s : send_js s = [] -> recv_js s = [] -> pending s = [].
Proof.
  unfold send_js, recv_js. destruct (pending s) as [|j l]; [done|]. destruct (on_send j) eqn:E.
  - by rewrite filter_cons_True.
  - by rewrite (filter_cons_True (fun j => on_send j = false)).
Qed.

Lemma teardown_send s c : related s c ->
  wp (match sending c with Send_off | Send_gone => mret tt | _ => BConnection_SendAsync_Free end) s
    (fun _ s' o => o = [] /\ exists op, (op = Send_off \/ op = Send_gone) /\ related s' (c <| sending := op |>)).
Proof.
  intros Hr. destruct (sending c) eqn:E.
  1: hstep; split; [done|]; exists Send_off; split; [by auto|]; destruct c; cbn in *; by subst.
  4: hstep; split; [done|]; exists Send_gone; split; [by auto|]; destruct c; cbn in *; by subst.
  all: eapply wp_mono; [apply (simulates_free_send _ _ Hr); [by rewrite E|by left]|]; cbn; intros [] s' o [-> H]; eauto.
Qed.
Lemma teardown_recv s c : related s c ->
  wp (match receiving c with Recv_off | Recv_gone => mret tt | _ => BConnection_RecvAsync_Free end) s
    (fun _ s' o => o = [] /\ exists op, (op = Recv_off \/ op = Recv_gone) /\ related s' (c <| receiving := op |>)).
Proof.
  intros Hr. destruct (receiving c) eqn:E.
  1: hstep; split; [done|]; exists Recv_off; split; [by auto|]; destruct c; cbn in *; by subst.
  5: hstep; split; [done|]; exists Recv_gone; split; [by auto|]; destruct c; cbn in *; by subst.
  all: eapply wp_mono; [apply (simulates_free_recv _ _ Hr); [by rewrite E|by left]|]; cbn; intros [] s' o [-> H]; eauto.
Qed.

Lemma free_related s c : related s c -> (sending c = Send_off \/ sending c = Send_gone) ->
  (receiving c = Recv_off \/ receiving c = Recv_gone) ->
  wp BConnection_Free s (fun _ s' o => o = (if close_fd s then [Sys_close] else []) /\ pending s' = [] /\ fd_events s' = None /\
    memory s' = mem c).
Proof.
  intros [R1 R2 R3 Rh R4 R5] Hs Hr.
  assert (HS : send_st (send s) = SEND_STATE_NOT_INITED /\ send_js s = []) by (destruct Hs as [E|E]; rewrite E in R4; cbn in R4; tauto).
  assert (HR : recv_st (recv s) = RECV_STATE_NOT_INITED /\ recv_js s = []) by (destruct Hr as [E|E]; rewrite E in R5; cbn in R5; tauto).
  destruct HS as [H1 H2], HR as [H3 H4]. assert (Hp := no_jobs _ H2 H4).
  unfold BConnection_Free. hstep. hstep. hstep. hstep; [by rewrite H1|]. hstep. hstep; [by rewrite H3|]. hstep.
  destruct s as [l hh cl hu fd w sp rp ne mm]. clear Rh. cbn in *. subst. destruct hu, cl; flow_steps; done.
Qed.

Lemma teardown_related s c : related s c ->
  wp (teardown c) s (fun _ s' o => o = (if close_fd s then [Sys_close] else []) /\ pending s' = [] /\
    fd_events s' = None /\ memory s' = mem c).
Proof.
  intros Hs. assert (Hx := teardown_send _ _ Hs).
  apply wp_spec in Hx as ([] & s1 & o1 & E1 & -> & op1 & Hop1 & Hs1). assert (Hx := teardown_recv _ _ Hs1).
  apply wp_spec in Hx as ([] & s2 & o2 & E2 & -> & op2 & Hop2 & Hs2). cbn in E2.
  assert (Hx := free_related s2 _ Hs2 Hop1 Hop2). apply wp_spec in Hx as ([] & s3 & o3 & E3 & -> & Hp & Hf & Hm).
  assert (Hc2 : close_fd s2 = close_fd s).
  { destruct (conj (exec_keeps_close Send_free) (exec_keeps_close Recv_free)) as [K1 K2]. trans (close_fd s1).
    - destruct (receiving c); (by injection E2 as <-) || by eapply K2.
    - destruct (sending c); (by injection E1 as <-) || by eapply K1. }
  rewrite Hc2 in E3. unfold teardown. apply wp_bind, wp_spec. eexists _, _, _. split; [exact E1|].
  apply wp_bind, wp_spec. eexists _, _, _. split; [exact E2|]. apply wp_spec. by eexists _, _, _.
Qed.

(** *** Progress *)

Lemma jobs_work_nonneg l : 0 <= work l.
Proof. induction l as [|j l IH]; [done|]. rewrite work_cons. pose proof (weight_range j). lia. Qed.
Lemma work_split s : work (pending s) = work (send_js s) + work (recv_js s).
Proof.
  unfold send_js, recv_js. induction (pending s) as [|j l IH]; [done|]. rewrite work_cons. destruct (on_send j) eqn:E.
  - rewrite filter_cons_True, filter_cons_False, work_cons by congruence. lia.
  - rewrite filter_cons_False, filter_cons_True, work_cons by congruence. lia.
Qed.
Lemma work_related s c : related s c -> work (pending s) <= 4.
Proof.
  intros [_ _ _ _ R4 R5]. rewrite work_split. enough (work (send_js s) <= 2 /\ work (recv_js s) <= 2) by lia. split.
  - destruct (sending c); cbn in R4; rel_cases; match goal with H : send_js s = _ |- _ => by rewrite H end.
  - destruct (receiving c); cbn in R5; rel_cases; match goal with H : recv_js s = _ |- _ => by rewrite H end.
Qed.
Lemma progress_related s c : related s c -> failed c = false ->
  match sending c with
  | Send_asked _ => pending s <> [] \/ exists w, fd_events s = Some w /\ has_bit w BREACTOR_WRITE = true
  | Send_written _ => pending s <> []
  | _ => forall w, fd_events s = Some w -> has_bit w BREACTOR_WRITE = false
  end /\
  match receiving c with
  | Recv_asked _ _ => pending s <> [] \/ exists w, fd_events s = Some w /\ has_bit w BREACTOR_READ = true
  | Recv_got _ => pending s <> []
  | _ => forall w, fd_events s = Some w -> has_bit w BREACTOR_READ = false
  end.
Proof.
  intros [R1 R2 R3 Rh R4 R5] Hf.
  assert (Hb : forall bit, waits s bit = true -> exists w, fd_events s = Some w /\ has_bit w bit = true).
  { intros bit Hw. unfold waits in Hw. rewrite R2. destruct (is_hupd s); [done|]. eauto. }
  assert (Hn : forall bit, waits s bit = false -> forall w, fd_events s = Some w -> has_bit w bit = false).
  { intros bit Hw w Hfd. unfold waits in Hw. rewrite R2 in Hfd. destruct (is_hupd s); [done|]. by simplify_eq. }
  assert (Hjs : forall j, send_js s = [j] \/ recv_js s = [j] -> pending s <> []).
  { intros j Hj E. unfold send_js, recv_js in Hj. rewrite E in Hj. by destruct Hj. }
  split.
  - destruct (sending c); cbn in R4; rewrite Hf in *; rel_cases; eauto; try done.
  - destruct (receiving c); cbn in R5; rewrite Hf in *; rel_cases; eauto; try done.
Qed.
End ConnectionProofs.

Section connection_properties.
Import ConnectionProofs.
Context (close : bool) (m : gmap nat bytes).

(** C34: A connection keeps the contract of its interface, the machine [contract]:
    for every sequence of events in which the user keeps it too and the system
    answers as documented, no assertion fails and every pointer used is valid;
    each send hands over a beginning of the data asked, once, and is reported
    with its length; each receive puts bytes of the stream into the buffer asked,
    not past its end and nowhere else, and is reported with their number.  In
    every event the handler is called exactly for what the system answered in it:
    with the end of the stream when a read finds it, with an error when an
    operation fails (after a hang-up, also when it would have to wait) or when the
    event of the descriptor calls neither side; and never otherwise.  After an
    error nothing happens.  At any moment the interfaces and the connection can be
    freed: no job and no registration is left, and the descriptor is closed once,
    if it belongs to the connection. *)
Theorem connection_refines evs : legal evs (start close m) = true ->
  exists s c, run evs (start close m) = Some (s, c) /\ memory s = mem c /\
    con_errors s = Nat.b2n (failed c) /\
    exists s', teardown c s = Some (tt, s', if close then [Sys_close] else []) /\ pending s' = [] /\ fd_events s' = None.
Proof using All.
  intros Hl. destruct (run_related evs _ _ (start_related close m) Hl) as (s & c & Hr & Hs).
  change (run evs (start close m) = Some (s, c)) in Hr.
  exists s, c. split_and!; [done|by apply r_memory|rewrite (r_errors _ _ Hs); by destruct (failed c)|].
  assert (Hc : close_fd s = close) by exact (run_keeps_close _ _ _ Hr).
  assert (Ht := teardown_related _ _ Hs). apply wp_spec in Ht as ([] & s' & o & E & -> & Hp & Hf & _).
  rewrite Hc in E. by exists s'.
Qed.

(** C35: A connection does not stall and does not spin: while a send or a receive
    is under way there is a job that takes it further or the descriptor is waited
    for, for exactly the side that needs it; what was done is reported by a job;
    and at most four jobs run before the connection waits. *)
Theorem connection_progress evs : legal evs (start close m) = true ->
  exists s c, run evs (start close m) = Some (s, c) /\
    (failed c = false ->
      match sending c with
      | Send_asked _ => pending s <> [] \/ exists w, fd_events s = Some w /\ has_bit w BREACTOR_WRITE = true
      | Send_written _ => pending s <> []
      | _ => forall w, fd_events s = Some w -> has_bit w BREACTOR_WRITE = false
      end /\
      match receiving c with
      | Recv_asked _ _ => pending s <> [] \/ exists w, fd_events s = Some w /\ has_bit w BREACTOR_READ = true
      | Recv_got _ => pending s <> []
      | _ => forall w, fd_events s = Some w -> has_bit w BREACTOR_READ = false
      end) /\
    forall es, Forall (fun e => match e with Execute_job _ => True | _ => False end) es ->
      legal es (s, c) = true -> len es <= 4.
Proof using All.
  intros Hl. destruct (run_related evs _ _ (start_related close m) Hl) as (s & c & Hr & Hs). exists s, c. split_and!; [done|..].
  - intros Hf. by apply progress_related.
  - intros es Hes Hle. enough (len es <= work (pending s)) by (pose proof (work_related _ _ Hs); lia). clear Hl Hr.
    revert s c Hs Hle. induction Hes as [|e es He Hes IH]; intros s c Hs Hle; [pose proof (jobs_work_nonneg (pending s)); zlia|].
    cbn [legal] in Hle. rewrite !andb_true_iff in Hle. destruct Hle as [[Hc%bool_decide_eq_true_1 Hok] Hle]. cbn in Hc, Hok.
    destruct (simulates_event s c e Hs Hc Hok) as (s' & c' & Hb & Hs' & Hw). rewrite Hb in Hle.
    destruct e; try done. specialize (Hw _ eq_refl). specialize (IH _ _ Hs' Hle). rewrite len_cons. lia.
Qed.
End connection_properties.

Module ConnectionWitnesses.
Definition nothing : answer := mk_answer Would_block Would_block.
Definition wrote (n : Z) : answer := mk_answer (Ret n) Would_block.
Definition got (d : bytes) : answer := mk_answer Would_block (Ret d).
Definition job : event := Execute_job nothing.
Definition m0 : gmap nat bytes := {[ 7%nat := replicate 8 Byte.x00 ]}.
(** Both sides at once: a part of the data is taken, the rest waits; a byte
    comes, and with the hang-up the end of the stream. *)
Definition demo : list event :=
  [Send_init; Recv_init; Send [Byte.x61; Byte.x62; Byte.x63]; Receive (7%nat, 2) 4; job; Execute_job (wrote 2); job;
   Send [Byte.x63]; job; Fd_event BREACTOR_READ (got [Byte.x31]); job; Reset_limits; Receive (7%nat, 3) 4; job;
   Fd_event (Z.lor BREACTOR_HUP BREACTOR_READ) (wrote 1); job; Execute_job (got [])].
Definition demo_mem : gmap nat bytes := <[7%nat := [Byte.x00; Byte.x00; Byte.x31; Byte.x00; Byte.x00; Byte.x00; Byte.x00; Byte.x00]]> m0.
Example demo_carried : snd <$> run demo (start true m0) = Some (mk_contract Send_idle Recv_closed false demo_mem true).
Proof. vm_compute. reflexivity. Qed.

(** The bit of a side that an error event, and no other bit, has called stays
    among those waited for.  If its operation succeeded, the descriptor would be
    handled later with no operation to do: this is why [answer_ok] relies on the
    failure of operations on a descriptor that is in error and not ready. *)
Example error_keeps_waiting :
  let evs := [Send_init; Send [Byte.x61]; job; Fd_event BREACTOR_ERROR (wrote 1); job] in
  (fd_events ∘ fst <$> run evs (start true m0)) = Some (Some BREACTOR_WRITE) /\
  run (evs ++ [Fd_event BREACTOR_WRITE (wrote 1)]) (start true m0) = None.
Proof. split; vm_compute; reflexivity. Qed.

Lemma connection_refines_witness : exists s c, run demo (start true m0) = Some (s, c) /\ memory s = mem c /\
  con_errors s = Nat.b2n (failed c) /\
  exists s', teardown c s = Some (tt, s', [Sys_close]) /\ pending s' = [] /\ fd_events s' = None.
Proof. apply (connection_refines true m0 demo). vm_compute. reflexivity. Defined.

Lemma connection_progress_witness : exists s c, run (take 9 demo) (start true m0) = Some (s, c) /\
  (failed c = false ->
    match sending c with
    | Send_asked _ => pending s <> [] \/ exists w, fd_events s = Some w /\ has_bit w BREACTOR_WRITE = true
    | Send_written _ => pending s <> []
    | _ => forall w, fd_events s = Some w -> has_bit w BREACTOR_WRITE = false
    end /\
    match receiving c with
    | Recv_asked _ _ => pending s <> [] \/ exists w, fd_events s = Some w /\ has_bit w BREACTOR_READ = true
    | Recv_got _ => pending s <> []
    | _ => forall w, fd_events s = Some w -> has_bit w BREACTOR_READ = false
    end) /\
  forall es, Forall (fun e => match e with Execute_job _ => True | _ => False end) es ->
    legal es (s, c) = true -> len es <= 4.
Proof. apply (connection_progress true m0 (take 9 demo)). vm_compute. reflexivity. Defined.
End ConnectionWitnesses.
