(* ===== verification/BConnector.v ===== *)
(** * Connecting, listening and the descriptors

    The rest of [system/BConnection_unix.c]: [BConnector], which connects a
    socket, [BListener], which listens on one, and [BConnection_Init] and
    [BConnection_Free], which make a connection of what one of them has and
    which are composed here with the connection of [BConnection].  Descriptors
    are numbers; a descriptor that is closed has to be open, so that closing one
    twice, or one of somebody else, is a fault.

    One connector, one listener and one connection; Unix-domain sockets and
    descriptors given by the user, which the program does not have, are left out. *)
From S2P Require Import Prelude FlowInterfaces.
From S2P Require BAddr.
From S2P Require Import BConnection.

(** ** Socket addresses *)

Inductive sockaddr :=
  | Sockaddr_in (sin_port s_addr : Z)
  | Sockaddr_in6 (sin6_port sin6_flowinfo : Z) (s6_addr : bytes) (sin6_scope_id : Z)
  | Sockaddr_other.
Definition addr_socket_to_sys (a : BAddr.BAddr) : option sockaddr :=
  match a with
  | BAddr.BAddr_IPv4 ip port => Some (Sockaddr_in port ip)
  | BAddr.BAddr_IPv6 ip port => Some (Sockaddr_in6 port 0 ip 0)
  | BAddr.BAddr_None => None
  end.
Definition addr_sys_to_socket (s : sockaddr) : BAddr.BAddr :=
  match s with
  | Sockaddr_in port ip => BAddr.BAddr_IPv4 ip port
  | Sockaddr_in6 port _ ip _ => BAddr.BAddr_IPv6 ip port
  | Sockaddr_other => BAddr.BAddr_None
  end.
Definition BConnection_AddressSupported (a : BAddr.BAddr) : bool :=
  match a with BAddr.BAddr_None => false | _ => true end.

(** The port and the address survive, in the byte order of the network. *)
Lemma addr_sys_roundtrip a : BConnection_AddressSupported a = true ->
  addr_sys_to_socket <$> addr_socket_to_sys a = Some a.
Proof. by destruct a. Qed.

(** ** State *)

(** [events]: what the reactor waits for on the descriptor, when it is registered. *)
Record BListener := mk_listener { l_fd : Z; l_events : option Z; default_job : bool }.
#[export] Instance listener_eta : Eta BListener := fun r => mk_listener (l_fd r) (l_events r) (default_job r).
Record BConnector := mk_connector { c_fd : Z; c_events : option Z; connected : bool; have_bfd : bool; c_job : bool }.
#[export] Instance connector_eta : Eta BConnector := fun r =>
  mk_connector (c_fd r) (c_events r) (connected r) (have_bfd r) (c_job r).
Record sockets := mk_sockets {
  opened : gset Z; (* descriptors of the process *)
  listener : BListener;
  connector : BConnector;
  con_fd : Z;
  con : BConnection }.
#[export] Instance sockets_eta : Eta sockets := fun r =>
  mk_sockets (opened r) (listener r) (connector r) (con_fd r) (con r).

Inductive out :=
  | Init_result (b : bool) (* what an initialisation returns *)
  | Connector_handler (is_error : bool)
  | Listener_handler
  | Discarded
  | Con (o : BConnection.out).
Definition hdl := handler sockets out.

Definition set_listener (f : BListener -> BListener) : hdl unit := modify (fun o => o <| listener := f (listener o) |>).
Definition set_connector (f : BConnector -> BConnector) : hdl unit := modify (fun o => o <| connector := f (connector o) |>).

(** [socket] and [accept]: a descriptor, or -1. *)
Definition sys_open (r : option Z) : hdl Z :=
  match r with
  | Some fd => modify (fun o => o <| opened := {[ fd ]} ∪ opened o |>);; mret fd
  | None => mret (-1)
  end.
Definition sys_close (fd : Z) : hdl unit :=
  o ← get;
  ASSERT (bool_decide (fd ∈ opened o));;
  modify (fun o => o <| opened := opened o ∖ {[ fd ]} |>).

(** Runs a part of the connection, which closes its descriptor when it says so. *)
Definition emit (l : list out) : hdl unit := fun s => Some (tt, s, l).
Definition closes (l : list BConnection.out) : bool :=
  existsb (fun o => match o with Sys_close => true | _ => false end) l.
Definition on_con {A} (h : BConnection.hdl A) : hdl A :=
  o ← get;
  '(a, c, l) ← of_option (h (con o));
  modify (fun o => o <| con := c |>);;
  (if closes l then sys_close (con_fd o) else mret tt);;
  emit (Con <$> l);;
  mret a.

(** ** [BListener] *)

Definition listener_fd_handler : hdl unit :=
  set_listener (fun o => o <| default_job := true |>);;
  call Listener_handler.

Definition listener_default_job_handler (r : option Z) : hdl unit :=
  newfd ← sys_open r;
  if newfd <? 0 then mret tt else
  sys_close newfd;;
  call Discarded.

(** The descriptor, and whether each of the calls succeeds, is given. *)
Definition BListener_Init (a : BAddr.BAddr) (r : option Z) (nonblocking_ok bind_ok listen_ok add_ok : bool) : hdl bool :=
  if negb (BConnection_AddressSupported a) then mret false else
  _ ← of_option (addr_socket_to_sys a);
  fd ← sys_open r;
  set_listener (fun o => o <| l_fd := fd |>);;
  if fd <? 0 then mret false else
  let fail1 := sys_close fd;; mret false in
  if negb nonblocking_ok then fail1 else
  if negb bind_ok then fail1 else
  if negb listen_ok then fail1 else
  if negb add_ok then fail1 else
  set_listener (fun o => o <| l_events := Some BREACTOR_READ |>);;
  set_listener (fun o => o <| default_job := false |>);;
  mret true.

Definition BListener_Free : hdl unit :=
  set_listener (fun o => o <| default_job := false |>);;
  o ← get;
  _ ← of_option (l_events (listener o));
  set_listener (fun o => o <| l_events := None |>);;
  sys_close (l_fd (listener o)).

(** ** [BConnector] *)

(** [result]: what [getsockopt] gives, if it succeeds. *)
Definition connector_fd_handler (result : option Z) : hdl unit :=
  o ← gets connector;
  ASSERT (0 <=? c_fd o);;
  ASSERT (negb (connected o));;
  ASSERT (have_bfd o);;
  _ ← of_option (c_events o);
  set_connector (fun o => o <| c_events := None |>);;
  set_connector (fun o => o <| have_bfd := false |>);;
  match result with
  | Some 0 => set_connector (fun o => o <| connected := true |>)
  | _ => mret tt
  end;;
  o ← gets connector;
  call (Connector_handler (negb (connected o))).

Definition connector_job_handler : hdl unit :=
  o ← gets connector;
  ASSERT (0 <=? c_fd o);;
  ASSERT (connected o);;
  ASSERT (negb (have_bfd o));;
  call (Connector_handler false).

Inductive connect_result := Connect_ok | Connect_in_progress | Connect_error.
Definition BConnector_Init (a : BAddr.BAddr) (r : option Z) (nonblocking_ok : bool) (connect : connect_result)
    (add_ok : bool) : hdl bool :=
  if negb (BConnection_AddressSupported a) then mret false else
  _ ← of_option (addr_socket_to_sys a);
  set_connector (fun o => o <| c_job := false |>);;
  fd ← sys_open r;
  set_connector (fun o => o <| c_fd := fd |>);;
  let fail1 := set_connector (fun o => o <| c_job := false |>);; mret false in
  let fail2 := sys_close fd;; fail1 in
  if fd <? 0 then fail1 else
  if negb nonblocking_ok then fail2 else
  match connect with
  | Connect_error => fail2
  | _ =>
      set_connector (fun o => o <| connected := false |>);;
      set_connector (fun o => o <| have_bfd := false |>);;
      match connect with
      | Connect_in_progress =>
          if negb add_ok then fail2 else
          set_connector (fun o => o <| c_events := Some BREACTOR_WRITE |>);;
          set_connector (fun o => o <| have_bfd := true |>);;
          mret true
      | _ =>
          set_connector (fun o => o <| connected := true |>);;
          set_connector (fun o => o <| c_job := true |>);;
          mret true
      end
  end.

Definition BConnector_Free : hdl unit :=
  o ← gets connector;
  (if have_bfd o then
     _ ← of_option (c_events o);
     set_connector (fun o => o <| c_events := None |>)
   else mret tt);;
  (if negb (c_fd o =? -1) then sys_close (c_fd o) else mret tt);;
  set_connector (fun o => o <| c_job := false |>).

(** ** [BConnection_Init] *)

(** From a listener, up to where it has a descriptor. *)
Definition init_from_listener (r : option Z) (nonblocking_ok add_ok : bool) : hdl bool :=
  o ← gets listener;
  ASSERT (default_job o);;
  set_listener (fun o => o <| default_job := false |>);;
  fd ← sys_open r;
  modify (fun o => o <| con_fd := fd |>);;
  if fd <? 0 then mret false else
  if negb nonblocking_ok then sys_close fd;; mret false else
  on_con (connection_init true add_ok).

Definition init_from_connector (add_ok : bool) : hdl bool :=
  o ← gets connector;
  ASSERT (0 <=? c_fd o);;
  ASSERT (connected o);;
  ASSERT (negb (have_bfd o));;
  ASSERT (negb (c_job o));;
  modify (fun s => s <| con_fd := c_fd o |>);;
  set_connector (fun o => o <| c_fd := -1 |>);;
  on_con (connection_init true add_ok).

(** ** Events *)

Inductive event :=
  | Connector_init (a : BAddr.BAddr) (r : option Z) (nonblocking_ok : bool) (connect : connect_result) (add_ok : bool)
  | Connector_free
  | Connector_fd (result : option Z)
  | Connector_job
  | Listener_init (a : BAddr.BAddr) (r : option Z) (nonblocking_ok bind_ok listen_ok add_ok : bool)
  | Listener_free
  | Listener_fd
  | Listener_job (r : option Z)
  | Accept (r : option Z) (nonblocking_ok add_ok : bool)
  | Take (add_ok : bool) (* what the connector has *)
  | Con_event (e : BConnection.event)
  | Con_free.

Definition exec (e : event) : hdl unit :=
  match e with
  | Connector_init a r nb c add => b ← BConnector_Init a r nb c add; call (Init_result b)
  | Connector_free => BConnector_Free
  | Connector_fd result => connector_fd_handler result
  | Connector_job =>
      o ← gets connector;
      ASSERT (c_job o);;
      set_connector (fun o => o <| c_job := false |>);;
      connector_job_handler
  | Listener_init a r nb bind listen add => b ← BListener_Init a r nb bind listen add; call (Init_result b)
  | Listener_free => BListener_Free
  | Listener_fd => listener_fd_handler
  | Listener_job r =>
      o ← gets listener;
      ASSERT (default_job o);;
      set_listener (fun o => o <| default_job := false |>);;
      listener_default_job_handler r
  | Accept r nb add => b ← init_from_listener r nb add; call (Init_result b)
  | Take add => b ← init_from_connector add; call (Init_result b)
  | Con_event e => on_con (BConnection.exec e)
  | Con_free => on_con BConnection_Free
  end.

Definition idle (s : sockets) : bool :=
  negb (c_job (connector s)) && negb (default_job (listener s)) && bool_decide (pending (con s) = []).
Definition fresh (s : sockets) (r : option Z) : bool :=
  match r with Some fd => (0 <=? fd) && bool_decide (fd ∉ opened s) | None => true end.
Definition system_ok (s : sockets) (e : event) : bool :=
  match e with
  | Connector_init _ r _ _ _ | Listener_init _ r _ _ _ _ | Accept r _ _ => fresh s r
  | Connector_fd _ => bool_decide (is_Some (c_events (connector s))) && idle s
  | Connector_job => c_job (connector s)
  | Listener_fd => bool_decide (is_Some (l_events (listener s))) && idle s
  | Listener_job r => default_job (listener s) && fresh s r
  | Con_event e => BConnection.system_ok (con s) e
  | _ => true
  end.

(** ** What they are to their user *)

Inductive connector_op := C_off | C_connecting | C_connected | C_failed | C_taken.
Inductive listener_op := L_off | L_listening | L_ready.
Record user := mk_user { u_connector : connector_op; u_listener : listener_op; u_con : option contract; u_mem : gmap nat bytes }.
#[export] Instance user_eta : Eta user := fun r => mk_user (u_connector r) (u_listener r) (u_con r) (u_mem r).

(** No interface of the connection is left. *)
Definition unused (c : contract) : bool :=
  match sending c, receiving c with (Send_off | Send_gone), (Recv_off | Recv_gone) => true | _, _ => false end.
Definition allowed (u : user) (e : event) : bool :=
  match e, u_connector u, u_listener u, u_con u with
  | Connector_init _ _ _ _ _, C_off, _, _ => true
  | Connector_free, C_off, _, _ => false
  | Listener_init _ _ _ _ _ _, _, L_off, _ => true
  | Listener_free, _, L_off, _ => false
  | Accept _ _ _, _, L_ready, None => true
  | Take _, C_connected, _, None => true
  | Con_event e, _, _, Some c => bool_decide (is_Some (contract_in c e))
  | Con_free, _, _, Some c => unused c
  | (Connector_init _ _ _ _ _ | Listener_init _ _ _ _ _ _ | Accept _ _ _ | Take _ | Con_event _ | Con_free), _, _, _ => false
  | _, _, _, _ => true
  end.

Definition socket_made (a : BAddr.BAddr) (r : option Z) (nonblocking_ok : bool) : bool :=
  BConnection_AddressSupported a && bool_decide (is_Some r) && nonblocking_ok.
Definition new_contract (u : user) : user := u <| u_con := Some (mk_contract Send_off Recv_off false (u_mem u) false) |>.
Definition con_outs (l : list out) : list BConnection.out := omap (fun o => match o with Con o => Some o | _ => None end) l.

(** What follows an event, with the calls that it makes. *)
Definition expected (u : user) (e : event) (l : list out) : option user :=
  match e, l, u_connector u, u_listener u with
  | Connector_init a r nb c add, [Init_result b], _, _ =>
      let made := socket_made a r nb &&
        match c with Connect_ok => true | Connect_in_progress => add | Connect_error => false end in
      if eqb b made then Some (u <| u_connector := if b then C_connecting else C_off |>) else None
  | Connector_free, [], _, _ => Some (u <| u_connector := C_off |>)
  | Connector_fd result, [Connector_handler err], C_connecting, _ =>
      if eqb err (negb (bool_decide (result = Some 0))) then
        Some (u <| u_connector := if err then C_failed else C_connected |>)
      else None
  | Connector_job, [Connector_handler false], C_connecting, _ => Some (u <| u_connector := C_connected |>)
  | Listener_init a r nb bind listen add, [Init_result b], _, _ =>
      if eqb b (socket_made a r nb && bind && listen && add) then
        Some (u <| u_listener := if b then L_listening else L_off |>)
      else None
  | Listener_free, [], _, _ => Some (u <| u_listener := L_off |>)
  | Listener_fd, [Listener_handler], _, L_listening => Some (u <| u_listener := L_ready |>)
  | Listener_job (Some _), [Discarded], _, L_ready => Some (u <| u_listener := L_listening |>)
  | Listener_job None, [], _, L_ready => Some (u <| u_listener := L_listening |>)
  | Accept r nb add, l, _, _ =>
      if bool_decide (is_Some r) && nb && add then
        match l with [Init_result true] => Some (new_contract u <| u_listener := L_listening |>) | _ => None end
      else match last l with Some (Init_result false) => Some (u <| u_listener := L_listening |>) | _ => None end
  | Take add, l, _, _ =>
      if add then match l with [Init_result true] => Some (new_contract u <| u_connector := C_taken |>) | _ => None end
      else match last l with Some (Init_result false) => Some (u <| u_connector := C_taken |>) | _ => None end
  | Con_event e, l, _, _ =>
      c ← u_con u;
      c ← contract_step c e (con_outs l);
      Some (u <| u_con := Some c |>)
  | Con_free, [Con Sys_close], _, _ => c ← u_con u; Some (u <| u_con := None |> <| u_mem := mem c |>)
  | _, _, _, _ => None
  end.

Definition both (e : event) (x : sockets * user) : option (sockets * user) :=
  '(_, s, l) ← exec e x.1;
  u ← expected x.2 e l;
  Some (s, u).
Fixpoint run (evs : list event) (x : sockets * user) : option (sockets * user) :=
  match evs with [] => Some x | e :: evs => x ← both e x; run evs x end.
Fixpoint legal (evs : list event) (x : sockets * user) : bool :=
  match evs with
  | [] => true
  | e :: evs => allowed x.2 e && system_ok x.1 e && match both e x with Some x => legal evs x | None => true end
  end.

(** Nothing is initialised; the process has some descriptors already. *)
Definition start (others : gset Z) (m : gmap nat bytes) : sockets * user :=
  (mk_sockets others (mk_listener 0 None false) (mk_connector 0 None false false false) 0 (raw_con m),
   mk_user C_off L_off None m).
Definition teardown (u : user) : hdl unit :=
  match u_con u with Some c => on_con (BConnection.teardown c) | None => mret tt end;;
  match u_connector u with C_off => mret tt | _ => BConnector_Free end;;
  match u_listener u with L_off => mret tt | _ => BListener_Free end.

(** ** The invariant *)

Definition of_listener (s : sockets) (u : user) : gset Z :=
  match u_listener u with L_off => ∅ | _ => {[ l_fd (listener s) ]} end.
Definition of_connector (s : sockets) (u : user) : gset Z :=
  match u_connector u with C_off | C_taken => ∅ | _ => {[ c_fd (connector s) ]} end.
Definition of_con (s : sockets) (u : user) : gset Z := match u_con u with Some _ => {[ con_fd s ]} | None => ∅ end.

(** Nothing is registered with the reactor for what is not there. *)
Definition unregistered (s : sockets) (u : user) : Prop :=
  (u_listener u = L_off -> l_events (listener s) = None) /\
  (u_connector u <> C_connecting -> c_events (connector s) = None) /\
  (u_con u = None -> fd_events (con s) = None).

Section invariant.
Context (others : gset Z).
Record sockets_ok (s : sockets) (u : user) : Prop := {
  o_listener : match u_listener u with
    | L_off => l_events (listener s) = None /\ default_job (listener s) = false
    | L_listening => l_events (listener s) = Some BREACTOR_READ /\ default_job (listener s) = false
    | L_ready => l_events (listener s) = Some BREACTOR_READ /\ default_job (listener s) = true
    end;
  o_connector : match u_connector u with
    | C_off => c_events (connector s) = None /\ c_job (connector s) = false
    | C_connecting => 0 <= c_fd (connector s) /\
        (have_bfd (connector s) = true /\ c_events (connector s) = Some BREACTOR_WRITE /\
           connected (connector s) = false /\ c_job (connector s) = false \/
         have_bfd (connector s) = false /\ c_events (connector s) = None /\
           connected (connector s) = true /\ c_job (connector s) = true)
    | C_connected => 0 <= c_fd (connector s) /\ have_bfd (connector s) = false /\ c_events (connector s) = None /\
        connected (connector s) = true /\ c_job (connector s) = false
    | C_failed => 0 <= c_fd (connector s) /\ have_bfd (connector s) = false /\ c_events (connector s) = None /\
        connected (connector s) = false /\ c_job (connector s) = false
    | C_taken => c_fd (connector s) = -1 /\ have_bfd (connector s) = false /\ c_events (connector s) = None /\
        c_job (connector s) = false
    end;
  o_con : match u_con u with
    | Some c => related (con s) c /\ close_fd (con s) = true
    | None => pending (con s) = [] /\ memory (con s) = u_mem u /\ fd_events (con s) = None
    end;
  o_opened : opened s = others ∪ of_listener s u ∪ of_connector s u ∪ of_con s u;
  o_disjoint : of_listener s u ## others /\ of_connector s u ## others /\ of_con s u ## others /\
    of_listener s u ## of_connector s u /\ of_listener s u ## of_con s u /\ of_connector s u ## of_con s u }.
End invariant.

Module SocketProofs.
Import BConnection.ConnectionProofs.
#[export] Hint Unfold set_listener set_connector sys_open sys_close listener_fd_handler listener_default_job_handler
  BListener_Free connector_fd_handler connector_job_handler BConnector_Free : flow.

(** Tests of the open descriptors. *)
#[local] Ltac flow_test ::=
  first [done | by rewrite orb_true_r | zlia | by apply bool_decide_true | by destruct (0 <? _)
        | apply bool_decide_eq_true_2; set_solver].

Lemma wp_on_con {A} (h : BConnection.hdl A) s (Q : A -> sockets -> list out -> Prop) :
  wp h (con s) (fun a c l =>
    if closes l then con_fd s ∈ opened s /\ Q a (s <| con := c |> <| opened := opened s ∖ {[ con_fd s ]} |>) (Con <$> l)
    else Q a (s <| con := c |>) (Con <$> l)) ->
  wp (on_con h) s Q.
Proof.
  intros H. apply wp_spec in H as (a & c & l & E & H). unfold on_con. hstep. hstep. hstep. eapply wp_of_option; [exact E|].
  cbn beta iota. hstep. hstep. hstep. destruct (closes l).
  - destruct H as [Hin HQ]. unfold sys_close. hstep. hstep. hstep. hstep; [by apply bool_decide_eq_true_2|].
    hstep. hstep. unfold emit, wp. cbn. by rewrite app_nil_r.
  - hstep. hstep. unfold emit, wp. cbn. by rewrite app_nil_r.
Qed.

Lemma con_outs_map l : con_outs (Con <$> l) = l.
Proof. unfold con_outs. induction l as [|o l IH]; [done|]. cbn. by rewrite IH. Qed.
Lemma contract_closes l : forall c c', contract_outs c l = Some c' -> closes l = false.
Proof.
  induction l as [|o l IH]; intros c c' H; [done|]. unfold contract_outs in H. fold contract_outs in H.
  destruct (contract_out c o) as [c1|] eqn:E; [|done]. cbn in H. specialize (IH _ _ H). destruct o; try done.
  unfold contract_out in E. by destruct (failed c), (sending c), (receiving c).
Qed.

Lemma step_closes c e l c' : contract_step c e l = Some c' -> closes l = false.
Proof.
  unfold contract_step. destruct (contract_in c e) as [c1|]; [|done]. cbn. case_bool_decide; [|done]. apply contract_closes.
Qed.

Lemma con_init add c : pending c = [] -> fd_events c = None ->
  wp (connection_init true add) c (fun b c' l => b = add /\ l = (if add then [] else [Sys_close]) /\
    if add then related c' (mk_contract Send_off Recv_off false (memory c) false) /\ close_fd c' = true
    else pending c' = [] /\ memory c' = memory c /\ fd_events c' = None).
Proof.
  intros Hp Hfd. destruct c as [l hh cl hu fd w sp rp ne mm]. cbn in Hp, Hfd. subst l fd. unfold connection_init. destruct add; flow_steps; try done.
Qed.

Section proofs.
Context (others : gset Z).
Abbreviation okay := (sockets_ok others).
Definition steps (s : sockets) (u : user) (e : event) : Prop :=
  wp (exec e) s (fun _ s' l => exists u', expected u e l = Some u' /\ okay s' u').

(** A descriptor that is opened and closed again. *)
Lemma removed (fd : Z) (X : gset Z) : fd ∉ X -> ({[ fd ]} ∪ X) ∖ {[ fd ]} = X.
Proof. set_solver. Qed.
Lemma fresh_Some s fd : fresh s (Some fd) = true -> 0 <= fd /\ fd ∉ opened s.
Proof. unfold fresh. intros [H1 H2%bool_decide_eq_true_1]%andb_true_iff. split; [lia|done]. Qed.

Lemma steps_connector_init s u a r nb c add : okay s u -> u_connector u = C_off -> fresh s r = true ->
  steps s u (Connector_init a r nb c add).
Proof.
  destruct s as [op li [cf ce cc ch cj] kf kc], u as [uc ul uk um]. intros [O1 O2 O3 O4 O5] E Hf.
  cbn in E. subst uc. cbn in O2. destruct O2 as [-> ->].
  assert (F : forall fd b1 b2, okay (mk_sockets op li (mk_connector fd None b1 b2 false) kf kc) (mk_user C_off ul uk um)) by by split.
  assert (HI : forall fd, fd ∉ op -> 0 <= fd -> forall ce b1 b2 b3,
    (b2 = true /\ ce = Some BREACTOR_WRITE /\ b1 = false /\ b3 = false \/ b2 = false /\ ce = None /\ b1 = true /\ b3 = true) ->
    okay (mk_sockets ({[ fd ]} ∪ op) li (mk_connector fd ce b1 b2 b3) kf kc) (mk_user C_connecting ul uk um)).
  { intros fd Hfd Hge ce b1 b2 b3 Hb. cbn in O4, O5. split; cbn; try done.
    - rewrite O4. unfold of_listener, of_con in *. cbn in *. set_solver.
    - unfold of_listener, of_con in *. cbn in *. rewrite O4 in Hfd. set_solver. }
  unfold steps. cbn [exec]. unfold BConnector_Init. hstep.
  destruct (BConnection_AddressSupported a) eqn:Ea; cbn [negb].
  2: { hstep. hstep. eexists. cbn. unfold socket_made. rewrite Ea. cbn. split; [done|apply F]. }
  destruct (addr_socket_to_sys a) as [sa|] eqn:Es; [|by destruct a].
  assert (Hm : socket_made a r nb = bool_decide (is_Some r) && nb) by (unfold socket_made; by rewrite Ea).
  hstep. eapply wp_of_option; [done|]. destruct r as [fd|].
  2: { flow_steps; try done. eexists. rewrite Hm. cbn. split; [done|]. apply F. }
  apply fresh_Some in Hf as [Hge Hfd]. cbn in Hfd.
  assert (Hin : bool_decide (fd ∈ {[ fd ]} ∪ op) = true) by (apply bool_decide_eq_true_2; set_solver).
  destruct nb; [destruct c, add|]; flow_steps; try done; try lia; try exact Hin; rewrite ?(removed _ _ Hfd), Hm; cbn.
  all: eexists; (split; [done|]); try apply F; apply HI; try done; auto.
Qed.

Lemma steps_connector s u e : okay s u -> allowed u e = true -> system_ok s e = true ->
  match e with Connector_free | Connector_fd _ | Connector_job => True | _ => False end -> steps s u e.
Proof.
  destruct s as [op li [cf ce cc ch cj] kf kc], u as [uc ul uk um]. intros [O1 O2 O3 O4 O5] Ha Hs He.
  unfold of_listener, of_connector, of_con in *. cbn in O1, O2, O3, O4, O5.
  destruct e as [| |result| | | | | | | | |]; try done; cbn in Ha, Hs; unfold steps; cbn [exec].
  - assert (F : forall fd b1 b2 op', op' = others ∪ (match ul with L_off => ∅ | _ => {[ l_fd li ]} end) ∪ (match uk with Some _ => {[ kf ]} | None => ∅ end) ->
      okay (mk_sockets op' li (mk_connector fd None b1 b2 false) kf kc) (mk_user C_off ul uk um)).
    { intros fd b1 b2 op' ->. split; cbn; try done; unfold of_listener, of_connector, of_con; cbn; set_solver. }
    destruct uc; try done; rel_cases; flow_steps; try done; try lia; eexists; (split; [done|]); apply F; set_solver.
  - apply andb_true_iff in Hs as [[ev Hs]%bool_decide_eq_true_1 _]. destruct uc; rel_cases. flow_steps.
    destruct result as [[|p|p]|]; flow_steps; eexists; (split; [done|]); split; cbn; done.
  - subst cj. destruct uc; rel_cases; try done. flow_steps. eexists. (split; [done|]); split; cbn; done.
Qed.

Lemma steps_listener_init s u a r nb bind listen add : okay s u -> u_listener u = L_off -> fresh s r = true ->
  steps s u (Listener_init a r nb bind listen add).
Proof.
  destruct s as [op [lf le lj] c kf kc], u as [uc ul uk um]. intros [O1 O2 O3 O4 O5] E Hf.
  cbn in E. subst ul. cbn in O1. destruct O1 as [-> ->].
  assert (F : forall fd, okay (mk_sockets op (mk_listener fd None false) c kf kc) (mk_user uc L_off uk um)) by by split.
  assert (HI : forall fd, fd ∉ op -> 0 <= fd ->
    okay (mk_sockets ({[ fd ]} ∪ op) (mk_listener fd (Some BREACTOR_READ) false) c kf kc) (mk_user uc L_listening uk um)).
  { intros fd Hfd Hge. cbn in O4, O5. split; cbn; try done.
    - rewrite O4. unfold of_listener, of_connector, of_con in *. cbn in *. set_solver.
    - unfold of_listener, of_connector, of_con in *. cbn in *. rewrite O4 in Hfd. set_solver. }
  unfold steps. cbn [exec]. unfold BListener_Init. hstep.
  destruct (BConnection_AddressSupported a) eqn:Ea; cbn [negb].
  2: { hstep. hstep. eexists. cbn. unfold socket_made. rewrite Ea. cbn. split; [done|apply F]. }
  destruct (addr_socket_to_sys a) as [sa|] eqn:Es; [|by destruct a].
  assert (Hm : socket_made a r nb = bool_decide (is_Some r) && nb) by (unfold socket_made; by rewrite Ea).
  hstep. eapply wp_of_option; [done|]. destruct r as [fd|].
  2: { flow_steps; try done. eexists. rewrite Hm. cbn. split; [done|]. apply F. }
  apply fresh_Some in Hf as [Hge Hfd]. cbn in Hfd.
  assert (Hin : bool_decide (fd ∈ {[ fd ]} ∪ op) = true) by (apply bool_decide_eq_true_2; set_solver).
  destruct nb; [destruct bind; [destruct listen; [destruct add|]|]|]; flow_steps; try done; try lia; try exact Hin;
    rewrite ?(removed _ _ Hfd), Hm; cbn.
  all: eexists; (split; [done|]); try apply F; by apply HI.
Qed.

Lemma steps_listener s u e : okay s u -> allowed u e = true -> system_ok s e = true ->
  match e with Listener_free | Listener_fd | Listener_job _ => True | _ => False end -> steps s u e.
Proof.
  destruct s as [op [lf le lj] c kf kc], u as [uc ul uk um]. intros [O1 O2 O3 O4 O5] Ha Hs He.
  unfold of_listener, of_connector, of_con in *. cbn in O1, O2, O3, O4, O5. subst op.
  destruct e as [| | | | | | |r| | | |]; try done; cbn in Ha, Hs; unfold steps; cbn [exec].
  - assert (le = Some BREACTOR_READ) as -> by (destruct ul; naive_solver).
    assert (F : okay (mk_sockets ((others ∪ match ul with L_off => ∅ | _ => {[ lf ]} end ∪ of_connector (mk_sockets ∅ (mk_listener lf None false) c kf kc) (mk_user uc ul uk um) ∪
      of_con (mk_sockets ∅ (mk_listener lf None false) c kf kc) (mk_user uc ul uk um)) ∖ {[ lf ]}) (mk_listener lf None false) c kf kc) (mk_user uc L_off uk um)).
    { destruct ul; try done; split; cbn; try done; unfold of_listener, of_connector, of_con; cbn; set_solver. }
    destruct ul; try done; flow_steps; (eexists; split; [|exact F]; done).
  - apply andb_true_iff in Hs as [[ev Hs]%bool_decide_eq_true_1 Hi]. unfold idle in Hi. cbn in Hi.
    destruct ul; rel_cases; [|by rewrite andb_false_r in Hi].
    flow_steps. eexists. split; [done|]. split; cbn; done.
  - apply andb_true_iff in Hs as [-> Hf]. destruct ul; rel_cases. destruct r as [fd|].
    + apply fresh_Some in Hf as [Hge Hfd]. cbn in Hfd.
      flow_steps; try lia. rewrite (removed _ _ Hfd).
      eexists. split; [done|]. split; cbn; done.
    + flow_steps; try done. eexists. split; [done|]. split; cbn; done.
Qed.

Lemma steps_take s u add : okay s u -> u_connector u = C_connected -> u_con u = None -> steps s u (Take add).
Proof.
  destruct s as [op li [cf ce cc ch cj] kf kc], u as [uc ul uk um]. intros [O1 O2 O3 O4 O5] E1 E2.
  cbn in E1, E2. subst uc uk. unfold of_listener, of_connector, of_con in *. cbn in O1, O2, O3, O4, O5. rel_cases.
  unfold steps. cbn [exec]. unfold init_from_connector. flow_steps; try lia.
  apply wp_on_con. cbn [con]. eapply wp_mono; [by apply con_init|]. intros b c l (-> & -> & Hc). destruct add; cbn.
  - hstep. eexists. split; [done|]. split; cbn; try done; unfold of_listener, of_connector, of_con; cbn; set_solver.
  - split; [set_solver|]. hstep. eexists. split; [done|].
    split; cbn; try done; unfold of_listener, of_connector, of_con; cbn; set_solver.
Qed.

Lemma steps_accept s u r nb add : okay s u -> u_listener u = L_ready -> u_con u = None -> fresh s r = true ->
  steps s u (Accept r nb add).
Proof.
  destruct s as [op [lf le lj] c kf kc], u as [uc ul uk um]. intros [O1 O2 O3 O4 O5] E1 E2 Hf.
  cbn in E1, E2. subst ul uk. unfold of_listener, of_connector, of_con in *. cbn in O1, O2, O3, O4, O5.
  destruct O1 as [-> ->], O3 as (Hp & <- & Hfde).
  unfold steps. cbn [exec]. unfold init_from_listener.
  assert (F : forall fd, okay (mk_sockets op (mk_listener lf (Some BREACTOR_READ) false) c fd kc) (mk_user uc L_listening None (memory kc))).
  { intros fd. by split. }
  destruct r as [fd|]; [|flow_steps; try done; eexists; split; [done|apply F]].
  apply fresh_Some in Hf as [Hge Hfd]. cbn in Hfd.
  destruct nb; flow_steps; try lia; try done.
  - apply wp_on_con. cbn [con]. eapply wp_mono; [by apply con_init|]. intros b k l (-> & -> & Hc). destruct add; cbn.
    + hstep. eexists. split; [done|]. split; cbn; try done; unfold of_listener, of_connector, of_con; cbn; rewrite ?O4 in *; set_solver.
    + split; [set_solver|]. hstep. eexists. split; [done|]. rewrite (removed _ _ Hfd).
      split; cbn; try done; unfold of_listener, of_connector, of_con; cbn; rewrite ?O4 in *; set_solver.
  - rewrite (removed _ _ Hfd). eexists. split; [done|]. apply F.
Qed.

Lemma steps_con s u e : okay s u -> allowed u (Con_event e) = true -> system_ok s (Con_event e) = true ->
  steps s u (Con_event e).
Proof.
  destruct s as [op li co kf kc], u as [uc ul uk um]. intros [O1 O2 O3 O4 O5] Ha Hs.
  destruct uk as [c|]; [|by destruct uc, ul]. cbn in O1, O2, O3, O4, O5, Hs.
  assert (Hin : bool_decide (is_Some (contract_in c e)) = true) by by destruct uc, ul. apply bool_decide_eq_true_1 in Hin.
  destruct O3 as [Hr Hclose]. destruct (simulates_event kc c e Hr Hin Hs) as (k1 & c1 & Hb & Hr1 & _).
  unfold BConnection.both in Hb. cbn in Hb.
  destruct (BConnection.exec e kc) as [[[[] k2] l]|] eqn:Ex; [|done]. cbn in Hb.
  destruct (contract_step c e l) as [c3|] eqn:Es; [|done]. cbn in Hb. injection Hb as -> ->.
  unfold steps. cbn [exec]. apply wp_on_con. apply wp_spec. exists tt, k1, l. split; [exact Ex|].
  rewrite (step_closes _ _ _ _ Es). eexists. split.
  - unfold expected. cbn [u_con u_connector u_listener]. rewrite con_outs_map. cbn. rewrite Es. by destruct (Con <$> l).
  - split; cbn; try done. split; [done|]. by rewrite (exec_keeps_close e _ _ _ _ Ex).
Qed.

Lemma steps_con_free s u : okay s u -> allowed u Con_free = true -> steps s u Con_free.
Proof.
  destruct s as [op li co kf kc], u as [uc ul uk um]. intros [O1 O2 O3 O4 O5] Ha.
  destruct uk as [c|]; [|by destruct uc, ul]. cbn in O1, O2, O3, O4, O5.
  assert (Hu : unused c = true) by by destruct uc, ul.
  destruct O3 as [Hr Hclose]. unfold steps. cbn [exec]. apply wp_on_con. cbn [con].
  eapply wp_mono; [apply (free_related kc c Hr); unfold unused in Hu; destruct (sending c), (receiving c); auto; done|].
  intros [] k l (-> & Hp & Hf & Hm). rewrite Hclose. cbn. unfold of_listener, of_connector, of_con in *. cbn in O4, O5.
  split; [set_solver|]. eexists. split; [done|].
  split; cbn; try done; unfold of_listener, of_connector, of_con; cbn; rewrite ?O4; set_solver.
Qed.

Lemma steps_event s u e : okay s u -> allowed u e = true -> system_ok s e = true -> steps s u e.
Proof.
  intros Ho Ha Hs. destruct e.
  - apply steps_connector_init; try done. unfold allowed in Ha. by destruct (u_connector u).
  - by apply steps_connector.
  - by apply steps_connector.
  - by apply steps_connector.
  - apply steps_listener_init; try done. unfold allowed in Ha. by destruct (u_connector u), (u_listener u).
  - by apply steps_listener.
  - by apply steps_listener.
  - by apply steps_listener.
  - apply steps_accept; try done; unfold allowed in Ha; by destruct (u_connector u), (u_listener u), (u_con u).
  - apply steps_take; try done; unfold allowed in Ha; by destruct (u_connector u), (u_listener u), (u_con u).
  - by apply steps_con.
  - by apply steps_con_free.
Qed.

Lemma run_okay evs : forall s u, okay s u -> legal evs (s, u) = true ->
  exists s' u', run evs (s, u) = Some (s', u') /\ okay s' u'.
Proof.
  induction evs as [|e evs IH]; intros s u Ho Hl; [by exists s, u|]. cbn [run legal] in *. rewrite !andb_true_iff in Hl.
  destruct Hl as [[Ha Hs] Hl]. cbn in Ha, Hs. assert (Hx := steps_event _ _ _ Ho Ha Hs).
  apply wp_spec in Hx as ([] & s' & l & Ex & u' & Eu & Ho'). unfold both in *. cbn [fst snd] in *. rewrite Ex in *. cbn in *.
  rewrite Eu in *. cbn in *. by apply IH.
Qed.
Lemma start_okay m : okay (start others m).1 (start others m).2.
Proof. unfold start. split; cbn; try done; unfold of_listener, of_connector, of_con; cbn; set_solver. Qed.

Lemma okay_unregistered s u : okay s u -> unregistered s u.
Proof.
  intros [O1 O2 O3 _ _]. split_and!.
  - intros E. rewrite E in O1. tauto.
  - intros E. destruct (u_connector u); tauto.
  - intros E. rewrite E in O3. tauto.
Qed.

(** *** Freeing everything *)

Lemma free_con s u : okay s u ->
  wp (match u_con u with Some c => on_con (BConnection.teardown c) | None => mret tt end) s
    (fun _ s' _ => (pending (con s') = [] /\ fd_events (con s') = None) /\ exists m, okay s' (u <| u_con := None |> <| u_mem := m |>)).
Proof.
  destruct s as [op li co kf kc], u as [uc ul uk um]. intros Ho. destruct uk as [c|]; cbn [u_con].
  2: { hstep. destruct Ho as [O1 O2 (Hp & Hm & Hfd) O4 O5]. split; [done|]. exists um. by split. }
  destruct Ho as [O1 O2 [Hr Hclose] O4 O5]. cbn in O1, O2, O4, O5, Hclose. apply wp_on_con. cbn [con].
  eapply wp_mono; [by apply teardown_related|]. intros [] k l (-> & Hp & Hf & Hm). rewrite Hclose. cbn.
  unfold of_listener, of_connector, of_con in *. cbn in O4, O5. split; [set_solver|]. split; [done|]. exists (mem c).
  split; cbn; try done; unfold of_listener, of_connector, of_con; cbn; rewrite ?O4; set_solver.
Qed.
Lemma frees_keep_con : keeps con BConnector_Free /\ keeps con BListener_Free.
Proof. split; repeat (autounfold with flow; solve_keeps). Qed.
Lemma free_connector s u : okay s u ->
  wp (match u_connector u with C_off => mret tt | _ => BConnector_Free end) s
    (fun _ s' _ => con s' = con s /\ okay s' (u <| u_connector := C_off |>)).
Proof.
  intros Ho. destruct (u_connector u) eqn:E.
  1: { hstep. split; [done|]. destruct u; cbn in *. by subst. }
  all: assert (Hx := steps_connector s u Connector_free Ho ltac:(unfold allowed; by rewrite E) eq_refl I);
    apply wp_spec in Hx as ([] & s' & l & Ex & u' & Eu & Ho'); apply wp_spec; exists tt, s', l; (split; [exact Ex|]);
    unfold expected in Eu; destruct l; [|done]; injection Eu as <-; (split; [|exact Ho']);
    exact (proj1 frees_keep_con _ _ _ _ Ex).
Qed.
Lemma free_listener s u : okay s u ->
  wp (match u_listener u with L_off => mret tt | _ => BListener_Free end) s
    (fun _ s' _ => con s' = con s /\ okay s' (u <| u_listener := L_off |>)).
Proof.
  intros Ho. destruct (u_listener u) eqn:E.
  1: { hstep. split; [done|]. destruct u; cbn in *. by subst. }
  all: assert (Hx := steps_listener s u Listener_free Ho ltac:(unfold allowed; rewrite E; by destruct (u_connector u)) eq_refl I);
    apply wp_spec in Hx as ([] & s' & l & Ex & u' & Eu & Ho'); apply wp_spec; exists tt, s', l; (split; [exact Ex|]);
    unfold expected in Eu; (destruct l; [|by destruct (u_connector u)]);
    assert (u' = u <| u_listener := L_off |>) as -> by (destruct (u_connector u); congruence); (split; [|exact Ho']);
    exact (proj2 frees_keep_con _ _ _ _ Ex).
Qed.

Lemma teardown_okay s u : okay s u -> wp (teardown u) s (fun _ s' _ =>
  opened s' = others /\ l_events (listener s') = None /\ c_events (connector s') = None /\
  c_job (connector s') = false /\ default_job (listener s') = false /\ pending (con s') = [] /\ fd_events (con s') = None).
Proof.
  intros Ho. unfold teardown. hstep. eapply wp_mono; [by apply free_con|]. intros [] s1 l1 ([Hp Hf] & m & H1). hstep.
  eapply wp_mono; [apply (free_connector _ _ H1)|]. intros [] s2 l2 (E2 & H2).
  eapply wp_mono; [apply (free_listener _ _ H2)|]. intros [] s3 l3 (E3 & H3).
  destruct H3 as [O1 O2 O3 O4 O5]. cbn in O1, O2. unfold of_listener, of_connector, of_con in O4. cbn in O4.
  split_and!; try tauto; [set_solver|congruence..].
Qed.
End proofs.
End SocketProofs.

Section socket_properties.
Import SocketProofs.
Context (others : gset Z) (m : gmap nat bytes).

(** C36: The life of a connection, from connecting or accepting to freeing, with
    all that may go wrong in between: for every sequence of events that the
    interfaces allow, no assertion fails; a connector reports once, and success
    exactly when the system connected it; a connection reported by the listener
    can be accepted once, and is discarded otherwise; the connection made keeps
    its contract; each descriptor opened has one owner at any time, none is
    closed twice or left open by an error path, and no descriptor of others is
    closed; none is registered with the reactor but that of a listener, of a
    connector that is connecting and of a connection; when all is freed, nothing
    is open, registered or pending. *)
Theorem sockets_owned evs : legal evs (start others m) = true ->
  exists s u, run evs (start others m) = Some (s, u) /\
    opened s = others ∪ of_listener s u ∪ of_connector s u ∪ of_con s u /\
    of_listener s u ## others ∪ of_connector s u ∪ of_con s u /\
    of_connector s u ## others ∪ of_con s u /\ of_con s u ## others /\ unregistered s u /\
    exists s' l, teardown u s = Some (tt, s', l) /\ opened s' = others /\
      l_events (listener s') = None /\ c_events (connector s') = None /\
      c_job (connector s') = false /\ default_job (listener s') = false /\ pending (con s') = [] /\
      fd_events (con s') = None.
Proof using All.
  intros Hl. destruct (run_okay others evs _ _ (start_okay others m) Hl) as (s & u & Hr & Ho). exists s, u.
  assert (Ht := teardown_okay others _ _ Ho). apply wp_spec in Ht as ([] & s' & l & Et & Ht).
  assert (Hu := okay_unregistered others _ _ Ho).
  destruct Ho as [_ _ _ O4 O5]. split_and!; [done|done|set_solver..|done|]. by exists s', l.
Qed.
End socket_properties.

Module SocketWitnesses.
Definition server : BAddr.BAddr := BAddr.BAddr_IPv4 16777343 14597.
Definition nothing : answer := mk_answer Would_block Would_block.
Definition m0 : gmap nat bytes := {[ 7%nat := replicate 8 Byte.x00 ]}.
(** A connector that fails, one that succeeds and whose socket becomes a
    connection, which sends; a listener whose connection is discarded. *)
Definition demo : list event :=
  [Connector_init server (Some 5) true Connect_in_progress true; Connector_fd (Some 111); Connector_free;
   Listener_init server (Some 5) true true true true;
   Connector_init server (Some 6) true Connect_in_progress true; Connector_fd (Some 0); Take true;
   Con_event Send_init; Con_event (Send [Byte.x05]); Con_event (Execute_job (mk_answer (Ret 1) Would_block));
   Con_event (Execute_job nothing); Listener_fd; Listener_job (Some 8)].
Example demo_result : (fun x => (x.1.(opened), u_connector x.2, sending <$> u_con x.2)) <$> run demo (start {[ 3 ]} m0) =
  Some ({[ 3; 5; 6 ]}, C_taken, Some Send_idle).
Proof. vm_compute. reflexivity. Qed.

Lemma sockets_owned_witness : exists s u, run demo (start {[ 3 ]} m0) = Some (s, u) /\
  opened s = {[ 3 ]} ∪ of_listener s u ∪ of_connector s u ∪ of_con s u /\
  of_listener s u ## {[ 3 ]} ∪ of_connector s u ∪ of_con s u /\
  of_connector s u ## {[ 3 ]} ∪ of_con s u /\ of_con s u ## {[ 3 ]} /\ unregistered s u /\
  exists s' l, teardown u s = Some (tt, s', l) /\ opened s' = {[ 3 ]} /\
    l_events (listener s') = None /\ c_events (connector s') = None /\
    c_job (connector s') = false /\ default_job (listener s') = false /\ pending (con s') = [] /\
    fd_events (con s') = None.
Proof. apply (sockets_owned {[ 3 ]} m0 demo). vm_compute. reflexivity. Defined.
End SocketWitnesses.
