(* ===== verification/Main.v ===== *)
(** * The program from start to end

    [main] of [tun2socks/tun2socks.c], with the handlers that end the event loop
    and those that set up lwIP in it, [system/BSignal.c],
    [system/BUnixSignal.c] as it is built, with a pipe for each signal, and
    [system/BNetwork.c].  The command line is that of [Options], and reading
    from the device that of [DeviceRead], as a part of the state.

    What the program owns is kept in two lists: that which it releases in reverse
    order, newest first, and, apart from it, the descriptor of the device that it
    receives and the nodes of the DNS relay's table.  Nothing can be released that
    it does not own. *)
From stdpp Require Import sorting.
From S2P Require Import Prelude FlowInterfaces.
From S2P Require Options DeviceRead UdpGw SocksUdpGw DevicePackets InetProto AddrText IPAddr BAddr.

Abbreviation options := Options.options.
Abbreviation addresses := Options.addresses.
Abbreviation reading := DeviceRead.reading.

#[export] Existing Instance DeviceRead.iface_eq_dec.
#[export] Existing Instance DeviceRead.reading_jobs.
#[export] Existing Instance Options.options_eta.

(** ** State *)

Inductive resource :=
  | Logger | Password_contents | Reactor
  | Signal_entries | Pipe_write (signo : Z) | Pipe_read (signo : Z) | Pipe_registered (signo : Z)
  | Handler_installed (signo : Z)
  | Socket | Accepted
  | Device | Read_interface | Packet_buffer | Udpgw_client | Lwip_init_job | Write_buffer
  | Netif | Pcb | Listener | Listener_ip6 | Client (n : nat)
  | Tun_fd | Dns_node (port : Z).
#[export] Instance resource_eq_dec : EqDecision resource.
Proof. solve_decision. Defined.

(** [entries] are the signals of the array [entries], [pipes] the number of
    bytes in the pipe of each. *)
Record BUnixSignal := mk_signal { signals : list Z; entries : list Z; pipes : gmap Z nat }.
#[export] Instance signal_eta : Eta BUnixSignal := fun r => mk_signal (signals r) (entries r) (pipes r).
Record BSignal := mk_bsignal { initialized : bool; finished : bool; signal : BUnixSignal }.
#[export] Instance bsignal_eta : Eta BSignal := fun r => mk_bsignal (initialized r) (finished r) (signal r).

(** The global variables, with what is owned.  [lwip_ready]: [lwip_init] was called. *)
Record program := mk_program {
  live : list resource;
  apart : list resource;
  bnetwork_initialized : bool;
  bsignal_global : BSignal;
  quitting : bool;
  device : reading;
  udp_mtu : Z;
  have_netif : bool;
  listener : bool; (* not NULL *)
  listener_ip6 : bool;
  tcp_clients : list nat;
  num_clients : Z;
  tcp_timer : bool; (* is running *)
  lwip_ready : bool;
  connections_tree : DevicePackets.conn_tree }.
#[export] Instance program_eta : Eta program := fun r =>
  mk_program (live r) (apart r) (bnetwork_initialized r) (bsignal_global r) (quitting r) (device r) (udp_mtu r) (have_netif r)
    (listener r) (listener_ip6 r) (tcp_clients r) (num_clients r) (tcp_timer r) (lwip_ready r)
    (connections_tree r).

Inductive out :=
  | Acquired (r : resource)
  | Released (r : resource)
  | Set_channel_loglevel (channel level : Z)
  | Process_name
  | Pid_file
  | Lwip_init
  | Tcp_tmr
  | Packet (data : bytes)
  | Accept_on (r : resource)
  | Reactor_quit
  | Free_connections
  | Block_signals (set : list Z)
  | Abort (pcb : nat).
Definition hdl := handler program out.

Definition acquire (r : resource) : hdl unit := modify (fun s => s <| live := r :: live s |>);; call (Acquired r).
Definition release (r : resource) : hdl unit :=
  s ← get;
  ASSERT (bool_decide (r ∈ live s));;
  modify (fun s => s <| live := filter (fun x => x <> r) (live s) |>);;
  call (Released r).
(** The same for what is kept apart. *)
Definition acquire_apart (r : resource) : hdl unit := modify (fun s => s <| apart := r :: apart s |>);; call (Acquired r).
Definition release_apart (r : resource) : hdl unit :=
  s ← get;
  ASSERT (bool_decide (r ∈ apart s));;
  modify (fun s => s <| apart := filter (fun x => x <> r) (apart s) |>);;
  call (Released r).
(** [BFree] of a pointer that may be NULL. *)
Definition release_if (r : resource) : hdl unit :=
  s ← get; if bool_decide (r ∈ live s) then release r else mret tt.

Definition on_device {A} (h : DeviceRead.hdl A) (k : DeviceRead.out -> hdl unit) : hdl A :=
  fun s => match h (device s) with
           | Some (a, d, l) => (foldr (fun o rest => k o;; rest) (mret a) l) (s <| device := d |>)
           | None => None
           end.
Definition no_call (o : DeviceRead.out) : hdl unit := mret tt.

(** ** [BUnixSignal.c] *)

Definition SIGINT : Z := 2.
Definition SIGTERM : Z := 15.
Definition BUNIXSIGNAL_MAX_SIGNALS : Z := 64.

(** What the system answers for a signal. *)
Record entry_answers := mk_entry_answers {
  pipe_ok : bool; nonblocking0_ok : bool; nonblocking1_ok : bool; add_ok : bool; sigaction_ok : bool }.

Definition set_unix (f : BUnixSignal -> BUnixSignal) : hdl unit :=
  modify (fun s => s <| bsignal_global := bsignal_global s <| signal := f (signal (bsignal_global s)) |> |>).

Definition close_pipe (signo : Z) : hdl unit := release (Pipe_read signo);; release (Pipe_write signo).

Definition free_selfpipe_entry (signo : Z) : hdl unit :=
  release (Handler_installed signo);;
  release (Pipe_registered signo);;
  close_pipe signo.

(** The body of the loop of [BUnixSignal_Init], with its labels. *)
Definition init_entry (signo : Z) (a : entry_answers) : hdl bool :=
  let loop_fail0 := mret false in
  let loop_fail1 := close_pipe signo;; loop_fail0 in
  let loop_fail2 := release (Pipe_registered signo);; loop_fail1 in
  if negb (pipe_ok a) then loop_fail0 else
  acquire (Pipe_write signo);;
  acquire (Pipe_read signo);;
  set_unix (fun o => o <| pipes := <[signo := 0%nat]> (pipes o) |>);;
  if negb (nonblocking0_ok a && nonblocking1_ok a) then loop_fail1 else
  if negb (add_ok a) then loop_fail1 else
  acquire (Pipe_registered signo);;
  if negb (sigaction_ok a) then loop_fail2 else
  acquire (Handler_installed signo);;
  set_unix (fun o => o <| entries := entries o ++ [signo] |>);;
  mret true.

(** [while (o->num_entries > 0)]: as much fuel as there are entries. *)
Fixpoint free_entries (fuel : nat) : hdl unit :=
  es ← gets (fun s => entries (signal (bsignal_global s)));
  match last es, fuel with
  | None, _ => mret tt
  | Some signo, S fuel =>
      free_selfpipe_entry signo;;
      set_unix (fun o => o <| entries := removelast (entries o) |>);;
      free_entries fuel
  | Some _, O => ASSERT false
  end.
Definition free_all : hdl unit :=
  es ← gets (fun s => entries (signal (bsignal_global s)));
  free_entries (length es);;
  release Signal_entries.

Fixpoint init_entries (answers : Z -> entry_answers) (l : list Z) : hdl bool :=
  match l with
  | [] => mret true
  | signo :: l =>
      b ← init_entry signo (answers signo);
      if negb b then free_all;; mret false else init_entries answers l
  end.

(** [sigismember] for each [i]. *)
Definition signal_numbers (set : list Z) : list Z := filter (fun i => i ∈ set) (seqZ 1 (BUNIXSIGNAL_MAX_SIGNALS - 1)).

Definition BUnixSignal_Init (alloc_ok : bool) (answers : Z -> entry_answers) (set : list Z) : hdl bool :=
  set_unix (fun o => o <| signals := set |>);;
  if negb alloc_ok then mret false else
  acquire Signal_entries;;
  set_unix (fun o => o <| entries := [] |>);;
  init_entries answers (signal_numbers set).

Definition BUnixSignal_Free (unblock : bool) : hdl unit :=
  set ← gets (fun s => signals (signal (bsignal_global s)));
  (if negb unblock then call (Block_signals set) else mret tt);;
  free_all.

(** The signal arrives: [signal_handler], if it is installed.  A byte that the
    pipe has no room for is not written. *)
Definition deliver (signo : Z) (room : bool) : hdl unit :=
  s ← get;
  if bool_decide (Handler_installed signo ∈ live s) then
    ASSERT ((0 <=? signo) && (signo <? BUNIXSIGNAL_MAX_SIGNALS));;
    ASSERT (bool_decide (signo ∈ entries (signal (bsignal_global s))));;
    ASSERT (bool_decide (Pipe_write signo ∈ live s));;
    n ← of_option (pipes (signal (bsignal_global s)) !! signo);
    if room || bool_decide (n = 0%nat) then set_unix (fun o => o <| pipes := <[signo := S n]> (pipes o) |>) else mret tt
  else mret tt.

(** ** [BSignal.c], [BNetwork.c] *)

Definition set_bsignal (f : BSignal -> BSignal) : hdl unit := modify (fun s => s <| bsignal_global := f (bsignal_global s) |>).

Definition BSignal_Init (alloc_ok : bool) (answers : Z -> entry_answers) : hdl bool :=
  b ← gets bsignal_global;
  ASSERT (negb (initialized b));;
  ok ← BUnixSignal_Init alloc_ok answers [SIGTERM; SIGINT];
  if negb ok then mret false else
  set_bsignal (fun b => b <| initialized := true |> <| finished := false |>);;
  mret true.

Definition BSignal_Finish : hdl unit :=
  b ← gets bsignal_global;
  ASSERT (initialized b);;
  ASSERT (negb (finished b));;
  BUnixSignal_Free false;;
  set_bsignal (fun b => b <| finished := true |>).

Definition BNetwork_GlobalInit (sigaction_ok : bool) : hdl bool :=
  b ← gets bnetwork_initialized;
  ASSERT (negb b);;
  if negb sigaction_ok then mret false else
  modify (fun s => s <| bnetwork_initialized := true |>);;
  mret true.

(** ** Handlers *)

Definition not_quitting : hdl unit := q ← gets quitting; ASSERT (negb q).

Definition terminate : hdl unit :=
  not_quitting;;
  modify (fun s => s <| quitting := true |>);;
  call Reactor_quit.

Definition signal_handler : hdl unit := not_quitting;; terminate.

Definition unix_signal_handler (signo : Z) : hdl unit :=
  ASSERT (bool_decide (signo = SIGTERM) || bool_decide (signo = SIGINT));;
  b ← gets bsignal_global;
  ASSERT (initialized b);;
  ASSERT (negb (finished b));;
  signal_handler.

(** [read] fails without a byte to read, or when [error]. *)
Definition pipe_read_fd_handler (signo : Z) (error : bool) : hdl unit :=
  s ← get;
  ASSERT (bool_decide (Pipe_read signo ∈ live s));;
  n ← of_option (pipes (signal (bsignal_global s)) !! signo);
  match n with
  | S n =>
      if error then mret tt else
      set_unix (fun o => o <| pipes := <[signo := n]> (pipes o) |>);;
      unix_signal_handler signo
  | O => mret tt
  end.

Definition device_error_handler : hdl unit := not_quitting;; terminate.

(** Of [tcp_timer]. *)
Definition BReactor_SetTimer : hdl unit := modify (fun s => s <| tcp_timer := true |>).
Definition BReactor_RemoveTimer : hdl unit := modify (fun s => s <| tcp_timer := false |>).
Definition tcp_timer_handler : hdl unit :=
  not_quitting;;
  BReactor_SetTimer;;
  r ← gets lwip_ready;
  ASSERT r;;
  call Tcp_tmr.

(** What lwIP answers: for each listener, [tcp_new], [tcp_bind_to_netif] and
    [tcp_listen]. *)
Record listener_answers := mk_listener_answers { new_ok : bool; bind_to_netif_ok : bool; tcp_listen_ok : bool }.
Record lwip_answers := mk_lwip_answers { netif_add_ok : bool; ip4 : listener_answers; ip6 : listener_answers }.

(** A listener, which [tcp_listen] makes out of the pcb it is given. *)
Definition open_listener (a : listener_answers) (r : resource) (set : bool -> hdl unit) : hdl bool :=
  if negb (new_ok a) then mret false else
  acquire Pcb;;
  if negb (bind_to_netif_ok a) then release Pcb;; mret false else
  if negb (tcp_listen_ok a) then set false;; release Pcb;; mret false else
  release Pcb;;
  acquire r;;
  set true;;
  call (Accept_on r);;
  mret true.

Section Main.
Context `{Abi} (channels : list bytes) (fs : Options.files) (getaddrinfo : AddrText.resolver) (quad : bytes).

Definition lwip_init_job_hadler (o : options) (addrs : addresses) (a : lwip_answers) : hdl unit :=
  not_quitting;;
  s ← get;
  ASSERT (Options.is_ipv4 (Options.a_netif_ipaddr addrs));;
  ASSERT (Options.is_ipv4 (Options.a_netif_netmask addrs));;
  ASSERT (negb (have_netif s));;
  ASSERT (negb (listener s));;
  ASSERT (negb (listener_ip6 s));;
  call Lwip_init;;
  modify (fun s => s <| lwip_ready := true |>);;
  let fail := (q ← gets quitting; if negb q then terminate else mret tt) in
  if negb (netif_add_ok a) then fail else
  acquire Netif;;
  modify (fun s => s <| have_netif := true |>);;
  ok ← open_listener (ip4 a) Listener (fun b => modify (fun s => s <| listener := b |>));
  if negb ok then fail else
  if Options.is_set (Options.netif_ip6addr o) then
    ok ← open_listener (ip6 a) Listener_ip6 (fun b => modify (fun s => s <| listener_ip6 := b |>));
    if negb ok then fail else mret tt
  else mret tt.

(** Of [listener_accept_func] and [client_dealloc], which [TcpClient] models. *)
Definition client_opened (n : nat) : hdl unit :=
  acquire (Client n);;
  modify (fun s => s <| tcp_clients := tcp_clients s ++ [n] |>);;
  k ← gets num_clients;
  ASSERT (0 <=? k);;
  modify (fun s => s <| num_clients := k + 1 |>).
Definition client_removed (n : nat) : hdl unit :=
  k ← gets num_clients;
  ASSERT (0 <? k);;
  modify (fun s => s <| num_clients := k - 1 |>);;
  modify (fun s => s <| tcp_clients := filter (fun x => x <> n) (tcp_clients s) |>);;
  release (Client n).

(** Of [process_device_dns_packet], which [DevicePackets] models: what a query and
    an answer do to the table of connections, with the node allocated by
    [insert_connection] and that freed by [remove_connection]. *)
Definition dns_query (malloc_ok : bool) (local_addr remote_addr : BAddr.BAddr) (port : Z) : hdl unit :=
  t ← gets connections_tree;
  (match DevicePackets.find_connection port t with
   | Some _ => mret tt
   | None => ASSERT malloc_ok;; acquire_apart (Dns_node port)
   end);;
  t ← of_option (DevicePackets.insert_connection malloc_ok local_addr remote_addr port t);
  modify (fun s => s <| connections_tree := t |>).
Definition dns_answer (port : Z) : hdl unit :=
  t ← gets connections_tree;
  match DevicePackets.find_connection port t with
  | None => mret tt
  | Some con =>
      let t := DevicePackets.remove_connection con t in
      modify (fun s => s <| connections_tree := t |>);;
      match DevicePackets.find_connection port t with Some _ => mret tt | None => release_apart (Dns_node port) end
  end.
(** It takes the nodes out of the table, and does not free them. *)
Definition free_connections : hdl unit :=
  call Free_connections;;
  modify (fun s => s <| connections_tree := DevicePackets.free_connections (connections_tree s) |>).

(** ** [main] *)

Inductive accept_answer := Accept_fails | No_descriptor | Descriptor (fd : Z).
Inductive fork_answer := Fork_fails | Parent (file_ok : bool) | Child (setsid_ok chdir_ok : bool).
Record environment := mk_environment {
  syslog_ok : bool;
  fork : fork_answer;
  network_ok : bool;
  reactor_ok : bool;
  signal_alloc_ok : bool;
  signal_answers : Z -> entry_answers;
  socket_ok : bool;
  bind_ok : bool;
  listen_ok : bool;
  accepts : list accept_answer;
  fcntl_ok : bool;
  add_fd_ok : bool;
  packet_block : option (nat * bytes); (* of [SinglePacketBuffer_Init] *)
  udpgw_queue_ok : bool;
  udpgw_socks_ok : bool;
  write_block_ok : bool;
  tcp_pcbs : list (list nat) (* the lists of lwIP at the end *) }.

(** How far [main] came: it returned, the process exited, it waits in [accept],
    or it is in the event loop. *)
Inductive outcome :=
  | Returned (code : Z)
  | Exited (code : Z)
  | Accepting
  | Looping (o : options) (a : addresses).

Definition EXIT_SUCCESS : Z := 0.
Definition EXIT_FAILURE : Z := 1.

(** The exit code of the process that does not go on. *)
Definition daemonize (f : fork_answer) : hdl (option Z) :=
  match f with
  | Fork_fails => mret (Some EXIT_FAILURE)
  | Parent file_ok => if negb file_ok then mret (Some EXIT_FAILURE) else call Pid_file;; mret (Some EXIT_SUCCESS)
  | Child setsid_ok chdir_ok =>
      if negb setsid_ok then mret (Some EXIT_FAILURE) else
      if negb chdir_ok then mret (Some EXIT_FAILURE) else mret None
  end.

Fixpoint configure_channels (loglevel : Z) (levels : list Z) (i : Z) : hdl unit :=
  match levels with
  | [] => mret tt
  | l :: levels =>
      (if 0 <=? l then call (Set_channel_loglevel i l)
       else if 0 <=? loglevel then call (Set_channel_loglevel i loglevel) else mret tt);;
      configure_channels loglevel levels (i + 1)
  end.

(** The loop that waits for the descriptor of the device; [None]: it waits. *)
Fixpoint receive_descriptor (l : list accept_answer) : hdl (option Z) :=
  match l with
  | [] => mret None
  | Accept_fails :: l => receive_descriptor l
  | No_descriptor :: l => acquire Accepted;; release Accepted;; receive_descriptor l
  | Descriptor fd :: l => acquire Accepted;; acquire_apart Tun_fd;; release Accepted;; mret (Some fd)
  end.

(** [BReactor_Free]: no job, no timer and no descriptor may be left. *)
Definition in_reactor (r : resource) : bool :=
  match r with Pipe_registered _ | Device | Lwip_init_job | Udpgw_client | Client _ => true | _ => false end.
Definition BReactor_Free : hdl unit :=
  s ← get;
  ASSERT (bool_decide (DeviceRead.pending (device s) = []));;
  ASSERT (negb (tcp_timer s));;
  ASSERT (forallb (fun r => negb (in_reactor r)) (live s));;
  release Reactor.

(** The labels. *)
Definition fail0 : hdl outcome := mret (Returned 1).
Definition fail1 : hdl outcome := release_if Password_contents;; release Logger;; fail0.
Definition fail2 : hdl outcome := BReactor_Free;; fail1.
Definition fail3 : hdl outcome := BSignal_Finish;; fail2.
Definition fail4 : hdl outcome :=
  on_device (PacketPassInterface_Free DeviceRead.read_port) no_call;;
  release Read_interface;;
  on_device DeviceRead.BTap_Free no_call;;
  release Device;;
  fail3.
Definition fail4a : hdl outcome :=
  on_device DeviceRead.SinglePacketBuffer.SinglePacketBuffer_Free no_call;;
  release Packet_buffer;;
  fail4.
Definition fail5 (o : options) : hdl outcome :=
  on_device (BPending_Unset (DeviceRead.Lwip_init, Operation)) no_call;;
  release Lwip_init_job;;
  (if Options.is_set (Options.udpgw_remote_server_addr o) then release Udpgw_client else mret tt);;
  fail4a.

Definition sizeof_ipv4_header : Z := 20.
Definition sizeof_ipv6_header : Z := 40.
Definition sizeof_udp_header : Z := 8.

(** The computation of [udp_mtu]. *)
Definition compute_udp_mtu (o : options) (mtu : Z) : Z :=
  let n := mtu - (sizeof_ipv4_header + sizeof_udp_header) in
  let n := if Options.is_set (Options.netif_ip6addr o) then
             let udp_ip6_mtu := mtu - (sizeof_ipv6_header + sizeof_udp_header) in
             if n <? udp_ip6_mtu then udp_ip6_mtu else n
           else n in
  if n <? 0 then 0 else n.

Definition DEFAULT_UDPGW_MAX_CONNECTIONS : Z := 256.

(** The block that sets up the udpgw client; whether it did. *)
Definition init_udpgw (env : environment) (o : options) (a : addresses) : hdl bool :=
  mtu ← on_device DeviceRead.BTap_GetMTU no_call;
  modify (fun s => s <| udp_mtu := compute_udp_mtu o mtu |>);;
  m ← gets udp_mtu;
  let udpgw_mtu := UdpGw.udpgw_compute_mtu m in
  if (udpgw_mtu <? 0) || (UdpGw.PACKETPROTO_MAXPAYLOAD <? udpgw_mtu) then mret false else
  c ← of_option (SocksUdpGw.SocksUdpGwClient_Init m DEFAULT_UDPGW_MAX_CONNECTIONS (Options.udpgw_connection_buffer_size o)
                   (Options.a_socks_server_addr a) (Options.a_udpgw_remote_server_addr a) (udpgw_queue_ok env)
                   (udpgw_socks_ok env));
  match c with
  | None => mret false
  | Some _ => acquire Udpgw_client;; mret true
  end.

(** The rest of [main] from the device on, up to the event loop. *)
Definition main_device (env : environment) (o : options) (a : addresses) (fd : Z) : hdl outcome :=
  b ← on_device (DeviceRead.BTap_Init2 (fcntl_ok env) (add_fd_ok env) fd (Options.tun_mtu o)) no_call;
  if negb b then fail3 else
  acquire Device;;
  mtu ← on_device DeviceRead.BTap_GetMTU no_call;
  on_device (PacketPassInterface_Init DeviceRead.read_port mtu) no_call;;
  acquire Read_interface;;
  b ← on_device (DeviceRead.SinglePacketBuffer.SinglePacketBuffer_Init (packet_block env)) no_call;
  if negb b then fail4 else
  acquire Packet_buffer;;
  b ← (if Options.is_set (Options.udpgw_remote_server_addr o) then init_udpgw env o a else mret true);
  if negb b then fail4a else
  acquire Lwip_init_job;;
  on_device DeviceRead.set_lwip_init_job no_call;;
  if negb (write_block_ok env) then fail5 o else
  acquire Write_buffer;;
  BReactor_SetTimer;;
  modify (fun s => s <| have_netif := false |>);;
  modify (fun s => s <| listener := false |> <| listener_ip6 := false |>);;
  modify (fun s => s <| tcp_clients := [] |> <| num_clients := 0 |>);;
  mret (Looping o a).

(** From [BReactor_Init] on. *)
Definition main_reactor (env : environment) (o : options) (a : addresses) : hdl outcome :=
  if negb (reactor_ok env) then fail1 else
  acquire Reactor;;
  modify (fun s => s <| quitting := false |>);;
  b ← BSignal_Init (signal_alloc_ok env) (signal_answers env);
  if negb b then fail2 else
  if negb (socket_ok env) then fail2 else
  acquire Socket;;
  if negb (bind_ok env) then release Socket;; fail2 else
  if negb (listen_ok env) then release Socket;; fail2 else
  fd ← receive_descriptor (accepts env);
  match fd with
  | None => mret Accepting
  | Some fd => release Socket;; main_device env o a fd
  end.

(** [process_arguments] has read the file with the password: it has even when it
    fails later, at an address. *)
Definition password_read (o : options) : bool :=
  match Options.process_arguments fs getaddrinfo quad
          (o <| Options.udpgw_remote_server_addr := None |> <| Options.dnsgw := None |>) with
  | Some (Some a) => Options.is_set (Options.password_file_contents a)
  | _ => false
  end.

(** From the logger on. *)
Definition main_logged (env : environment) (o : options) : hdl outcome :=
  configure_channels (Options.loglevel o) (Options.loglevels o) 0;;
  exit ← (match Options.pid o with Some _ => daemonize (fork env) | None => mret None end);
  match exit with
  | Some code => mret (Exited code)
  | None =>
      b ← BNetwork_GlobalInit (network_ok env);
      if negb b then fail1 else
      a ← of_option (Options.process_arguments fs getaddrinfo quad o);
      (if password_read o then acquire Password_contents else mret tt);;
      match a with
      | None => fail1
      | Some a => main_reactor env o a
      end
  end.

Definition process_name : bytes := AddrText.chars "net.typeblog.socks".

Definition main_start (env : environment) (argv : list bytes) : hdl outcome :=
  match argv with
  | [] => mret (Returned 1)
  | argv0 :: _ =>
      o ← of_option (Options.parse_arguments channels argv);
      match o with
      | None => fail0
      | Some o =>
          (if Options.fake_proc o then
             ASSERT (len process_name <=? len argv0);; (* [strcpy] into [argv[0]] *)
             call Process_name
           else mret tt);;
          if Options.help o || Options.version o then mret (Returned 0) else
          match Options.logger o with
          | Options.LOGGER_SYSLOG => if negb (syslog_ok env) then fail0 else acquire Logger;; main_logged env o
          | Options.LOGGER_STDOUT => acquire Logger;; main_logged env o
          end
      end
  end.

(** ** The event loop *)

Inductive event :=
  | Device_event (e : DeviceRead.event) (a : lwip_answers)
  | Tcp_timer_expires
  | Signal (signo : Z) (room : bool)
  | Signal_ready (signo : Z) (error : bool)
  | Client_opens (n : nat)
  | Client_closes (n : nat)
  | Dns_query (malloc_ok : bool) (local_addr remote_addr : BAddr.BAddr) (port : Z)
  | Dns_answer (port : Z).

Definition device_call (o : options) (addrs : addresses) (a : lwip_answers) (c : DeviceRead.out) : hdl unit :=
  match c with
  | DeviceRead.Handler_error => device_error_handler
  | DeviceRead.Lwip_init_handler => lwip_init_job_hadler o addrs a
  | DeviceRead.Device_packet data => not_quitting;; r ← gets lwip_ready; ASSERT r;; call (Packet data)
  | DeviceRead.Sys_read _ | DeviceRead.Sys_error => mret tt
  | DeviceRead.Write _ | DeviceRead.Close => ASSERT false
  end.
Definition handle (o : options) (addrs : addresses) (e : event) : hdl unit :=
  match e with
  | Device_event e a => on_device (DeviceRead.exec e) (device_call o addrs a)
  | Tcp_timer_expires => BReactor_RemoveTimer;; tcp_timer_handler
  | Signal signo room => deliver signo room
  | Signal_ready signo error => pipe_read_fd_handler signo error
  | Client_opens n => client_opened n
  | Client_closes n => client_removed n
  | Dns_query malloc_ok local_addr remote_addr port => dns_query malloc_ok local_addr remote_addr port
  | Dns_answer port => dns_answer port
  end.

(** The reactor runs jobs before timers, and calls handlers of descriptors that
    are registered; lwIP accepts connections once it has a listener; packets come
    from the device once lwIP is initialised, and [malloc] returns a block. *)
Definition event_ok (s : program) (e : event) : bool :=
  match e with
  | Device_event e _ => DeviceRead.event_ok (device s) e
  | Tcp_timer_expires => tcp_timer s && bool_decide (DeviceRead.pending (device s) = [])
  | Signal _ _ => true
  | Signal_ready signo _ => bool_decide (Pipe_registered signo ∈ live s)
  | Client_opens n => (listener s || listener_ip6 s) && bool_decide (n ∉ tcp_clients s)
  | Client_closes n => bool_decide (n ∈ tcp_clients s)
  | Dns_query malloc_ok _ _ _ => lwip_ready s && malloc_ok
  | Dns_answer _ => lwip_ready s
  end.

(** [BReactor_Exec]; [false]: it is still running. *)
Fixpoint loop (o : options) (a : addresses) (evs : list event) : hdl bool :=
  q ← gets quitting;
  if q : bool then mret true else
  match evs with
  | [] => mret false
  | e :: evs => handle o a e;; loop o a evs
  end.
Fixpoint legal (o : options) (a : addresses) (evs : list event) (s : program) : bool :=
  quitting s ||
  match evs with
  | [] => true
  | e :: evs => event_ok s e && match handle o a e s with Some (_, s', _) => legal o a evs s' | None => true end
  end.

(** ** The end *)

(** [while (node = LinkedList1_GetFirst(&tcp_clients))] *)
Fixpoint murder_clients (fuel : nat) : hdl unit :=
  l ← gets tcp_clients;
  match l, fuel with
  | [], _ => mret tt
  | n :: _, S fuel => client_removed n;; murder_clients fuel
  | _ :: _, O => ASSERT false
  end.
Fixpoint tcp_remove (l : list nat) : hdl unit :=
  match l with [] => mret tt | pcb :: l => call (Abort pcb);; tcp_remove l end.
Fixpoint tcp_remove_all (ls : list (list nat)) : hdl unit :=
  match ls with [] => mret tt | l :: ls => tcp_remove l;; tcp_remove_all ls end.

Definition main_finish (env : environment) (o : options) : hdl outcome :=
  l ← gets tcp_clients;
  murder_clients (length l);;
  s ← get;
  (if listener_ip6 s then release Listener_ip6 else mret tt);;
  (if listener s then release Listener else mret tt);;
  (if have_netif s then release Netif else mret tt);;
  tcp_remove_all (tcp_pcbs env);;
  free_connections;;
  BReactor_RemoveTimer;;
  release Write_buffer;;
  fail5 o.

Definition main (env : environment) (argv : list bytes) (evs : list event) : hdl outcome :=
  r ← main_start env argv;
  match r with
  | Looping o a =>
      quit ← loop o a evs;
      if quit : bool then main_finish env o else mret r
  | r => mret r
  end.

Definition raw_program : program :=
  mk_program [] [] false (mk_bsignal false false (mk_signal [] [] ∅)) false DeviceRead.raw_reading 0 false false false [] 0 false false ∅.

Definition legal_main (env : environment) (argv : list bytes) (evs : list event) : bool :=
  match main_start env argv raw_program with
  | Some (Looping o a, s, _) => legal o a evs s
  | _ => true
  end.
End Main.

(** What is assumed of the system: descriptors are not negative, a block allocated
    has the length asked for, [argv[0]] has room for the name that [--fake-proc]
    writes there, and [atoi] can represent the numbers on the command line. *)
Record system_ok (channels : list bytes) (env : environment) (argv : list bytes) : Prop := {
  e_fds : forall fd, Descriptor fd ∈ accepts env -> 0 <= fd;
  e_block : forall o p raw, Options.parse_arguments channels argv = Some (Some o) -> packet_block env = Some (p, raw) ->
    len raw = Options.tun_mtu o;
  e_name : forall o, Options.parse_arguments channels argv = Some (Some o) -> Options.fake_proc o = true ->
    len process_name <= len (hd [] argv);
  e_numbers : Options.parse_arguments channels argv <> None }.
(** The socket on which the descriptor of the device arrives is set up. *)
Definition socket_set_up (env : environment) : bool := socket_ok env && bind_ok env && listen_ok env.

(** What is kept apart once the descriptor of the device has arrived: it, and the
    nodes of some ports. *)
Definition kept (ports : list Z) : list resource := map Dns_node ports ++ [Tun_fd].
(** What [main] has come to.  In the loop the nodes are those of the table; when
    [main] returns, the descriptor and nodes are all that is left, if anything. *)
Definition outcome_ok (channels argv : list bytes) (r : outcome) (s : program) : Prop :=
  match r with
  | Returned c => live s = [] /\ (apart s = [] \/ exists ports, apart s = kept ports /\ NoDup ports) /\
      DeviceRead.pending (device s) = [] /\ tcp_timer s = false /\ connections_tree s = ∅ /\
      (c = 1 \/ c = 0 /\ exists o, Options.parse_arguments channels argv = Some (Some o) /\ Options.help o || Options.version o = true)
  | Exited _ => live s = [Logger] /\ apart s = []
  | Accepting => apart s = []
  | Looping o a => quitting s = false /\ Options.parse_arguments channels argv = Some (Some o) /\
      exists ports, apart s = kept ports /\ NoDup ports /\ forall port, port ∈ ports <-> is_Some (connections_tree s !! port)
  end.

(** ** Brackets

    What is acquired and released is well bracketed: what is released is what
    was acquired last of what is left, except for clients, which come and go.  Apart
    from that, nodes of the relay come and go, and the descriptor of the device
    is not released. *)
Definition is_apart (r : resource) : bool := match r with Tun_fd | Dns_node _ => true | _ => false end.
Abbreviation holdings := (list resource * list resource)%type.
Definition bracket (o : out) (h : holdings) : option holdings :=
  let '(l, k) := h in
  match o with
  | Acquired r => Some (if is_apart r then (l, r :: k) else (r :: l, k))
  | Released Tun_fd => None
  | Released (Dns_node port) =>
      if bool_decide (Dns_node port ∈ k) then Some (l, filter (fun x => x <> Dns_node port) k) else None
  | Released (Client n) => if bool_decide (Client n ∈ l) then Some (filter (fun x => x <> Client n) l, k) else None
  | Released r => match l with r' :: l => if bool_decide (r = r') then Some (l, k) else None | [] => None end
  | _ => Some (l, k)
  end.
Fixpoint brackets (l : list out) (held : holdings) : option holdings :=
  match l with [] => Some held | o :: l => bracket o held ≫= brackets l end.
Definition held (s : program) : holdings := (live s, apart s).

Module MainProofs.

Lemma brackets_app l1 l2 h : brackets (l1 ++ l2) h = brackets l1 h ≫= brackets l2.
Proof. revert h. induction l1 as [|o l1 IH]; intros h; cbn; [done|]. destruct (bracket o h); cbn; [apply IH|done]. Qed.

(** When an assertion is allowed to fail. *)
Class Fallible := fallible : Prop.

Section proofs.
Context `{Hfallible : Fallible}.

(** [tidy h s Q]: unless that is allowed, [h] does not fail from [s]; what it
    acquires and releases is bracketed from what is held in [s] to what is held
    at its end, and it ends in [Q]. *)
Definition tidy {A} (h : hdl A) (s : program) (Q : A -> program -> Prop) : Prop :=
  h s = None /\ fallible \/ wp h s (fun a s' l => brackets l (held s) = Some (held s') /\ Q a s').

Section tidy.
Context {A B : Type}.
Implicit Types (s : program) (Q : A -> program -> Prop).

Lemma tidy_mono (h : hdl A) s (P Q : A -> program -> Prop) :
  tidy h s P -> (forall a s', P a s' -> Q a s') -> tidy h s Q.
Proof. intros [H|H] HPQ; [by left|right]. eapply wp_mono; [exact H|]. intros a s' l [Hb Hp]. split; auto. Qed.
Lemma tidy_bind (m : hdl B) (f : B -> hdl A) s Q :
  tidy m s (fun b s1 => tidy (f b) s1 Q) -> tidy (m ≫= f) s Q.
Proof.
  intros [[H F]|H]; [left; split; [|done]; unfold mbind, handler_bind; by rewrite H|].
  apply wp_spec in H as (b & s1 & l1 & E & Hb1 & [[Hf F]|Hf]).
  - left. split; [|done]. unfold mbind, handler_bind. by rewrite E, Hf.
  - right. apply wp_bind, wp_spec. eexists b, s1, l1. split; [exact E|].
    eapply wp_mono; [exact Hf|]. intros a s2 l2 [Hb2 Hq]. split; [|done]. by rewrite brackets_app, Hb1.
Qed.
Lemma tidy_ret (a : A) s Q : Q a s -> tidy (mret a) s Q.
Proof. intros H. right. by apply wp_ret. Qed.
Lemma tidy_gets (f : program -> A) s Q : Q (f s) s -> tidy (gets f) s Q.
Proof. intros H. right. by apply wp_gets. Qed.
Lemma tidy_of_option (x : option A) a s Q : x = Some a -> Q a s -> tidy (of_option x) s Q.
Proof. intros Hx H. right. eapply wp_of_option; [exact Hx|]. done. Qed.
Lemma tidy_if (b : bool) (h k : hdl A) s Q :
  (b = true -> tidy h s Q) -> (b = false -> tidy k s Q) -> tidy (if b then h else k) s Q.
Proof. destruct b; auto. Qed.
Lemma tidy_device (h : DeviceRead.hdl A) s Q :
  wp h (device s) (fun a d l => l = [] /\ Q a (s <| device := d |>)) -> tidy (on_device h no_call) s Q.
Proof.
  unfold tidy, on_device, wp. destruct (h (device s)) as [[[a d] l]|]; [|done]. intros [-> HQ]. by right.
Qed.
Lemma tidy_spec (h : hdl A) s Q : tidy h s Q ->
  h s = None /\ fallible \/ exists a s' l, h s = Some (a, s', l) /\ brackets l (held s) = Some (held s') /\ Q a s'.
Proof. intros [H|H]; [by left|right]. by apply wp_spec in H. Qed.
(** A part of which the outcome is known. *)
Lemma tidy_known (m : hdl B) (f : B -> hdl A) s b s1 l Q : m s = Some (b, s1, l) -> brackets l (held s) = Some (held s1) ->
  tidy (f b) s1 Q -> tidy (m ≫= f) s Q.
Proof.
  intros E Hb H. apply tidy_bind. right. apply wp_spec. by exists b, s1, l.
Qed.
End tidy.

Lemma tidy_get s (Q : program -> program -> Prop) : Q s s -> tidy get s Q.
Proof. intros H. right. by apply wp_get. Qed.
Lemma tidy_modify f s (Q : unit -> program -> Prop) : held (f s) = held s -> Q tt (f s) -> tidy (modify f) s Q.
Proof. intros Hl H. right. apply wp_modify. split; [by rewrite Hl|done]. Qed.
Lemma tidy_ASSERT b s (Q : unit -> program -> Prop) : b = true -> Q tt s -> tidy (ASSERT b) s Q.
Proof. intros -> H. right. by apply wp_assert. Qed.
Lemma tidy_call o s (Q : unit -> program -> Prop) : bracket o (held s) = Some (held s) -> Q tt s -> tidy (call o) s Q.
Proof. intros Ho H. right. apply wp_call. split; [|done]. cbn -[bracket held]. by rewrite Ho. Qed.
Lemma tidy_acquire r s (Q : unit -> program -> Prop) : is_apart r = false -> Q tt (s <| live := r :: live s |>) -> tidy (acquire r) s Q.
Proof. intros Hr H. right. split; [|done]. cbn. by rewrite Hr. Qed.
Lemma tidy_acquire_apart r s (Q : unit -> program -> Prop) : is_apart r = true -> Q tt (s <| apart := r :: apart s |>) ->
  tidy (acquire_apart r) s Q.
Proof. intros Hr H. right. split; [|done]. cbn. by rewrite Hr. Qed.

Definition is_client (r : resource) : bool := match r with Client _ => true | _ => false end.
Lemma filter_out `{EqDecision A} (r : A) (l : list A) : r ∉ l -> filter (fun x => x <> r) l = l.
Proof.
  induction l as [|x l IH]; [done|]. intros [Hx Hl]%not_elem_of_cons. rewrite filter_cons_True by congruence. by rewrite IH.
Qed.
(** What is released in reverse order. *)
Definition is_scoped (r : resource) : bool := negb (is_client r) && negb (is_apart r).
Lemma tidy_release r rest s (Q : unit -> program -> Prop) : live s = r :: rest -> bool_decide (r ∈ rest) = false ->
  is_scoped r = true -> Q tt (s <| live := rest |>) -> tidy (release r) s Q.
Proof.
  intros Hl Hr%bool_decide_eq_false_1 Hc H. right. unfold release. hstep. hstep.
  hstep.
  hstep; [rewrite Hl; apply bool_decide_eq_true_2; left|]. do 3 hstep.
  assert (E : filter (fun x => x <> r) (live s) = rest).
  { rewrite Hl, filter_cons_False by (intros []; done). by apply filter_out. }
  rewrite E. split; [|done]. unfold held. cbn. rewrite Hl. destruct r; try done; cbn; by rewrite bool_decide_eq_true_2.
Qed.
Lemma tidy_release_client n s (Q : unit -> program -> Prop) : Client n ∈ live s ->
  Q tt (s <| live := filter (fun x => x <> Client n) (live s) |>) -> tidy (release (Client n)) s Q.
Proof.
  intros Hl H. right. unfold release. hstep. hstep. hstep. hstep; [by apply bool_decide_eq_true_2|]. do 3 hstep.
  split; [|done]. cbn. by rewrite bool_decide_eq_true_2.
Qed.
Lemma tidy_release_node port s (Q : unit -> program -> Prop) : Dns_node port ∈ apart s ->
  Q tt (s <| apart := filter (fun x => x <> Dns_node port) (apart s) |>) -> tidy (release_apart (Dns_node port)) s Q.
Proof.
  intros Hl H. right. unfold release_apart. hstep. hstep. hstep. hstep; [by apply bool_decide_eq_true_2|]. do 3 hstep.
  split; [|done]. cbn. by rewrite bool_decide_eq_true_2.
Qed.
Lemma tidy_release_if r s (Q : unit -> program -> Prop) :
  (r ∈ live s -> tidy (release r) s Q) -> (r ∉ live s -> Q tt s) -> tidy (release_if r) s Q.
Proof.
  intros H1 H2. apply tidy_bind, tidy_get, tidy_if.
  - intros H%bool_decide_eq_true_1. by apply H1.
  - intros H%bool_decide_eq_false_1. by apply tidy_ret, H2.
Qed.

Ltac tstep := lazymatch goal with
  | |- tidy (_ ≫= _) _ _ => apply tidy_bind
  | |- tidy (mret _) _ _ => apply tidy_ret
  | |- tidy get _ _ => apply tidy_get
  | |- tidy (gets _) _ _ => apply tidy_gets
  | |- tidy (modify _) _ _ => apply tidy_modify; [reflexivity|]
  | |- tidy (set_unix _) _ _ => apply tidy_modify; [reflexivity|]
  | |- tidy (set_bsignal _) _ _ => apply tidy_modify; [reflexivity|]
  | |- tidy BReactor_SetTimer _ _ => apply tidy_modify; [reflexivity|]
  | |- tidy BReactor_RemoveTimer _ _ => apply tidy_modify; [reflexivity|]
  | |- tidy (call _) _ _ => apply tidy_call; [reflexivity|]
  | |- tidy (ASSERT _) _ _ => apply tidy_ASSERT
  | |- tidy (acquire _) _ _ => apply tidy_acquire; [reflexivity|]
  | |- tidy (acquire_apart _) _ _ => apply tidy_acquire_apart; [reflexivity|]
  | |- tidy (release (Client _)) _ _ => apply tidy_release_client
  | |- tidy (release _) _ _ => eapply tidy_release; [reflexivity|reflexivity|reflexivity|]
  | |- tidy (if _ then _ else _) _ _ => apply tidy_if; intros ?
  | |- tidy (free_selfpipe_entry _) _ _ => unfold free_selfpipe_entry
  | |- tidy (close_pipe _) _ _ => unfold close_pipe
  end.
Ltac tsteps := repeat (tstep; cbn -[bool_decide]).

(** *** What is held *)

Definition base (pw : bool) : list resource := Reactor :: (if pw then [Password_contents] else []) ++ [Logger].
Definition signal_live (es : list Z) : list resource :=
  concat (map (fun n => [Handler_installed n; Pipe_registered n; Pipe_read n; Pipe_write n]) (rev es)) ++ [Signal_entries].

Lemma free_all_tidy es pw s (Q : unit -> program -> Prop) : es = [] \/ es = [2] \/ es = [2; 15] ->
  live s = signal_live es ++ base pw -> entries (signal (bsignal_global s)) = es ->
  (forall b, initialized b = initialized (bsignal_global s) -> finished b = finished (bsignal_global s) ->
     Q tt (s <| bsignal_global := b |> <| live := base pw |>)) -> tidy free_all s Q.
Proof.
  destruct s as [l ap n [bi bf [ss en ps]] q d m hn li l6 tc nc ti lr ct]. cbn -[base]. intros Hes -> -> HQ.
  destruct pw, Hes as [-> | [-> | ->]]; cbn in *; unfold free_all; tsteps; by apply HQ.
Qed.

(** The signals are set up, with what else is in the state as it was. *)
Definition signal_up (b : BSignal) : Prop :=
  initialized b = true /\ finished b = false /\ entries (signal b) = [SIGINT; SIGTERM] /\
  is_Some (pipes (signal b) !! SIGINT) /\ is_Some (pipes (signal b) !! SIGTERM).

Lemma signal_numbers_set : signal_numbers [SIGTERM; SIGINT] = [SIGINT; SIGTERM].
Proof. by vm_compute. Qed.

Lemma init_entry_tidy signo a es pw s (Q : bool -> program -> Prop) : es = [] /\ signo = 2 \/ es = [2] /\ signo = 15 ->
  live s = signal_live es ++ base pw ->
  (forall b', initialized b' = initialized (bsignal_global s) -> entries (signal b') = entries (signal (bsignal_global s)) ->
     Q false (s <| bsignal_global := b' |>)) ->
  (forall b', initialized b' = initialized (bsignal_global s) -> entries (signal b') = entries (signal (bsignal_global s)) ++ [signo] ->
     pipes (signal b') = <[signo := 0%nat]> (pipes (signal (bsignal_global s))) ->
     Q true (s <| bsignal_global := b' |> <| live := signal_live (es ++ [signo]) ++ base pw |>)) ->
  tidy (init_entry signo a) s Q.
Proof.
  destruct s as [l ap n [bi bf [ss en ps]] q d m hn li l6 tc nc ti lr ct]. cbn -[base signal_live]. intros Hes -> Hf Ht.
  destruct pw, Hes as [[-> ->]|[-> ->]]; unfold init_entry; tsteps; try (by apply Hf); by apply Ht.
Qed.

Lemma unix_init_tidy pw alloc_ok answers s (Q : bool -> program -> Prop) : live s = base pw ->
  (forall b, initialized b = initialized (bsignal_global s) -> Q false (s <| bsignal_global := b |>)) ->
  (forall b, initialized b = initialized (bsignal_global s) -> entries (signal b) = [2; 15] ->
     is_Some (pipes (signal b) !! 2) -> is_Some (pipes (signal b) !! 15) ->
     Q true (s <| bsignal_global := b |> <| live := signal_live [2; 15] ++ base pw |>)) ->
  tidy (BUnixSignal_Init alloc_ok answers [SIGTERM; SIGINT]) s Q.
Proof.
  destruct s as [l ap n [bi bf [ss en ps]] q d m hn li l6 tc nc ti lr ct]. cbn -[base signal_live]. intros -> Hf Ht.
  unfold BUnixSignal_Init. rewrite signal_numbers_set. tstep. tstep. cbn -[base].
  tstep; [tstep; by apply Hf|]. tstep. tstep. cbn -[base]. tstep. tstep. cbn -[base init_entry].
  tstep. eapply (init_entry_tidy 2 _ [] pw); [auto|by destruct pw|..].
  - cbn -[base]. intros b1 Hi1 He1. tstep. eapply (free_all_tidy []); [auto|by destruct pw|done|].
    intros b2 Hi2 _. tstep. apply Hf. cbn in *. congruence.
  - cbn -[base]. intros b1 Hi1 He1 Hp1. tstep. eapply (init_entry_tidy 15 _ [2] pw); [auto|done|..].
    + cbn -[base]. intros b2 Hi2 He2. tstep. eapply (free_all_tidy [2]); [auto|done|cbn; by rewrite He2|].
      intros b3 Hi3 _. tstep. apply Hf. cbn in *. congruence.
    + cbn -[base]. intros b2 Hi2 He2 Hp2. tstep. apply Ht; [congruence|by rewrite He2, He1|..].
      * rewrite Hp2, Hp1, lookup_insert_ne, lookup_insert_eq by done. by eexists.
      * rewrite Hp2, lookup_insert_eq. by eexists.
Qed.

Lemma signal_init_tidy pw alloc_ok answers s (Q : bool -> program -> Prop) :
  live s = base pw -> initialized (bsignal_global s) = false ->
  (forall b, Q false (s <| bsignal_global := b |>)) ->
  (forall b, signal_up b -> Q true (s <| bsignal_global := b |> <| live := signal_live [2; 15] ++ base pw |>)) ->
  tidy (BSignal_Init alloc_ok answers) s Q.
Proof.
  intros Hl Hi Hf Ht. unfold BSignal_Init. tstep. tstep. tstep. tstep; [by rewrite Hi|].
  tstep. eapply unix_init_tidy; [exact Hl|..].
  - intros b Hb. tstep; [|done]. tstep. apply Hf.
  - intros b Hb He H2 H15. tstep; [done|]. tstep. tstep. tstep. apply (Ht (b <| initialized := true |> <| finished := false |>)). by split_and!.
Qed.

Lemma signal_finish_tidy pw s (Q : unit -> program -> Prop) :
  live s = signal_live [2; 15] ++ base pw -> signal_up (bsignal_global s) ->
  (forall b, Q tt (s <| bsignal_global := b |> <| live := base pw |>)) -> tidy BSignal_Finish s Q.
Proof.
  intros Hl (Hi & Hf & He & _) HQ. unfold BSignal_Finish, BUnixSignal_Free. cbn [negb].
  tstep. tstep. tstep. tstep; [done|]. tstep. tstep; [by rewrite Hf|]. tstep. tstep. tstep. tstep. tstep.
  eapply (free_all_tidy [2; 15]); [auto|done|done|]. intros b _ _. tstep. apply (HQ (b <| finished := true |>)).
Qed.

(** *** The labels *)

(** With what is kept apart and what the table has. *)
Definition ended (kept : list resource) (t : DevicePackets.conn_tree) (r : outcome) (s : program) : Prop :=
  r = Returned 1 /\ live s = [] /\ DeviceRead.pending (device s) = [] /\ tcp_timer s = false /\
  apart s = kept /\ connections_tree s = t.

Lemma fail1_tidy (pw : bool) s : live s = (if pw then [Password_contents] else []) ++ [Logger] ->
  DeviceRead.pending (device s) = [] -> tcp_timer s = false -> tidy fail1 s (ended (apart s) (connections_tree s)).
Proof.
  destruct s as [l ap n b q d m hn li l6 tc nc ti lr ct]. cbn. intros -> Hp ->. unfold fail1, fail0. tstep.
  apply tidy_release_if; cbn; intros Hin; destruct pw; try (exfalso; set_solver); tsteps; done.
Qed.

Lemma fail2_tidy pw s : live s = base pw -> DeviceRead.pending (device s) = [] -> tcp_timer s = false -> tidy fail2 s (ended (apart s) (connections_tree s)).
Proof.
  destruct s as [l ap n b q d m hn li l6 tc nc ti lr ct]. cbn -[base]. intros -> Hp ->. unfold fail2, BReactor_Free.
  tstep. tstep. tstep. cbn -[base]. tstep. tstep; [by apply bool_decide_eq_true_2|]. tstep. tstep; [done|]. tstep. tstep; [by destruct pw|].
  eapply tidy_release; [reflexivity|by destruct pw|done|]. by apply (fail1_tidy pw).
Qed.

Lemma fail3_tidy pw s : live s = signal_live [2; 15] ++ base pw -> signal_up (bsignal_global s) ->
  DeviceRead.pending (device s) = [] -> tcp_timer s = false -> tidy fail3 s (ended (apart s) (connections_tree s)).
Proof.
  intros Hl Hu Hp Ht. destruct s. cbn -[base signal_live] in *. unfold fail3. tstep. eapply signal_finish_tidy; [done..|]. intros b. by apply (fail2_tidy pw).
Qed.

(** The device, when it is torn down: what jobs may be left. *)
Definition quiet (p : DeviceRead.iface * job_kind -> Prop) (d : reading) : Prop :=
  DeviceRead.close_fd (DeviceRead.device d) = false /\ Forall (fun j => j.2 <> Requestcancel /\ p j) (DeviceRead.pending d).
Definition no_lwip (j : DeviceRead.iface * job_kind) : Prop := j.1 <> DeviceRead.Lwip_init.

Lemma unset_all (l : list (DeviceRead.iface * job_kind)) : Forall (fun j => j.2 <> Requestcancel /\ no_lwip j) l ->
  unset (DeviceRead.Tap_output, Operation) (unset (DeviceRead.Tap_output, Done)
    (unset (DeviceRead.Read_interface, Operation) (unset (DeviceRead.Read_interface, Requestcancel)
      (unset (DeviceRead.Read_interface, Done) l)))) = [].
Proof.
  induction 1 as [|[i k] l [Hk Hi] _ IH]; [done|]. unfold unset in *. unfold no_lwip in Hi. cbn in Hk, Hi.
  destruct i, k; try done; cbn; exact IH.
Qed.

Lemma fail4_tidy pw s : live s = Read_interface :: Device :: signal_live [2; 15] ++ base pw -> signal_up (bsignal_global s) ->
  quiet no_lwip (device s) -> tcp_timer s = false -> tidy fail4 s (ended (apart s) (connections_tree s)).
Proof.
  intros Hl Hu [Hc Hj] Hti. unfold fail4.
  destruct s as [l ap n b q [pj [dm dp dc dv df de] tp ri rb me] m hn li l6 tc nc ti lr ct]. cbn -[base signal_live] in *. subst l dc.
  tstep. apply tidy_device. unfold PacketPassInterface_Free. flow_steps. split; [done|].
  tstep. eapply tidy_release; [reflexivity|by destruct pw|done|]. cbn -[base signal_live].
  tstep. apply tidy_device. unfold DeviceRead.BTap_Free, PacketRecvInterface_Free, DeviceRead.set_device. flow_steps. split; [done|].
  tstep. eapply tidy_release; [reflexivity|by destruct pw|done|].
  apply (fail3_tidy pw); [done|done| |done]. by apply unset_all.
Qed.

Lemma fail4a_tidy pw s : live s = Packet_buffer :: Read_interface :: Device :: signal_live [2; 15] ++ base pw ->
  signal_up (bsignal_global s) -> quiet no_lwip (device s) -> is_Some (DeviceRead.device_read_buffer (device s)) ->
  tcp_timer s = false -> tidy fail4a s (ended (apart s) (connections_tree s)).
Proof.
  intros Hl Hu [Hc Hj] [p Hb] Hti. unfold fail4a.
  destruct s as [l ap n b q [pj dv tp ri rb me] m hn li l6 tc nc ti lr ct]. cbn -[base signal_live] in *. subst l rb.
  tstep. apply tidy_device. unfold DeviceRead.SinglePacketBuffer.SinglePacketBuffer_Free. flow_steps. split; [done|].
  tstep. eapply tidy_release; [reflexivity|by destruct pw|done|]. by apply (fail4_tidy pw).
Qed.

Definition lower (o : options) (pw : bool) : list resource :=
  Lwip_init_job :: (if Options.is_set (Options.udpgw_remote_server_addr o) then [Udpgw_client] else []) ++
  Packet_buffer :: Read_interface :: Device :: signal_live [2; 15] ++ base pw.

Lemma fail5_tidy o pw s : live s = lower o pw ->
  signal_up (bsignal_global s) -> quiet (fun j => j.1 = DeviceRead.Lwip_init -> j.2 = Operation) (device s) ->
  is_Some (DeviceRead.device_read_buffer (device s)) -> tcp_timer s = false -> tidy (fail5 o) s (ended (apart s) (connections_tree s)).
Proof.
  intros Hl Hu [Hc Hj] Hb Hti. unfold fail5, lower in *.
  destruct s as [l ap n b q [pj dv tp ri rb me] m hn li l6 tc nc ti lr ct]. cbn -[base signal_live] in *. subst l.
  tstep. apply tidy_device. flow_steps. split; [done|].
  assert (Hq : Forall (fun j => j.2 <> Requestcancel /\ no_lwip j) (unset (DeviceRead.Lwip_init, Operation) pj)).
  { apply Forall_forall. intros [i k] [Hne Hin]%list_elem_of_filter. rewrite Forall_forall in Hj.
    destruct (Hj _ Hin) as [H1 H2]. split; [done|]. intros E. specialize (H2 E). cbn in E, H2. by subst. }
  destruct (Options.is_set (Options.udpgw_remote_server_addr o)); cbn -[base signal_live];
    (tstep; eapply tidy_release; [reflexivity|by destruct pw|done|]); tstep;
    [eapply tidy_release; [reflexivity|by destruct pw|done|]|tstep]; by apply (fail4a_tidy pw).
Qed.

(** *** The event loop *)

Definition lwip_live (s : program) : list resource :=
  (if listener_ip6 s then [Listener_ip6] else []) ++ (if listener s then [Listener] else []) ++ (if have_netif s then [Netif] else []).

(** The nodes are those of the table, each under its port. *)
Definition table_ok (s : program) : Prop :=
  exists ports, apart s = kept ports /\ NoDup ports /\
    (forall port, port ∈ ports <-> is_Some (connections_tree s !! port)) /\
    forall port c, connections_tree s !! port = Some c -> DevicePackets.con_port c = port.
Lemma table_start s : apart s = kept [] -> connections_tree s = ∅ -> table_ok s.
Proof.
  intros Hk Ht. exists []. rewrite Ht. split_and!; [done|constructor| |].
  - intros port. rewrite lookup_empty, elem_of_nil. split; [done|by intros []].
  - intros port c. by rewrite lookup_empty.
Qed.
(** Between two events. *)
Record ready (o : options) (pw : bool) (mtu : Z) (buf : nat) (s : program) (st : DeviceRead.stage) : Prop := {
  r_live : live s = rev (map Client (tcp_clients s)) ++ lwip_live s ++ Write_buffer :: lower o pw;
  r_clients : NoDup (tcp_clients s);
  r_signal : signal_up (bsignal_global s);
  r_timer : tcp_timer s = true;
  r_count : num_clients s = Z.of_nat (length (tcp_clients s));
  r_device : DeviceRead.at_stage mtu buf (device s) st;
  r_lwip : match st with
           | DeviceRead.First => have_netif s = false /\ listener s = false /\ listener_ip6 s = false /\ tcp_clients s = []
           | _ => lwip_ready s = true
           end;
  r_table : table_ok s }.

(** What [main] leaves: nothing apart, or what it keeps there; the table is empty. *)
Definition left_ok (s : program) : Prop :=
  connections_tree s = ∅ /\ (apart s = [] \/ exists ports, apart s = kept ports /\ NoDup ports).
Definition returned (r : outcome) (s : program) : Prop :=
  r = Returned 1 /\ live s = [] /\ DeviceRead.pending (device s) = [] /\ tcp_timer s = false /\ left_ok s.
Lemma ended_returned h s : left_ok s -> tidy h s (ended (apart s) (connections_tree s)) -> tidy h s returned.
Proof.
  intros [H1 H2] H. eapply tidy_mono; [exact H|]. intros r s' (-> & ? & ? & ? & Ha & Ht). split_and!; try done.
  split; [by rewrite Ht|by rewrite Ha].
Qed.

Definition started (o : options) (a : addresses) (pw : bool) (r : outcome) (s : program) : Prop :=
  returned r s \/ r = Accepting /\ apart s = [] \/ r = Looping o a /\ quitting s = false /\ exists buf, ready o pw (Options.tun_mtu o) buf s DeviceRead.First.

Lemma start_left s : apart s = [] \/ apart s = kept [] -> connections_tree s = ∅ -> left_ok s.
Proof. intros Hk Ht. split; [done|]. destruct Hk; [by left|right]. exists []. by split; [|constructor]. Qed.
Lemma ended_started o a pw h s : apart s = [] \/ apart s = kept [] -> connections_tree s = ∅ ->
  tidy h s (ended (apart s) (connections_tree s)) -> tidy h s (started o a pw).
Proof. intros Hk Ht Hh. eapply tidy_mono; [by apply ended_returned; [apply start_left|]|]. intros r s' He. by left. Qed.
Import DeviceRead.DeviceReadProofs.

Section start.
Context `{Abi} (env : environment) (o : options) (a : addresses) (pw : bool).
Hypotheses (Hmtu : 0 < Options.tun_mtu o <= INT_MAX) (Hbuf : 0 < Options.udpgw_connection_buffer_size o).
Hypotheses (Hserver : BAddr.BAddr_IsInvalid (Options.a_socks_server_addr a) = false)
  (Hudpgw : Options.is_set (Options.udpgw_remote_server_addr o) = true ->
     BAddr.BAddr_IsInvalid (Options.a_udpgw_remote_server_addr a) = false).
Hypothesis Hblock : forall p raw, packet_block env = Some (p, raw) -> len raw = Options.tun_mtu o.

Lemma compute_udp_mtu_range mtu : 0 < mtu <= INT_MAX -> 0 <= compute_udp_mtu o mtu <= INT_MAX.
Proof using.
  clear. intros Hm. unfold compute_udp_mtu, sizeof_ipv4_header, sizeof_ipv6_header, sizeof_udp_header.
  destruct (Options.is_set _); repeat case_match; lia.
Qed.

Lemma udpgw_init_some m : 0 <= m -> (UdpGw.udpgw_compute_mtu m <? 0) || (UdpGw.PACKETPROTO_MAXPAYLOAD <? UdpGw.udpgw_compute_mtu m) = false ->
  Options.is_set (Options.udpgw_remote_server_addr o) = true ->
  exists r, SocksUdpGw.SocksUdpGwClient_Init m DEFAULT_UDPGW_MAX_CONNECTIONS (Options.udpgw_connection_buffer_size o)
    (Options.a_socks_server_addr a) (Options.a_udpgw_remote_server_addr a) (udpgw_queue_ok env) (udpgw_socks_ok env) = Some r.
Proof using Hbuf Hserver Hudpgw.
  intros Hm [H1 H2]%orb_false_iff Hset. unfold SocksUdpGw.SocksUdpGwClient_Init. rewrite Hserver, (Hudpgw Hset).
  unfold UdpGw.UdpGwClient_Init.
  replace (negb _) with false by (unfold DEFAULT_UDPGW_MAX_CONNECTIONS; lia).
  destruct (udpgw_queue_ok env); cbn [negb]; [|by eexists].
  destruct (udpgw_socks_ok env); by eexists.
Qed.

Lemma init_udpgw_tidy s (Q : bool -> program -> Prop) : Options.is_set (Options.udpgw_remote_server_addr o) = true ->
  DeviceRead.frame_mtu (DeviceRead.device (device s)) = Options.tun_mtu o ->
  (forall m, Q false (s <| udp_mtu := m |>)) ->
  (forall m, Q true (s <| udp_mtu := m |> <| live := Udpgw_client :: live s |>)) -> tidy (init_udpgw env o a) s Q.
Proof using Hmtu Hbuf Hserver Hudpgw.
  destruct s as [l ap n b q d m hn li l6 tc nc ti lr ct]. cbn. intros Hset Hf H0 H1. unfold init_udpgw.
  tstep. apply tidy_device. unfold DeviceRead.BTap_GetMTU. hstep. hstep. hstep. split; [done|]. cbn. rewrite Hf.
  tstep. tstep. cbn. tstep. tstep. cbn. tstep; [tstep; apply H0|].
  tstep. destruct (udpgw_init_some (compute_udp_mtu o (Options.tun_mtu o))) as [r Hr]; [|done|done|].
  { apply compute_udp_mtu_range, Hmtu. }
  eapply tidy_of_option; [exact Hr|]. destruct r; [|tstep; apply H0]. tstep. tstep. tstep. apply H1.
Qed.

Lemma main_device_tidy fd s : 0 <= fd -> live s = signal_live [2; 15] ++ base pw -> signal_up (bsignal_global s) ->
  device s = DeviceRead.raw_reading -> tcp_timer s = false -> quitting s = false ->
  apart s = kept [] -> connections_tree s = ∅ -> tidy (main_device env o a fd) s (started o a pw).
Proof using All.
  intros Hfd Hl Hu Hd Hti Hq Hk Hct. assert (Hinit := init_udpgw_tidy). unfold main_device.
  destruct s as [l ap n b q d m hn li l6 tc nc ti lr ct]. cbn -[base signal_live kept] in *. subst l d q ti ap ct. unfold DeviceRead.raw_reading.
  tstep. apply tidy_device. flow_steps; try lia; (split; [done|]); cbn -[base signal_live];
    [by apply ended_started; [auto|done|apply (fail3_tidy pw)]..|].
  tstep. tstep. cbn -[base signal_live]. tstep. apply tidy_device. flow_steps. split; [done|].
  tstep. apply tidy_device. flow_steps. split; [done|]. tstep. tstep. cbn -[base signal_live].
  tstep. apply tidy_device. destruct (packet_block env) as [[p raw]|] eqn:Eb; flow_steps; (split; [done|]); cbn -[base signal_live].
  2: { apply ended_started; [auto|done|]. apply (fail4_tidy pw); [done..| |done]. by split. }
  tstep. tstep. tstep. cbn -[base signal_live].
  set (d1 := DeviceRead.mk_reading _ _ _ _ _ _).
  assert (Hquiet : quiet no_lwip d1) by (split; [done|]; by repeat constructor).
  assert (Hrest : forall m', tidy (acquire Lwip_init_job;;
      on_device DeviceRead.set_lwip_init_job no_call;;
      if negb (write_block_ok env) then fail5 o else
      acquire Write_buffer;; BReactor_SetTimer;;
      modify (fun s => s <| have_netif := false |>);;
      modify (fun s => s <| listener := false |> <| listener_ip6 := false |>);;
      modify (fun s => s <| tcp_clients := [] |> <| num_clients := 0 |>);;
      mret (Looping o a))
    (mk_program ((if Options.is_set (Options.udpgw_remote_server_addr o) then [Udpgw_client] else []) ++
        Packet_buffer :: Read_interface :: Device :: signal_live [2; 15] ++ base pw) (kept []) n b false d1 m' hn li l6 tc nc false lr ∅)
    (started o a pw)).
  { intros m'. tstep. tstep. cbn -[base signal_live d1]. tstep. apply tidy_device. unfold d1. flow_steps. split; [done|]. cbn -[base signal_live].
    tstep; [apply ended_started; [auto|done|]; apply (fail5_tidy o pw); [done|done| |by eexists|done]; split; [done|]; by repeat constructor|].
    tsteps. right. right. split; [done|]. split; [done|]. exists p. split; cbn; try done; [constructor| |by apply table_start].
    split; cbn; split_and?; try done. exists raw. split_and!; [by rewrite lookup_insert_eq|by eapply Hblock|done]. }
  destruct (Options.is_set (Options.udpgw_remote_server_addr o)) eqn:Eset.
  - eapply Hinit; [done|done|intros m'; cbn -[base signal_live d1]..].
    + apply ended_started; [auto|done|]. apply (fail4a_tidy pw); [done|done|done|by eexists|done].
    + apply (Hrest m').
  - tstep. apply (Hrest m).
Qed.

Lemma receive_descriptor_tidy l s (Q : option Z -> program -> Prop) : Accepted ∉ live s ->
  (forall fd, Descriptor fd ∈ l -> 0 <= fd) ->
  Q None s -> (forall fd, 0 <= fd -> Q (Some fd) (s <| apart := Tun_fd :: apart s |>)) -> tidy (receive_descriptor l) s Q.
Proof using.
  clear. intros Hs Hl H0 H1. assert (Hb := bool_decide_eq_false_2 _ Hs). destruct s as [lv ap n b q d m hn li l6 tc nc ti lr ct]. cbn in *.
  induction l as [|x l IH]; [by apply tidy_ret|].
  assert (Hl' : forall fd, Descriptor fd ∈ l -> 0 <= fd) by (intros fd Hfd; apply Hl; by right).
  destruct x as [| |fd]; cbn [receive_descriptor]; [by apply IH|tstep; tstep; tstep..].
  - eapply tidy_release; [reflexivity|exact Hb|reflexivity|]. by apply IH.
  - tstep. cbn. tstep. eapply tidy_release; [reflexivity|exact Hb|reflexivity|]. tstep. apply H1, Hl. left.
Qed.

(** The socket is not set up: the reactor would be freed with the pipes of the
    signals registered. *)
Lemma fail2_registered s Q : live s = signal_live [2; 15] ++ base pw -> fallible -> tidy fail2 s Q.
Proof using.
  clear. intros Hl F. left. split; [|done]. unfold fail2, BReactor_Free, mbind, handler_bind, get, ASSERT.
  destruct s as [l ap n b q d m hn li l6 tc nc ti lr ct]. cbn in Hl. subst l. cbn -[bool_decide].
  by destruct (bool_decide _), ti, pw.
Qed.

Lemma main_reactor_tidy s : live s = (if pw then [Password_contents] else []) ++ [Logger] -> device s = DeviceRead.raw_reading -> tcp_timer s = false ->
  initialized (bsignal_global s) = false -> apart s = [] -> connections_tree s = ∅ -> (socket_set_up env = false -> fallible) ->
  (forall fd, Descriptor fd ∈ accepts env -> 0 <= fd) -> tidy (main_reactor env o a) s (started o a pw).
Proof using All.
  intros Hl Hd Hti Hi Hk Hct HF Hfd. unfold main_reactor. assert (Hdev := main_device_tidy).
  destruct s as [l ap n b q d m hn li l6 tc nc ti lr ct]. cbn -[base] in *. subst l d ti ap ct.
  tstep; [apply ended_started; [auto|done|]; by apply (fail1_tidy pw)|].
  tstep. tstep. tstep. tstep. tstep. cbn -[base].
  eapply (signal_init_tidy pw); [done|done|intros b'|intros b' Hb']; cbn -[base signal_live].
  { apply ended_started; [auto|done|]. by apply (fail2_tidy pw). }
  unfold socket_set_up in HF. destruct (socket_ok env); cbn [negb andb] in *; [|by apply fail2_registered; auto].
  tstep. tstep. cbn -[base signal_live].
  destruct (bind_ok env); cbn [negb andb] in *.
  2: { tstep. eapply tidy_release; [reflexivity|by destruct pw|done|]. apply fail2_registered; auto. }
  destruct (listen_ok env); cbn [negb andb] in *.
  2: { tstep. eapply tidy_release; [reflexivity|by destruct pw|done|]. apply fail2_registered; auto. }
  tstep. apply receive_descriptor_tidy; [|done|..].
  - cbn. destruct pw; set_solver.
  - tstep. right. by left.
  - intros fd Hf. tstep. eapply tidy_release; [reflexivity|by destruct pw|done|]. by apply Hdev.
Qed.
End start.

Section main_start.
Context `{Abi} (channels : list bytes) (fs : Options.files) (getaddrinfo : AddrText.resolver) (quad : bytes)
  (env : environment) (argv : list bytes).
Hypotheses (Hfs : Options.files_wf fs) (Hquad : len quad = 4) (Hsys : system_ok channels env argv)
  (HF : socket_set_up env = false -> fallible).

Definition addresses_ok (a : addresses) : Prop :=
  Options.is_ipv4 (Options.a_netif_ipaddr a) = true /\ Options.is_ipv4 (Options.a_netif_netmask a) = true.

(** What [main] has come to when it does not return from its start. *)
Definition start_ended (r : outcome) (s : program) : Prop :=
  returned r s \/ r = Accepting /\ apart s = [] \/ (exists o a pw, started o a pw r s /\ addresses_ok a /\ 0 < Options.tun_mtu o /\ Options.parse_arguments channels argv = Some (Some o)) \/
  (exists c, r = Exited c /\ live s = [Logger] /\ apart s = []) \/
  (r = Returned 0 /\ live s = [] /\ DeviceRead.pending (device s) = [] /\ tcp_timer s = false /\ left_ok s /\
     exists o, Options.parse_arguments channels argv = Some (Some o) /\ Options.help o || Options.version o = true).

Lemma configure_channels_tidy level levels i s (Q : unit -> program -> Prop) : Q tt s -> tidy (configure_channels level levels i) s Q.
Proof using.
  revert i. induction levels as [|l levels IH]; intros i HQ; cbn [configure_channels]; [by tstep|].
  tstep. repeat (tstep; [tstep; by apply IH|]). tstep. by apply IH.
Qed.

Lemma network_tidy ok s (Q : bool -> program -> Prop) : bnetwork_initialized s = false ->
  (forall b, Q ok (s <| bnetwork_initialized := b |>)) -> tidy (BNetwork_GlobalInit ok) s Q.
Proof using.
  intros Hb HQ. unfold BNetwork_GlobalInit. tstep. tstep. tstep. tstep; [by rewrite Hb|].
  destruct ok; cbn [negb]; [tstep; tstep; tstep; apply (HQ true)|tstep]. by destruct s; apply (HQ bnetwork_initialized0).
Qed.

Lemma main_logged_tidy o s : Options.parse_arguments channels argv = Some (Some o) -> Options.help o = false -> Options.version o = false ->
  live s = [Logger] -> device s = DeviceRead.raw_reading -> initialized (bsignal_global s) = false -> bnetwork_initialized s = false ->
  tcp_timer s = false -> apart s = [] -> connections_tree s = ∅ ->
  tidy (main_logged fs getaddrinfo quad env o) s start_ended.
Proof using Hfs Hquad Hsys HF.
  assert (Hend : forall h s', apart s' = [] -> connections_tree s' = ∅ -> tidy h s' (ended (apart s') (connections_tree s')) -> tidy h s' start_ended).
  { intros h s' Hk Ht Hh. eapply tidy_mono; [apply ended_returned; [by apply start_left; [left|]|exact Hh]|by left]. }
  destruct s as [l ap n b q d m hn li l6 tc nc ti lr ct]. cbn. intros Hp Hh Hv -> -> Hi -> -> -> ->. unfold main_logged. tstep. apply configure_channels_tidy. tstep.
  assert (Hexit : tidy (match Options.pid o with Some _ => daemonize (fork env) | None => mret None end) (mk_program [Logger] [] false b q DeviceRead.raw_reading m hn li l6 tc nc false lr ∅)
    (fun _ s' => s' = mk_program [Logger] [] false b q DeviceRead.raw_reading m hn li l6 tc nc false lr ∅)).
  { unfold daemonize. destruct (Options.pid o); [|by tstep]. destruct (fork env); tsteps; done. }
  eapply tidy_mono; [exact Hexit|]. intros [c|] _ ->; [tstep; right; right; right; left; by exists c|].
  tstep. apply network_tidy; [done|]. intros n. cbn. tstep; [apply Hend; [done|done|]; by apply (fail1_tidy false)|].
  tstep. destruct (Options.arguments_processed fs getaddrinfo quad channels argv o Hfs Hquad Hp Hh Hv) as (r & Hr & Hok).
  eapply tidy_of_option; [exact Hr|]. tstep.
  assert (Hgo : forall pw : bool, tidy (match r with None => fail1 | Some a => main_reactor env o a end)
    (mk_program ((if pw then [Password_contents] else []) ++ [Logger]) [] n b q DeviceRead.raw_reading m hn li l6 tc nc false lr ∅) start_ended).
  { intros pw. destruct r as [a|]; [|apply Hend; [done|done|]; by apply (fail1_tidy pw)].
    destruct (Hok a eq_refl) as (Ha1 & Ha2 & _ & Hs & Hu & _). destruct (Options.OptionsProofs.parsed_numbers_ok _ _ _ Hp) as [? ?].
    eapply tidy_mono; [eapply (main_reactor_tidy env o a pw); try done; try lia; try apply Hsys|].
    - intros Hset. apply Hu. unfold Options.is_set in Hset. destruct (Options.udpgw_remote_server_addr o); [by eexists|done].
    - intros p raw. by eapply e_block.
    - intros r s' Hst. right; right; left. exists o, a, pw. split_and!; try done. lia. }
  tstep; tstep; [apply (Hgo true)|apply (Hgo false)].
Qed.

Lemma raw_left : left_ok raw_program.
Proof using. apply start_left; [by left|done]. Qed.
Lemma raw_returned : returned (Returned 1) raw_program.
Proof using. split_and!; try done. exact raw_left. Qed.
Lemma main_start_tidy : tidy (main_start channels fs getaddrinfo quad env argv) raw_program start_ended.
Proof using Hfs Hquad Hsys HF.
  assert (Hm := main_logged_tidy). unfold main_start.
  assert (argv = [] \/ exists argv0 args, argv = argv0 :: args) as [->|(argv0 & args & Ea)]
    by (destruct argv; [by left|right; by eexists _, _]); [tstep; left; exact raw_returned|].
  rewrite Ea. rewrite <- Ea at 1. tstep. destruct (Options.parse_arguments channels argv) as [[o|]|] eqn:Ep; [| |by destruct (e_numbers _ _ _ Hsys)].
  - eapply tidy_of_option; [done|].
    assert (Hrest : tidy (if Options.help o || Options.version o then mret (Returned 0) else
          match Options.logger o with
          | Options.LOGGER_SYSLOG => if negb (syslog_ok env) then fail0 else acquire Logger;; main_logged fs getaddrinfo quad env o
          | Options.LOGGER_STDOUT => acquire Logger;; main_logged fs getaddrinfo quad env o
          end) raw_program start_ended).
    { tstep; [tstep; do 4 right; split_and!; try done; [exact raw_left|exists o; by split]|].
      destruct (orb_false_elim _ _ H0). destruct (Options.logger o); [|tstep; [unfold fail0; tstep; left; exact raw_returned|]]; tstep; tstep; by apply Hm. }
    cbv beta iota. tstep. tstep; [|by tstep]. tstep. tstep; [|by tstep].
    assert (Hname := e_name _ _ _ Hsys o Ep H0). rewrite Ea in Hname. cbn [hd] in Hname. lia.
  - eapply tidy_of_option; [done|]. unfold fail0. tstep. left. exact raw_returned.
Qed.
End main_start.
(** *** Events *)

Definition rest (o : options) (pw : bool) : list resource := Write_buffer :: lower o pw.
Definition on_top (r : resource) : Prop :=
  match r with Netif | Pcb | Listener | Listener_ip6 | Client _ => True | _ => False end.
Lemma rest_without r o pw : on_top r -> r ∉ rest o pw.
Proof.
  unfold rest, lower. intros Hr Hin. destruct (Options.is_set _), pw; cbn in Hin; repeat apply elem_of_cons in Hin as [->|Hin]; try done;
    by apply elem_of_nil in Hin.
Qed.
Lemma lwip_live_without r s : r = Pcb \/ is_client r = true -> r ∉ lwip_live s.
Proof.
  unfold lwip_live. intros Hr. destruct (listener_ip6 s), (listener s), (have_netif s); cbn; rewrite ?elem_of_cons, ?elem_of_nil;
    destruct r; naive_solver.
Qed.
Lemma tidy_device_calls {A} (h : DeviceRead.hdl A) k s (Q : A -> program -> Prop) :
  wp h (device s) (fun a d l => tidy (foldr (fun o rest => k o;; rest) (mret a) l) (s <| device := d |>) Q) -> tidy (on_device h k) s Q.
Proof. unfold tidy, on_device, wp. by destruct (h (device s)) as [[[a d] l]|]. Qed.

Lemma terminate_tidy s (Q : unit -> program -> Prop) : quitting s = false -> Q tt (s <| quitting := true |>) -> tidy terminate s Q.
Proof. intros Hq HQ. unfold terminate, not_quitting. tstep. tstep. tstep. tstep; [by rewrite Hq|]. tstep. tstep. by tstep. Qed.
Lemma not_quitting_tidy s (Q : unit -> program -> Prop) : quitting s = false -> Q tt s -> tidy not_quitting s Q.
Proof. intros Hq HQ. unfold not_quitting. tstep. tstep. tstep; [by rewrite Hq|done]. Qed.

Lemma open_listener_tidy a r (f : bool -> program -> program) s (Q : bool -> program -> Prop) :
  (forall b l s, f b (s <| live := l |>) = f b s <| live := l |>) -> (forall b s, apart (f b s) = apart s) ->
  is_apart r = false -> Pcb ∉ live s ->
  Q false s -> Q false (f false s) -> Q true (f true s <| live := r :: live s |>) ->
  tidy (open_listener a r (fun b => modify (f b))) s Q.
Proof.
  intros Hf Hap Har Hp H0 H1 H2. assert (Hb := bool_decide_eq_false_2 _ Hp).
  assert (Hs : s <| live := live s |> = s) by by destruct s.
  assert (Hl : forall b l s, live (f b (s <| live := l |>)) = l) by (intros b l s'; by rewrite Hf).
  assert (Hlive : forall b s, live (f b s) = live s) by (intros b s'; transitivity (live (f b (s' <| live := live s' |>))); [by destruct s'|apply Hl]).
  unfold open_listener. tstep; [by tstep|]. tstep. tstep.
  assert (Hrel : forall s' (P : unit -> program -> Prop), live s' = Pcb :: live s -> P tt (s' <| live := live s |>) -> tidy (release Pcb) s' P).
  { intros s' P Hl' HP. eapply tidy_release; [exact Hl'|exact Hb|done|exact HP]. }
  tstep; [tstep; apply Hrel; [done|tstep; by destruct s]|].
  tstep.
  - tstep. apply tidy_modify; [unfold held; by rewrite Hlive, Hap|]. rewrite Hf. tstep. apply Hrel; [done|]. tstep.
    replace (_ <| live := live s |>) with (f false s); [done|]. rewrite <- Hs at 1. by rewrite Hf.
  - tstep. apply Hrel; [done|]. tstep. apply tidy_acquire; [done|]. tstep. apply tidy_modify; [unfold held; by rewrite Hlive, Hap|]. rewrite Hf. tstep.
    tstep. tstep. replace (_ <| live := _ |>) with (f true s <| live := r :: live s |>); [done|]. by destruct s; rewrite <- !Hf.
Qed.

Section events.
Context `{Abi} (o : options) (a : addresses) (pw : bool) (mtu : Z) (buf : nat).
Hypotheses (Hmtu : 0 <= mtu) (Haddr : Options.is_ipv4 (Options.a_netif_ipaddr a) = true)
  (Hmask : Options.is_ipv4 (Options.a_netif_netmask a) = true).
Abbreviation ready := (ready o pw mtu buf).

Lemma ready_device s d st st' : ready s st -> DeviceRead.at_stage mtu buf d st' -> (st = DeviceRead.First <-> st' = DeviceRead.First) ->
  ready (s <| device := d |>) st'.
Proof using.
  destruct s as [l ap n b q d0 m hn li l6 tc nc ti lr ct]. intros [H1 H2 H3 Hti Hnc H4 H5 H6] Hd Hst. split; try done. cbn in *.
  destruct st, st'; try done; by destruct Hst as [Ha Hb]; (discriminate (Ha eq_refl) || discriminate (Hb eq_refl)).
Qed.

Lemma fail_tidy s (Q : unit -> program -> Prop) : quitting s = false -> Q tt (s <| quitting := true |>) ->
  tidy (q ← gets quitting; if negb q then terminate else mret tt) s Q.
Proof using. intros Hq HQ. tstep. tstep. rewrite Hq. cbn. by apply terminate_tidy. Qed.

Ltac ready_done := split; cbn; try done.
Lemma lwip_init_tidy w s d : ready s DeviceRead.First -> DeviceRead.at_stage mtu buf d DeviceRead.Recv_op ->
  quitting s = false ->
  tidy (lwip_init_job_hadler o a w) (s <| device := d |>) (fun _ s' => ready s' DeviceRead.Recv_op).
Proof using Haddr Hmask.
  destruct s as [l ap n b q d0 m hn li l6 tc nc ti lr ct]. intros [H1 H2 H3 Hti Hnc _ (E1 & E2 & E3 & E4) H6] Hd Hq. cbn in *. subst hn li l6 tc l q.
  change (Write_buffer :: lower o pw) with (rest o pw) in *. unfold lwip_init_job_hadler.
  tstep. apply not_quitting_tidy; [done|]. tstep. tstep. do 5 (tstep; tstep; [done|]). tstep. tstep. tstep. tstep.
  tstep; [apply fail_tidy; [done|]; by ready_done|]. tstep. tstep. tstep. tstep. cbn -[rest].
  assert (Hp : Pcb ∉ Netif :: rest o pw) by (apply not_elem_of_cons; split; [done|by apply rest_without]).
  tstep. apply open_listener_tidy; [done|done|done|done|cbn [negb]..]; [apply fail_tidy; [done|]; by ready_done..|].
  assert (Hp' : Pcb ∉ Listener :: Netif :: rest o pw) by (apply not_elem_of_cons; by split).
  tstep; [|tstep; by ready_done]. tstep. apply open_listener_tidy; [done|done|done|done|cbn [negb]..]; [apply fail_tidy; [done|]; by ready_done..|].
  tstep. by ready_done.
Qed.

Lemma device_tidy e w s st : ready s st -> quitting s = false -> DeviceRead.event_ok (device s) e = true ->
  tidy (on_device (DeviceRead.exec e) (device_call o a w)) s (fun _ s' => exists st', ready s' st').
Proof using All.
  intros Hs Hq He. apply tidy_device_calls. eapply wp_mono; [by apply (read_exec_stage mtu buf Hmtu _ _ _ (r_device _ _ _ _ _ _ Hs))|].
  intros [] d l (st' & Hd & Hcalls & _).
  destruct l as [|[| |data|data| |data|] [|[] [|? ?]]]; try done; cbn [foldr device_call].
  - tstep. exists st'. apply (ready_device _ _ st); naive_solver.
  - destruct Hcalls as [-> ->]. tstep. eapply tidy_mono; [by apply lwip_init_tidy|]. intros [] s' Hs'. tstep. by eexists.
  - destruct Hcalls as (H1 & H2). assert (Hr : lwip_ready s = true) by (destruct Hs as [_ _ _ _ _ _ Hs _]; by destruct st).
    tstep. tstep. apply not_quitting_tidy; [done|]. tstep. tstep. tstep. tstep; [done|]. tstep. tstep.
    exists st'. apply (ready_device _ _ st); naive_solver.
  - tstep. tstep. tstep. exists st'. apply (ready_device _ _ st); naive_solver.
  - tstep. tstep. tstep. unfold device_error_handler. tstep. apply not_quitting_tidy; [done|].
    apply terminate_tidy; [done|]. tstep. exists st'.
    destruct (ready_device s d st _ Hs Hd) as [H1 H2 H3 Hti Hnc H4 H5 H6]; [done|]. by split.
Qed.

Lemma elem_of_clients r (l : list nat) : r ∈ rev (map Client l) <-> exists n, r = Client n /\ n ∈ l.
Proof using. rewrite list_elem_of_In, <- in_rev, <- list_elem_of_In. apply list_elem_of_fmap. Qed.
(** What is held below the clients and lwIP's objects is in [rest]. *)
Lemma live_below s st r : ready s st -> ~ on_top r -> r ∈ live s <-> r ∈ rest o pw.
Proof using.
  intros [-> _ _ _ _ _ _ _] Hr. rewrite !elem_of_app, elem_of_clients. split; [|by auto].
  intros [(n & -> & _)|[Hl|]]; [by destruct Hr| |done]. unfold lwip_live in Hl.
  destruct (listener_ip6 s), (listener s), (have_netif s); cbn in Hl; repeat (apply elem_of_cons in Hl as [->|Hl]; [by destruct Hr|]);
    by apply elem_of_nil in Hl.
Qed.
Lemma rest_signal r : r ∈ rest o pw -> match r with Handler_installed n | Pipe_registered n => n = SIGINT \/ n = SIGTERM | _ => True end.
Proof using.
  unfold rest, lower. intros Hin. destruct (Options.is_set _), pw; cbn in Hin; repeat apply elem_of_cons in Hin as [->|Hin]; auto;
    by apply elem_of_nil in Hin.
Qed.
Lemma signal_rest signo : signo = SIGINT \/ signo = SIGTERM ->
  Pipe_write signo ∈ rest o pw /\ Pipe_read signo ∈ rest o pw /\ Handler_installed signo ∈ rest o pw /\ Pipe_registered signo ∈ rest o pw.
Proof using.
  intros Hs. split_and!; unfold rest, lower; destruct (Options.is_set _); eapply bool_decide_eq_true_1; by destruct Hs as [-> | ->], pw.
Qed.

Lemma signal_up_pipe b signo n : signal_up b -> signal_up (b <| signal := signal b <| pipes := <[signo := n]> (pipes (signal b)) |> |>).
Proof using.
  intros (H1 & H2 & H3 & H4 & H5). split_and!; try done; cbn; rewrite lookup_insert_is_Some'; by right.
Qed.

Lemma ready_pipes s st signo n : ready s st ->
  ready (s <| bsignal_global := bsignal_global s <| signal :=
    signal (bsignal_global s) <| pipes := <[signo := n]> (pipes (signal (bsignal_global s))) |> |> |>) st.
Proof using. destruct s. intros [H1 H2 H3 Hti Hnc H4 H5 H6]. split; try done. by apply signal_up_pipe. Qed.
Lemma ready_quit s st : ready s st -> ready (s <| quitting := true |>) st.
Proof using. destruct s. by intros [H1 H2 H3 Hti Hnc H4 H5 H6]; split. Qed.

(** A signal that is handled leaves a byte in its pipe, even if the pipe is full. *)
Lemma deliver_tidy signo room s st : ready s st -> quitting s = false ->
  tidy (deliver signo room) s (fun _ s' => ready s' st /\ quitting s' = false /\
    (signo = SIGINT \/ signo = SIGTERM -> exists n, pipes (signal (bsignal_global s')) !! signo = Some (S n))).
Proof using.
  intros Hs Hq. unfold deliver. tstep. tstep. tstep.
  2: { tstep. split_and!; [done..|]. intros Hn. apply bool_decide_eq_false_1 in H0. destruct H0.
       apply (live_below _ _ (Handler_installed signo) Hs (fun x => x)). by apply signal_rest. }
  apply bool_decide_eq_true_1 in H0.
  assert (Hn := rest_signal _ (proj1 (live_below _ _ (Handler_installed signo) Hs (fun x => x)) H0)). cbn in Hn.
  destruct (r_signal _ _ _ _ _ _ Hs) as (_ & _ & He & Hp1 & Hp2).
  tstep. tstep; [by destruct Hn as [-> | ->]|]. tstep. tstep; [rewrite He; by destruct Hn as [-> | ->]|]. tstep. tstep.
  { apply bool_decide_eq_true_2, (live_below _ _ (Pipe_write signo) Hs (fun x => x)). by apply signal_rest. }
  tstep. assert (Hp : exists n, pipes (signal (bsignal_global s)) !! signo = Some n) by (destruct Hn as [-> | ->]; by destruct Hp1, Hp2; eexists).
  destruct Hp as [n Hp]. eapply tidy_of_option; [exact Hp|]. tstep; tstep.
  - split_and!; [by apply ready_pipes|done|]. intros _. exists n. apply lookup_insert_eq.
  - apply orb_false_iff in H1 as [_ Hne%bool_decide_eq_false_1]. split_and!; [done..|]. destruct n as [|n]; [done|]. by exists n.
Qed.

Lemma signal_ready_tidy signo error s st : ready s st -> quitting s = false -> Pipe_registered signo ∈ live s ->
  tidy (pipe_read_fd_handler signo error) s (fun _ s' => ready s' st /\
    (forall n, error = false -> pipes (signal (bsignal_global s)) !! signo = Some (S n) -> quitting s' = true)).
Proof using.
  intros Hs Hq Hr. assert (Hn := rest_signal _ (proj1 (live_below _ _ (Pipe_registered signo) Hs (fun x => x)) Hr)). cbn in Hn.
  destruct (r_signal _ _ _ _ _ _ Hs) as (Hi & Hf & He & Hp1 & Hp2).
  unfold pipe_read_fd_handler. tstep. tstep. tstep. tstep.
  { apply bool_decide_eq_true_2, (live_below _ _ (Pipe_read signo) Hs (fun x => x)). by apply signal_rest. }
  tstep. assert (Hp : exists n, pipes (signal (bsignal_global s)) !! signo = Some n) by (destruct Hn as [-> | ->]; by destruct Hp1, Hp2; eexists).
  destruct Hp as [n Hp]. eapply tidy_of_option; [exact Hp|].
  destruct n as [|n]; [tstep; split; [done|]; intros n _; by rewrite Hp|]. tstep; [tstep; by split; [|intros n' ?; congruence]|].
  tstep. tstep. unfold unix_signal_handler, signal_handler. tstep. tstep; [by destruct Hn as [-> | ->]|]. tstep. tstep.
  tstep. tstep; [done|]. tstep. tstep; [cbn; by rewrite Hf|]. tstep. apply not_quitting_tidy; [done|]. apply terminate_tidy; [done|].
  split; [|done]. by apply ready_quit, ready_pipes.
Qed.

Lemma timer_tidy s st : ready s st -> quitting s = false -> DeviceRead.pending (device s) = [] ->
  tidy (BReactor_RemoveTimer;; tcp_timer_handler) s (fun _ s' => ready s' st).
Proof using.
  destruct s as [l ap bn b q d m hn li l6 tc nc ti lr ct]. intros [H1 H2 H3 Hti Hnc H4 H5 H6] Hq Hp. unfold tcp_timer_handler.
  tstep. tstep. tstep. apply not_quitting_tidy; [done|]. tstep. tstep. tstep. tstep. tstep.
  tstep; [destruct H4 as [Hj _ _ _ _]; cbn in *; rewrite Hp in Hj; by destruct st|]. tstep. by split.
Qed.

Lemma client_opened_tidy n s st : ready s st -> quitting s = false -> listener s || listener_ip6 s = true -> n ∉ tcp_clients s ->
  tidy (client_opened n) s (fun _ s' => ready s' st).
Proof using.
  destruct s as [l ap bn b q d m hn li l6 tc nc ti lr ct]. intros [H1 H2 H3 Hti Hnc H4 H5 H6] Hq Hli Hn. cbn in *. subst l q.
  unfold client_opened. tstep. tstep. tstep. tstep. tstep. tstep. tstep. tstep; [cbn; lia|]. tstep. split; cbn; try done.
  - by rewrite map_app, rev_app_distr.
  - apply NoDup_app. split_and!; [done| |apply NoDup_singleton]. by intros x Hx ->%list_elem_of_singleton.
  - rewrite length_app. cbn. lia.
  - destruct st; try done. destruct H5 as (_ & -> & -> & _). done.
Qed.

Lemma filter_clients n (l : list nat) :
  filter (fun x => x <> Client n) (rev (map Client l)) = rev (map Client (filter (fun x => x <> n) l)).
Proof using.
  induction l as [|x l IH]; [done|]. cbn. rewrite filter_app, IH. rewrite !filter_cons, filter_nil.
  destruct (decide (x = n)) as [->|Hx].
  - rewrite decide_False, decide_False by auto. apply app_nil_r.
  - rewrite !decide_True by congruence. done.
Qed.
Lemma length_filter_out (n : nat) l : NoDup l -> n ∈ l -> S (length (filter (fun x => x <> n) l)) = length l.
Proof using.
  induction 1 as [|x l Hx _ IH]; [by intros ?%elem_of_nil|]. rewrite filter_cons. destruct (decide (x = n)) as [->|Hne].
  - intros _. rewrite decide_False by auto. by rewrite filter_out.
  - rewrite decide_True by done. intros [->|Hn]%elem_of_cons; [done|]. cbn. by rewrite IH.
Qed.
Lemma client_removed_tidy n s st : ready s st -> n ∈ tcp_clients s ->
  tidy (client_removed n) s (fun _ s' => ready s' st /\
    s' = s <| tcp_clients := filter (fun x => x <> n) (tcp_clients s) |> <| num_clients := num_clients s - 1 |>
           <| live := filter (fun x => x <> Client n) (live s) |>).
Proof using.
  destruct s as [l ap bn b q d m hn li l6 tc nc ti lr ct]. intros [H1 H2 H3 Hti Hnc H4 H5 H6] Hn. cbn in *. subst l.
  unfold client_removed. assert (Hlen := length_filter_out n tc H2 Hn).
  tstep. tstep. tstep. tstep; [cbn; lia|]. tstep. tstep. tstep. tstep. tstep.
  { cbn. rewrite elem_of_app. left. apply elem_of_clients. by exists n. }
  split; [|done]. split; cbn; try done.
  - rewrite filter_app, filter_clients. f_equal. apply filter_out, not_elem_of_app. split; [|by apply rest_without].
    apply (lwip_live_without _ (mk_program [] ap bn b q d m hn li l6 tc nc ti lr ct)). by right.
  - by apply NoDup_filter.
  - lia.
  - destruct st; try done. destruct H5 as (-> & -> & -> & ->). done.
Qed.

Lemma ready_table s st k t : ready s st -> table_ok (s <| apart := k |> <| connections_tree := t |>) ->
  ready (s <| apart := k |> <| connections_tree := t |>) st.
Proof using. destruct s. intros [H1 H2 H3 Hti Hnc H4 H5 _] Ht. by split. Qed.
Lemma table_insert s port (con : DevicePackets.Connection) : table_ok s -> DevicePackets.con_port con = port ->
  table_ok (s <| apart := (if connections_tree s !! port is Some _ then [] else [Dns_node port]) ++ apart s |>
              <| connections_tree := <[port := con]> (connections_tree s) |>).
Proof using.
  intros (ports & Hk & Hn & Hp & Hc) Hcon. exists ((if connections_tree s !! port is Some _ then [] else [port]) ++ ports). split_and!; cbn.
  - rewrite Hk. by destruct (_ !! _).
  - destruct (_ !! port) eqn:E; [done|]. constructor; [|done]. rewrite Hp, E. by intros [].
  - intros q. rewrite lookup_insert_is_Some', elem_of_app, Hp. destruct (_ !! port) eqn:E.
    + rewrite elem_of_nil. split; [tauto|]. intros [<-|]; [|tauto]. right. by rewrite E.
    + rewrite list_elem_of_singleton. intuition congruence.
  - intros q c [[<- <-]|[_ Hq]]%lookup_insert_Some; [done|by apply Hc].
Qed.
Lemma dns_query_tidy la ra port s st : ready s st ->
  tidy (dns_query true la ra port) s (fun _ s' => ready s' st).
Proof using.
  intros Hs. assert (Ht := r_table _ _ _ _ _ _ Hs). unfold dns_query, DevicePackets.insert_connection, DevicePackets.find_connection.
  tstep. tstep. assert (Hcp : forall q c, connections_tree s !! q = Some c -> DevicePackets.con_port c = q) by (destruct Ht as (? & _ & _ & _ & Hx); exact Hx).
  destruct (connections_tree s !! port) as [con|] eqn:E.
  - tstep. tstep. tstep. eapply tidy_of_option; [done|]. tstep.
    assert (Hi := fun c Hc => ready_table s st _ _ Hs (table_insert s port c Ht Hc)). rewrite E in Hi.
    specialize (Hcp _ _ E). destruct s. by apply Hi.
  - tstep. tstep. tstep; [done|]. tstep. tstep. eapply tidy_of_option; [done|]. tstep.
    assert (Hi := fun c Hc => ready_table s st _ _ Hs (table_insert s port c Ht Hc)). rewrite E in Hi.
    destruct s. by apply Hi.
Qed.

Lemma kept_without port ports : filter (fun x => x <> Dns_node port) (kept ports) = kept (filter (fun q => q <> port) ports).
Proof using.
  unfold kept. rewrite filter_app. f_equal.
  induction ports as [|q ports IH]; [done|]. cbn [map]. rewrite !filter_cons, IH.
  destruct (decide (q = port)) as [->|Hq]; [by rewrite !decide_False by auto|by rewrite !decide_True by congruence].
Qed.
Lemma table_delete s port : table_ok s -> table_ok (s <| apart := filter (fun x => x <> Dns_node port) (apart s) |>
  <| connections_tree := delete port (connections_tree s) |>).
Proof using.
  intros (ports & Hk & Hn & Hp & Hc). exists (filter (fun q => q <> port) ports). split_and!; cbn.
  - by rewrite Hk, kept_without.
  - by apply NoDup_filter.
  - intros q. rewrite list_elem_of_filter, Hp, lookup_delete_is_Some. intuition congruence.
  - intros q c [_ Hq]%lookup_delete_Some. by apply Hc.
Qed.
Lemma table_node s port : table_ok s -> is_Some (connections_tree s !! port) -> Dns_node port ∈ apart s.
Proof using.
  intros (ports & -> & _ & Hp & _) Hx%Hp. apply elem_of_app. left. by apply list_elem_of_fmap_2.
Qed.
Lemma dns_answer_tidy port s st : ready s st -> tidy (dns_answer port) s (fun _ s' => ready s' st).
Proof using.
  intros Hs. assert (Ht := r_table _ _ _ _ _ _ Hs). unfold dns_answer, DevicePackets.find_connection, DevicePackets.remove_connection.
  tstep. tstep. destruct (connections_tree s !! port) as [con|] eqn:E; [|by tstep]. tstep. tstep. cbn -[to_int].
  assert (Hcp : DevicePackets.con_port con = port) by (destruct Ht as (? & _ & _ & _ & Hx); by apply Hx). rewrite Hcp.
  destruct (_ <=? 0).
  - rewrite lookup_delete_eq. apply tidy_release_node; [apply (table_node s port Ht); by eexists|].
    assert (Hx := ready_table s st _ _ Hs (table_delete s port Ht)). destruct s. exact Hx.
  - rewrite lookup_insert_eq. tstep.
    assert (Hi := fun c Hc => ready_table s st _ _ Hs (table_insert s port c Ht Hc)). rewrite E in Hi.
    destruct s. by apply Hi.
Qed.

Lemma handle_tidy e s st : ready s st -> quitting s = false -> event_ok s e = true ->
  tidy (handle o a e) s (fun _ s' => exists st', ready s' st').
Proof using All.
  intros Hs Hq He. assert (Hd := device_tidy).
  assert (Hst : forall h : hdl unit, tidy h s (fun _ s' => ready s' st) -> tidy h s (fun _ s' => exists st', ready s' st')).
  { intros h Hh. eapply tidy_mono; [exact Hh|]. by eexists. }
  destruct e as [e w| |signo room|signo error|n|n|mok la ra port|port]; cbn [handle event_ok] in *.
  - by eapply Hd.
  - apply andb_true_iff in He as [_ He%bool_decide_eq_true_1]. by apply Hst, timer_tidy.
  - apply Hst. eapply tidy_mono; [by apply deliver_tidy|]. by intros [] s' [Hr _].
  - apply bool_decide_eq_true_1 in He. apply Hst. eapply tidy_mono; [by apply signal_ready_tidy|]. by intros [] s' [Hr _].
  - apply andb_true_iff in He as [Hl Hn%bool_decide_eq_true_1]. by apply Hst, client_opened_tidy.
  - apply bool_decide_eq_true_1 in He. eapply tidy_mono; [by apply client_removed_tidy|]. intros [] s' [Hr _]. by eexists.
  - apply andb_true_iff in He as [_ ->]. by apply Hst, dns_query_tidy.
  - by apply Hst, dns_answer_tidy.
Qed.

(** What the events [evs] have led to, and what more follows. *)
Lemma loop_tidy evs evs' s st (Q : bool -> program -> Prop) : ready s st -> legal o a evs s = true ->
  (forall s' st', ready s' st' -> quitting s' = true -> Q true s') ->
  (forall s' st', ready s' st' -> quitting s' = false -> tidy (loop o a evs') s' Q) ->
  tidy (loop o a (evs ++ evs')) s Q.
Proof using All.
  intros Hs Hl Hquit Hmore. revert s st Hs Hl. induction evs as [|e evs IH]; intros s st Hs Hl; cbn [app].
  { destruct (quitting s) eqn:Eq; [|by eapply Hmore]. destruct evs'; cbn [loop]; tstep; tstep; rewrite Eq; tstep; by eapply Hquit. }
  cbn [loop legal] in *. tstep. tstep. tstep; [tstep; by eapply Hquit|].
  rewrite H0 in Hl. cbn [orb] in Hl. apply andb_true_iff in Hl as [He Hl].
  assert (Hh := handle_tidy e s st Hs H0 He). apply tidy_spec in Hh as [[Ex F]|([] & s1 & l1 & Ex & Hb & st1 & Hs1)].
  { left. split; [|done]. unfold mbind, handler_bind. by rewrite Ex. }
  rewrite Ex in Hl. eapply tidy_known; [exact Ex|exact Hb|]. by eapply IH.
Qed.

Lemma signal_ends_loop signo room s st : signo = SIGINT \/ signo = SIGTERM -> ready s st -> quitting s = false ->
  tidy (loop o a [Signal signo room; Signal_ready signo false]) s (fun b s' => b = true /\ quitting s' = true /\ exists st', ready s' st').
Proof using.
  intros Hsig Hs Hq. cbn [loop handle]. tstep. tstep. rewrite Hq. tstep. eapply tidy_mono; [by apply deliver_tidy|].
  intros [] s1 (Hs1 & Hq1 & Hp). destruct (Hp Hsig) as [n Hn]. tstep. tstep. rewrite Hq1. tstep.
  eapply tidy_mono; [apply (signal_ready_tidy signo false s1 st Hs1 Hq1)|].
  { apply (live_below _ _ (Pipe_registered signo) Hs1 (fun x => x)). by apply signal_rest. }
  intros [] s2 [Hs2 Hq2]. tstep. tstep. rewrite (Hq2 n) by done. tstep. split_and!; [done|by apply (Hq2 n)|by eexists].
Qed.

(** *** The end *)

Lemma murder_clients_tidy fuel s st : ready s st -> fuel = length (tcp_clients s) ->
  tidy (murder_clients fuel) s (fun _ s' => ready s' st /\ tcp_clients s' = []).
Proof using.
  revert s. induction fuel as [|fuel IH]; intros s Hs Hf; cbn [murder_clients]; tstep; tstep.
  { destruct (tcp_clients s) eqn:El; [by tstep|done]. }
  destruct (tcp_clients s) as [|n l] eqn:El; [done|]. assert (Hn := r_clients _ _ _ _ _ _ Hs). rewrite El in Hn.
  apply NoDup_cons in Hn as [Hn _].
  tstep. eapply tidy_mono; [apply client_removed_tidy; [done|rewrite El; left]|]. intros [] s' [Hr Hs']. apply IH; [done|].
  rewrite Hs'. cbn. rewrite El, filter_cons_False by (intros []; done). rewrite filter_out by done. by injection Hf.
Qed.

Lemma tcp_remove_tidy ls s (Q : unit -> program -> Prop) : Q tt s -> tidy (tcp_remove_all ls) s Q.
Proof using.
  intros HQ. induction ls as [|l ls IH]; cbn [tcp_remove_all]; [by tstep|]. tstep.
  clear HQ. induction l as [|x l IHl]; cbn [tcp_remove]; [by tstep|]. tstep. by tstep.
Qed.

Lemma tidy_release_opt (b : bool) r l s (Q : unit -> program -> Prop) : live s = (if b then [r] else []) ++ l -> r ∉ l ->
  is_scoped r = true -> Q tt (s <| live := l |>) -> tidy (if b then release r else mret tt) s Q.
Proof using.
  intros Hl Hr Hc HQ. destruct b; [eapply tidy_release; [exact Hl|by apply bool_decide_eq_false_2|done|done]|].
  tstep. destruct s. cbn in *. by subst.
Qed.
Lemma freed_empty t : DevicePackets.free_connections t = ∅.
Proof using.
  unfold DevicePackets.free_connections. apply map_eq. intros k. rewrite lookup_empty.
  destruct (t !! k) as [c|] eqn:E.
  - apply lookup_foldr_delete. apply list_elem_of_fmap. exists (k, c). split; [done|]. by apply elem_of_map_to_list.
  - rewrite lookup_foldr_delete_not_elem_of; [done|]. intros ((k', c) & -> & Hc)%list_elem_of_fmap.
    apply elem_of_map_to_list in Hc. cbn in E. congruence.
Qed.
(** The nodes of the table stay. *)
Lemma main_finish_tidy env s st : ready s st -> tidy (main_finish env o) s returned.
Proof using.
  intros Hs. clear Hmtu Haddr Hmask a. unfold main_finish. tstep. tstep. tstep. eapply tidy_mono; [by apply murder_clients_tidy|].
  intros [] s' [[H1 H2 H3 _ _ H4 H5 H6] Ht]. rewrite Ht in H1. cbn [rev map app] in H1.
  destruct s' as [l ap n b q d m hn li l6 tc nc ti lr ct]. cbn -[lower] in *. subst l tc.
  assert (Hrest : forall r, on_top r -> r ∉ rest o pw) by (intros r Hr; by apply rest_without).
  rewrite <- !app_assoc. tstep. tstep. cbn -[lower].
  tstep. apply (tidy_release_opt l6 Listener_ip6 ((if li then [Listener] else []) ++ (if hn then [Netif] else []) ++ rest o pw)); [done| |done|].
  { rewrite !not_elem_of_app. split_and!; [destruct li; set_solver|destruct hn; set_solver|by apply Hrest]. }
  tstep. apply (tidy_release_opt li Listener ((if hn then [Netif] else []) ++ rest o pw)); [done| |done|].
  { rewrite !not_elem_of_app. split_and!; [destruct hn; set_solver|by apply Hrest]. }
  tstep. apply (tidy_release_opt hn Netif (rest o pw)); [done|by apply Hrest|done|].
  tstep. apply tcp_remove_tidy. tstep. unfold free_connections. tstep. tstep. tstep. rewrite freed_empty. unfold rest in *. cbn -[lower].
  tstep. tstep. tstep. eapply tidy_release; [reflexivity| |done|]; [unfold lower; by destruct (Options.is_set _), pw|].
  apply ended_returned.
  { split; [done|]. right. destruct H6 as (ports & Hk & Hn & _). by exists ports. }
  apply (fail5_tidy o pw); [done|done| |by destruct H4 as [_ _ _ _ [? _]]; eexists|done].
  destruct H4 as [Hj (_ & Hc & _) _ _ _]. split; [done|]. cbn in *. rewrite Hj. destruct st; by repeat constructor.
Qed.
End events.

Lemma main_tidy `{Abi} channels fs getaddrinfo quad env argv evs evs' (P : bool -> Prop) :
  Options.files_wf fs -> len quad = 4 -> system_ok channels env argv ->
  (socket_set_up env = false -> fallible) -> legal_main channels fs getaddrinfo quad env argv evs = true -> P true ->
  (forall o a pw mtu buf s st, ready o pw mtu buf s st -> quitting s = false ->
     tidy (loop o a evs') s (fun b s' => b = quitting s' /\ P b /\ exists st', ready o pw mtu buf s' st')) ->
  tidy (main channels fs getaddrinfo quad env argv (evs ++ evs')) raw_program
    (fun r s => outcome_ok channels argv r s /\ match r with Looping _ _ => P false | _ => True end).
Proof.
  intros Hfs Hquad Hsys HF Hlegal Htrue Hmore. set (Q := fun r s => _).
  assert (HQ : forall r s, returned r s -> Q r s) by (intros r s (-> & ? & ? & ? & Ht & Hk); unfold Q; cbn; split_and!; auto).
  assert (Hs := main_start_tidy channels fs getaddrinfo quad env argv Hfs Hquad Hsys HF).
  unfold main, legal_main in *.
  apply tidy_spec in Hs as [[Ex F]|(r & s & l & Ex & Hb & Hs)].
  { left. split; [|done]. unfold mbind, handler_bind. by rewrite Ex. }
  rewrite Ex in Hlegal. eapply tidy_known; [exact Ex|exact Hb|].
  destruct Hs as [Hs|[(-> & Hk)|[(o & a & pw & Hst & [Ha1 Ha2] & Hmtu & Hp)|[(c & -> & Hl)|(-> & Hl & Hj & Hti & [Ht Hk] & Ho)]]]].
  - assert (r = Returned 1) as -> by apply Hs. apply tidy_ret. by apply HQ.
  - apply tidy_ret. by split.
  - destruct Hst as [Hs|[[-> Hk]|(-> & Hq & buf & Hr)]].
    + assert (r = Returned 1) as -> by apply Hs. apply tidy_ret. by apply HQ.
    + apply tidy_ret. by split.
    + apply tidy_bind. eapply (loop_tidy o a pw (Options.tun_mtu o) buf ltac:(lia) Ha1 Ha2); [done|done|..].
      * intros s' st' Hs' _. eapply tidy_mono; [by eapply main_finish_tidy|done].
      * intros s' st' Hs' Hq'. eapply tidy_mono; [by eapply Hmore|]. intros b s2 (-> & HP & st2 & Hs2). cbv beta.
        destruct (quitting s2) eqn:Eq; [eapply tidy_mono; [by eapply main_finish_tidy|done]|]. apply tidy_ret.
        destruct (r_table _ _ _ _ _ _ Hs2) as (ports & ? & ? & ? & _). split; [split_and!; [done|done|by exists ports]|done].
  - apply tidy_ret. by split.
  - apply tidy_ret. split; [cbn; split_and!; auto|done].
Qed.

(** The descriptor of the device, once it has arrived, is kept. *)
Lemma brackets_tun l h h' : brackets l h = Some h' -> Tun_fd ∈ h.2 \/ Acquired Tun_fd ∈ l <-> Tun_fd ∈ h'.2.
Proof using.
  revert h. induction l as [|o l IH]; intros h Hb; cbn in Hb; [injection Hb as <-; rewrite elem_of_nil; tauto|].
  destruct (bracket o h) as [h1|] eqn:E; [|done]. cbn in Hb. rewrite <- (IH _ Hb), elem_of_cons. destruct h as [hl hk].
  assert (Ho : Tun_fd ∈ hk \/ o = Acquired Tun_fd <-> Tun_fd ∈ h1.2); [|cbn; rewrite <- Ho; intuition congruence].
  destruct o as [r|r| | | | | | | | | | |]; cbn in E; try (injection E as <-; cbn; intuition congruence).
  - injection E as <-. destruct r; cbn; rewrite ?elem_of_cons; intuition congruence.
  - assert (Hrel : h1.2 = hk \/ exists port, h1.2 = filter (fun x => x <> Dns_node port) hk).
    { destruct r; try done; destruct hl as [|r' hl]; try done; try case_bool_decide; try done;
        injection E as <-; cbn; eauto. }
    destruct Hrel as [->|[port ->]]; [intuition congruence|]. rewrite list_elem_of_filter. intuition congruence.
Qed.
Lemma brackets_acquired l s : brackets l ([], []) = Some (held s) -> Acquired Tun_fd ∈ l <-> Tun_fd ∈ apart s.
Proof using. intros Hb. rewrite <- (brackets_tun _ _ _ Hb). cbn. rewrite elem_of_nil. tauto. Qed.
End proofs.
End MainProofs.
Import MainProofs.


(** C40: SIGTERM and SIGINT end the event loop: whatever has happened before, and
    whether or not there is room in the pipe of the signal, once it has arrived and the
    reactor has seen it [main] is no longer in the loop, and, if it was in it, has
    released all but the descriptor of the device and those nodes of the DNS relay
    that no answer has freed.  (Before the loop, in [accept], it does not look at
    signals; and the socket is as for C39.) *)
Theorem signal_ends_program `{Abi} channels fs getaddrinfo quad env argv evs signo room :
  Options.files_wf fs -> len quad = 4 -> system_ok channels env argv ->
  legal_main channels fs getaddrinfo quad env argv evs = true -> signo ∈ [SIGTERM; SIGINT] ->
  let main := main channels fs getaddrinfo quad env argv (evs ++ [Signal signo room; Signal_ready signo false]) raw_program in
  main = None /\ socket_set_up env = false \/
  exists r s l, main = Some (r, s, l) /\
    brackets l ([], []) = Some (live s, apart s) /\ (Acquired Tun_fd ∈ l <-> Tun_fd ∈ apart s) /\
    outcome_ok channels argv r s /\ (forall o a, r <> Looping o a).
Proof.
  intros Hfs Hquad Hsys Hlegal Hsig.
  assert (Hm := main_tidy (Hfallible := socket_set_up env = false) channels fs getaddrinfo quad env argv evs
    [Signal signo room; Signal_ready signo false] (fun b => b = true) Hfs Hquad Hsys (fun x => x) Hlegal eq_refl).
  apply tidy_spec in Hm as [Hm|(r & s & l & Hx & Hb & Ho & Hr)]; [by left|right|].
  { exists r, s, l. split_and!; try done; [by apply brackets_acquired|]. intros o a ->. done. }
  intros o a pw mtu buf s st Hs Hq. eapply tidy_mono; [eapply signal_ends_loop; [|done|done]|].
  { revert Hsig. rewrite !elem_of_cons, elem_of_nil. naive_solver. }
  intros b s' (-> & Hq' & st' & Hs'). split_and!; [done|done|by eexists].
Qed.

Module MainWitnesses.
Definition ok_answers : entry_answers := mk_entry_answers true true true true true.
(** [accept] fails once, then a connection without a descriptor comes. *)
Definition demo_env : environment :=
  mk_environment true (Child true true) true true true (fun _ => ok_answers) true true true
    [Accept_fails; No_descriptor; Descriptor 7] true true (Some (3%nat, replicate 1500 Byte.x00)) true true true [[1%nat]; []; []].
Definition demo_argv : list bytes := AddrText.chars "tun2socks" :: Options.OptionsWitnesses.app_args.
Definition up := mk_listener_answers true true true.
Definition demo_lwip := mk_lwip_answers true up up.
Definition demo_events : list event :=
  [Device_event (DeviceRead.Execute_job DeviceRead.Would_block) demo_lwip;
   Device_event (DeviceRead.Execute_job (DeviceRead.Read [Byte.x45])) demo_lwip;
   Device_event (DeviceRead.Execute_job DeviceRead.Would_block) demo_lwip;
   Device_event (DeviceRead.Execute_job DeviceRead.Would_block) demo_lwip;
   Device_event (DeviceRead.Execute_job DeviceRead.Would_block) demo_lwip;
   Device_event (DeviceRead.Execute_job DeviceRead.Would_block) demo_lwip;
   Tcp_timer_expires; Client_opens 4; Client_opens 5; Client_closes 4;
   Dns_query true (BAddr.BAddr_IPv4 9 4) (BAddr.BAddr_IPv4 8 53) 4; Dns_query true (BAddr.BAddr_IPv4 9 5) (BAddr.BAddr_IPv4 8 53) 5;
   Dns_query true (BAddr.BAddr_IPv4 9 4) (BAddr.BAddr_IPv4 8 53) 4; Dns_answer 4; Dns_answer 4].
Definition demo_main (env : environment) (evs : list event) :=
  main (H := abi64) Options.OptionsWitnesses.demo_channels Options.OptionsWitnesses.demo_files AddrText.AddrTextWitnesses.numeric_resolver
    (replicate 4 Byte.x00) env demo_argv evs raw_program.

Definition code (r : outcome) : option Z := match r with Returned c => Some c | _ => None end.
Definition ends (env : environment) (evs : list event) :=
  (fun x => (code x.1.1, live x.1.2, apart x.1.2)) <$> demo_main env evs.
(** The descriptor of the device is left, and the node of a query not answered. *)
Example demo_ends : ends demo_env (demo_events ++ [Signal SIGINT false; Signal_ready SIGINT false])
  = Some (Some 1, [], [Dns_node 5; Tun_fd]).
Proof. by vm_compute. Qed.
(** Without the netif, or when the device fails, [terminate] is called, once. *)
Example demo_fails : ends demo_env [Device_event (DeviceRead.Execute_job DeviceRead.Would_block) (mk_lwip_answers false up up)] =
  Some (Some 1, [], [Tun_fd]).
Proof. by vm_compute. Qed.
(** When [socket] fails [main] jumps to [fail2]: the reactor is freed with the
    pipes of the signals registered. *)
Definition no_socket : environment :=
  mk_environment true (Child true true) true true true (fun _ => ok_answers) false true true
    [] true true None true true true [].
Example socket_failure_leaves_signals : demo_main no_socket [] = None.
Proof. by vm_compute. Qed.

Lemma demo_system_ok : system_ok Options.OptionsWitnesses.demo_channels demo_env demo_argv.
Proof.
  assert (Hp : exists o, Options.parse_arguments Options.OptionsWitnesses.demo_channels demo_argv = Some (Some o) /\
    Options.tun_mtu o = 1500 /\ Options.fake_proc o = false) by (eexists; by vm_compute).
  destruct Hp as (o & Hp & Hm & Hf). split; try done.
  - intros fd Hfd. cbn in Hfd. repeat apply elem_of_cons in Hfd as [[= ?]|Hfd]; [lia|]. by apply elem_of_nil in Hfd.
  - intros o' p raw Ho' [= <- <-]. rewrite Hp in Ho'. injection Ho' as <-. by rewrite Hm.
  - intros o' Ho'. rewrite Hp in Ho'. injection Ho' as <-. by rewrite Hf.
Qed.

Lemma signal_ends_program_witness :
  let main := demo_main demo_env (demo_events ++ [Signal SIGTERM true; Signal_ready SIGTERM false]) in
  main = None /\ socket_set_up demo_env = false \/
  exists r s l, main = Some (r, s, l) /\
    brackets l ([], []) = Some (live s, apart s) /\ (Acquired Tun_fd ∈ l <-> Tun_fd ∈ apart s) /\
    outcome_ok Options.OptionsWitnesses.demo_channels demo_argv r s /\ (forall o a, r <> Looping o a).
Proof.
  unfold demo_main. apply (signal_ends_program (H := abi64) Options.OptionsWitnesses.demo_channels Options.OptionsWitnesses.demo_files AddrText.AddrTextWitnesses.numeric_resolver
    (replicate 4 Byte.x00) demo_env demo_argv demo_events SIGTERM true).
  - apply Options.OptionsWitnesses.demo_files_wf.
  - done.
  - apply demo_system_ok.
  - by vm_compute.
  - left.
Defined.
End MainWitnesses.
